(* ===== verification/_CoqProject ===== *)
-Q . S2P
Prelude.v
GoStrings.v
MountTable.v
Float64.v
Pool.v
Lease.v
LeaseProofs.v
Journal.v
LeaseTheorems.v
FastTier.v
FastTierProofs.v
FastTierTheorems.v
Tier.v
Prefetch.v
Efficiency.v
Backend.v
DataServer.v
FileDriver.v
DataServerProofs.v
DataServerTheorems.v
Wire.v
WireTheorems.v
Accepting.v
Agent.v
AgentTheorems.v
ProtoWire.v
CsiMessage.v
GrpcWire.v
CsiDriver.v
CsiNode.v
Residency.v
GoPath.v
CsiTheorems.v
Pressure.v
Quantity.v
QuantityTheorems.v
Kubelet.v
KubeletTheorems.v
Checkpoint.v
CheckpointTheorems.v
Intent.v
Residence.v
Lineage.v
Topology.v
PoolStorage.v
TopologyTheorems.v
Metrics.v
Readiness.v
AgentMain.v
AgentMainTheorems.v
AgentWatch.v
Residual.v
Serve.v
ServeTheorems.v
GoTime.v
LeaseApi.v
Kube.v
Controller.v
ControllerTheorems.v
ReconcileTheorems.v
S3Driver.v
S3Theorems.v
S3Listing.v
Conformance.v
S3Serve.v
ConformanceTheorems.v
Views.v
Reporter.v
VolumesApi.v
Bench.v
Workload.v
Freed.v
KvSpill.v
Headroom.v
HarmMain.v
BenchMain.v
CsiMain.v
ControllerMain.v
AgentRun.v
