(* ===== verification/Prelude.v ===== *)
(** * Forebay: a verification library

    Forebay lends a node's spare disk to jobs that read datasets, and takes it
    back the moment compute wants it. This library models the parts of the
    program that decide, as executable definitions translated from the Go
    sources under src/, and proves what makes each part correct, alone and
    composed with the parts it calls.

    ** The program

    One agent per node owns the borrowed capacity. It grants leases against an
    accounting of the device (internal/pool, internal/lease), keeps each lease's
    bytes as one extent on disk (internal/agent) and journals the leases so that
    a restart resumes with what was lent. It takes capacity back when a watch
    (internal/agent/pressure.go) sees free space fall or the kubelet's pods ask
    for more (internal/kubelet), and it offers only filesystems that are local to
    the node (internal/topology, cmd/forebay-agent).

    Extents become slabs of a block cache (internal/fasttier), which a data
    server (internal/dataserver) reads through on the way to a durable store
    behind a driver (driver, driver/filedriver, driver/s3driver), prefetching
    what a stream will want next (internal/prefetch) and keeping score of what
    the cache is worth (internal/efficiency). Clients reach the data server over
    a framed protocol. Two callbacks join the agent and the cache
    (cmd/forebay-agent/serve.go). A checkpoint is staged into a lease and
    uploaded afterwards (internal/checkpoint). What a node does is published as
    metrics (internal/metrics) and its cache's contents as residency levels
    (internal/residency, cmd/forebay-agent/residency.go).

    A storage-interface driver (internal/csi) resolves a claim to a dataset and
    mounts it on a node, answering the orchestrator over gRPC
    (internal/grpcwire, internal/protowire), and the node counts the volumes it
    serves (internal/volumes).

    A controller (cmd/forebay-controller) reads datasets from the API server
    (internal/kube), decides what a backend can promise of what a user declared
    (internal/intent), proposes leases to the agents (internal/leaseapi), labels
    nodes with what their agents report and records every dataset's status.
    What a user names, and where it is, is internal/dataset; where its bytes may
    be, internal/residence; what produced it, internal/lineage.

    ** The files, and what each models

    The language:
    - Prelude, GoStrings, GoPath, GoTime, Float64: errors as [result]; an
      [int64] as a [Z] with [wrap64] after every operation; times and durations
      and their text; encoding/binary and hex; strings, strconv, path and
      path/filepath; url escaping; binary64 arithmetic.

    Lending:
    - Pool (internal/pool/pool.go): [Accounting], [Lend], [Return], [Validate].
    - Lease, LeaseProofs, LeaseTheorems (internal/lease/lease.go): [Manager] and
      one definition per method, over any [Journal]. Every reachable manager's
      accounting is what its live leases hold; [Reclaim] is the ladder the
      design promises; a grant respects every bound; a refusal changes nothing;
      a restart replays what was saved; what the cooldown is, in closed form.
    - Journal (internal/lease/journal.go): the file, and that a save is all or
      nothing and reads back.
    - Agent, AgentTheorems (internal/agent/agent.go, extent.go, liveness.go,
      reserve_linux.go): granting, releasing, reclaiming and reconciling over a
      directory in which every call may fail. Whatever fails, every live lease's
      bytes are on disk, if under the name of an interrupted discard; while
      nothing does, the extents are the leases; and after any crash reconciling
      makes them so again and reports what it corrected.
    - Residual (internal/agent/residual.go): the probe of fresh capacity, and
      that it passes only what reads as zeros as far as was reserved.
    - Pressure (internal/agent/pressure.go): a pass of the
      watch gives back what the worst source asks for, or all there is.
    - Quantity, QuantityTheorems, Kubelet, KubeletTheorems
      (internal/kubelet): reading a quantity, exactly; asking the kubelet; what
      pods have asked for and not written.
    - Topology, PoolStorage, TopologyTheorems (internal/topology): facts and
      their provenance, disks and links, and that a pool is called local exactly
      when the mount it is on, as the mount table writes it, is of a device on
      the machine's own bus.
    - MountTable: /proc/self/mountinfo, as text the kernel writes, for Topology
      and CsiNode.
    - AgentMain, AgentMainTheorems, AgentWatch
      (cmd/forebay-agent/main.go): what a starting node may promise, draining,
      recording a pass, and proving the pod input before it is used.
    - AgentRun (cmd/forebay-agent/main.go): every way a run
      goes, from its flags on, what its watch says and where it answers. However
      it is started it lends no more than it was given or its filesystem's size,
      nor, where that could be measured, than could be delivered; nothing that
      moves capacity is reachable without a token.
    - LeaseApi (internal/leaseapi): proposing over a network
      that loses requests and answers; a proposal takes effect at most once.

    Serving:
    - FastTier, FastTierProofs, FastTierTheorems (internal/fasttier): the cache,
      with a read split where the code drops its lock. Under every interleaving
      a read returns what was admitted for its key; slots are conserved; what
      admission, eviction, prefetching and revocation do.
    - Tier: the class by which the data server knows the cache, and its instance.
    - Serve, ServeTheorems (cmd/forebay-agent/serve.go, backend.go): the agent
      and the cache together. The cache holds only what is lent, and lets go
      before it is taken back.
    - Prefetch, Efficiency: the stride detector predicts only confirmed strides,
      and not those that failed it; the scoreboard's bounded state is the whole
      history's estimate, told apart from the code by ranks.
    - Backend (driver): the driver contract as the class [DriverSpec], and the
      backend that holds a driver to its declaration.
    - FileDriver (driver/filedriver): the driver over a tree of files, an
      instance of the contract; uploads are all or nothing, listings page.
    - S3Driver, S3Theorems, S3Listing, S3Serve (driver/s3driver): the driver over
      an object store behind a network that fails, over a store that keeps the
      class [StoreSpec]: reads are exact or an error, a write is made once, a
      listing shows a level, requests verify, and the driver is an instance of
      the contract, so the data server serves a bucket.
    - Conformance, ConformanceTheorems, S3Serve (driver/conformance): the
      suite a driver is held to, run against any driver. The driver over a
      directory passes it and is left as it was; there is a bucket over which
      the other does not.
    - DataServer, DataServerProofs, DataServerTheorems (internal/dataserver):
      over any tier and any driver that keep their contracts, whatever is
      requested, evicted and prefetched, what is answered is what the object
      holds; over a store that does not fail, everything is answered.
    - Wire, WireTheorems (internal/dataserver/protocol.go, serve.go, client.go):
      frames correspond one to one to requests; a conversation answers each in
      order; the client gets the server's own answer; a failure among several
      dials (cmd/forebay-bench/main.go) leaves no connection open.
    - Accepting (internal/dataserver/serve.go): taking connections and stopping,
      as events in any order; never too many at once, and it always ends, with
      a failure reported when the listener failed first.
    - Checkpoint, CheckpointTheorems (internal/checkpoint): staging a checkpoint
      and making it durable; what an acknowledgement says is true, on a node
      whose extents nothing else writes to.
    - Metrics, Readiness (internal/metrics): the registry is a
      fold of what was recorded; a node's readiness is hysteresis over a window.
    - Residency, Reporter (internal/residency,
      cmd/forebay-agent/residency.go): levels, and that a node's labels say what
      its cache holds of objects whose size can be learned.

    Mounting:
    - ProtoWire (internal/protowire): varints, fields, and the loop every message
      is read by. A varint is read for exactly what its bytes spell; messages are
      sequences of well-typed fields.
    - CsiMessage, CsiDriver (internal/csi/message.go, driver.go,
      registration.go): the messages and the methods, over any resolver, mounter
      and observer. Every decoder ends on every message.
    - GrpcWire (internal/grpcwire): statuses, frames, deadlines,
      the server's routing and the client's call. A call's outcome reaches its
      caller, whatever bytes its message holds.
    - CsiNode, VolumesApi (internal/csi/mount.go, resolve.go,
      internal/volumes): mounting through the kernel's mount table, read as text,
      the volumes counted, and the counting over HTTP.
    - CsiTheorems: what a claim names is what its pods mount; whatever a node is
      asked, it mounts only object directories below the export, and once each
      where a target is the name the mount table has for it.
    - CsiMain (cmd/forebay-csi): starting the plugin, the halves it serves, and
      that what it answers and mounts never waits on the agent.

    Controlling:
    - Intent, Residence, Lineage, Views (internal/intent,
      internal/residence, internal/lineage, internal/dataset): what was declared
      and what can meet it; where bytes may be; ancestry, exactly the walk's
      closure; the addresses of an object, which agree.
    - Kube (internal/kube): requests to the API server, listings
      that page, patches of status and labels.
    - Controller, ControllerTheorems, ReconcileTheorems (cmd/forebay-controller):
      a plan lends no node more than its share, but for answers that are lost;
      labels follow what is reported; every dataset's status is observed and
      recorded, a failure leaving the others alone.
    - ControllerMain (cmd/forebay-controller/main.go): starting, and the loop,
      whose three passes keep out of each other's way.

    Measuring:
    - Bench, BenchMain (internal/bench, cmd/forebay-bench): a plan
      run by workers in any interleaving reads the object once and whole, so
      arms compare; the sweep, which reads no cold object twice.
    - Workload, Headroom, HarmMain (internal/workload, cmd/forebay-headroom,
      cmd/forebay-harm): no byte or stall a writer had is lost to its samples,
      the tracker says what the readings say, and a phase's row covers its
      intervals.
    - Freed (internal/freed, cmd/forebay-freed): a verdict rests on
      the reading it names; a round leaves nothing behind.
    - KvSpill (internal/kvspill): a prefix is fetched exactly when the crossing
      is behind it.

    ** How the code is modelled

    A method takes its receiver's state and returns the new one beside its
    result, on error paths too. What the operating system, the clock, a context
    or a connection will answer is a list of outcomes in the state, consumed one
    call at a time, or a state the call steps, so a theorem covers every pattern
    of failures. Interfaces of the code are records or type classes; what a
    client relies on is a class of laws ([Journal], [TierSpec], [DriverSpec],
    [StoreSpec]) which the implementation's file, or a small witness where the
    implementation is not the repository's, instantiates. Where Go ranges over a
    map the model walks [map_to_list], and the theorems do not depend on the
    order.

    ** Fuel

    Loops that are not structural run on fuel chosen to suffice:
    - [ProtoWire.walk]: the message's length, since a field takes a byte at
      least ([walk_unroll] is the code's loop, [decoding_terminates] what follows);
    - [ProtoWire.appendUvarint]: nine turns, for the ten bytes of a [uint64]
      ([appendUvarint_unroll]);
    - [DataServer.ReadRange]: one more than the range's blocks; a run that fails
      on fuel is excluded by [data_server_answers_live];
    - [GoStrings.digits]: nineteen turns, for the twenty digits of a [uint64];
      [trim_front] and [fields_loop]: the string's length;
    - [GoTime.ParseDuration]: the text's length, each round eating a byte;
    - [Lineage.Ancestry]: the graph's nodes, each entered once
      ([Ancestry_exact] says nothing is missed);
    - [S3Driver.tries]: the attempts, a bound of the code's own;
    - [Residual.scan_loop] and [Bench.blocks_from]: the size, each turn taking a
      byte at least ([scan_exact] and [arms_read_alike] say nothing is missed).
    What is still going on when its list of outcomes ends ([Freed.wait],
    [Workload.write_loop]) is [None], and [watch_ends] says a watch does end.

    ** Not modelled

    HTTP, JSON, TLS and XML: what they encode and decode to is an argument, and
    so are the hashes of a signature and the answers of the kernel (flock, mmap,
    mincore, fadvise, statfs, direct I/O). Parsing a command's flags, the text of
    what is printed, signals, and the goroutines that call a modelled step; where
    their order matters it is a schedule or a list of steps. The other platforms'
    files, which do less than Linux's. The FSAL, which is C in another process,
    and the version string, which a linker sets. *)

From Stdlib Require Export ZArith Lia Ascii String.
From stdpp Require Export base gmap strings list sorting fin_maps.

(** Names that the string library would otherwise capture. *)
Abbreviation length := List.length.
Abbreviation byte := Ascii.ascii.

Declare Scope go_scope.
Open Scope go_scope.
Delimit Scope go_scope with go.

(** ** Errors as values *)

(** A Go function returning [(T, error)] whose value is meaningless on error. *)
Inductive result (E A : Type) : Type :=
  | Ok (a : A)
  | Err (e : E).
Arguments Ok {E A} a.
Arguments Err {E A} e.

(** [if err := m; err != nil { return err }] *)
Definition bind_result {E A B} (m : result E A) (k : A -> result E B) : result E B :=
  match m with
  | Ok a => k a
  | Err e => Err e
  end.

Notation "'let?' x := m 'in' k" := (bind_result m (fun x => k))
  (at level 10, x pattern, k at level 200) : go_scope.

Definition is_ok {E A} (r : result E A) : bool :=
  match r with Ok _ => true | Err _ => false end.

Lemma bind_result_Ok {E A B} (m : result E A) (k : A -> result E B) b :
  bind_result m k = Ok b <-> exists a, m = Ok a /\ k a = Ok b.
Proof. destruct m; simpl; naive_solver. Qed.

#[global] Instance result_eq_dec {E A} `{EqDecision E, EqDecision A} :
  EqDecision (result E A).
Proof. intros x y. unfold Decision. decide equality; first [apply EqDecision1 | apply EqDecision0]. Defined.

(** ** Machine integers

    A Go [int64] (and [int], [time.Duration], [pool.Bytes]) is a [Z] between
    [MinInt64] and [MaxInt64]; every arithmetic operation the code performs on
    one is followed by [wrap64], which is what two's complement overflow does. *)
Section int64.
Local Open Scope Z_scope.

Definition MaxInt64 : Z := 9223372036854775807.
Definition MinInt64 : Z := -9223372036854775808.

Definition wrap64 (z : Z) : Z :=
  (z + 9223372036854775808) mod 18446744073709551616 - 9223372036854775808.

(** A Go [uint64]. *)
Definition wrapU64 (z : Z) : Z := z mod 18446744073709551616.

Definition is_int64 (z : Z) : Prop := MinInt64 <= z <= MaxInt64.
Definition is_uint64 (z : Z) : Prop := 0 <= z < 18446744073709551616.

#[global] Instance is_int64_dec z : Decision (is_int64 z).
Proof. unfold is_int64. apply _. Defined.

Lemma wrap64_range z : is_int64 (wrap64 z).
Proof.
  unfold is_int64, wrap64, MinInt64, MaxInt64.
  pose proof (Z.mod_pos_bound (z + 9223372036854775808) 18446744073709551616). lia.
Qed.

Lemma wrap64_id z : is_int64 z -> wrap64 z = z.
Proof.
  unfold is_int64, wrap64, MinInt64, MaxInt64. intros H.
  rewrite Z.mod_small; lia.
Qed.

(** The quotient by which [wrap64] moves its argument. *)
Lemma wrap64_cong z : exists k, wrap64 z = z + k * 18446744073709551616.
Proof.
  unfold wrap64.
  exists (- ((z + 9223372036854775808) / 18446744073709551616)).
  pose proof (Z.div_mod (z + 9223372036854775808) 18446744073709551616). lia.
Qed.

Lemma wrap64_shift z k : wrap64 (z + k * 18446744073709551616) = wrap64 z.
Proof.
  unfold wrap64. f_equal.
  replace (z + k * 18446744073709551616 + 9223372036854775808)
    with (z + 9223372036854775808 + k * 18446744073709551616) by lia.
  apply Z.mod_add. lia.
Qed.

Lemma wrap64_add_l a b : wrap64 (wrap64 a + b) = wrap64 (a + b).
Proof.
  destruct (wrap64_cong a) as [k ->].
  replace (a + k * 18446744073709551616 + b)
    with (a + b + k * 18446744073709551616) by lia.
  apply wrap64_shift.
Qed.

Lemma wrap64_add_r a b : wrap64 (a + wrap64 b) = wrap64 (a + b).
Proof. rewrite Z.add_comm, wrap64_add_l. f_equal. lia. Qed.

Lemma wrap64_idem z : wrap64 (wrap64 z) = wrap64 z.
Proof. apply wrap64_id, wrap64_range. Qed.

Lemma wrap64_mul_l a b : wrap64 (wrap64 a * b) = wrap64 (a * b).
Proof.
  destruct (wrap64_cong a) as [k ->].
  replace ((a + k * 18446744073709551616) * b)
    with (a * b + k * b * 18446744073709551616) by lia.
  apply wrap64_shift.
Qed.

Lemma wrapU64_range z : is_uint64 (wrapU64 z).
Proof. unfold is_uint64, wrapU64. apply Z.mod_pos_bound. lia. Qed.

Lemma wrapU64_id z : is_uint64 z -> wrapU64 z = z.
Proof. unfold is_uint64, wrapU64. intros. apply Z.mod_small. lia. Qed.

(** Converting to [uint64] and back is the identity on [int64]: the round trip
    every wire format here makes. *)
Lemma wrap64_wrapU64 z : wrap64 (wrapU64 z) = wrap64 z.
Proof.
  unfold wrapU64.
  rewrite (Z.div_mod z 18446744073709551616) at 2 by lia.
  rewrite Z.add_comm, Z.mul_comm, wrap64_shift. reflexivity.
Qed.

End int64.

Notation "a '+!' b" := (wrap64 (a + b)) (at level 50, left associativity) : Z_scope.
Notation "a '-!' b" := (wrap64 (a - b)) (at level 50, left associativity) : Z_scope.
Notation "a '*!' b" := (wrap64 (a * b)) (at level 40, left associativity) : Z_scope.

(** [int64_lia]: arithmetic over [is_int64], after removing the [wrap64]s whose
    argument is in range. *)
Ltac unwrap64 :=
  repeat match goal with
  | |- context [wrap64 ?z] =>
      rewrite (wrap64_id z) by (unfold is_int64, MinInt64, MaxInt64 in *; lia)
  end.
Ltac unwrap64_in H :=
  repeat match type of H with
  | context [wrap64 ?z] =>
      rewrite (wrap64_id z) in H by (unfold is_int64, MinInt64, MaxInt64 in *; lia)
  end.
Ltac int64_lia := unwrap64; unfold is_int64, MinInt64, MaxInt64 in *; lia.

(** Turn boolean tests of the code into propositions. *)
Ltac bool_to_prop :=
  repeat match goal with
  | H : (_ && _)%bool = true |- _ => apply andb_prop in H; destruct H
  | H : (_ || _)%bool = false |- _ => apply orb_false_elim in H; destruct H
  | H : negb _ = true |- _ => apply negb_true_iff in H
  | H : negb _ = false |- _ => apply negb_false_iff in H
  | H : (_ <? _)%Z = true |- _ => apply Z.ltb_lt in H
  | H : (_ <? _)%Z = false |- _ => apply Z.ltb_ge in H
  | H : (_ <=? _)%Z = true |- _ => apply Z.leb_le in H
  | H : (_ <=? _)%Z = false |- _ => apply Z.leb_gt in H
  | H : (_ =? _)%Z = true |- _ => apply Z.eqb_eq in H
  | H : (_ =? _)%Z = false |- _ => apply Z.eqb_neq in H
  | H : (_ =? _)%string = true |- _ => apply String.eqb_eq in H
  | H : (_ =? _)%string = false |- _ => apply String.eqb_neq in H
  end.

(** Case on the test a definition is stuck on. *)
Ltac case_if :=
  match goal with
  | |- context [if ?b then _ else _] => destruct b eqn:?
  | H : context [if ?b then _ else _] |- _ => destruct b eqn:?
  end.

(** ** Time

    A [time.Time] is its instant in nanoseconds; a [time.Duration] is an
    [int64] of nanoseconds. [Time.Sub] saturates, as its documentation says. *)
Abbreviation time := Z (only parsing).
Abbreviation duration := Z (only parsing).

Section times.
Local Open Scope Z_scope.
Definition time_Add (t : time) (d : duration) : time := t + d.
Definition time_Sub (t u : time) : duration :=
  Z.max MinInt64 (Z.min MaxInt64 (t - u)).
Definition time_After (t u : time) : bool := u <? t.
Definition time_Before (t u : time) : bool := t <? u.

Definition Nanosecond : duration := 1.
Definition Microsecond : duration := 1000.
Definition Millisecond : duration := 1000000.
Definition Second : duration := 1000000000.
Definition Minute : duration := 60000000000.
Definition Hour : duration := 3600000000000.

Lemma time_Sub_range t u : is_int64 (time_Sub t u).
Proof. unfold is_int64, time_Sub, MinInt64, MaxInt64. lia. Qed.

Lemma time_Sub_exact t u : is_int64 (t - u) -> time_Sub t u = t - u.
Proof. unfold is_int64, time_Sub. lia. Qed.
End times.

(** ** Sums

    [for _, x := range m { total += x }] over a map: the order Go walks a map
    in is unspecified, and a sum with wrap-around does not depend on it. *)
Definition Zsum : list Z -> Z := foldr Z.add 0%Z.
Definition wsum (l : list Z) : Z := fold_left (fun acc x => acc +! x)%Z l 0%Z.

Section sums.
Local Open Scope Z_scope.

Lemma Zsum_app l k : Zsum (l ++ k) = Zsum l + Zsum k.
Proof. induction l as [|x l IH]; simpl; [|rewrite IH]; lia. Qed.

Lemma Zsum_cons x l : Zsum (x :: l) = x + Zsum l.
Proof. reflexivity. Qed.

#[global] Instance Zsum_Permutation : Proper ((≡ₚ) ==> (=)) Zsum.
Proof. induction 1; simpl in *; lia. Qed.

Lemma Zsum_nonneg l : Forall (fun x => 0 <= x) l -> 0 <= Zsum l.
Proof. induction 1; simpl; lia. Qed.

Lemma Zsum_filter_le {A} (f : A -> Z) (P : A -> Prop) `{!forall x, Decision (P x)} l :
  Forall (fun x => 0 <= f x) l -> 0 <= Zsum (f <$> filter P l) <= Zsum (f <$> l).
Proof.
  induction 1 as [|x l Hx Hl IH]; [done|].
  rewrite filter_cons. case_decide; rewrite ?fmap_cons, ?Zsum_cons; lia.
Qed.

Lemma Zsum_elem_le x l : Forall (fun x => 0 <= x) l -> x ∈ l -> x <= Zsum l.
Proof.
  induction 1 as [|y l Hy Hl IH]; intros Hin; [inversion Hin|].
  apply elem_of_cons in Hin as [->|Hin]; simpl.
  - pose proof (Zsum_nonneg l Hl). lia.
  - specialize (IH Hin). lia.
Qed.

Lemma fold_wsum l : forall a, fold_left (fun acc x => acc +! x) l (wrap64 a)
                              = wrap64 (a + Zsum l).
Proof.
  induction l as [|x l IH]; intros a; simpl; [f_equal; lia|].
  rewrite wrap64_add_l, IH. f_equal. lia.
Qed.

Lemma wsum_eq l : wsum l = wrap64 (Zsum l).
Proof. unfold wsum. rewrite <- (wrap64_id 0) at 1; [apply fold_wsum|]. compute; split; discriminate. Qed.

Lemma wsum_exact l : is_int64 (Zsum l) -> wsum l = Zsum l.
Proof. rewrite wsum_eq. apply wrap64_id. Qed.

#[global] Instance wsum_Permutation : Proper ((≡ₚ) ==> (=)) wsum.
Proof. intros l k H. rewrite !wsum_eq. by rewrite H. Qed.

End sums.

(** ** The order Go compares strings in: byte by byte, shorter first. *)
Definition str_ltb (s t : string) : bool :=
  match String.compare s t with Lt => true | _ => false end.
Definition str_leb (s t : string) : bool := negb (str_ltb t s).

Section strings.

Lemma ascii_compare_N a b : Ascii.compare a b = N.compare (N_of_ascii a) (N_of_ascii b).
Proof. reflexivity. Qed.

Lemma string_compare_trans s t u :
  String.compare s t = Lt -> String.compare t u = Lt -> String.compare s u = Lt.
Proof.
  revert t u. induction s as [|a s IH]; intros [|b t] [|c u]; simpl; try discriminate; auto.
  rewrite !ascii_compare_N.
  destruct (N.compare_spec (N_of_ascii a) (N_of_ascii b));
  destruct (N.compare_spec (N_of_ascii b) (N_of_ascii c));
  destruct (N.compare_spec (N_of_ascii a) (N_of_ascii c));
  try discriminate; try lia; eauto.
Qed.

Lemma str_ltb_trans s t u : str_ltb s t = true -> str_ltb t u = true -> str_ltb s u = true.
Proof.
  unfold str_ltb.
  destruct (String.compare s t) eqn:A; try discriminate.
  destruct (String.compare t u) eqn:B; try discriminate.
  by rewrite (string_compare_trans _ _ _ A B).
Qed.

Lemma str_ltb_irrefl s : str_ltb s s = false.
Proof.
  unfold str_ltb.
  destruct (String.compare s s) eqn:A; auto.
  pose proof (String.compare_antisym s s) as H. rewrite A in H. discriminate.
Qed.

Lemma str_ltb_total s t : s <> t -> str_ltb s t = true \/ str_ltb t s = true.
Proof.
  unfold str_ltb. rewrite (String.compare_antisym t s).
  destruct (String.compare s t) eqn:A; simpl; auto.
  by apply String.compare_eq_iff in A.
Qed.

Lemma str_ltb_asym s t : str_ltb s t = true -> str_ltb t s = false.
Proof.
  intros H. destruct (str_ltb t s) eqn:E; auto.
  pose proof (str_ltb_trans _ _ _ H E) as H'. by rewrite str_ltb_irrefl in H'.
Qed.

Lemma str_leb_total s t : str_leb s t = true \/ str_leb t s = true.
Proof.
  unfold str_leb. destruct (str_ltb t s) eqn:E; simpl; auto.
  right. by rewrite (str_ltb_asym _ _ E).
Qed.

Lemma str_leb_antisym s t : str_leb s t = true -> str_leb t s = true -> s = t.
Proof.
  unfold str_leb. intros A B. apply negb_true_iff in A, B.
  destruct (decide (s = t)) as [|N]; auto.
  destruct (str_ltb_total _ _ N); congruence.
Qed.

Lemma str_leb_trans s t u : str_leb s t = true -> str_leb t u = true -> str_leb s u = true.
Proof.
  unfold str_leb. rewrite !negb_true_iff. intros A B.
  destruct (str_ltb u s) eqn:E; auto.
  destruct (decide (s = t)) as [->|N]; [congruence|].
  destruct (str_ltb_total _ _ N) as [C|C]; [|congruence].
  pose proof (str_ltb_trans _ _ _ E C). congruence.
Qed.

End strings.

(** [sort.Strings] *)
#[global] Instance str_leb_dec : RelDecision (fun s t => str_leb s t = true).
Proof. intros s t. apply bool_eq_dec. Defined.
Definition sort_Strings : list string -> list string :=
  merge_sort (fun s t => str_leb s t = true).

#[global] Instance str_le_trans : Transitive (fun s t => str_leb s t = true).
Proof. intros s t u. apply str_leb_trans. Qed.
#[global] Instance str_le_total : Total (fun s t => str_leb s t = true).
Proof. intros s t. apply str_leb_total. Qed.
#[global] Instance str_le_antisym : AntiSymm (=) (fun s t => str_leb s t = true).
Proof. intros s t. apply str_leb_antisym. Qed.

Lemma sort_Strings_Permutation l : sort_Strings l ≡ₚ l.
Proof. apply merge_sort_Permutation. Qed.

Lemma sort_Strings_ext l k : l ≡ₚ k -> sort_Strings l = sort_Strings k.
Proof.
  intros H. apply (Sorted_unique (fun s t => str_leb s t = true));
    try apply Sorted_merge_sort; try apply _.
  by rewrite !sort_Strings_Permutation.
Qed.

Lemma elem_of_sort_Strings x l : x ∈ sort_Strings l <-> x ∈ l.
Proof. by rewrite sort_Strings_Permutation. Qed.

Lemma list_filter_all {A} (P : A -> Prop) `{!forall x, Decision (P x)} (l : list A) :
  (forall x, x ∈ l -> P x) -> filter P l = l.
Proof.
  induction l as [|x l IH]; intros All; [done|]. rewrite filter_cons_True by (apply All; left).
  f_equal. apply IH. intros y Hy. apply All. by right.
Qed.

Lemma StronglySorted_filter {A} (R : A -> A -> Prop) (P : A -> Prop) `{!forall x, Decision (P x)}
  (l : list A) : StronglySorted R l -> StronglySorted R (filter P l).
Proof.
  induction 1 as [|x l Sl IH Fx]; [constructor|]. rewrite filter_cons. case_decide; [|done].
  constructor; [done|]. rewrite Forall_forall in *. intros y [_ Hy]%list_elem_of_filter. auto.
Qed.

(** ** Slices: [s[lo:hi]] with [int] bounds already checked by the caller. *)
Definition zlen {A} (l : list A) : Z := Z.of_nat (length l).
Definition zdrop {A} (n : Z) (l : list A) : list A := drop (Z.to_nat n) l.
Definition ztake {A} (n : Z) (l : list A) : list A := take (Z.to_nat n) l.
Definition slice {A} (lo hi : Z) (l : list A) : list A := ztake (hi - lo) (zdrop lo l).

Section slices.
Local Open Scope Z_scope.
Context {A : Type}.
Implicit Types l : list A.

Lemma zlen_nonneg l : 0 <= zlen l.
Proof. unfold zlen. lia. Qed.

Lemma zlen_app l k : zlen (l ++ k) = zlen l + zlen k.
Proof. unfold zlen. rewrite length_app. lia. Qed.

Lemma zlen_cons x l : zlen (x :: l) = 1 + zlen l.
Proof. unfold zlen. rewrite length_cons. lia. Qed.

Lemma zlen_slice lo hi l : 0 <= lo <= hi -> hi <= zlen l -> zlen (slice lo hi l) = hi - lo.
Proof.
  unfold zlen, slice, ztake, zdrop. intros. rewrite length_take, length_drop. lia.
Qed.

Lemma slice_nil lo l : slice lo lo l = [].
Proof. unfold slice, ztake. rewrite Z.sub_diag. reflexivity. Qed.

Lemma slice_app lo mid hi l : 0 <= lo <= mid -> mid <= hi ->
  slice lo mid l ++ slice mid hi l = slice lo hi l.
Proof.
  unfold slice, ztake, zdrop. intros.
  replace (Z.to_nat (hi - lo))%nat with (Z.to_nat (mid - lo) + Z.to_nat (hi - mid))%nat by lia.
  replace (drop (Z.to_nat mid) l) with (drop (Z.to_nat (mid - lo)) (drop (Z.to_nat lo) l))
    by (rewrite drop_drop; f_equal; lia).
  by rewrite take_take_drop.
Qed.

(** A slice of a slice. *)
Lemma slice_slice lo hi a b l : 0 <= lo -> 0 <= a <= b -> b <= hi - lo ->
  slice a b (slice lo hi l) = slice (lo + a) (lo + b) l.
Proof.
  unfold slice, ztake, zdrop. intros.
  rewrite skipn_firstn_comm, firstn_firstn, drop_drop.
  f_equal; [lia|]. f_equal. lia.
Qed.

Lemma slice_all l : slice 0 (zlen l) l = l.
Proof.
  unfold slice, ztake, zdrop, zlen. rewrite drop_0. apply take_ge. lia.
Qed.
End slices.

(** ** Bytes

    A byte is an [ascii]; a Go string is its bytes. *)
Definition byte_of (z : Z) : byte := ascii_of_N (Z.to_N (z mod 256)%Z).
Definition of_byte (b : byte) : Z := Z.of_N (N_of_ascii b).

Abbreviation bytes_of := list_ascii_of_string.
Abbreviation string_of := string_of_list_ascii.

Lemma bytes_of_app s t : bytes_of (s +:+ t) = bytes_of s ++ bytes_of t.
Proof. induction s as [|c s IH]; [done|]. simpl. by rewrite IH. Qed.

Definition strlen (s : string) : Z := zlen (bytes_of s).

(** [encoding/binary], big endian: the [n] bytes of an unsigned integer. *)
Fixpoint be (n : nat) (z : Z) : list byte :=
  match n with
  | O => []
  | S n => be n (z / 256)%Z ++ [byte_of z]
  end.
Definition be_value (l : list byte) : Z := fold_left (fun acc b => acc * 256 + of_byte b)%Z l 0%Z.

Abbreviation PutUint16 := (be 2).
Abbreviation PutUint32 := (be 4).
Definition PutUint64 (z : Z) : list byte := be 8 (wrapU64 z).
Definition Uint64 (l : list byte) : Z := wrap64 (be_value l).

Section bytes.
Local Open Scope Z_scope.

Lemma of_byte_range b : 0 <= of_byte b < 256.
Proof. unfold of_byte. pose proof (N_ascii_bounded b). lia. Qed.

Lemma of_byte_of z : of_byte (byte_of z) = z mod 256.
Proof.
  unfold of_byte, byte_of. pose proof (Z.mod_pos_bound z 256).
  rewrite N_ascii_embedding by lia. lia.
Qed.

Lemma byte_of_byte b : byte_of (of_byte b) = b.
Proof.
  unfold byte_of. rewrite Z.mod_small by apply of_byte_range.
  unfold of_byte. rewrite N2Z.id. apply ascii_N_embedding.
Qed.

Lemma be_value_snoc l b : be_value (l ++ [b]) = be_value l * 256 + of_byte b.
Proof. unfold be_value. by rewrite fold_left_app. Qed.

Lemma zlen_be n z : zlen (be n z) = Z.of_nat n.
Proof. revert z. induction n; intros z; [done|]. simpl be. rewrite zlen_app, IHn. unfold zlen. simpl. lia. Qed.

Lemma be_value_be n : forall z, be_value (be n z) = z mod 256 ^ Z.of_nat n.
Proof.
  induction n as [|n IH]; intros z; [by rewrite Z.mod_1_r|].
  simpl be. rewrite be_value_snoc, IH, of_byte_of.
  replace (Z.of_nat (S n)) with (Z.of_nat n + 1) by lia.
  rewrite Z.pow_add_r, Z.pow_1_r by lia. rewrite (Z.mul_comm (256 ^ _) 256).
  rewrite Z.rem_mul_r; lia.
Qed.

Lemma be_value_range l : 0 <= be_value l < 256 ^ zlen l.
Proof.
  induction l as [|b l IH] using rev_ind; [done|]. rewrite be_value_snoc, zlen_app.
  pose proof (of_byte_range b). change (zlen [b]) with 1. pose proof (zlen_nonneg l).
  rewrite Z.pow_add_r, Z.pow_1_r by lia. lia.
Qed.

Lemma be_be_value l : be (length l) (be_value l) = l.
Proof.
  induction l as [|b l IH] using rev_ind; [done|].
  rewrite length_app, Nat.add_1_r. simpl be. rewrite be_value_snoc. pose proof (of_byte_range b).
  rewrite Z.div_add_l, Z.div_small, Z.add_0_r, IH by lia. f_equal. f_equal.
  rewrite <- (byte_of_byte b) at 2. unfold byte_of. f_equal. f_equal.
  by rewrite Z.add_comm, Z.mod_add by lia.
Qed.

Lemma Uint64_Put z : is_int64 z -> Uint64 (PutUint64 z) = z.
Proof.
  intros H. unfold Uint64, PutUint64. rewrite be_value_be.
  change (256 ^ Z.of_nat 8) with 18446744073709551616.
  pose proof (wrapU64_range z) as R. unfold is_uint64 in R.
  rewrite Z.mod_small by lia. by rewrite wrap64_wrapU64, wrap64_id.
Qed.

Lemma Put_Uint64 l : length l = 8%nat -> PutUint64 (Uint64 l) = l.
Proof.
  intros E. pose proof (be_value_range l) as R. unfold zlen in R. rewrite E in R.
  change (256 ^ Z.of_nat 8) with 18446744073709551616 in R.
  unfold PutUint64, Uint64. rewrite <- (be_be_value l) at 2. rewrite E. f_equal.
  unfold wrapU64. destruct (wrap64_cong (be_value l)) as [k ->]. rewrite Z.mod_add by lia.
  by apply Z.mod_small.
Qed.

End bytes.

(** ** Hints

    Facts that hold of every value, and the rewrites that put lengths and bytes
    in normal form. *)
Create HintDb go.
Create Rewrite HintDb go.
#[export] Hint Resolve wrap64_range wrapU64_range time_Sub_range zlen_nonneg of_byte_range : go.
#[export] Hint Rewrite @zlen_app @zlen_cons zlen_be of_byte_of byte_of_byte
  list_ascii_of_string_of_list_ascii string_of_list_ascii_of_string : go.
