(* ===== verification/GoStrings.v ===== *)
(** * GoStrings: what the program uses of strings, strconv and path

    A Go string is its bytes. White space is Unicode's, in UTF-8: none of the
    sequences below can begin in the middle of another encoded rune, so matching
    them byte by byte finds the runes a decoder finds. *)

From S2P Require Import Prelude.

Local Open Scope Z_scope.

(** ** Splitting and joining *)

(** [strings.Split(s, c)] for a one-byte separator. *)
Fixpoint Split (c : byte) (s : string) : list string :=
  match s with
  | EmptyString => [EmptyString]
  | String a s =>
      if Ascii.eqb a c then EmptyString :: Split c s
      else match Split c s with
           | [] => [String a EmptyString]
           | x :: l => String a x :: l
           end
  end.

(** [strings.Join(l, sep)] *)
Fixpoint Join (sep : string) (l : list string) : string :=
  match l with
  | [] => EmptyString
  | [s] => s
  | s :: l => s +:+ sep +:+ Join sep l
  end.

(** [strings.Cut(s, c)]: before, after and whether [c] was there. *)
Fixpoint Cut (c : byte) (s : string) : string * string * bool :=
  match s with
  | EmptyString => (EmptyString, EmptyString, false)
  | String a s =>
      if Ascii.eqb a c then (EmptyString, s, true)
      else let '(b, r, found) := Cut c s in (String a b, r, found)
  end.

Fixpoint has_byte (c : byte) (s : string) : bool :=
  match s with EmptyString => false | String a s => Ascii.eqb a c || has_byte c s end.

(** [fmt]'s [%q]: how a string is quoted for a person depends on tables of
    which runes print; whatever prints an error is given it. *)
Class Quoting := quote : string -> string.

(** ** White space *)

Definition bytes_list (l : list Z) : list byte := byte_of <$> l.

(** The runes [unicode.IsSpace] accepts. *)
Definition spaces : list (list byte) := bytes_list <$>
  ([[9]; [10]; [11]; [12]; [13]; [32]; [0xC2; 0x85]; [0xC2; 0xA0]; [0xE1; 0x9A; 0x80]]
   ++ ((fun i => [0xE2; 0x80; i]) <$> [0x80; 0x81; 0x82; 0x83; 0x84; 0x85; 0x86; 0x87; 0x88; 0x89; 0x8A; 0xA8; 0xA9; 0xAF])
   ++ [[0xE2; 0x81; 0x9F]; [0xE3; 0x80; 0x80]]).

(** What is left after one of [runes] at the front of [b]. *)
Fixpoint strip_prefix (p b : list byte) : option (list byte) :=
  match p, b with
  | [], _ => Some b
  | x :: p, y :: b => if Ascii.eqb x y then strip_prefix p b else None
  | _ :: _, [] => None
  end.
Fixpoint strip_any (runes : list (list byte)) (b : list byte) : option (list byte) :=
  match runes with
  | [] => None
  | p :: runes => match strip_prefix p b with Some b => Some b | None => strip_any runes b end
  end.

(** Every turn drops a byte at least, so the length is fuel enough. *)
Fixpoint trim_front (runes : list (list byte)) (fuel : nat) (b : list byte) : list byte :=
  match fuel with
  | O => b
  | S fuel => match strip_any runes b with Some b => trim_front runes fuel b | None => b end
  end.

(** [strings.TrimSpace] *)
Definition TrimSpace (s : string) : string :=
  let b := bytes_of s in
  let b := trim_front spaces (length b) b in
  string_of (rev (trim_front ((@rev byte) <$> spaces) (length b) (rev b))).

(** A flag that is a comma separated list: each part trimmed, and empties dropped. *)
Definition splitList (s : string) : list string :=
  List.filter (fun f => negb (f =? "")%string) (TrimSpace <$> Split "," s).

(** [strings.Fields], with the field read so far. *)
Fixpoint fields_loop (fuel : nat) (b : list byte) (field : list byte) : list string :=
  let done_ := match field with [] => [] | _ => [string_of field] end in
  match fuel, b with
  | _, [] | O, _ => done_
  | S fuel, c :: rest =>
      match strip_any spaces b with
      | Some rest => done_ ++ fields_loop fuel rest []
      | None => fields_loop fuel rest (field ++ [c])
      end
  end.
Definition Fields (s : string) : list string := fields_loop (String.length s) (bytes_of s) [].

(** ** Numbers *)

(** The decimal digits of a number, before [acc]; a [uint64] has twenty at most. *)
Fixpoint digits (fuel : nat) (n : Z) (acc : list byte) : list byte :=
  let acc := byte_of (48 + n mod 10) :: acc in
  match fuel with
  | O => acc
  | S fuel => if n <? 10 then acc else digits fuel (n / 10) acc
  end.

(** [strconv.FormatUint(n, 10)], [strconv.FormatInt(n, 10)] *)
Definition FormatUint (n : Z) : string := string_of (digits 19 n []).
Definition FormatInt (n : Z) : string := if n <? 0 then "-" +:+ FormatUint (- n) else FormatUint n.

Inductive NumErr : Type := ErrSyntax | ErrRange.

Definition digit_of (c : byte) : option Z :=
  let z := of_byte c in if (48 <=? z) && (z <=? 57) then Some (z - 48) else None.

Definition MaxUint64 : Z := 18446744073709551615.
Definition MaxUint32 : Z := 4294967295.

(** [strconv.ParseUint(s, 10, bits)] where [max] is the largest value of that
    many bits; the value is returned beside an error of range too. *)
Fixpoint parse_digits (max n : Z) (b : list byte) : Z * option NumErr :=
  match b with
  | [] => (n, None)
  | c :: b =>
      match digit_of c with
      | None => (0, Some ErrSyntax)
      | Some d => if max <? n * 10 + d then (max, Some ErrRange)
                  else parse_digits max (n * 10 + d) b
      end
  end.
Definition ParseUint (max : Z) (b : list byte) : Z * option NumErr :=
  match b with [] => (0, Some ErrSyntax) | _ => parse_digits max 0 b end.

(** [strconv.ParseInt(s, 10, 64)] *)
Definition ParseInt (s : string) : Z * option NumErr :=
  let '(neg, b) := match bytes_of s with
                   | c :: b => if Ascii.eqb c "-" then (true, b)
                               else if Ascii.eqb c "+" then (false, b)
                               else (false, c :: b)
                   | [] => (false, [])
                   end in
  match ParseUint MaxUint64 b with
  | (_, Some ErrSyntax) => (0, Some ErrSyntax)
  | (un, _) =>
      if negb neg && (MaxInt64 <? un) then (MaxInt64, Some ErrRange)
      else if neg && (MaxInt64 + 1 <? un) then (MinInt64, Some ErrRange)
      else (if neg then - un else un, None)
  end.

(** ** Paths *)

(** [path.Clean] of a rooted path: empty and dot elements vanish, and dot-dot
    takes the one before it away. *)
Definition clean_step (out : list string) (s : string) : list string :=
  if (s =? "")%string || (s =? ".")%string then out
  else if (s =? "..")%string then removelast out
  else out ++ [s].
Definition clean_rooted (s : string) : string :=
  "/" +:+ Join "/" (fold_left clean_step (Split "/" s) []).

(** [path.Join("/", a, b)]: empty elements are left out. *)
Definition join_rooted (a b : string) : string :=
  clean_rooted (Join "/" (List.filter (fun s => negb (s =? "")%string) ["/"; a; b])).

Example TrimSpace_ex : TrimSpace ("  a b" +:+ String "009" (string_of (bytes_list [0xC2; 0xA0]))) = "a b".
Proof. vm_compute. reflexivity. Qed.
Example Fields_ex : Fields " 36 35  98:0 / /mnt " = ["36"; "35"; "98:0"; "/"; "/mnt"].
Proof. vm_compute. reflexivity. Qed.
Example FormatInt_ex : FormatInt MinInt64 = "-9223372036854775808" /\ FormatInt 0 = "0".
Proof. vm_compute. split; reflexivity. Qed.
Example ParseInt_ex : ParseInt "-9223372036854775808" = (MinInt64, None) /\
  ParseInt "99999999999999999999x" = (MaxInt64, Some ErrRange) /\ ParseInt "1_0" = (0, Some ErrSyntax).
Proof. vm_compute. split_and!; reflexivity. Qed.
Example join_ex : join_rooted "export//x/./" "team/../data" = "/export/x/data".
Proof. vm_compute. reflexivity. Qed.

(** ** Prefixes *)

Lemma strip_prefix_Some p : forall b r, strip_prefix p b = Some r <-> b = p ++ r.
Proof.
  induction p as [|x p IH]; intros b r; simpl; [naive_solver|]. destruct b as [|y b]; [by split|].
  destruct (Ascii.eqb_spec x y) as [->|N]; [rewrite IH; naive_solver|]. split; [done|congruence].
Qed.

(** ** Splitting and joining are inverse *)

Abbreviation slash := "/"%char.

Lemma has_byte_app c a b : has_byte c (a +:+ b) = has_byte c a || has_byte c b.
Proof. induction a as [|x a IH]; simpl; [done|]. by rewrite IH, orb_assoc. Qed.
Lemma string_app_assoc (a b c : string) : (a +:+ b) +:+ c = a +:+ b +:+ c.
Proof. induction a as [|x a IH]; [done|]. exact (f_equal (String x) IH). Qed.
Lemma string_app_inj (a b c : string) : a +:+ b = a +:+ c -> b = c.
Proof. induction a as [|x a IH]; [done|]. intros [= E]. by apply IH. Qed.

Lemma Split_not_nil c s : Split c s <> [].
Proof. destruct s as [|a s]; simpl; [done|]. case_if; [done|]. by destruct (Split c s). Qed.

Lemma Split_app c a b : Split c (a +:+ String c b) = Split c a ++ Split c b.
Proof.
  induction a as [|x a IH]; simpl; [by rewrite Ascii.eqb_refl|].
  case_if; [by rewrite IH|]. rewrite IH. pose proof (Split_not_nil c a). by destruct (Split c a).
Qed.

(** Adding to the end of a string adds to its last segment. *)
Lemma Split_app_plain c a s : has_byte c s = false ->
  Split c (a +:+ s) = removelast (Split c a) ++ [default EmptyString (last (Split c a)) +:+ s].
Proof.
  intros N. assert (forall t, has_byte c t = false -> Split c t = [t]) as Plain.
  { intros t. induction t as [|x t IH]; simpl; [done|]. intros [E Nt]%orb_false_elim. by rewrite E, (IH Nt). }
  induction a as [|x a IH]; simpl; [by apply Plain|]. rewrite IH. pose proof (Split_not_nil c a).
  destruct (Ascii.eqb x c), (Split c a) as [|y [|z l]]; try done.
Qed.

Lemma Split_no_byte c s : has_byte c s = false -> Split c s = [s].
Proof.
  induction s as [|x s IH]; simpl; [done|]. intros [N H]%orb_false_elim. by rewrite N, IH.
Qed.

Lemma Split_segments c s : Forall (fun x => has_byte c x = false) (Split c s).
Proof.
  induction s as [|x s IH]; simpl; [by constructor|]. case_if; [by constructor|].
  destruct (Split c s) as [|y l]; [by constructor; simpl; rewrite ?Heqb|].
  inversion IH; subst. constructor; [|done]. simpl. by rewrite Heqb.
Qed.

Lemma Join_Split c s : Join (String c EmptyString) (Split c s) = s.
Proof.
  induction s as [|x s IH]; simpl; [done|]. pose proof (Split_not_nil c s). case_if.
  - apply Ascii.eqb_eq in Heqb as ->. destruct (Split c s) eqn:E; [done|]. rewrite <- E in *.
    simpl. rewrite E in *. by rewrite IH.
  - destruct (Split c s) as [|y l]; [done|]. rewrite <- IH. by destruct l.
Qed.

Lemma Split_Join c l : l <> [] -> Forall (fun x => has_byte c x = false) l ->
  Split c (Join (String c EmptyString) l) = l.
Proof.
  intros N F. induction F as [|x l H F IH]; [done|]. destruct l as [|y l].
  - by apply Split_no_byte.
  - change (Join (String c "") (x :: y :: l)) with (x +:+ String c "" +:+ Join (String c "") (y :: l)).
    change (String c "" +:+ ?s) with (String c s). rewrite Split_app, Split_no_byte, IH by done. done.
Qed.

(** ** Clean paths *)

Definition plain_segment (s : string) : bool :=
  negb ((s =? "")%string || (s =? ".")%string || (s =? "..")%string).

Lemma clean_plain l : forall out, forallb plain_segment l = true -> fold_left clean_step l out = out ++ l.
Proof.
  induction l as [|s l IH]; intros out; simpl; [by rewrite app_nil_r|].
  intros [P Fl]%andb_prop. rewrite IH by done. unfold clean_step, plain_segment in *.
  destruct (s =? "")%string, (s =? ".")%string, (s =? "..")%string; simpl in *; try done.
  by rewrite <- app_assoc.
Qed.

(** The segments of a directory named by a path, from the root. *)
Definition clean_segments (s : string) : list string := fold_left clean_step (Split slash s) [].

Lemma removelast_elem {A} (l : list A) x : x ∈ removelast l -> x ∈ l.
Proof.
  induction l as [|y l IH]; [done|]. destruct l; [by intros H; inversion H|].
  change (removelast (y :: a :: l)) with (y :: removelast (a :: l)). set_solver.
Qed.

Lemma clean_step_plain out s : Forall (fun x => plain_segment x = true) out ->
  Forall (fun x => plain_segment x = true) (clean_step out s).
Proof.
  intros F. unfold clean_step, plain_segment.
  destruct (s =? "")%string eqn:A, (s =? ".")%string eqn:B, (s =? "..")%string eqn:C; simpl; try done.
  - rewrite Forall_forall in *. intros x H. apply F, removelast_elem, H.
  - apply Forall_app. split; [done|]. constructor; [|done]. by rewrite A, B, C.
Qed.

Lemma clean_segments_plain s : Forall (fun x => plain_segment x = true) (clean_segments s).
Proof.
  unfold clean_segments. generalize (Split slash s). intros l.
  assert (Forall (fun x => plain_segment x = true) []) as F by constructor. revert F.
  generalize (@nil string). induction l as [|x l IH]; intros out F; [done|]. by apply IH, clean_step_plain.
Qed.

(** Joining under a directory a path none of whose segments is empty or a dot
    puts those segments below the directory's own. *)
Lemma join_rooted_plain a b : a <> ""%string -> forallb plain_segment (Split slash b) = true ->
  join_rooted a b = "/" +:+ Join "/" (clean_segments a ++ Split slash b).
Proof.
  intros Na P. unfold join_rooted. simpl.
  rewrite (proj2 (String.eqb_neq a "") Na). simpl.
  assert (b <> ""%string) as Nb by (intros ->; discriminate).
  rewrite (proj2 (String.eqb_neq b "") Nb). cbn [negb]. unfold clean_rooted. f_equal. f_equal.
    change (Split slash ("/" +:+ "/" +:+ a +:+ "/" +:+ Join "/" [b])) with ("" :: "" :: Split slash (a +:+ String slash b)).
  rewrite Split_app. cbn [fold_left]. rewrite fold_left_app. by apply clean_plain.
Qed.

(** ** Numbers printed and read back *)

Lemma digit_of_digit d : 0 <= d < 10 -> digit_of (byte_of (48 + d)) = Some d.
Proof.
  intros D. unfold digit_of. rewrite of_byte_of, Z.mod_small by lia.
  rewrite (proj2 (Z.leb_le _ _)), (proj2 (Z.leb_le _ _)) by lia. simpl. f_equal. lia.
Qed.

(** Reading the digits of [n], written before [acc], is reading on from [n]. *)
Lemma parse_digits_digits max fuel : forall n acc, 0 <= n < 10 ^ (Z.of_nat fuel + 1) -> n <= max ->
  parse_digits max 0 (digits fuel n acc) = parse_digits max n acc.
Proof.
  assert (forall n acc, 0 <= n < 10 -> n <= max ->
    parse_digits max 0 (byte_of (48 + n mod 10) :: acc) = parse_digits max n acc) as One.
  { intros n acc N M. cbn [parse_digits]. rewrite Z.mod_small, digit_of_digit by lia.
    by rewrite (proj2 (Z.ltb_ge _ _)) by lia. }
  induction fuel as [|fuel IH]; intros n acc N M.
  - apply One; [|done]. by change (10 ^ _) with 10 in N.
  - cbn [digits]. destruct (n <? 10) eqn:T; [apply Z.ltb_lt in T; apply One; lia|].
    pose proof (Z.mod_pos_bound n 10). pose proof (Z.div_mod n 10).
    rewrite IH.
    + cbn [parse_digits]. rewrite digit_of_digit by lia.
      replace (n / 10 * 10 + n mod 10) with n by lia. by rewrite (proj2 (Z.ltb_ge _ _)) by lia.
    + split; [apply Z.div_pos; lia|]. apply Z.div_lt_upper_bound; [lia|].
      rewrite <- (Z.pow_succ_r 10) by lia. rewrite Nat2Z.inj_succ in N.
      replace (Z.succ (Z.of_nat fuel + 1)) with (Z.succ (Z.of_nat fuel) + 1) by lia. apply N.
    + apply Z.le_trans with n; [|done]. apply Z.div_le_upper_bound; lia.
Qed.

(** The first byte of a number is a digit. *)
Lemma digits_head fuel : forall n acc, exists d r, 0 <= d < 10 /\ digits fuel n acc = byte_of (48 + d) :: r.
Proof.
  induction fuel as [|fuel IH]; intros n acc; pose proof (Z.mod_pos_bound n 10); simpl.
  - exists (n mod 10). eexists. split; [lia|done].
  - case_if; [exists (n mod 10); eexists; split; [lia|done]|apply IH].
Qed.

Lemma digit_not_sign d : 0 <= d < 10 -> byte_of (48 + d) <> "-"%char /\ byte_of (48 + d) <> "+"%char.
Proof.
  intros D. assert (of_byte (byte_of (48 + d)) = 48 + d) as E by (rewrite of_byte_of; apply Z.mod_small; lia).
  split; intros H; rewrite H in E; [change (of_byte _) with 45 in E|change (of_byte _) with 43 in E]; lia.
Qed.

Lemma ParseUint_digits max n : 0 <= n <= max -> n <= MaxUint64 ->
  ParseUint max (digits 19 n []) = (n, None).
Proof.
  intros N M. pose proof (parse_digits_digits max 19 n []) as P. destruct (digits_head 19 n []) as (d & r & _ & E).
  unfold ParseUint. rewrite E in *. rewrite P; [done| |lia].
  change (10 ^ _) with 100000000000000000000. unfold MaxUint64 in M. lia.
Qed.

Lemma ParseInt_unsigned n : 0 <= n <= MaxInt64 -> ParseInt (FormatUint n) = (n, None).
Proof.
  intros N. unfold ParseInt, FormatUint. rewrite list_ascii_of_string_of_list_ascii.
  pose proof (ParseUint_digits MaxUint64 n) as P. destruct (digits_head 19 n []) as (d & r & D & E). rewrite E in *.
  destruct (digit_not_sign d D) as [Nm%Ascii.eqb_neq Np%Ascii.eqb_neq]. rewrite Nm, Np.
  rewrite P by (unfold MaxInt64, MaxUint64 in *; lia). simpl. by rewrite (proj2 (Z.ltb_ge _ _)) by lia.
Qed.

(** [strconv.ParseInt] reads back what [strconv.FormatInt] writes. *)
Lemma ParseInt_FormatInt z : is_int64 z -> ParseInt (FormatInt z) = (z, None).
Proof.
  unfold is_int64, FormatInt. intros I. case_if; bool_to_prop; [|apply ParseInt_unsigned; lia].
  unfold ParseInt, FormatUint. change (bytes_of ("-" +:+ string_of (digits 19 (- z) [])))
    with ("-"%char :: bytes_of (string_of (digits 19 (- z) []))).
  rewrite list_ascii_of_string_of_list_ascii. rewrite Ascii.eqb_refl. rewrite (ParseUint_digits MaxUint64) by (unfold MinInt64, MaxUint64 in *; lia).
  simpl. rewrite (proj2 (Z.ltb_ge _ _)) by (unfold MinInt64, MaxInt64 in *; lia). f_equal. lia.
Qed.

(** A number is written in digits. *)
Lemma has_byte_FormatUint c n : digit_of c = None -> has_byte c (FormatUint n) = false.
Proof.
  intros N. assert (forall d acc, 0 <= d < 10 -> has_byte c (string_of acc) = false ->
    has_byte c (string_of (byte_of (48 + d) :: acc)) = false) as Cons.
  { intros d acc D A. simpl. rewrite A, orb_false_r. apply Ascii.eqb_neq. intros <-. by rewrite digit_of_digit in N. }
  unfold FormatUint. assert (forall fuel n acc, has_byte c (string_of acc) = false ->
    has_byte c (string_of (digits fuel n acc)) = false) as G; [|by apply G].
  clear n. induction fuel as [|fuel IH]; intros n acc A; cbn [digits].
  - apply Cons; [by apply Z.mod_pos_bound|done].
  - assert (has_byte c (string_of (byte_of (48 + n mod 10) :: acc)) = false) by (apply Cons; [by apply Z.mod_pos_bound|done]).
    destruct (n <? 10); [done|]. by apply IH.
Qed.
Lemma has_byte_FormatInt c n : digit_of c = None -> Ascii.eqb "-" c = false -> has_byte c (FormatInt n) = false.
Proof.
  intros N M. unfold FormatInt. destruct (n <? 0); [|by apply has_byte_FormatUint].
  rewrite has_byte_app, has_byte_FormatUint by done. cbn [has_byte]. by rewrite M.
Qed.
