(* ===== verification/MountTable.v ===== *)
(** * MountTable: what /proc/self/mountinfo says

    A line of the table is words with a space between each two. The mount point is
    the fifth, and a lone hyphen stands before the type and the source; the kernel
    writes a space, a tab, a line feed and a backslash in a path as three octal
    digits behind a backslash. *)

From S2P Require Import Prelude GoStrings.

Local Open Scope Z_scope.

Definition newline : byte := byte_of 10.

(** What the kernel escapes in a path of its table, and how. *)
Definition kernel_escapes (c : byte) : bool :=
  existsb (fun z => of_byte c =? z) [32; 9; 10; 92].
Fixpoint escape_bytes (b : list byte) : list byte :=
  match b with
  | [] => []
  | c :: b =>
      if kernel_escapes c then
        "\"%char :: byte_of (48 + of_byte c / 64) :: byte_of (48 + of_byte c / 8 mod 8)
          :: byte_of (48 + of_byte c mod 8) :: escape_bytes b
      else c :: escape_bytes b
  end.
Definition escape (s : string) : string := string_of (escape_bytes (bytes_of s)).

(** ** Fields *)

(** No white space anywhere in [b]. *)
Fixpoint no_space (b : list byte) : bool :=
  match b with
  | [] => true
  | _ :: b' => match strip_any spaces b with Some _ => false | None => true end && no_space b'
  end.

Lemma strip_prefix_app p : forall x y r, strip_prefix p (x ++ y) = Some r ->
  is_Some (strip_prefix p x) \/ exists q, q <> [] /\ p = x ++ q /\ is_Some (strip_prefix q y).
Proof.
  induction p as [|a p IH]; intros x y r E; [left; by eexists|]. destruct x as [|c x].
  - right. exists (a :: p). split_and!; [done..|]. by eexists.
  - simpl in *. destruct (Ascii.eqb a c) eqn:A; [|done]. apply Ascii.eqb_eq in A as ->.
    destruct (IH _ _ _ E) as [?|(q & ? & -> & ?)]; [by left|right; by exists q].
Qed.

(** A space after a word begins no other white space. *)
Lemma strip_any_word x rest : x <> [] -> strip_any spaces x = None ->
  strip_any spaces (x ++ byte_of 32 :: rest) = None.
Proof.
  intros Nx. assert (Forall (fun p => byte_of 32 ∉ tail p) spaces) as T.
  { apply (bool_decide_eq_true_1 _). vm_compute. reflexivity. }
  revert T. generalize spaces. induction l as [|p l IH]; intros T E; [done|]. simpl in *.
  apply Forall_cons in T as [Tp T]. destruct (strip_prefix p x) eqn:S; [done|].
  destruct (strip_prefix p (x ++ _)) as [r|] eqn:S'; [|by apply IH].
  exfalso. apply strip_prefix_app in S' as [[? ?]|(q & Nq & -> & [r' Q])]; [congruence|].
  destruct q as [|c q]; [done|]. simpl in Q. destruct (Ascii.eqb c (byte_of 32)) eqn:A; [|done].
  apply Ascii.eqb_eq in A as ->. destruct x as [|c x]; [done|]. simpl in Tp. set_solver.
Qed.

(** A word is gathered byte by byte, up to the space after it. *)
Lemma fields_word x rest : forall fuel acc, no_space x = true ->
  fields_loop (length x + fuel) (x ++ byte_of 32 :: rest) acc =
  fields_loop fuel (byte_of 32 :: rest) (acc ++ x).
Proof.
  induction x as [|c x IH]; intros fuel acc N; [by rewrite app_nil_r|].
  cbn [no_space] in N. apply andb_prop in N as [N Nx]. cbn [length Nat.add app fields_loop].
  assert (strip_any spaces (c :: x ++ byte_of 32 :: rest) = None) as ->.
  { apply (strip_any_word (c :: x) rest); [done|]. by destruct (strip_any spaces (c :: x)). }
  rewrite IH by done. by rewrite <- app_assoc.
Qed.

Lemma fields_next x rest fuel : no_space x = true -> x <> [] -> (length x < fuel)%nat ->
  fields_loop fuel (x ++ byte_of 32 :: rest) [] =
  string_of x :: fields_loop (fuel - S (length x)) rest [].
Proof.
  intros N Nx L. replace fuel with (length x + S (fuel - S (length x)))%nat at 1 by lia.
  rewrite fields_word by done. cbn [app]. by destruct x.
Qed.

Lemma length_bytes s : length (bytes_of s) = String.length s.
Proof. induction s as [|c s IH]; simpl; [done|]. by rewrite IH. Qed.

(** Words at the front of a line are its first fields. *)
Lemma Fields_words ws rest :
  Forall (fun w => no_space (bytes_of w) = true /\ w <> ""%string) ws ->
  exists fuel, Fields (foldr (fun w s => w +:+ " " +:+ s) rest ws)
    = ws ++ fields_loop fuel (bytes_of rest) [].
Proof.
  intros F. unfold Fields. rewrite <- length_bytes.
  assert (forall fuel, (length (bytes_of (foldr (fun w s => w +:+ " " +:+ s) rest ws)) <= fuel)%nat ->
    exists fuel', fields_loop fuel (bytes_of (foldr (fun w s => w +:+ " " +:+ s) rest ws)) []
      = ws ++ fields_loop fuel' (bytes_of rest) []) as G; [|by apply G].
  induction F as [|w ws [Nw Ne] F IH]; intros fuel L; [by exists fuel|].
  cbn [foldr] in *. rewrite bytes_of_app in *. change (bytes_of (" " +:+ ?s)) with (byte_of 32 :: bytes_of s) in *.
  rewrite length_app in L. cbn [length] in L.
  rewrite fields_next; [|done|by destruct w|lia].
  destruct (IH (fuel - S (length (bytes_of w)))%nat ltac:(lia)) as [fuel' E].
  exists fuel'. rewrite E. by rewrite string_of_list_ascii_of_string.
Qed.

(** ** A path in one field *)

(** A path the table keeps in one field: not empty, and with no white space but
    what the kernel escapes. *)
Definition tabled (target : string) : bool :=
  negb (target =? "")%string && no_space (escape_bytes (bytes_of target)).

Lemma escape_no_newline s : has_byte newline (escape s) = false.
Proof.
  unfold escape. induction (bytes_of s) as [|c b IH]; [done|]. cbn [escape_bytes].
  destruct (kernel_escapes c) eqn:E; cbn [string_of has_byte].
  - pose proof (of_byte_range c). pose proof (Z.mod_pos_bound (of_byte c) 8).
    pose proof (Z.mod_pos_bound (of_byte c / 8) 8).
    assert (0 <= of_byte c / 64 < 4) by (split; [apply Z.div_pos; lia|apply Z.div_lt_upper_bound; lia]).
    assert (forall d, 0 <= d < 8 -> Ascii.eqb (byte_of (48 + d)) newline = false) as D.
    { intros d Hd. apply Ascii.eqb_neq. intros Q. apply (f_equal of_byte) in Q.
      rewrite of_byte_of, Z.mod_small in Q by lia. change (of_byte newline) with 10 in Q. lia. }
    rewrite !D by lia. exact IH.
  - rewrite IH, orb_false_r. apply Ascii.eqb_neq. intros ->. discriminate.
Qed.

(** ** A line's words *)

Lemma fields_last x : forall fuel acc, no_space x = true -> acc ++ x <> [] -> (length x <= fuel)%nat ->
  fields_loop fuel x acc = [string_of (acc ++ x)].
Proof.
  induction x as [|c x IH]; intros fuel acc N Ne L.
  - rewrite app_nil_r in *. by destruct fuel, acc.
  - cbn [no_space] in N. apply andb_prop in N as [N Nx]. destruct fuel as [|fuel]; [simpl in L; lia|]. cbn [fields_loop].
    destruct (strip_any spaces (c :: x)); [done|]. rewrite IH; [by rewrite <- app_assoc|done|by destruct acc|simpl in L; lia].
Qed.

Definition word (w : string) : Prop := no_space (bytes_of w) = true /\ w <> ""%string.

Lemma Fields_Join ws : Forall word ws -> Fields (Join " " ws) = ws.
Proof.
  intros F. unfold Fields. rewrite <- length_bytes.
  assert (forall fuel, (length (bytes_of (Join " " ws)) <= fuel)%nat -> fields_loop fuel (bytes_of (Join " " ws)) [] = ws) as G; [|by apply G].
  induction F as [|w ws [Nw Ne] F IH]; intros fuel L; [by destruct fuel|]. destruct ws as [|w' ws].
  - simpl in *. rewrite fields_last; [simpl; by rewrite string_of_list_ascii_of_string|done| |done]. by destruct w.
  - change (Join " " (w :: w' :: ws)) with (w +:+ " " +:+ Join " " (w' :: ws)) in *. rewrite !bytes_of_app in *.
    change (bytes_of " ") with [byte_of 32] in *. cbn [app] in *. rewrite length_app in L. cbn [length] in L.
    rewrite fields_next; [|done|by destruct w|lia]. rewrite IH by lia. by rewrite string_of_list_ascii_of_string.
Qed.

(** ** The table *)

Record mount_row : Type := mkRow {
  RLead : list string;
  RPoint : string;
  ROptions : string;
  ROptional : list string;
  RType : string;
  RSource : string;
  RSuper : string;
}.

Definition row_words (r : mount_row) : list string :=
  RLead r ++ escape (RPoint r) :: ROptions r :: ROptional r ++ ["-"; RType r; escape (RSource r); RSuper r]%string.
Definition row_line (r : mount_row) : string := Join " " (row_words r).
Definition mount_table (rows : list mount_row) : string := foldr (fun r s => row_line r +:+ String newline s) ""%string rows.

(** A row the kernel may write: four words, an absolute mount point, and no hyphen
    alone but the one. *)
Record row_ok (r : mount_row) : Prop := {
  row_lead : length (RLead r) = 4%nat;
  row_plain : Forall word (row_words r);
  row_hyphen : "-"%string ∉ RLead r ++ ROptions r :: ROptional r;
  row_rooted : String.prefix "/" (RPoint r) = true;
}.
