(* ===== verification/Float64.v ===== *)
(** * Float64: Go's [float64]

    The places where the node multiplies a capacity by a share, compares a
    fraction with a threshold or averages a window use IEEE 754 binary64. They
    are modelled with the standard library's executable specification of it
    ([SpecFloat], precision 53, maximal exponent 1024) rather than with reals,
    so a rounding the code performs is a rounding the model performs. *)

From S2P Require Import Prelude.
From Stdlib Require Export SpecFloat.

Local Open Scope Z_scope.

Abbreviation float64 := spec_float.

#[global] Instance float64_eq_dec : EqDecision float64.
Proof. intros x y. unfold Decision. decide equality; solve [apply bool_eq_dec | apply Pos.eq_dec | apply Z.eq_dec]. Defined.

Definition f64_mul : float64 -> float64 -> float64 := SFmul 53 1024.
Definition f64_div : float64 -> float64 -> float64 := SFdiv 53 1024.
Definition f64_add : float64 -> float64 -> float64 := SFadd 53 1024.
Definition f64_sub : float64 -> float64 -> float64 := SFsub 53 1024.
Definition f64_leb : float64 -> float64 -> bool := SFleb.
Definition f64_ltb : float64 -> float64 -> bool := SFltb.

(** [float64(n)], rounding to nearest even. *)
Definition f64_of_Z (n : Z) : float64 := binary_normalize 53 1024 n 0 false.

(** A decimal literal such as [0.25] or [0.70], as [num / den] correctly rounded.
    Both parts are exact in binary64, so one division is one rounding. *)
Definition f64_lit (num den : Z) : float64 := f64_div (f64_of_Z num) (f64_of_Z den).

(** The exact integer part of a finite number, towards zero. *)
Definition f64_trunc (s : bool) (m : positive) (e : Z) : Z :=
  let a := if 0 <=? e then Z.shiftl (Zpos m) e else Z.shiftr (Zpos m) (- e) in
  if s then - a else a.

(** [int64(f)]. Go leaves the conversion of a value that does not fit to the
    implementation; this is what amd64's truncating conversion returns. *)
Definition int64_of_f64 (f : float64) : Z :=
  match f with
  | S754_zero _ => 0
  | S754_finite s m e =>
      let z := f64_trunc s m e in
      if bool_decide (is_int64 z) then z else MinInt64
  | S754_infinity _ | S754_nan => MinInt64
  end.

Lemma int64_of_f64_range f : is_int64 (int64_of_f64 f).
Proof.
  destruct f; unfold int64_of_f64; cbv zeta; try case_bool_decide; try done;
    unfold is_int64, MinInt64, MaxInt64; lia.
Qed.

(** ** Order

    [SFcompare] is the lexicographic order on a triple, so the comparisons the
    code makes between fractions chain. *)
Definition f64_key (f : float64) : option (Z * Z * Z) :=
  match f with
  | S754_nan => None
  | S754_infinity s => Some ((if s then -2 else 2), 0, 0)
  | S754_zero _ => Some (0, 0, 0)
  | S754_finite false m e => Some (1, e, Zpos m)
  | S754_finite true m e => Some (-1, - e, Zneg m)
  end.

Definition key_le (k1 k2 : Z * Z * Z) : Prop :=
  let '(c1, e1, m1) := k1 in
  let '(c2, e2, m2) := k2 in
  c1 < c2 \/ c1 = c2 /\ (e1 < e2 \/ e1 = e2 /\ m1 <= m2).

(** Both directions of an order lemma, once the numbers' shapes are known. *)
Ltac f64_order :=
  repeat match goal with
  | |- context [Z.compare ?a ?b] => destruct (Z.compare_spec a b); simpl
  | |- context [Pos.compare_cont Eq ?a ?b] =>
      change (Pos.compare_cont Eq a b) with (Pos.compare a b);
      destruct (Pos.compare_spec a b); simpl
  end;
  (split; [try discriminate; intros _; do 2 eexists;
           (split; [reflexivity|split; [reflexivity|simpl; lia]])
          |intros (? & ? & ? & ? & ?); simplify_eq; simpl in *; try done; lia]).

Lemma f64_leb_key x y :
  f64_leb x y = true <->
  exists kx ky, f64_key x = Some kx /\ f64_key y = Some ky /\ key_le kx ky.
Proof.
  unfold f64_leb, SFleb, f64_key, key_le.
  destruct x as [sx|sx| |sx mx ex], y as [sy|sy| |sy my ey]; simpl;
    try destruct sx; try destruct sy; simpl;
    f64_order.
Qed.

Lemma f64_ltb_key x y :
  f64_ltb x y = true <->
  exists kx ky, f64_key x = Some kx /\ f64_key y = Some ky /\ ~ key_le ky kx.
Proof.
  unfold f64_ltb, SFltb, f64_key, key_le.
  destruct x as [sx|sx| |sx mx ex], y as [sy|sy| |sy my ey]; simpl;
    try destruct sx; try destruct sy; simpl;
    f64_order.
Qed.

Lemma f64_leb_trans x y z : f64_leb x y = true -> f64_leb y z = true -> f64_leb x z = true.
Proof.
  rewrite !f64_leb_key. intros (kx & ky & Hx & Hy & A) (ky' & kz & Hy' & Hz & B).
  simplify_eq. exists kx, kz. split_and!; auto.
  destruct kx as [[??]?], ky as [[??]?], kz as [[??]?]. unfold key_le in *. lia.
Qed.

(** For numbers (not NaN) [<] is the negation of [>=]. *)
Lemma f64_leb_ltb x y : x <> S754_nan -> y <> S754_nan ->
  f64_leb x y = negb (f64_ltb y x).
Proof.
  intros Nx Ny. apply eq_true_iff_eq. rewrite negb_true_iff, <- not_true_iff_false.
  rewrite f64_leb_key, f64_ltb_key.
  assert (exists k, f64_key x = Some k) as [kx Hx] by (destruct x as [|?| |[]]; simpl; eauto; done).
  assert (exists k, f64_key y = Some k) as [ky Hy] by (destruct y as [|?| |[]]; simpl; eauto; done).
  split.
  - intros (a & b & Ha & Hb & L) (c & d & Hc & Hd & N). by simplify_eq.
  - intros N. exists kx, ky. split_and!; auto.
    destruct kx as [[c1 e1] m1], ky as [[c2 e2] m2]. unfold key_le in *.
    destruct (decide (c1 < c2 \/ c1 = c2 /\ (e1 < e2 \/ e1 = e2 /\ m1 <= m2))); auto.
    exfalso. apply N. do 2 eexists. split_and!; eauto.
Qed.

Example f64_quarter : int64_of_f64 (f64_mul (f64_of_Z 1000) (f64_lit 1 4)) = 250.
Proof. reflexivity. Qed.
