(* ===== verification/Pool.v ===== *)
(** * Pool: one node's capacity arithmetic (internal/pool/pool.go)

    [Accounting] is the record the node agent owns; [Lend] and [Return] are the
    only operations that move capacity, and [Validate] is the check that the
    three pools still fit the device. *)

From S2P Require Import Prelude.

Local Open Scope Z_scope.

(** [type Bytes int64] *)
Abbreviation Bytes := Z (only parsing).

Definition KiB : Bytes := Z.shiftl 1 10.
Definition MiB : Bytes := Z.shiftl 1 20.
Definition GiB : Bytes := Z.shiftl 1 30.
Definition TiB : Bytes := Z.shiftl 1 40.

(** The sentinel errors; [ErrNegative] carries the field its message names. *)
Inductive PoolErr : Type :=
  | ErrNegative (field : string)
  | ErrOvercommit
  | ErrInsufficient
  | ErrOverRelease.

#[global] Instance PoolErr_eq_dec : EqDecision PoolErr.
Proof. solve_decision. Defined.

Record Accounting : Type := mkAccounting {
  Capacity : Bytes;
  Reserved : Bytes;
  Borrowed : Bytes;
}.

#[global] Instance Accounting_eq_dec : EqDecision Accounting.
Proof. solve_decision. Defined.

Definition set_Borrowed (b : Bytes) (a : Accounting) : Accounting :=
  {| Capacity := Capacity a; Reserved := Reserved a; Borrowed := b |}.

Definition Free (a : Accounting) : Bytes := Capacity a -! Reserved a -! Borrowed a.

(** The fields [Validate] ranges over, in the order it ranges over them. *)
Definition validate_fields (a : Accounting) : list (string * Bytes) :=
  [("capacity"%string, Capacity a); ("reserved"%string, Reserved a);
   ("borrowed"%string, Borrowed a)].

Definition Validate (a : Accounting) : option PoolErr :=
  match List.find (fun f => f.2 <? 0) (validate_fields a) with
  | Some f => Some (ErrNegative f.1)
  | None => if Free a <? 0 then Some ErrOvercommit else None
  end.

Definition CanLend (a : Accounting) (n : Bytes) : bool := (0 <=? n) && (n <=? Free a).

Definition Lend (a : Accounting) (n : Bytes) : result PoolErr Accounting :=
  if n <? 0 then Err (ErrNegative "lend")
  else if negb (CanLend a n) then Err ErrInsufficient
  else Ok (set_Borrowed (Borrowed a +! n) a).

Definition Return (a : Accounting) (n : Bytes) : result PoolErr Accounting :=
  if n <? 0 then Err (ErrNegative "return")
  else if Borrowed a <? n then Err ErrOverRelease
  else Ok (set_Borrowed (Borrowed a -! n) a).

Definition Reclaimable (a : Accounting) : Bytes := Borrowed a.

(** ** The invariant

    What [Validate] is meant to establish: three non-negative pools that fit
    the device. Stated on the integers, without wrap-around. *)
Record acct_ok (a : Accounting) : Prop := {
  ok_capacity : 0 <= Capacity a <= MaxInt64;
  ok_reserved : 0 <= Reserved a;
  ok_borrowed : 0 <= Borrowed a;
  ok_fits : Reserved a + Borrowed a <= Capacity a;
}.

Lemma Free_exact a : acct_ok a -> Free a = Capacity a - Reserved a - Borrowed a.
Proof. intros []. unfold Free. int64_lia. Qed.

Lemma wrap64_add_sub a b c : a -! b -! c = wrap64 (a - b - c).
Proof.
  destruct (wrap64_cong (a - b)) as [k ->].
  replace (a - b + k * 18446744073709551616 - c) with (a - b - c + k * 18446744073709551616) by lia.
  apply wrap64_shift.
Qed.

Lemma Free_nonneg a : acct_ok a -> 0 <= Free a.
Proof. intros H. rewrite (Free_exact _ H). destruct H. lia. Qed.

(** On every branch, under the invariant. *)
Lemma Lend_spec a n : acct_ok a ->
  Lend a n = if n <? 0 then Err (ErrNegative "lend")
             else if Capacity a - Reserved a - Borrowed a <? n then Err ErrInsufficient
             else Ok (set_Borrowed (Borrowed a + n) a).
Proof.
  intros H. unfold Lend, CanLend. rewrite (Free_exact _ H).
  destruct (Z.ltb_spec n 0); [done|].
  destruct (Z.leb_spec 0 n); [|lia]. simpl.
  destruct (Z.leb_spec n (Capacity a - Reserved a - Borrowed a)),
           (Z.ltb_spec (Capacity a - Reserved a - Borrowed a) n); try lia; simpl; auto.
  destruct H. do 2 f_equal. int64_lia.
Qed.

Lemma Return_spec a n : acct_ok a ->
  Return a n = if n <? 0 then Err (ErrNegative "return")
               else if Borrowed a <? n then Err ErrOverRelease
               else Ok (set_Borrowed (Borrowed a - n) a).
Proof.
  intros []. unfold Return.
  destruct (Z.ltb_spec n 0), (Z.ltb_spec (Borrowed a) n); auto.
  do 2 f_equal. int64_lia.
Qed.

Lemma Lend_Ok a n a' : acct_ok a -> Lend a n = Ok a' ->
  0 <= n <= Capacity a - Reserved a - Borrowed a /\ a' = set_Borrowed (Borrowed a + n) a.
Proof.
  intros H. rewrite (Lend_spec _ _ H). repeat case_if; intros; simplify_eq; bool_to_prop.
  split; [lia | done].
Qed.

Lemma Return_Ok a n a' : acct_ok a -> Return a n = Ok a' ->
  0 <= n <= Borrowed a /\ a' = set_Borrowed (Borrowed a - n) a.
Proof.
  intros H. rewrite (Return_spec _ _ H). repeat case_if; intros; simplify_eq; bool_to_prop.
  split; [lia | done].
Qed.

Lemma Lend_preserves a n a' : acct_ok a -> Lend a n = Ok a' -> acct_ok a'.
Proof.
  intros H E. apply (Lend_Ok _ _ _ H) in E as [Hn ->]. destruct H.
  constructor; simpl; lia.
Qed.

Lemma Return_preserves a n a' : acct_ok a -> Return a n = Ok a' -> acct_ok a'.
Proof.
  intros H E. apply (Return_Ok _ _ _ H) in E as [Hn ->]. destruct H.
  constructor; simpl; lia.
Qed.

Lemma Return_Lend a n a' : acct_ok a -> Lend a n = Ok a' -> Return a' n = Ok a.
Proof.
  intros H E. pose proof (Lend_preserves _ _ _ H E) as H'.
  apply (Lend_Ok _ _ _ H) in E as [Hn ->].
  rewrite Return_spec by done. simpl. destruct H.
  destruct (Z.ltb_spec n 0); [lia|]. destruct (Z.ltb_spec (Borrowed a + n) n); [lia|].
  destruct a; unfold set_Borrowed; simpl. do 2 f_equal. lia.
Qed.

Create HintDb pool.
#[export] Hint Resolve Lend_preserves Return_preserves : pool.

(** ** Properties *)

(** [Validate] accepts exactly the accountings whose pools are all
    non-negative and together fit the device, and besides them those so far over
    that the subtraction leaves the range of an int64 and comes back positive. *)
Theorem Validate_iff a :
  is_int64 (Capacity a) -> is_int64 (Reserved a) -> is_int64 (Borrowed a) ->
  Validate a = None <->
  acct_ok a \/
  0 <= Capacity a /\ 0 <= Reserved a /\ 0 <= Borrowed a /\
  Capacity a - Reserved a - Borrowed a < MinInt64.
Proof.
  intros Ic Ir Ib. assert (acct_ok a <-> 0 <= Capacity a /\ 0 <= Reserved a /\ 0 <= Borrowed a /\
    Reserved a + Borrowed a <= Capacity a) as K.
  { split; [intros []; unfold is_int64 in *; lia|]. intros (? & ? & ? & ?). by split; [unfold is_int64 in *; lia|..]. }
  rewrite K. unfold Validate, validate_fields. simpl. unfold Free.
  destruct (Z.ltb_spec (Capacity a) 0), (Z.ltb_spec (Reserved a) 0), (Z.ltb_spec (Borrowed a) 0);
    simpl; try (split; [done|lia]).
  rewrite wrap64_add_sub. unfold is_int64, wrap64, MinInt64, MaxInt64 in *.
  set (d := Capacity a - Reserved a - Borrowed a).
  assert (d + 9223372036854775808 < 0 -> (d + 9223372036854775808) mod 18446744073709551616
    = d + 9223372036854775808 + 18446744073709551616) as Low.
  { intros L. rewrite <- (Z.mod_small (d + _ + _) 18446744073709551616) by (unfold d in *; lia).
    by rewrite <- (Z.mod_add _ 1 18446744073709551616), Z.mul_1_l by lia. }
  assert (0 <= d + 9223372036854775808 -> (d + 9223372036854775808) mod 18446744073709551616
    = d + 9223372036854775808) as High by (intros; apply Z.mod_small; unfold d in *; lia).
  destruct (Z.ltb_spec ((d + 9223372036854775808) mod 18446744073709551616 - 9223372036854775808) 0);
    split; try done; unfold d in *; lia.
Qed.

Lemma Validate_iff_witness :
  (Validate {| Capacity := 1000; Reserved := 200; Borrowed := 300 |} = None) /\
  (Validate {| Capacity := 1000; Reserved := 200; Borrowed := 900 |} <> None) /\
  Validate {| Capacity := 0; Reserved := MaxInt64; Borrowed := MaxInt64 |} = None.
Proof.
  split_and!.
  - apply Validate_iff; simpl; unfold is_int64, MinInt64, MaxInt64; try lia.
    left. split; simpl; unfold is_int64, MinInt64, MaxInt64; lia.
  - intros V. apply Validate_iff in V; simpl; unfold is_int64, MinInt64, MaxInt64; try lia.
    destruct V as [[]|V]; simpl in *; unfold MinInt64 in *; lia.
  - apply Validate_iff; simpl; unfold is_int64, MinInt64, MaxInt64; lia.
Defined.
