(* ===== verification/Lease.v ===== *)
(** * Lease: the lease manager (internal/lease/lease.go)

    The manager's data and every operation of it, in the order of the source.
    Each operation takes the manager and returns the new one, so what an
    operation changes on an error path is visible; the mutex makes each one
    atomic. The journal is an interface (type class [Journal]), as it is in the
    source; Journal.v implements it. The theorems are in LeaseProofs.v. *)

From stdpp Require Import pretty.
From S2P Require Import Prelude Float64 Pool.

Local Open Scope Z_scope.

(** ** Classes *)

(** [type Class int]: the ordinal is the reclaim order, cheapest first. *)
Abbreviation Class_ := Z (only parsing).
Definition Opportunistic : Class_ := 0.
Definition Elastic : Class_ := 1.
Definition Guaranteed : Class_ := 2.

Definition Valid (c : Class_) : bool := (Opportunistic <=? c) && (c <=? Guaranteed).

Definition Class_String (c : Class_) : string :=
  if c =? Opportunistic then "opportunistic"
  else if c =? Elastic then "elastic"
  else if c =? Guaranteed then "guaranteed"
  else "class(" +:+ pretty c +:+ ")".

(** ** Leases, quotas, configuration *)

Record Lease : Type := mkLease {
  ID : string;
  Tenant : string;
  Class : Class_;
  Size : Bytes;
  GrantedAt : time;
  Term : duration;
}.

#[global] Instance Lease_eq_dec : EqDecision Lease.
Proof. solve_decision. Defined.

Definition set_GrantedAt (t : time) (l : Lease) : Lease :=
  {| ID := ID l; Tenant := Tenant l; Class := Class l; Size := Size l;
     GrantedAt := t; Term := Term l |}.

Definition ExpiresAt (l : Lease) : time := time_Add (GrantedAt l) (Term l).
Definition Expired (l : Lease) (now : time) : bool := negb (time_Before now (ExpiresAt l)).

Record Quota : Type := mkQuota {
  QBorrowed : Bytes;
  QGuaranteed : Bytes;
}.

Definition Bounded_quota (q : Quota) : bool := (0 <? QBorrowed q) || (0 <? QGuaranteed q).

Record Config : Type := mkConfig {
  ReclaimWithin : duration;
  GuaranteedFraction : float64;
  MinTerm : duration;
  ChurnWindow : duration;
  ChurnBudget : Z;
  Autonomy : bool;
  CQuota : Quota;
}.

Definition DefaultConfig : Config := {|
  ReclaimWithin := 30 * Second;
  GuaranteedFraction := f64_lit 1 4;
  MinTerm := 30 * Second;
  ChurnWindow := 10 * Minute;
  ChurnBudget := 6;
  Autonomy := true;
  CQuota := {| QBorrowed := 0; QGuaranteed := 0 |};
|}.

Definition NodeTenant : string := "system:node".

(** How long a class may take to hand capacity back, and whether it promises to. *)
Definition ReclaimDeadline (c : Class_) (cfg : Config) : duration * bool :=
  if c =? Opportunistic then (0, true)
  else if c =? Elastic then (ReclaimWithin cfg, true)
  else (0, false).

(** ** Errors *)

Inductive JournalErr : Type :=
  | ErrCorrupt
  | ErrJournalIO.

Inductive LeaseErr : Type :=
  | ErrDuplicate
  | ErrBadClass
  | ErrBadTerm
  | ErrGuaranteeCap
  | ErrTenantQuota
  | ErrNoTenant
  | ErrBadQuota
  | ErrChurning
  | ErrCooldown
  | ErrNotRestored
  | ErrNoDeadline
  | ErrNoSuchLease
  | ErrPool (e : PoolErr)
  | ErrJournal (e : JournalErr)
  | ErrJournalAndRollback (e : JournalErr) (r : PoolErr).

#[global] Instance JournalErr_eq_dec : EqDecision JournalErr.
Proof. solve_decision. Defined.
#[global] Instance LeaseErr_eq_dec : EqDecision LeaseErr.
Proof. solve_decision. Defined.

Definition ParseClass (s : string) : result LeaseErr Class_ :=
  if (s =? "opportunistic")%string then Ok Opportunistic
  else if (s =? "elastic")%string then Ok Elastic
  else if (s =? "guaranteed")%string then Ok Guaranteed
  else Err ErrBadClass.

Definition Quota_Validate (q : Quota) : option LeaseErr :=
  if (0 <? QBorrowed q) && (QBorrowed q <? QGuaranteed q) then Some ErrBadQuota else None.

(** ** The journal, as the manager sees it

    [Save] may change the journal even when it fails: a crash-safe rewrite can
    fail after its rename. *)
Class Journal (J : Type) : Type := {
  journal_Save : list Lease -> J -> J * option JournalErr;
  journal_Load : J -> result JournalErr (list Lease);
}.

(** What the manager relies on: identifiers of a loaded journal are distinct and
    its classes are ones the ladder knows, and what a successful save wrote is
    what the next load reads, for leases the journal's format can hold. *)
Definition lease_wf (l : Lease) : Prop :=
  Valid (Class l) = true /\ is_int64 (Size l) /\ is_int64 (Term l).

Class JournalSpec (J : Type) `{Journal J} : Type := {
  storable : Lease -> Prop;
  Load_wf : forall j ls, journal_Load j = Ok ls ->
    NoDup (ID <$> ls) /\ Forall lease_wf ls;
  Save_Load : forall j ls j',
    NoDup (ID <$> ls) -> Forall lease_wf ls -> Forall storable ls ->
    journal_Save ls j = (j', None) -> journal_Load j' = Ok ls;
}.

(** ** Reclaim order *)

(** The comparison [sortByReclaimOrder] passes to [sort.Slice]. *)
Definition reclaim_less (a b : Lease) : bool :=
  if negb (Class a =? Class b) then Class a <? Class b
  else if negb (GrantedAt a =? GrantedAt b) then time_Before (GrantedAt a) (GrantedAt b)
  else str_ltb (ID a) (ID b).

Definition reclaim_le (a b : Lease) : Prop := reclaim_less b a = false.
#[global] Instance reclaim_le_dec : RelDecision reclaim_le.
Proof. intros a b. apply bool_eq_dec. Defined.

Definition sortByReclaimOrder : list Lease -> list Lease := merge_sort reclaim_le.

(** ** Results *)

Record Result : Type := mkResult {
  Reclaimed : Bytes;
  Shortfall : Bytes;
  Bounded : bool;
  Dropped : list string;
  Unfittable : list string;
  RErr : option LeaseErr;
}.

Definition empty_Result : Result :=
  {| Reclaimed := 0; Shortfall := 0; Bounded := false; Dropped := [];
     Unfittable := []; RErr := None |}.

Definition res_drop (l : Lease) (r : Result) : Result :=
  {| Reclaimed := Reclaimed r +! Size l; Shortfall := Shortfall r; Bounded := Bounded r;
     Dropped := Dropped r ++ [ID l]; Unfittable := Unfittable r; RErr := RErr r |}.
Definition res_bound (b : bool) (r : Result) : Result :=
  {| Reclaimed := Reclaimed r; Shortfall := Shortfall r; Bounded := Bounded r || b;
     Dropped := Dropped r; Unfittable := Unfittable r; RErr := RErr r |}.
Definition res_err (e : LeaseErr) (r : Result) : Result :=
  {| Reclaimed := Reclaimed r; Shortfall := Shortfall r; Bounded := Bounded r;
     Dropped := Dropped r; Unfittable := Unfittable r; RErr := Some e |}.
Definition res_short (s : Bytes) (r : Result) : Result :=
  {| Reclaimed := Reclaimed r; Shortfall := s; Bounded := Bounded r;
     Dropped := Dropped r; Unfittable := Unfittable r; RErr := RErr r |}.

(** ** The manager *)

Section manager.
Context {J : Type} `{Journal J}.

Record Manager : Type := mkManager {
  cfg : Config;
  acct : Accounting;
  leases : gmap string Lease;
  reclaims : list time;
  journal : option J;
  restored : bool;
}.

Definition set_acct (a : Accounting) (m : Manager) : Manager :=
  {| cfg := cfg m; acct := a; leases := leases m; reclaims := reclaims m;
     journal := journal m; restored := restored m |}.
Definition set_leases (ls : gmap string Lease) (m : Manager) : Manager :=
  {| cfg := cfg m; acct := acct m; leases := ls; reclaims := reclaims m;
     journal := journal m; restored := restored m |}.
Definition set_reclaims (rs : list time) (m : Manager) : Manager :=
  {| cfg := cfg m; acct := acct m; leases := leases m; reclaims := rs;
     journal := journal m; restored := restored m |}.
Definition set_journal (j : option J) (m : Manager) : Manager :=
  {| cfg := cfg m; acct := acct m; leases := leases m; reclaims := reclaims m;
     journal := j; restored := restored m |}.
Definition set_restored (b : bool) (m : Manager) : Manager :=
  {| cfg := cfg m; acct := acct m; leases := leases m; reclaims := reclaims m;
     journal := journal m; restored := b |}.

(** [New(acct, cfg)] and [New(acct, cfg, WithJournal(j))]. *)
Definition New (a : Accounting) (c : Config) : Manager :=
  {| cfg := c; acct := a; leases := ∅; reclaims := []; journal := None; restored := true |}.
Definition WithJournal (j : J) (m : Manager) : Manager :=
  set_restored false (set_journal (Some j) m).

(** The live leases, in the order [Reclaim] would release them. *)
Definition leasesLocked (m : Manager) : list Lease :=
  sortByReclaimOrder ((map_to_list (leases m)).*2).

Definition persistLocked (m : Manager) : Manager * option JournalErr :=
  match journal m with
  | None => (m, None)
  | Some j => let '(j', e) := journal_Save (leasesLocked m) j in (set_journal (Some j') m, e)
  end.

(** ** Churn and cooldown *)

Definition retention (c : Config) : duration :=
  if ChurnWindow c <? MinTerm c then MinTerm c else ChurnWindow c.

Definition after_cutoff (now : time) (d : duration) (t : time) : bool :=
  time_After t (time_Add now (wrap64 (- d))).

Definition prune (now : time) (m : Manager) : Manager :=
  let r := retention (cfg m) in
  if r <=? 0 then set_reclaims [] m
  else set_reclaims (List.filter (after_cutoff now r) (reclaims m)) m.

Definition churning (now : time) (m : Manager) : bool :=
  if (ChurnBudget (cfg m) <=? 0) || (ChurnWindow (cfg m) <=? 0) then false
  else ChurnBudget (cfg m) <=?
         zlen (List.filter (after_cutoff now (ChurnWindow (cfg m))) (reclaims m)).

(** [for i := 1; i < n && d < window; i++ { d *= 2 }], with [n - 1] rounds left. *)
Fixpoint double_until (rounds : nat) (d window : duration) : duration :=
  match rounds with
  | O => d
  | S k => if d <? window then double_until k (d *! 2) window else d
  end.

Definition cooldownFor (now : time) (m : Manager) : duration * Z :=
  let base := MinTerm (cfg m) in
  let window := ChurnWindow (cfg m) in
  if base <=? 0 then (0, 0)
  else
    let n := zlen (List.filter (after_cutoff now window) (reclaims m)) in
    if (n <=? 1) || negb (Autonomy (cfg m)) then (base, n)
    else
      let d := double_until (Z.to_nat (n - 1)) base window in
      (if (0 <? window) && (window <? d) then window else d, n).

Definition inCooldown (now : time) (m : Manager) : bool * duration :=
  match last (reclaims m) with
  | Some t =>
      if MinTerm (cfg m) <=? 0 then (false, 0)
      else
        let until := time_Sub (time_Add t (cooldownFor now m).1) now in
        if 0 <? until then (true, until) else (false, 0)
  | None => (false, 0)
  end.

Definition Churning (now : time) (m : Manager) : Manager * bool :=
  let m := prune now m in (m, churning now m).

(** ** Totals

    Both range over the lease map; the order does not matter ([wsum]). *)
Definition guaranteedTotal (m : Manager) : Bytes :=
  wsum (Size <$> List.filter (fun l => Class l =? Guaranteed) ((map_to_list (leases m)).*2)).

Definition guaranteed_limit (m : Manager) : Bytes :=
  int64_of_f64 (f64_mul (f64_of_Z (Capacity (acct m))) (GuaranteedFraction (cfg m))).

Definition GuaranteedFree (m : Manager) : Bytes :=
  let share := guaranteed_limit m -! guaranteedTotal m in
  let share := if Free (acct m) <? share then Free (acct m) else share in
  if share <? 0 then 0 else share.

Definition tenant_leases (t : string) (m : Manager) : list Lease :=
  List.filter (fun l => (Tenant l =? t)%string) ((map_to_list (leases m)).*2).

Definition withinQuota (l : Lease) (m : Manager) : option LeaseErr :=
  let q := CQuota (cfg m) in
  if negb (Bounded_quota q) then None
  else if (Tenant l =? NodeTenant)%string then None
  else if (Tenant l =? "")%string then Some ErrNoTenant
  else
    let held := tenant_leases (Tenant l) m in
    let borrowed := wsum (Size <$> held) in
    let guaranteed := wsum (Size <$> List.filter (fun h => Class h =? Guaranteed) held) in
    if (0 <? QBorrowed q) && (QBorrowed q <? borrowed +! Size l) then Some ErrTenantQuota
    else if (Class l =? Guaranteed) && (0 <? QGuaranteed q)
              && (QGuaranteed q <? guaranteed +! Size l) then Some ErrTenantQuota
    else None.

(** ** Releasing

    The capacity is returned first; the lease is forgotten only then. *)
Definition releaseLocked (l : Lease) (m : Manager) : result PoolErr Manager :=
  let? a := Return (acct m) (Size l) in
  Ok (set_leases (delete (ID l) (leases m)) (set_acct a m)).

(** ** Accept *)

(** The refusals of [Accept] up to the quota, in the order it makes them. *)
Definition accept_refusal (l : Lease) (now : time) (m : Manager) : option LeaseErr :=
  if negb (restored m) then Some ErrNotRestored
  else if negb (Valid (Class l)) then Some ErrBadClass
  else if Term l <=? 0 then Some ErrBadTerm
  else if bool_decide (is_Some (leases m !! ID l)) then Some ErrDuplicate
  else if churning now m then Some ErrChurning
  else if (inCooldown now m).1 then Some ErrCooldown
  else if (Class l =? Elastic) && ((ReclaimDeadline (Class l) (cfg m)).1 <=? 0)
       then Some ErrNoDeadline
  else match withinQuota l m with
       | Some e => Some e
       | None =>
           if (Class l =? Guaranteed) && (guaranteed_limit m <? guaranteedTotal m +! Size l)
           then Some ErrGuaranteeCap
           else None
       end.

Definition Accept (l : Lease) (now : time) (m : Manager) : Manager * option LeaseErr :=
  let m := prune now m in
  match accept_refusal l now m with
  | Some e => (m, Some e)
  | None =>
      match Lend (acct m) (Size l) with
      | Err e => (m, Some (ErrPool e))
      | Ok a =>
          let l := set_GrantedAt now l in
          let m := set_leases (<[ID l := l]> (leases m)) (set_acct a m) in
          let '(m, e) := persistLocked m in
          match e with
          | None => (m, None)
          | Some e =>
              match releaseLocked l m with
              | Ok m => (m, Some (ErrJournal e))
              | Err r => (m, Some (ErrJournalAndRollback e r))
              end
          end
      end
  end.

(** [Release] returns the size even when the journal could not be written. *)
Definition Release (id : string) (m : Manager) : Manager * (Bytes * option LeaseErr) :=
  match leases m !! id with
  | None => (m, (0, Some ErrNoSuchLease))
  | Some l =>
      match releaseLocked l m with
      | Err e => (m, (0, Some (ErrPool e)))
      | Ok m =>
          let '(m, e) := persistLocked m in (m, (Size l, ErrJournal <$> e))
      end
  end.

(** ** Expiry and reclamation *)

Fixpoint expire_loop (ls : list Lease) (now : time) (m : Manager) (r : Result)
  : Manager * Result :=
  match ls with
  | [] => (m, r)
  | l :: ls =>
      if negb (Expired l now) then expire_loop ls now m r
      else match releaseLocked l m with
           | Err e => (m, res_err (ErrPool e) r)
           | Ok m => expire_loop ls now m (res_drop l r)
           end
  end.

Definition expireLocked (now : time) (m : Manager) : Manager * Result :=
  expire_loop (leasesLocked m) now m empty_Result.

(** Record a failed save in a result that has no error yet. *)
Definition persist_result (m : Manager) (r : Result) : Manager * Result :=
  let '(m, e) := persistLocked m in
  match e, RErr r with
  | Some e, None => (m, res_err (ErrJournal e) r)
  | _, _ => (m, r)
  end.

Definition Expire (now : time) (m : Manager) : Manager * Result :=
  let '(m, r) := expireLocked now m in
  if 0 <? zlen (Dropped r) then persist_result m r else (m, r).

Fixpoint reclaim_loop (ls : list Lease) (need : Bytes) (m : Manager) (r : Result)
  : Manager * Result :=
  match ls with
  | [] => (m, r)
  | l :: ls =>
      if need <=? Reclaimed r then (m, r)
      else if Class l =? Guaranteed then reclaim_loop ls need m r
      else match releaseLocked l m with
           | Err e => (m, res_err (ErrPool e) r)
           | Ok m => reclaim_loop ls need m (res_bound (Class l =? Elastic) (res_drop l r))
           end
  end.

Definition Reclaim (need : Bytes) (now : time) (m : Manager) : Manager * Result :=
  if need <=? 0 then (m, empty_Result)
  else
    let '(m, r) := expireLocked now m in
    match RErr r with
    | Some _ => (m, res_short (need -! Reclaimed r) r)
    | None =>
        let '(m, r) := if Reclaimed r <? need then reclaim_loop (leasesLocked m) need m r
                       else (m, r) in
        let r := if Reclaimed r <? need then res_short (need -! Reclaimed r) r else r in
        if 0 <? zlen (Dropped r)
        then persist_result (prune now (set_reclaims (reclaims m ++ [now]) m)) r
        else (m, r)
    end.

(** ** Restore *)

Fixpoint restore_loop (ls : list Lease) (now : time) (m : Manager) (dropped unfit : list string)
  : Manager * (list string * list string) :=
  match ls with
  | [] => (m, (dropped, unfit))
  | l :: ls =>
      if Expired l now then restore_loop ls now m (dropped ++ [ID l]) unfit
      else match Lend (acct m) (Size l) with
           | Err _ => restore_loop ls now m dropped (unfit ++ [ID l])
           | Ok a => restore_loop ls now (set_leases (<[ID l := l]> (leases m)) (set_acct a m))
                       dropped unfit
           end
  end.

Definition forget_all (m : Manager) : Manager :=
  set_acct (set_Borrowed 0 (acct m)) (set_leases ∅ m).

Definition restore_Result (dropped unfit : list string) : Result :=
  {| Reclaimed := 0; Shortfall := 0; Bounded := false; Dropped := dropped;
     Unfittable := unfit; RErr := None |}.

Definition Restore (now : time) (m : Manager) : Manager * (Result * option LeaseErr) :=
  match journal m with
  | None => (m, (empty_Result, None))
  | Some j =>
      match journal_Load j with
      | Err e =>
          let '(m, e') := persistLocked (forget_all m) in
          match e' with
          | Some _ => (m, (empty_Result, Some (ErrJournal e)))
          | None => (set_restored true m, (empty_Result, Some (ErrJournal e)))
          end
      | Ok loaded =>
          let '(m, (dropped, unfit)) := restore_loop loaded now (forget_all m) [] [] in
          let res := restore_Result dropped unfit in
          if (0 <? zlen dropped) || (0 <? zlen unfit) then
            let '(m, e) := persistLocked m in
            match e with
            | Some e => (m, (res, Some (ErrJournal e)))
            | None => (set_restored true m, (res, None))
            end
          else (set_restored true m, (res, None))
      end
  end.

End manager.

Arguments Manager J : clear implicits.
