(* ===== verification/LeaseProofs.v ===== *)
(** * LeaseProofs: what the lease manager guarantees

    The accounting invariant [inv] and its preservation by every operation
    (reachability over the step relation [mstep]), the ladder [Reclaim]
    implements, the bounds a grant respects, and the restart round trip. *)

From S2P Require Import Prelude Float64 Pool Lease.

Local Open Scope Z_scope.

(** ** Specifications *)

(** The capacity a set of leases holds. *)
Definition lent (ls : gmap string Lease) : Z := Zsum (Size <$> (map_to_list ls).*2).

Definition keyed (ls : gmap string Lease) : Prop := map_Forall (fun id l => ID l = id) ls.

Section specs.
Context {J : Type} `{Journal J}.

(** The accounting invariant. [base] is what the accounting already counted as
    borrowed when the manager was built; a replay sets it to zero. *)
Record inv (base : Z) (m : Manager J) : Prop := {
  inv_acct : acct_ok (acct m);
  inv_base : 0 <= base;
  inv_sum : Borrowed (acct m) = base + lent (leases m);
  inv_keyed : keyed (leases m);
  inv_wf : map_Forall (fun _ l => lease_wf l /\ 0 <= Size l) (leases m);
}.

(** Forgetting one lease and giving its capacity back. *)
Definition drop_lease (l : Lease) (m : Manager J) : Manager J :=
  set_leases (delete (ID l) (leases m))
    (set_acct (set_Borrowed (Borrowed (acct m) - Size l) (acct m)) m).

Definition drop_leases (ls : list Lease) (m : Manager J) : Manager J :=
  fold_left (fun m l => drop_lease l m) ls m.

(** The ladder: the shortest prefix that covers [need]. *)
Fixpoint shortest_prefix (need : Z) (ls : list Lease) : list Lease :=
  match ls with
  | [] => []
  | l :: ls => if need <=? 0 then [] else l :: shortest_prefix (need - Size l) ls
  end.

Definition sum_sizes (ls : list Lease) : Z := Zsum (Size <$> ls).

Definition reclaimable (ls : list Lease) : list Lease :=
  List.filter (fun l => negb (Class l =? Guaranteed)) ls.

(** What [Reclaim] releases: everything whose term has run out, then the
    cheapest leases that cover what is still missing. *)
Definition expired_leases (now : time) (m : Manager J) : list Lease :=
  List.filter (fun l => Expired l now) (leasesLocked m).
Definition reclaim_choice (need : Bytes) (now : time) (m : Manager J) : list Lease :=
  let ex := expired_leases now m in
  ex ++ shortest_prefix (need - sum_sizes ex) (reclaimable (leasesLocked (drop_leases ex m))).

(** One step of a manager: an operation at a time, or the disk under the
    journal changing by itself. *)
Inductive mstep : Manager J -> Manager J -> Prop :=
  | step_Accept l now m : is_int64 (Size l) -> is_int64 (Term l) ->
      mstep m (Accept l now m).1
  | step_Release id m : mstep m (Release id m).1
  | step_Reclaim need now m : is_int64 need -> mstep m (Reclaim need now m).1
  | step_Expire now m : mstep m (Expire now m).1
  | step_Restore now m : mstep m (Restore now m).1
  | step_Churning now m : mstep m (Churning now m).1
  | step_disk j m : is_Some (journal m) -> mstep m (set_journal (Some j) m).

End specs.

(** ** The reclaim order is total *)

Lemma reclaim_le_iff a b :
  reclaim_le a b <->
  Class a < Class b \/ Class a = Class b /\
   (GrantedAt a < GrantedAt b \/ GrantedAt a = GrantedAt b /\ str_leb (ID a) (ID b) = true).
Proof.
  unfold reclaim_le, reclaim_less, str_leb, time_Before.
  destruct (Z.eqb_spec (Class b) (Class a)); simpl;
    [destruct (Z.eqb_spec (GrantedAt b) (GrantedAt a)); simpl|];
    rewrite ?negb_true_iff, ?Z.ltb_ge; intuition (lia || auto).
Qed.

#[global] Instance reclaim_le_trans : Transitive reclaim_le.
Proof.
  intros a b c. rewrite !reclaim_le_iff. intros [|[? [|[? A]]]] [|[? [|[? B]]]]; try lia.
  right; split; [lia|]. right; split; [lia|]. eapply str_leb_trans; eauto.
Qed.

#[global] Instance reclaim_le_total : Total reclaim_le.
Proof.
  intros a b. rewrite !reclaim_le_iff. pose proof (str_leb_total (ID a) (ID b)) as S.
  destruct (Z.lt_trichotomy (Class a) (Class b)) as [|[|]]; [tauto| |tauto].
  destruct (Z.lt_trichotomy (GrantedAt a) (GrantedAt b)) as [|[|]]; [tauto| |];
    intuition lia.
Qed.

Lemma reclaim_le_antisym a b : reclaim_le a b -> reclaim_le b a -> ID a = ID b.
Proof.
  rewrite !reclaim_le_iff. intros [|[? [|[? A]]]] [|[? [|[? B]]]]; try lia.
  by apply str_leb_antisym.
Qed.

Lemma sortByReclaimOrder_Permutation ls : sortByReclaimOrder ls ≡ₚ ls.
Proof. apply merge_sort_Permutation. Qed.

Lemma sortByReclaimOrder_Sorted ls : StronglySorted reclaim_le (sortByReclaimOrder ls).
Proof. apply StronglySorted_merge_sort; apply _. Qed.

Lemma NoDup_ID_inj (ls : list Lease) a b :
  NoDup (ID <$> ls) -> a ∈ ls -> b ∈ ls -> ID a = ID b -> a = b.
Proof.
  intros ND Ha Hb E. apply list_elem_of_lookup in Ha as [i Hi], Hb as [j Hj].
  assert (i = j) as ->; [|congruence].
  eapply (NoDup_lookup (ID <$> ls) i j (ID a)); auto; rewrite list_lookup_fmap.
  - by rewrite Hi. - by rewrite Hj, E.
Qed.

(** Leases with distinct identifiers have one sorted order, so what a random
    map iteration order fed the sort does not matter. *)
Lemma sortByReclaimOrder_ext ls ks :
  NoDup (ID <$> ls) -> ls ≡ₚ ks -> sortByReclaimOrder ls = sortByReclaimOrder ks.
Proof.
  intros ND P. apply StronglySorted_unique_strong with (R := reclaim_le);
    try apply sortByReclaimOrder_Sorted.
  - intros a b Ha Hb A B.
    rewrite (sortByReclaimOrder_Permutation ls) in Ha.
    rewrite (sortByReclaimOrder_Permutation ks), <- P in Hb.
    eapply NoDup_ID_inj; eauto. by apply reclaim_le_antisym.
  - by rewrite !sortByReclaimOrder_Permutation.
Qed.

(** A sorted list stays sorted when it is filtered. *)
Lemma StronglySorted_filterb {A} (R : relation A) (f : A -> bool) l :
  StronglySorted R l -> StronglySorted R (List.filter f l).
Proof.
  induction 1 as [|x l Hl IH Hx]; simpl; [constructor|].
  destruct (f x); auto. constructor; auto.
  rewrite Forall_forall in *. intros y Hy. apply Hx.
  apply list_elem_of_In, List.filter_In in Hy as [Hy _]. by apply list_elem_of_In.
Qed.

(** ** Lease maps *)

Lemma elem_of_values (ls : gmap string Lease) l :
  l ∈ (map_to_list ls).*2 <-> exists id, ls !! id = Some l.
Proof.
  rewrite list_elem_of_fmap. split.
  - intros ([id l'] & -> & E%elem_of_map_to_list). eauto.
  - intros [id E]. exists (id, l). by rewrite elem_of_map_to_list.
Qed.

Lemma values_ID ls : keyed ls -> ID <$> (map_to_list ls).*2 = (map_to_list ls).*1.
Proof.
  intros K. rewrite <- list_fmap_compose. apply list_fmap_ext.
  intros i [id l] E. apply list_elem_of_lookup_2, elem_of_map_to_list in E. by apply K.
Qed.

Lemma values_NoDup ls : keyed ls -> NoDup (ID <$> (map_to_list ls).*2).
Proof. intros K. rewrite values_ID by done. apply NoDup_fst_map_to_list. Qed.

Lemma keyed_lookup ls id l : keyed ls -> ls !! id = Some l -> ID l = id.
Proof. intros K E. by apply K. Qed.

Lemma keyed_insert ls l : keyed ls -> keyed (<[ID l := l]> ls).
Proof. intros K. by apply map_Forall_insert_2. Qed.

Lemma keyed_delete ls id : keyed ls -> keyed (delete id ls).
Proof. intros K. by apply map_Forall_delete. Qed.

Lemma lent_empty : lent ∅ = 0.
Proof. reflexivity. Qed.

Lemma lent_insert ls id l : ls !! id = None -> lent (<[id := l]> ls) = Size l + lent ls.
Proof. intros E. unfold lent. by rewrite map_to_list_insert. Qed.

Lemma lent_delete ls id l : ls !! id = Some l -> lent (delete id ls) = lent ls - Size l.
Proof.
  intros E. rewrite <- (insert_delete_id ls id l E) at 2.
  rewrite lent_insert by apply lookup_delete_eq. lia.
Qed.

Lemma lent_nonneg ls : map_Forall (fun _ l => 0 <= Size l) ls -> 0 <= lent ls.
Proof.
  intros F. apply Zsum_nonneg. apply Forall_fmap, Forall_forall.
  intros l [id E]%elem_of_values. by apply (F id).
Qed.

Lemma lent_elem ls id l : map_Forall (fun _ l => 0 <= Size l) ls ->
  ls !! id = Some l -> Size l <= lent ls.
Proof.
  intros F E. pose proof (lent_delete _ _ _ E).
  pose proof (lent_nonneg (delete id ls) (map_Forall_delete _ _ _ F)). lia.
Qed.

(** ** The sorted view *)

Section proofs.
Context {J : Type} `{Journal J}.
Implicit Types m : Manager J.

Lemma leasesLocked_Permutation m : leasesLocked m ≡ₚ (map_to_list (leases m)).*2.
Proof. apply sortByReclaimOrder_Permutation. Qed.

Lemma elem_of_leasesLocked m l : l ∈ leasesLocked m <-> exists id, leases m !! id = Some l.
Proof. rewrite leasesLocked_Permutation. apply elem_of_values. Qed.

Lemma leasesLocked_lookup m l : keyed (leases m) -> l ∈ leasesLocked m ->
  leases m !! ID l = Some l.
Proof. intros K [id E]%elem_of_leasesLocked. by rewrite (keyed_lookup _ _ _ K E). Qed.

Lemma leasesLocked_NoDup m : keyed (leases m) -> NoDup (ID <$> leasesLocked m).
Proof. intros K. rewrite leasesLocked_Permutation. by apply values_NoDup. Qed.

Lemma leasesLocked_sum m : sum_sizes (leasesLocked m) = lent (leases m).
Proof. unfold sum_sizes, lent. by rewrite leasesLocked_Permutation. Qed.

Lemma leasesLocked_Sorted m : StronglySorted reclaim_le (leasesLocked m).
Proof. apply sortByReclaimOrder_Sorted. Qed.

(** ** Releasing under the invariant *)

Lemma inv_sizes base m : inv base m -> map_Forall (fun _ l => 0 <= Size l) (leases m).
Proof. intros I i l E. by destruct (inv_wf _ _ I _ _ E). Qed.

Lemma inv_lent_bound base m : inv base m -> 0 <= lent (leases m) <= Capacity (acct m).
Proof.
  intros I. pose proof (lent_nonneg _ (inv_sizes _ _ I)). destruct I as [[] ? ? ? ?]. lia.
Qed.

Lemma releaseLocked_Ok base m l : inv base m -> leases m !! ID l = Some l ->
  releaseLocked l m = Ok (drop_lease l m).
Proof.
  intros I E. destruct (inv_wf _ _ I _ _ E) as [_ Hs].
  pose proof (lent_elem (leases m) (ID l) l) as L.
  unfold releaseLocked. rewrite Return_spec by apply I.
  destruct (Z.ltb_spec (Size l) 0); [lia|].
  destruct (Z.ltb_spec (Borrowed (acct m)) (Size l)) as [B|]; [|done].
  rewrite (inv_sum _ _ I) in B. pose proof (inv_base _ _ I).
  enough (Size l <= lent (leases m)) by lia.
  apply L; auto. apply (inv_sizes _ _ I).
Qed.

Lemma drop_lease_inv base m l : inv base m -> leases m !! ID l = Some l ->
  inv base (drop_lease l m).
Proof.
  intros I E. pose proof (releaseLocked_Ok _ _ _ I E) as R.
  unfold releaseLocked in R. apply bind_result_Ok in R as (a & Ra & Rb).
  pose proof (Return_preserves _ _ _ (inv_acct _ _ I) Ra) as OK.
  assert (a = acct (drop_lease l m)) as -> by (by inversion Rb).
  destruct I. constructor; simpl; auto.
  - rewrite (lent_delete _ _ l) by done. lia.
  - by apply keyed_delete.
  - by apply map_Forall_delete.
Qed.

Lemma drop_lease_other m l k : leases m !! ID k = Some k -> ID l <> ID k ->
  leases (drop_lease l m) !! ID k = Some k.
Proof. intros E N. simpl. by rewrite lookup_delete_ne. Qed.

(** Leases that are held under their own identifiers, each once. *)
Definition held (m : Manager J) (ls : list Lease) : Prop :=
  NoDup (ID <$> ls) /\ Forall (fun l => leases m !! ID l = Some l) ls.

Lemma held_cons m l ls : held m (l :: ls) ->
  leases m !! ID l = Some l /\ held m ls /\ held (drop_lease l m) ls.
Proof.
  intros [ND F]. rewrite fmap_cons in ND. apply NoDup_cons in ND as [N ND].
  apply Forall_cons in F as [E F]. split_and!; auto; split; auto.
  apply Forall_forall. intros k Hk. rewrite Forall_forall in F.
  apply drop_lease_other; auto. intros Eq. apply N. rewrite Eq.
  apply list_elem_of_fmap. eauto.
Qed.

Lemma held_leasesLocked m : keyed (leases m) -> held m (leasesLocked m).
Proof.
  intros K. split; [by apply leasesLocked_NoDup|].
  apply Forall_forall. intros l. by apply leasesLocked_lookup.
Qed.

Lemma held_sublist m ls ks : ls `sublist_of` ks -> held m ks -> held m ls.
Proof.
  intros S [ND F]. split.
  - apply (sublist_NoDup _ (ID <$> ks)); [done|]. clear -S. by induction S; csimpl; constructor.
  - apply Forall_forall. rewrite Forall_forall in F. intros l Hl. apply F.
    by eapply elem_of_sublist.
Qed.

Lemma filter_sublist {A} (f : A -> bool) (ls : list A) : List.filter f ls `sublist_of` ls.
Proof. induction ls as [|l ls IH]; simpl; [done|]. destruct (f l); by constructor. Qed.

Lemma drop_leases_inv base ls : forall m, inv base m -> held m ls -> inv base (drop_leases ls m).
Proof.
  induction ls as [|l ls IH]; intros m I Hd; simpl; auto.
  apply held_cons in Hd as (E & _ & Hd). apply IH; auto. by apply drop_lease_inv.
Qed.

Lemma drop_leases_app ls ks m : drop_leases (ls ++ ks) m = drop_leases ks (drop_leases ls m).
Proof. apply fold_left_app. Qed.

(** What dropping leaves alone. *)
Lemma drop_leases_frame ls : forall m,
  cfg (drop_leases ls m) = cfg m /\ reclaims (drop_leases ls m) = reclaims m /\
  journal (drop_leases ls m) = journal m /\ restored (drop_leases ls m) = restored m /\
  Capacity (acct (drop_leases ls m)) = Capacity (acct m) /\
  Reserved (acct (drop_leases ls m)) = Reserved (acct m).
Proof. induction ls as [|l ls IH]; intros m; simpl; [done|]. by destruct (IH (drop_lease l m)) as (-> & -> & -> & -> & -> & ->). Qed.

Lemma drop_leases_Borrowed ls : forall m,
  Borrowed (acct (drop_leases ls m)) = Borrowed (acct m) - sum_sizes ls.
Proof.
  induction ls as [|l ls IH]; intros m; [unfold sum_sizes; simpl; lia|].
  change (drop_leases (l :: ls) m) with (drop_leases ls (drop_lease l m)).
  rewrite IH. unfold sum_sizes. rewrite fmap_cons, Zsum_cons. simpl. lia.
Qed.

Lemma drop_leases_lookup ls : forall m id,
  leases (drop_leases ls m) !! id = if bool_decide (id ∈ ID <$> ls) then None else leases m !! id.
Proof.
  induction ls as [|l ls IH]; intros m id; [done|].
  change (drop_leases (l :: ls) m) with (drop_leases ls (drop_lease l m)).
  rewrite IH, fmap_cons. repeat case_bool_decide; auto; simpl.
  - by rewrite elem_of_cons in *; intuition.
  - rewrite elem_of_cons in *. destruct (decide (id = ID l)) as [->|]; [apply lookup_delete_eq|].
    intuition.
  - rewrite elem_of_cons in *. rewrite lookup_delete_ne; intuition.
Qed.

Lemma held_sum_bound base m ls : inv base m -> held m ls ->
  0 <= sum_sizes ls <= Borrowed (acct m).
Proof.
  intros I Hd. pose proof (drop_leases_inv _ _ _ I Hd) as I'.
  pose proof (ok_borrowed _ (inv_acct _ _ I')) as B. rewrite drop_leases_Borrowed in B.
  split; [|lia]. apply Zsum_nonneg, Forall_fmap. destruct Hd as [_ F].
  eapply Forall_impl; [exact F|]. intros l E. by destruct (inv_wf _ _ I _ _ E).
Qed.

Lemma Borrowed_int64 base m : inv base m -> 0 <= Borrowed (acct m) <= MaxInt64.
Proof. intros [[] ? ? ? ?]. lia. Qed.

(** ** The loops of [Reclaim] are the ladder *)

Definition res_drops (ls : list Lease) (r : Result) : Result :=
  fold_left (fun r l => res_drop l r) ls r.
Definition res_takes (ls : list Lease) (r : Result) : Result :=
  fold_left (fun r l => res_bound (Class l =? Elastic) (res_drop l r)) ls r.

Lemma sum_sizes_cons l ls : sum_sizes (l :: ls) = Size l + sum_sizes ls.
Proof. reflexivity. Qed.
Lemma sum_sizes_app ls ks : sum_sizes (ls ++ ks) = sum_sizes ls + sum_sizes ks.
Proof. unfold sum_sizes. by rewrite fmap_app, Zsum_app. Qed.

Lemma res_drops_spec ls : forall r,
  Reclaimed (res_drops ls r) = fold_left (fun acc x => acc +! x) (Size <$> ls) (Reclaimed r) /\
  Shortfall (res_drops ls r) = Shortfall r /\ Bounded (res_drops ls r) = Bounded r /\
  Dropped (res_drops ls r) = Dropped r ++ (ID <$> ls) /\
  Unfittable (res_drops ls r) = Unfittable r /\ RErr (res_drops ls r) = RErr r.
Proof.
  induction ls as [|l ls IH]; intros r; csimpl; [by rewrite app_nil_r|].
  destruct (IH (res_drop l r)) as (-> & -> & -> & -> & -> & ->). simpl.
  by rewrite <- app_assoc.
Qed.

Lemma res_takes_spec ls : forall r,
  Reclaimed (res_takes ls r) = fold_left (fun acc x => acc +! x) (Size <$> ls) (Reclaimed r) /\
  Shortfall (res_takes ls r) = Shortfall r /\
  Bounded (res_takes ls r) = Bounded r || existsb (fun l => Class l =? Elastic) ls /\
  Dropped (res_takes ls r) = Dropped r ++ (ID <$> ls) /\
  Unfittable (res_takes ls r) = Unfittable r /\ RErr (res_takes ls r) = RErr r.
Proof.
  induction ls as [|l ls IH]; intros r; csimpl; [by rewrite app_nil_r, orb_false_r|].
  destruct (IH (res_bound (Class l =? Elastic) (res_drop l r))) as (-> & -> & -> & -> & -> & ->).
  simpl. by rewrite <- app_assoc, orb_assoc.
Qed.

Lemma fold_wrap_sum ls r : 0 <= r -> Forall (fun l => 0 <= Size l) ls ->
  r + sum_sizes ls <= MaxInt64 ->
  fold_left (fun acc x => acc +! x) (Size <$> ls) r = r + sum_sizes ls.
Proof.
  intros Hr F B. assert (0 <= sum_sizes ls) by (apply Zsum_nonneg, Forall_fmap; exact F).
  unfold sum_sizes in *. rewrite <- (wrap64_id r) at 1 by int64_lia.
  rewrite fold_wsum. apply wrap64_id. int64_lia.
Qed.

Lemma held_sizes base m ls : inv base m -> held m ls -> Forall (fun l => 0 <= Size l) ls.
Proof.
  intros I [_ F]. eapply Forall_impl; [exact F|]. intros l E.
  by destruct (inv_wf _ _ I _ _ E).
Qed.

Lemma shortest_prefix_nonpos need ls : need <= 0 -> shortest_prefix need ls = [].
Proof. intros N. destruct ls; simpl; auto. by rewrite (proj2 (Z.leb_le _ _) N). Qed.

Lemma expire_loop_spec base now ls : forall m r, inv base m -> held m ls ->
  expire_loop ls now m r =
    (drop_leases (List.filter (fun l => Expired l now) ls) m,
     res_drops (List.filter (fun l => Expired l now) ls) r).
Proof.
  induction ls as [|l ls IH]; intros m r I Hd; simpl; auto.
  apply held_cons in Hd as (E & Hd & Hd'). destruct (Expired l now); simpl; auto.
  rewrite (releaseLocked_Ok base) by done. rewrite IH; auto. by eapply drop_lease_inv.
Qed.

Lemma expireLocked_spec base now m : inv base m ->
  expireLocked now m = (drop_leases (expired_leases now m) m,
                        res_drops (expired_leases now m) empty_Result).
Proof.
  intros I. apply (expire_loop_spec base); auto. apply held_leasesLocked, I.
Qed.

Lemma reclaim_loop_spec base need ls : forall m r, inv base m -> held m ls ->
  0 <= Reclaimed r -> Reclaimed r + sum_sizes ls <= MaxInt64 ->
  reclaim_loop ls need m r =
    (drop_leases (shortest_prefix (need - Reclaimed r) (reclaimable ls)) m,
     res_takes (shortest_prefix (need - Reclaimed r) (reclaimable ls)) r).
Proof.
  induction ls as [|l ls IH]; intros m r I Hd R0 B; simpl; auto.
  pose proof (held_sizes _ _ _ I Hd) as F. apply Forall_cons in F as [Fl F].
  apply held_cons in Hd as (E & Hd & Hd').
  assert (0 <= sum_sizes ls) by (apply Zsum_nonneg, Forall_fmap; exact F).
  rewrite sum_sizes_cons in B.
  destruct (Z.leb_spec need (Reclaimed r)).
  - by rewrite shortest_prefix_nonpos by lia.
  - unfold reclaimable. simpl. destruct (Class l =? Guaranteed) eqn:G; simpl.
    + rewrite IH; auto. lia.
    + rewrite (releaseLocked_Ok base) by done. fold (reclaimable ls).
      destruct (Z.leb_spec (need - Reclaimed r) 0); [lia|].
      assert (Reclaimed r +! Size l = Reclaimed r + Size l) as W by int64_lia.
      rewrite IH; simpl; rewrite ?W; eauto using drop_lease_inv; try lia.
      by replace (need - (Reclaimed r + Size l)) with (need - Reclaimed r - Size l) by lia.
Qed.

(** ** The ladder *)

Lemma shortest_prefix_prefix ls : forall need, shortest_prefix need ls `prefix_of` ls.
Proof.
  induction ls as [|l ls IH]; intros need; simpl; [done|].
  destruct (need <=? 0); [apply prefix_nil|]. apply prefix_cons, IH.
Qed.

Lemma shortest_prefix_sublist need ls : shortest_prefix need ls `sublist_of` ls.
Proof.
  destruct (shortest_prefix_prefix ls need) as [k E]. rewrite E at 2. by apply sublist_inserts_r.
Qed.

Lemma shortest_prefix_covers ls : forall need,
  need <= sum_sizes (shortest_prefix need ls) \/ shortest_prefix need ls = ls.
Proof.
  induction ls as [|l ls IH]; intros need; simpl; auto.
  destruct (Z.leb_spec need 0); [left; unfold sum_sizes; simpl; lia|].
  rewrite sum_sizes_cons. destruct (IH (need - Size l)) as [|E]; [left; lia|right].
  by rewrite E.
Qed.

(** Minimal: without its last lease it does not cover the need. *)
Lemma shortest_prefix_minimal ls : forall need p l,
  shortest_prefix need ls = p ++ [l] -> sum_sizes p < need.
Proof.
  induction ls as [|x ls IH]; intros need p l; simpl.
  - intros E. by destruct p.
  - destruct (Z.leb_spec need 0) as [|N]; [by destruct p|].
    destruct p as [|y p]; intros E; [unfold sum_sizes; simpl; lia|].
    injection E as -> E. apply IH in E. rewrite sum_sizes_cons. lia.
Qed.

(** ** Saving changes nothing but the journal *)

Lemma persistLocked_frame m m' e : persistLocked m = (m', e) ->
  exists j, m' = set_journal j m.
Proof.
  unfold persistLocked. destruct (journal m) as [j|] eqn:Ej.
  - destruct (journal_Save _ j); intros; simplify_eq; eauto.
  - intros; simplify_eq. exists None. destruct m'; simpl in *; by subst.
Qed.

Lemma persist_result_frame m r m' r' : persist_result m r = (m', r') ->
  (exists j, m' = set_journal j m) /\
  (r' = r \/ RErr r = None /\ exists e, r' = res_err (ErrJournal e) r).
Proof.
  unfold persist_result. destruct (persistLocked m) as [m1 e] eqn:P.
  apply persistLocked_frame in P. destruct e, (RErr r) eqn:R; intros; simplify_eq; eauto.
Qed.

Lemma set_journal_inv base j m : inv base m -> inv base (set_journal j m).
Proof. intros []. by constructor. Qed.
Lemma set_reclaims_inv base rs m : inv base m -> inv base (set_reclaims rs m).
Proof. intros []. by constructor. Qed.
Lemma set_restored_inv base b m : inv base m -> inv base (set_restored b m).
Proof. intros []. by constructor. Qed.
Lemma prune_inv base now m : inv base m -> inv base (prune now m).
Proof. intros I. unfold prune. case_if; by apply set_reclaims_inv. Qed.

(** [prune] touches only the reclamation history. *)
Lemma prune_frame now m : exists rs, prune now m = set_reclaims rs m.
Proof. unfold prune. case_if; eauto. Qed.

(** ** What [Reclaim] does, in full *)

Lemma expired_held base now m : inv base m -> held m (expired_leases now m).
Proof.
  intros I. eapply held_sublist; [apply filter_sublist|]. apply held_leasesLocked, I.
Qed.

Lemma ladder_held base ex need m : inv base m -> held m ex ->
  held (drop_leases ex m) (shortest_prefix need (reclaimable (leasesLocked (drop_leases ex m)))).
Proof.
  intros I Hd. eapply held_sublist; [apply shortest_prefix_sublist|].
  eapply held_sublist; [apply filter_sublist|]. apply held_leasesLocked.
  by eapply drop_leases_inv.
Qed.

(** The two phases of [Reclaim] together: the expired leases, then the ladder. *)
Lemma reclaim_phases base need now m : inv base m -> is_int64 need -> 0 < need ->
  let ex := expired_leases now m in
  let m1 := drop_leases ex m in
  let L := shortest_prefix (need - sum_sizes ex) (reclaimable (leasesLocked m1)) in
  let re := res_drops ex empty_Result in
  expireLocked now m = (m1, re) /\ RErr re = None /\
  (if Reclaimed re <? need then reclaim_loop (leasesLocked m1) need m1 re else (m1, re))
    = (drop_leases L m1, res_takes L re) /\
  Reclaimed (res_takes L re) = sum_sizes ex + sum_sizes L /\
  0 <= sum_sizes ex + sum_sizes L <= MaxInt64.
Proof.
  intros I Hn Hpos ex m1 L re.
  pose proof (expired_held _ now _ I) as Hex. fold ex in Hex.
  assert (inv base m1) as I1 by (by eapply drop_leases_inv).
  assert (held m1 L) as HL by (by eapply ladder_held).
  pose proof (held_sum_bound _ _ _ I Hex) as Bex.
  pose proof (held_sum_bound _ _ _ I1 HL) as BL.
  pose proof (held_sum_bound _ _ _ I1 (held_leasesLocked m1 (inv_keyed _ _ I1))) as Ball.
  pose proof (Borrowed_int64 _ _ I) as BB.
  pose proof (drop_leases_Borrowed ex m) as E1. fold m1 in E1.
  destruct (res_drops_spec ex empty_Result) as (R1 & _ & _ & _ & _ & R6). fold re in R1, R6.
  change (Reclaimed empty_Result) with 0 in R1.
  rewrite fold_wrap_sum in R1 by first [solve [eauto using held_sizes] | lia].
  split_and!; auto; try lia.
  - by apply (expireLocked_spec base).
  - destruct (Z.ltb_spec (Reclaimed re) need).
    + rewrite (reclaim_loop_spec base); [by rewrite R1|done| |lia|lia].
      apply held_leasesLocked, I1.
    + unfold L. by rewrite shortest_prefix_nonpos by lia.
  - destruct (res_takes_spec L re) as (-> & _).
    rewrite fold_wrap_sum by first [solve [eauto using held_sizes] | lia]. lia.
Qed.

Lemma Reclaim_spec base need now m m' r : inv base m -> is_int64 need -> 0 < need ->
  Reclaim need now m = (m', r) ->
  let D := reclaim_choice need now m in
  (exists j rs, m' = set_journal j (set_reclaims rs (drop_leases D m))) /\
  Dropped r = ID <$> D /\ Reclaimed r = sum_sizes D /\
  Shortfall r = Z.max 0 (need - sum_sizes D) /\
  (RErr r = None \/ exists e, RErr r = Some (ErrJournal e)).
Proof.
  intros I Hn Hpos. unfold Reclaim, reclaim_choice.
  destruct (reclaim_phases base need now m I Hn Hpos) as (-> & -> & -> & T1 & B).
  set (ex := expired_leases now m) in *. set (m1 := drop_leases ex m) in *.
  set (L := shortest_prefix (need - sum_sizes ex) (reclaimable (leasesLocked m1))) in *.
  destruct (Z.leb_spec need 0); [lia|]. cbv zeta.
  destruct (res_drops_spec ex empty_Result) as (_ & R2 & _ & R4 & _ & R6).
  destruct (res_takes_spec L (res_drops ex empty_Result)) as (_ & T2 & _ & T4 & _ & T6).
  rewrite R2 in T2. rewrite R4 in T4. rewrite R6 in T6. simpl in T2, T4, T6. rewrite T1.
  rewrite sum_sizes_app, drop_leases_app, fmap_app. fold m1.
  set (r2 := if sum_sizes ex + sum_sizes L <? need then _ else _).
  assert (Dropped r2 = (ID <$> ex) ++ (ID <$> L) /\ RErr r2 = None /\
          Reclaimed r2 = sum_sizes ex + sum_sizes L /\
          Shortfall r2 = Z.max 0 (need - (sum_sizes ex + sum_sizes L))) as (D2 & Er2 & Rc2 & Sf2).
  { unfold r2. case_if; bool_to_prop; simpl; rewrite ?T1, ?T2, ?T4, ?T6;
      split_and!; auto; [|lia]. unwrap64. lia. }
  clearbody r2. case_if.
  - intros P. apply persist_result_frame in P as [[j ->] Er].
    destruct (prune_frame now (set_reclaims (reclaims (drop_leases L m1) ++ [now])
                                 (drop_leases L m1))) as [rs ->].
    destruct Er as [->|[_ [e ->]]]; simpl; split_and!; eauto.
  - intros. simplify_eq. split_and!; auto.
    exists (journal (drop_leases L m1)), (reclaims (drop_leases L m1)).
    by destruct (drop_leases L m1).
Qed.

(** ** What [Accept] does, on every path *)

Definition grant (l : Lease) (now : time) (m : Manager J) : Manager J :=
  set_leases (<[ID l := set_GrantedAt now l]> (leases m))
    (set_acct (set_Borrowed (Borrowed (acct m) + Size l) (acct m)) m).

Lemma set_leases_acct_id m : set_leases (leases m) (set_acct (acct m) m) = m.
Proof. by destruct m. Qed.

Lemma Accept_spec base l now m m' e : inv base m -> Accept l now m = (m', e) ->
  exists j, match e with
  | None => m' = set_journal j (grant l now (prune now m)) /\ leases m !! ID l = None /\
            accept_refusal l now (prune now m) = None /\
            0 <= Size l <= Capacity (acct m) - Reserved (acct m) - Borrowed (acct m)
  | Some _ => m' = set_journal j (prune now m)
  end.
Proof.
  intros I. unfold Accept. pose proof (prune_inv _ now _ I) as Ip.
  assert (leases (prune now m) = leases m /\ acct (prune now m) = acct m) as [El Ea].
  { by destruct (prune_frame now m) as [rs ->]. }
  set (p := prune now m) in *. clearbody p. rewrite <- El, <- Ea. clear El Ea I m.
  assert (set_journal (journal p) p = p) as Id by (by destruct p).
  destruct (accept_refusal l now p) as [e0|] eqn:R; [intros [= <- <-]; by exists (journal p)|].
  destruct (Lend (acct p) (Size l)) as [a|pe] eqn:Ln;
    [|intros [= <- <-]; by exists (journal p)].
  pose proof (Return_Lend _ _ _ (inv_acct _ _ Ip) Ln) as Ret.
  apply (Lend_Ok _ _ _ (inv_acct _ _ Ip)) in Ln as [Hs ->].
  assert (leases p !! ID l = None) as Fresh.
  { unfold accept_refusal in R. repeat (case_if; [discriminate|]).
    destruct (leases p !! ID l) eqn:E; [|done].
    match goal with H : bool_decide _ = false |- _ =>
      by apply bool_decide_eq_false in H; destruct H end. }
  cbv zeta. change (ID (set_GrantedAt now l)) with (ID l).
  change (set_leases _ (set_acct _ p)) with (grant l now p).
  destruct (persistLocked (grant l now p)) as [q pe] eqn:P.
  apply persistLocked_frame in P as [j ->].
  destruct pe as [pe|]; [|intros [= <- <-]; exists j; split_and!; auto; lia].
  unfold releaseLocked. simpl. rewrite Ret. simpl. intros [= <- <-]. exists j.
  rewrite delete_insert_id by done. by destruct p.
Qed.

Lemma grant_inv base l now m : inv base m -> leases m !! ID l = None -> lease_wf l ->
  0 <= Size l <= Capacity (acct m) - Reserved (acct m) - Borrowed (acct m) ->
  inv base (grant l now m).
Proof.
  intros [[] ? ? ? ?] E W Hs. constructor; simpl; auto.
  - constructor; simpl; lia.
  - rewrite lent_insert by done. simpl. lia.
  - apply (keyed_insert _ (set_GrantedAt now l)). done.
  - apply map_Forall_insert_2; auto. split; [exact W|simpl; lia].
Qed.

Lemma accept_refusal_Valid l now m : accept_refusal l now m = None -> Valid (Class l) = true.
Proof. unfold accept_refusal. repeat (case_if; [discriminate|]). intros _. by bool_to_prop. Qed.

Lemma Accept_inv base l now m : is_int64 (Size l) -> is_int64 (Term l) ->
  inv base m -> inv base (Accept l now m).1.
Proof.
  intros Hs Ht I. destruct (Accept l now m) as [m' e] eqn:A.
  destruct (Accept_spec _ _ _ _ _ _ I A) as [j S]. destruct e as [e|]; simpl.
  - subst m'. by apply set_journal_inv, prune_inv.
  - destruct S as (-> & E & R & B). apply set_journal_inv.
    destruct (prune_frame now m) as [rs Ep].
    apply grant_inv; try (by rewrite Ep); [by apply prune_inv|].
    split; [by eapply accept_refusal_Valid|done].
Qed.

(** ** The other operations preserve the invariant *)

Lemma Release_inv base id m : inv base m -> inv base (Release id m).1.
Proof.
  intros I. unfold Release. destruct (leases m !! id) as [l|] eqn:E; [|done].
  assert (leases m !! ID l = Some l) as E' by (by rewrite (inv_keyed _ _ I _ _ E)).
  rewrite (releaseLocked_Ok base) by done.
  destruct (persistLocked (drop_lease l m)) as [m' e] eqn:P.
  apply persistLocked_frame in P as [j ->]. simpl.
  apply set_journal_inv. by apply drop_lease_inv.
Qed.

Lemma Reclaim_inv base need now m : is_int64 need -> inv base m ->
  inv base (Reclaim need now m).1.
Proof.
  intros Hn I. destruct (Reclaim need now m) as [m' r] eqn:R.
  destruct (Z_le_gt_dec need 0) as [N|N].
  - unfold Reclaim in R. rewrite (proj2 (Z.leb_le _ _) N) in R. by simplify_eq.
  - destruct (Reclaim_spec base need now m m' r) as [(j & rs & ->) _]; auto; [lia|].
    simpl. apply set_journal_inv, set_reclaims_inv. unfold reclaim_choice.
    rewrite drop_leases_app. pose proof (expired_held base now _ I).
    apply drop_leases_inv; [by apply drop_leases_inv|]. by apply (ladder_held base).
Qed.

Lemma Expire_spec base now m m' r : inv base m -> Expire now m = (m', r) ->
  exists j, m' = set_journal j (drop_leases (expired_leases now m) m).
Proof.
  intros I. unfold Expire. rewrite (expireLocked_spec base) by done. case_if.
  - intros P. by apply persist_result_frame in P as [? _].
  - intros; simplify_eq. exists (journal (drop_leases (expired_leases now m) m)).
    by destruct (drop_leases _ _).
Qed.

Lemma Expire_inv base now m : inv base m -> inv base (Expire now m).1.
Proof.
  intros I. destruct (Expire now m) as [m' r] eqn:E.
  destruct (Expire_spec _ _ _ _ _ I E) as [j ->]. apply set_journal_inv.
  apply drop_leases_inv; auto. by apply (expired_held base).
Qed.

Lemma forget_all_inv base m : inv base m -> inv 0 (forget_all m).
Proof.
  intros [[] ? ? ? ?]. constructor; simpl; try lia.
  - constructor; simpl; lia.
  - rewrite lent_empty. lia.
  - apply map_Forall_empty.
  - apply map_Forall_empty.
Qed.

Definition restore_one (l : Lease) (m : Manager J) : Manager J :=
  set_leases (<[ID l := l]> (leases m))
    (set_acct (set_Borrowed (Borrowed (acct m) + Size l) (acct m)) m).

Lemma restore_one_inv base l m : inv base m -> leases m !! ID l = None -> lease_wf l ->
  0 <= Size l <= Capacity (acct m) - Reserved (acct m) - Borrowed (acct m) ->
  inv base (restore_one l m).
Proof.
  intros I E W Hs. pose proof (grant_inv _ _ (GrantedAt l) _ I E W Hs) as G.
  unfold grant in G. by replace (set_GrantedAt (GrantedAt l) l) with l in G by (by destruct l).
Qed.

Lemma restore_loop_inv base now ls : forall m dr un, inv base m ->
  NoDup (ID <$> ls) -> Forall lease_wf ls -> Forall (fun l => leases m !! ID l = None) ls ->
  inv base (restore_loop ls now m dr un).1.
Proof.
  induction ls as [|l ls IH]; intros m dr un I ND W F; simpl; auto.
  apply NoDup_cons in ND as [N ND]. apply Forall_cons in W as [Wl W], F as [E F].
  destruct (Expired l now); [by apply IH|].
  destruct (Lend (acct m) (Size l)) as [a|] eqn:Ln; [|by apply IH].
  apply (Lend_Ok _ _ _ (inv_acct _ _ I)) in Ln as [Hs ->].
  change (set_leases _ _) with (restore_one l m). apply IH; auto.
  - by apply restore_one_inv.
  - apply Forall_forall. intros k Hk. rewrite Forall_forall in F. simpl.
    rewrite lookup_insert_ne; auto. intros Eq. apply N. rewrite Eq. apply list_elem_of_fmap. eauto.
Qed.

(** ** Replay *)

Definition live_leases (now : time) (ls : list Lease) : list Lease :=
  List.filter (fun l => negb (Expired l now)) ls.
Definition dead_leases (now : time) (ls : list Lease) : list Lease :=
  List.filter (fun l => Expired l now) ls.

(** When what is still running fits, a replay keeps exactly that. *)
Lemma restore_loop_fits base now ls : forall m dr un, inv base m ->
  NoDup (ID <$> ls) -> Forall lease_wf ls -> Forall (fun l => 0 <= Size l) ls ->
  Forall (fun l => leases m !! ID l = None) ls ->
  Reserved (acct m) + Borrowed (acct m) + sum_sizes (live_leases now ls) <= Capacity (acct m) ->
  restore_loop ls now m dr un =
    (fold_left (fun m l => restore_one l m) (live_leases now ls) m,
     (dr ++ (ID <$> dead_leases now ls), un)).
Proof.
  induction ls as [|l ls IH]; intros m dr un I ND W P F B; simpl; [by rewrite app_nil_r|].
  apply NoDup_cons in ND as [N ND].
  apply Forall_cons in W as [Wl W], F as [E F], P as [Pl P].
  unfold live_leases, dead_leases in *. simpl in *.
  destruct (Expired l now); simpl in *; [rewrite IH by done; by rewrite <- app_assoc|].
  rewrite sum_sizes_cons in B.
  assert (0 <= sum_sizes (List.filter (fun l => negb (Expired l now)) ls)).
  { apply Zsum_nonneg, Forall_fmap, Forall_forall. intros k Hk. rewrite Forall_forall in P.
    apply P. eapply elem_of_sublist; [exact Hk|apply filter_sublist]. }
  rewrite Lend_spec by apply I.
  destruct (Z.ltb_spec (Size l) 0); [lia|].
  destruct (Z.ltb_spec (Capacity (acct m) - Reserved (acct m) - Borrowed (acct m)) (Size l)); [lia|].
  change (set_leases _ _) with (restore_one l m). rewrite IH; auto.
  - apply restore_one_inv; auto; lia.
  - apply Forall_forall. intros k Hk. rewrite Forall_forall in F. simpl.
    rewrite lookup_insert_ne; auto. intros Eq. apply N. rewrite Eq. apply list_elem_of_fmap. eauto.
  - simpl. lia.
Qed.

Lemma restore_fold_frame ls : forall m,
  let m' := fold_left (fun m l => restore_one l m) ls m in
  acct m' = set_Borrowed (Borrowed (acct m) + sum_sizes ls) (acct m) /\
  leases m' = fold_left (fun ms l => <[ID l := l]> ms) ls (leases m) /\
  cfg m' = cfg m /\ reclaims m' = reclaims m /\ journal m' = journal m /\
  restored m' = restored m.
Proof.
  induction ls as [|l ls IH]; intros m; simpl.
  - split_and!; auto. destruct m as [? [? ? ?] ? ? ? ?]; simpl.
    unfold set_Borrowed, sum_sizes; simpl. f_equal. lia.
  - destruct (IH (restore_one l m)) as (-> & -> & -> & -> & -> & ->). simpl. split_and!; auto.
    unfold set_Borrowed; simpl. f_equal. rewrite sum_sizes_cons. lia.
Qed.

Lemma fold_insert_lookup ls : forall (ms : gmap string Lease) id, NoDup (ID <$> ls) ->
  fold_left (fun ms l => <[ID l := l]> ms) ls ms !! id =
  match list_find (fun l => ID l = id) ls with Some (_, l) => Some l | None => ms !! id end.
Proof.
  induction ls as [|l ls IH]; intros ms id ND; simpl; auto.
  apply NoDup_cons in ND as [N ND]. rewrite IH by done. case_decide as E.
  - destruct (list_find _ ls) as [[j k]|] eqn:Fd; [|rewrite E; apply lookup_insert_eq].
    exfalso. apply list_find_Some in Fd as (Lk & Ek & _). apply N.
    rewrite E, <- Ek. apply list_elem_of_fmap. exists k. split; auto.
    by eapply list_elem_of_lookup_2.
  - destruct (list_find _ ls) as [[j k]|]; simpl; auto. by rewrite lookup_insert_ne.
Qed.

Lemma list_find_ID ls l : NoDup (ID <$> ls) -> l ∈ ls ->
  exists i, list_find (fun k => ID k = ID l) ls = Some (i, l).
Proof.
  intros ND Hin. destruct (list_find_elem_of (fun k => ID k = ID l) ls l Hin eq_refl) as [[i k] Fd].
  exists i. rewrite Fd. apply list_find_Some in Fd as (Lk & Ek & _). do 2 f_equal.
  eapply NoDup_ID_inj; eauto. by eapply list_elem_of_lookup_2.
Qed.

(** Rebuilding a map from its own sorted, filtered leases. *)
Lemma rebuild_filter (P : Lease -> bool) m : keyed (leases m) ->
  fold_left (fun ms l => <[ID l := l]> ms) (List.filter P (leasesLocked m)) ∅
  = filter (fun kv : string * Lease => P kv.2 = true) (leases m).
Proof.
  intros K. apply map_eq. intros id.
  assert (held m (List.filter P (leasesLocked m))) as [ND F].
  { eapply held_sublist; [apply filter_sublist|]. by apply held_leasesLocked. }
  rewrite fold_insert_lookup by done. rewrite lookup_empty, map_lookup_filter. symmetry.
  destruct (leases m !! id) as [l|] eqn:E; simpl.
  - pose proof (K _ _ E) as <-. destruct (P l) eqn:Pl; simpl.
    + destruct (list_find_ID _ l ND) as [i ->]; auto.
      apply list_elem_of_In, List.filter_In. split; auto.
      apply list_elem_of_In, elem_of_leasesLocked. eauto.
    +
      destruct (list_find _ _) as [[i k]|] eqn:Fd; auto. exfalso.
      apply list_find_Some in Fd as (Lk & Ek & _). apply list_elem_of_lookup_2 in Lk.
      rewrite Forall_forall in F. pose proof (F _ Lk) as Ek'. rewrite Ek, E in Ek'.
      injection Ek' as <-. apply list_elem_of_In, List.filter_In in Lk as [_ Pk]. congruence.
  - destruct (list_find _ _) as [[i k]|] eqn:Fd; auto. exfalso.
    apply list_find_Some in Fd as (Lk & Ek & _). apply list_elem_of_lookup_2 in Lk.
    rewrite Forall_forall in F. pose proof (F _ Lk). congruence.
Qed.

Lemma sum_sizes_filter_le base P m : inv base m ->
  0 <= sum_sizes (List.filter P (leasesLocked m)) <= lent (leases m).
Proof.
  intros I. assert (held m (leasesLocked m)) as Hd by apply held_leasesLocked, I.
  pose proof (held_sizes _ _ _ I Hd) as F. rewrite <- leasesLocked_sum.
  induction (leasesLocked m) as [|l ls IH]; [done|].
  apply Forall_cons in F as [Fl F]. apply held_cons in Hd as (_ & Hd & _).
  simpl. destruct (P l); rewrite ?sum_sizes_cons; specialize (IH Hd F); lia.
Qed.

Lemma inv_wf_list base m : inv base m -> Forall lease_wf (leasesLocked m).
Proof.
  intros I. apply Forall_forall. intros l Hl%elem_of_leasesLocked.
  destruct Hl as [id E]. apply (inv_wf _ _ I _ _ E).
Qed.

(** ** The cooldown, in closed form *)

Lemma double_until_min k : forall d window,
  0 < d -> 0 < window <= 4611686018427387904 ->
  Z.min window (double_until k d window) = Z.min window (d * 2 ^ Z.of_nat k) /\
  d <= double_until k d window.
Proof.
  induction k as [|k IH]; intros d window Hd Hw; [simpl; lia|].
  assert (1 <= 2 ^ Z.of_nat k) by (pose proof (Z.pow_pos_nonneg 2 (Z.of_nat k)); lia).
  rewrite Nat2Z.inj_succ, Z.pow_succ_r by lia. simpl.
  destruct (Z.ltb_spec d window); [|nia].
  rewrite (wrap64_id (d * 2)) by int64_lia.
  destruct (IH (d * 2) window) as [-> ?]; [lia|lia|]. split; [f_equal; lia|lia].
Qed.

(** ** Reachable managers *)

(** What every reachable manager satisfies: the invariant, with nothing
    unaccounted for once a journal has been replayed. *)
Definition minv (m : Manager J) : Prop :=
  exists base, inv base m /\ (is_Some (journal m) -> restored m = true -> base = 0).

Lemma Restore_minv `{!JournalSpec J} now m : minv m -> minv (Restore now m).1.
Proof.
  intros (base & I & B). unfold Restore.
  destruct (journal m) as [j|] eqn:Ej; [|exists base; split; [done|simpl; rewrite Ej; by intros [? ?]]].
  pose proof (forget_all_inv _ _ I) as If.
  destruct (journal_Load j) as [loaded|le] eqn:Ld.
  - destruct (Load_wf _ _ Ld) as [ND W].
    assert (inv 0 (restore_loop loaded now (forget_all m) [] []).1) as I'.
    { apply restore_loop_inv; auto. apply Forall_forall. intros. apply lookup_empty. }
    destruct (restore_loop loaded now (forget_all m) [] []) as [m1 [dr un]]. simpl in I'.
    case_if; [|exists 0; split; [by apply set_restored_inv|done]].
    destruct (persistLocked m1) as [m2 e] eqn:P. apply persistLocked_frame in P as [k ->].
    destruct e; exists 0; (split; [|done]); [|apply set_restored_inv]; by apply set_journal_inv.
  - destruct (persistLocked (forget_all m)) as [m2 e] eqn:P.
    apply persistLocked_frame in P as [k ->].
    destruct e; exists 0; (split; [|done]); [|apply set_restored_inv]; by apply set_journal_inv.
Qed.

(** Every operation but the replay leaves the configuration, the journal's
    presence and the replayed flag alone. *)
Lemma persistLocked_journal m m' e : persistLocked m = (m', e) ->
  (is_Some (journal m') <-> is_Some (journal m)).
Proof.
  unfold persistLocked. destruct (journal m) eqn:Ej.
  - destruct (journal_Save _ _). intros [= <- <-]. simpl. split; eauto.
  - intros [= <- <-]. by rewrite Ej.
Qed.

Lemma persistLocked_same m m' e : persistLocked m = (m', e) ->
  (is_Some (journal m') <-> is_Some (journal m)) /\ restored m' = restored m.
Proof.
  intros P. split; [by eapply persistLocked_journal|].
  by apply persistLocked_frame in P as [j ->].
Qed.

Lemma persist_result_same m r m' r' : persist_result m r = (m', r') ->
  (is_Some (journal m') <-> is_Some (journal m)) /\ restored m' = restored m.
Proof.
  unfold persist_result. destruct (persistLocked m) as [m1 e] eqn:P. intros E.
  apply persistLocked_same in P. destruct e, (RErr r); by simplify_eq.
Qed.

Lemma prune_same now m : journal (prune now m) = journal m /\ restored (prune now m) = restored m.
Proof. by destruct (prune_frame now m) as [rs ->]. Qed.

Definition same (m m' : Manager J) : Prop :=
  (is_Some (journal m') <-> is_Some (journal m)) /\ restored m' = restored m.

Lemma same_minv base m m' : minv m -> same m m' -> (forall b, inv b m -> inv b m') ->
  inv base m -> minv m'.
Proof.
  intros (b & I & B) [Sj Sr] P _. exists b. split; [by apply P|].
  intros Hj Hr. apply B; [by apply Sj|congruence].
Qed.

Lemma Accept_same l now m : same m (Accept l now m).1.
Proof.
  unfold Accept. destruct (prune_same now m) as [Pj Pr].
  assert (same m (prune now m)) as S by (split; [by rewrite Pj|done]).
  destruct (accept_refusal _ _ _); [done|]. destruct (Lend _ _); [|done].
  destruct (persistLocked _) as [q e] eqn:P. apply persistLocked_same in P as [Qj Qr].
  simpl in *. rewrite Pj in Qj. rewrite Pr in Qr.
  destruct e; [|by split]. unfold releaseLocked. destruct (Return _ _); by split.
Qed.

Lemma Release_same id m : same m (Release id m).1.
Proof.
  unfold Release. destruct (leases m !! id) as [l|]; [|done].
  unfold releaseLocked. destruct (Return _ _); simpl; [|done].
  destruct (persistLocked _) as [q e] eqn:P. by apply persistLocked_same in P as [Qj Qr].
Qed.

Lemma drop_leases_same ls m : same m (drop_leases ls m).
Proof. destruct (drop_leases_frame ls m) as (_ & _ & Ej & Er & _). split; [by rewrite Ej|done]. Qed.

Lemma Reclaim_same base need now m : inv base m -> is_int64 need ->
  same m (Reclaim need now m).1.
Proof.
  intros I Hn. unfold Reclaim. destruct (Z.leb_spec need 0); [done|].
  destruct (reclaim_phases base need now m I Hn ltac:(lia)) as (-> & -> & -> & _ & _).
  set (m1 := drop_leases _ (drop_leases _ m)).
  assert (same m m1) as S1.
  { unfold m1. rewrite <- drop_leases_app. apply drop_leases_same. }
  clearbody m1. cbv zeta. case_if; [|done].
  destruct (persist_result _ _) as [m2 r2] eqn:P. apply persist_result_same in P as [Pj Pr].
  destruct (prune_same now (set_reclaims (reclaims m1 ++ [now]) m1)) as [Qj Qr].
  rewrite Qj in Pj. rewrite Qr in Pr. destruct S1 as [S1 S2]. simpl in *.
  split; [by rewrite Pj|congruence].
Qed.

Lemma Expire_same base now m : inv base m -> same m (Expire now m).1.
Proof.
  intros I. unfold Expire. rewrite (expireLocked_spec base) by done.
  pose proof (drop_leases_same (expired_leases now m) m) as [S1 S2].
  case_if; [|done]. destruct (persist_result _ _) as [m2 r2] eqn:P.
  apply persist_result_same in P as [Pj Pr]. split; simpl; [by rewrite Pj|congruence].
Qed.

Lemma mstep_minv `{!JournalSpec J} m m' : mstep m m' -> minv m -> minv m'.
Proof.
  intros S M. pose proof M as (base & I & _). destruct S.
  - eapply same_minv; eauto using Accept_same, Accept_inv.
  - eapply same_minv; eauto using Release_same, Release_inv.
  - eapply same_minv; eauto using Reclaim_same, Reclaim_inv.
  - eapply same_minv; eauto using Expire_same, Expire_inv.
  - by apply Restore_minv.
  - destruct (prune_same now m) as [Ej Er]. apply (same_minv base m); auto.
    + split; simpl; by rewrite ?Ej.
    + intros. by apply prune_inv.
  - apply (same_minv base m); auto using set_journal_inv. split; simpl; [|done]. split; eauto.
Qed.

Lemma mstep_device m m' : mstep m m' -> minv m ->
  Capacity (acct m') = Capacity (acct m) /\ Reserved (acct m') = Reserved (acct m).
Proof.
  intros S M. pose proof M as (base & I & _). destruct S.
  - destruct (Accept l now m) as [m' e] eqn:A.
    destruct (Accept_spec _ _ _ _ _ _ I A) as [j S]. destruct (prune_frame now m) as [rs E].
    destruct e; [subst m'|destruct S as [-> _]]; by rewrite E.
  - unfold Release. destruct (leases m !! id) as [l|]; [|done]. unfold releaseLocked, Return.
    repeat case_if; simpl; auto. destruct (persistLocked _) as [q e] eqn:P.
    by apply persistLocked_frame in P as [j ->].
  - destruct (Z_le_gt_dec need 0) as [N|N].
    + unfold Reclaim. by rewrite (proj2 (Z.leb_le _ _) N).
    + destruct (Reclaim need now m) as [m' r] eqn:R.
      destruct (Reclaim_spec base need now m m' r) as [(j & rs & ->) _]; auto; [lia|].
      by destruct (drop_leases_frame (reclaim_choice need now m) m) as (_ & _ & _ & _ & ? & ?).
  - destruct (Expire now m) as [m' r] eqn:E. destruct (Expire_spec _ _ _ _ _ I E) as [j ->].
    by destruct (drop_leases_frame (expired_leases now m) m) as (_ & _ & _ & _ & ? & ?).
  - unfold Restore. destruct (journal m) as [j|]; [|done]. destruct (journal_Load j) as [ls|].
    + assert (forall ls m dr un, Capacity (acct (restore_loop ls now m dr un).1) = Capacity (acct m)
        /\ Reserved (acct (restore_loop ls now m dr un).1) = Reserved (acct m)) as L.
      { clear. induction ls as [|l ls IH]; intros; simpl; auto. case_if; auto.
        unfold Lend. repeat case_if; auto.
        match goal with |- context [restore_loop ls now ?m] => destruct (IH m dr un) as [-> ->] end.
        done. }
      destruct (L ls (forget_all m) [] []) as [Lc Lr].
      destruct (restore_loop ls now (forget_all m) [] []) as [m1 [dr un]]. simpl in *.
      case_if; [|by split]. destruct (persistLocked m1) as [q e] eqn:P.
      apply persistLocked_frame in P as [k ->]. by destruct e.
    + destruct (persistLocked _) as [q e'] eqn:P. apply persistLocked_frame in P as [k ->].
      by destruct e'.
  - by destruct (prune_frame now m) as [rs E]; simpl; rewrite E.
  - done.
Qed.

Lemma reachable_minv `{!JournalSpec J} m m' : minv m -> rtc mstep m m' ->
  minv m' /\ Capacity (acct m') = Capacity (acct m) /\ Reserved (acct m') = Reserved (acct m).
Proof.
  intros M R. induction R as [m|m m1 m2 S R IH]; [done|].
  destruct (mstep_device _ _ S M) as [<- <-]. apply IH. by eapply mstep_minv.
Qed.

Lemma New_minv a c : acct_ok a -> minv (New (J := J) a c).
Proof.
  intros A. exists (Borrowed a). split; [|by intros [? ?]].
  constructor; simpl; [done|apply A|rewrite lent_empty; lia|apply map_Forall_empty..].
Qed.

Lemma WithJournal_minv j m : minv m -> minv (WithJournal j m).
Proof.
  intros (b & I & _). exists b. split; [|done]. by apply set_restored_inv, set_journal_inv.
Qed.

End proofs.

Create HintDb lease.
#[export] Hint Resolve leasesLocked_lookup leasesLocked_NoDup held_leasesLocked
  drop_leases_inv drop_lease_inv filter_sublist held_sublist : lease.
