(* ===== verification/Journal.v ===== *)
(** * Journal: the file a lease manager keeps its leases in
    (internal/lease/journal.go)

    [document] and [record] are the file's layout; a file is what [os.ReadFile]
    and [json.Unmarshal] make of it. [encoding/json] writes a string that is
    not valid UTF-8 with U+FFFD in place of each offending byte, and refuses a
    time outside the years 0 to 9999; both are modelled, since both bear on
    what survives a restart. A [Save] fails where [fault] says it does: before
    the rename, leaving the previous journal, or after it, leaving the new one. *)

From S2P Require Import Prelude Pool Lease.

Local Open Scope Z_scope.

(** ** Text, as encoding/json writes it *)

Section utf8.
Local Open Scope N_scope.

Definition in_range (lo hi : N) (b : byte) : bool :=
  (lo <=? N_of_ascii b) && (N_of_ascii b <=? hi).
Definition continuation : byte -> bool := in_range 0x80 0xBF.

(** The second byte [utf8.DecodeRune] accepts after a given first one. *)
Definition second_of_3 (a b : byte) : bool :=
  if N_of_ascii a =? 0xE0 then in_range 0xA0 0xBF b
  else if N_of_ascii a =? 0xED then in_range 0x80 0x9F b
  else in_range 0xE1 0xEF a && continuation b.
Definition second_of_4 (a b : byte) : bool :=
  if N_of_ascii a =? 0xF0 then in_range 0x90 0xBF b
  else if N_of_ascii a =? 0xF4 then in_range 0x80 0x8F b
  else in_range 0xF1 0xF3 a && continuation b.

Definition RuneError : list byte :=
  [ascii_of_N 0xEF; ascii_of_N 0xBF; ascii_of_N 0xBD].

Fixpoint coerce (l : list byte) : list byte :=
  match l with
  | [] => []
  | a :: l1 =>
      if in_range 0 0x7F a then a :: coerce l1 else
      match l1 with
      | [] => RuneError
      | b :: l2 =>
          if in_range 0xC2 0xDF a && continuation b then a :: b :: coerce l2 else
          match l2 with
          | [] => RuneError ++ coerce l1
          | c :: l3 =>
              if second_of_3 a b && continuation c then a :: b :: c :: coerce l3 else
              match l3 with
              | [] => RuneError ++ coerce l1
              | d :: l4 =>
                  if second_of_4 a b && continuation c && continuation d
                  then a :: b :: c :: d :: coerce l4
                  else RuneError ++ coerce l1
              end
          end
      end
  end.

End utf8.

Definition json_string (s : string) : string :=
  string_of_list_ascii (coerce (list_ascii_of_string s)).

(** [Time.MarshalJSON] refuses a year outside 0 to 9999; instants count from
    1970, in UTC. *)
Definition json_time (t : time) : bool :=
  (-62167219200000000000 <=? t) && (t <? 253402300800000000000).

(** ** The layout *)

Definition journalFormat : Z := 1.

(** What [time.ParseDuration] makes of a text: [Duration.String] writes one it
    reads back. *)
Inductive term_text : Type :=
  | TermOf (d : duration)
  | TermBad (s : string).

Record record : Type := mkRecord {
  RID : string;
  RTenant : string;
  RClass : string;
  SizeBytes : Z;
  RGrantedAt : time;
  RTerm : term_text;
}.

Record document : Type := mkDocument {
  Format : Z;
  Leases : list record;
}.

(** A file: absent, one [os.ReadFile] fails on, bytes that are not a
    [document], or the document they are. *)
Inductive file : Type :=
  | Missing
  | Unreadable
  | Garbage
  | Doc (d : document).

Definition json_record (r : record) : record :=
  {| RID := json_string (RID r); RTenant := json_string (RTenant r);
     RClass := json_string (RClass r); SizeBytes := SizeBytes r;
     RGrantedAt := RGrantedAt r; RTerm := RTerm r |}.

(** [json.MarshalIndent]: what a reader of the bytes will decode. *)
Definition json_Marshal (d : document) : option file :=
  if forallb (fun r => json_time (RGrantedAt r)) (Leases d)
  then Some (Doc {| Format := Format d; Leases := json_record <$> Leases d |})
  else None.

(** [json.Unmarshal] refuses a number its field cannot hold. *)
Definition json_Unmarshal (f : file) : option document :=
  match f with
  | Doc d =>
      if bool_decide (is_int64 (Format d)) &&
         forallb (fun r => bool_decide (is_int64 (SizeBytes r))) (Leases d)
      then Some d else None
  | _ => None
  end.

Definition ParseDuration (t : term_text) : option duration :=
  match t with
  | TermOf d => if bool_decide (is_int64 d) then Some d else None
  | TermBad _ => None
  end.

(** ** The journal *)

Inductive fault : Type :=
  | NoFault
  | BeforeRename
  | AfterRename.

(** The file at the journal's path, and what the disk will do to the next
    saves. *)
Record FileJournal : Type := mkFileJournal {
  contents : file;
  faults : list fault;
}.

Definition next_fault (j : FileJournal) : fault := default NoFault (head (faults j)).
Definition replace_contents (f : file) (j : FileJournal) : FileJournal :=
  {| contents := f; faults := tail (faults j) |}.

Definition record_of (l : Lease) : record :=
  {| RID := ID l; RTenant := Tenant l; RClass := Class_String (Class l);
     SizeBytes := Size l; RGrantedAt := GrantedAt l; RTerm := TermOf (Term l) |}.

Definition Save (leases : list Lease) (j : FileJournal) : FileJournal * option JournalErr :=
  match json_Marshal {| Format := journalFormat; Leases := record_of <$> leases |} with
  | None => (j, Some ErrJournalIO)
  | Some body =>
      match next_fault j with
      | BeforeRename => (replace_contents (contents j) j, Some ErrJournalIO)
      | AfterRename => (replace_contents body j, Some ErrJournalIO)
      | NoFault => (replace_contents body j, None)
      end
  end.

(** The loop of [Load], with the identifiers [seen] so far. *)
Fixpoint load_records (rs : list record) (seen : gset string)
  : result JournalErr (list Lease) :=
  match rs with
  | [] => Ok []
  | r :: rs =>
      if bool_decide (RID r ∈ seen) then Err ErrCorrupt
      else match ParseClass (RClass r), ParseDuration (RTerm r) with
           | Ok c, Some term =>
               let? out := load_records rs ({[RID r]} ∪ seen) in
               Ok ({| ID := RID r; Tenant := RTenant r; Class := c; Size := SizeBytes r;
                      GrantedAt := RGrantedAt r; Term := term |} :: out)
           | _, _ => Err ErrCorrupt
           end
  end.

Definition Load (j : FileJournal) : result JournalErr (list Lease) :=
  match contents j with
  | Missing => Ok []
  | Unreadable => Err ErrJournalIO
  | f =>
      match json_Unmarshal f with
      | None => Err ErrCorrupt
      | Some d =>
          if negb (Format d =? journalFormat) then Err ErrCorrupt
          else load_records (Leases d) ∅
      end
  end.

#[global] Instance FileJournal_Journal : Journal FileJournal :=
  { journal_Save := Save; journal_Load := Load }.

(** ** What the format can hold *)

Definition storable_lease (l : Lease) : Prop :=
  json_string (ID l) = ID l /\ json_string (Tenant l) = Tenant l /\
  json_time (GrantedAt l) = true.

Lemma ParseClass_String c : Valid c = true -> ParseClass (Class_String c) = Ok c.
Proof.
  unfold Valid, Opportunistic, Guaranteed. intros H. bool_to_prop.
  assert (c = 0 \/ c = 1 \/ c = 2) as [-> | [-> | ->]] by lia; reflexivity.
Qed.

Lemma ParseClass_Valid s c : ParseClass s = Ok c -> Valid c = true.
Proof. unfold ParseClass. repeat case_if; intros; by simplify_eq. Qed.

Lemma json_class c : Valid c = true -> json_string (Class_String c) = Class_String c.
Proof.
  unfold Valid, Opportunistic, Guaranteed. intros H. bool_to_prop.
  assert (c = 0 \/ c = 1 \/ c = 2) as [-> | [-> | ->]] by lia; reflexivity.
Qed.

(** ASCII text is stored as it is. *)
Lemma coerce_ascii l : forallb (in_range 0 0x7F) l = true -> coerce l = l.
Proof.
  induction l as [|a l IH]; simpl; [done|]. intros [A L]%andb_prop.
  rewrite A, IH by done. reflexivity.
Qed.

Lemma load_records_wf rs : forall seen ls, load_records rs seen = Ok ls ->
  Forall (fun r => is_int64 (SizeBytes r)) rs ->
  NoDup (ID <$> ls) /\ Forall (fun l => ID l ∉ seen) ls /\ Forall lease_wf ls.
Proof.
  induction rs as [|r rs IH]; intros seen ls; simpl.
  - intros [= <-] _. split_and!; constructor.
  - case_bool_decide as N; [done|].
    destruct (ParseClass _) as [c|] eqn:C; [|done].
    destruct (ParseDuration _) as [d|] eqn:D; [|done].
    rewrite bind_result_Ok. intros (out & L & [= <-]) [Hr Hrs]%Forall_cons.
    destruct (IH _ _ L Hrs) as (ND & F & W). rewrite fmap_cons, NoDup_cons, !Forall_cons. simpl.
    split_and!; auto.
    + intros (l & El & Hl)%list_elem_of_fmap. rewrite Forall_forall in F.
      apply (F l Hl). set_solver.
    + eapply Forall_impl; [exact F|]. simpl. set_solver.
    + split_and!; simpl; auto; [by eapply ParseClass_Valid|].
      unfold ParseDuration in D. destruct (RTerm r); [|done].
      case_bool_decide; naive_solver.
Qed.

Lemma load_records_of ls : forall seen, NoDup (ID <$> ls) ->
  Forall lease_wf ls -> Forall storable_lease ls -> Forall (fun l => ID l ∉ seen) ls ->
  load_records (json_record <$> (record_of <$> ls)) seen = Ok ls.
Proof.
  induction ls as [|l ls IH]; intros seen ND W S F; [done|].
  rewrite fmap_cons in ND. apply NoDup_cons in ND as [N ND].
  apply Forall_cons in W as [(V & Hs & Ht) W], S as [(Si & St & _) S], F as [Hn F].
  simpl. rewrite Si, St. rewrite bool_decide_false by done.
  rewrite json_class, ParseClass_String by done. rewrite bool_decide_true by done.
  rewrite IH; auto; [by destruct l|].
  apply Forall_forall. intros k Hk. rewrite Forall_forall in F.
  rewrite not_elem_of_union, not_elem_of_singleton. split; [|by apply F].
  intros E. apply N. rewrite <- E. apply list_elem_of_fmap. eauto.
Qed.

(** The bytes a save writes read back as what was saved. *)
Lemma Load_body ls j body : NoDup (ID <$> ls) -> Forall lease_wf ls -> Forall storable_lease ls ->
  json_Marshal {| Format := journalFormat; Leases := record_of <$> ls |} = Some body ->
  contents j = body -> Load j = Ok ls.
Proof.
  intros ND W S M E. revert M. unfold json_Marshal. destruct (forallb _ _); [|done]. intros [= <-].
  unfold Load. rewrite E. simpl. rewrite (proj2 (forallb_forall _ _)).
  - simpl. apply load_records_of; auto. apply Forall_forall. set_solver.
  - intros r Hr%list_elem_of_In. rewrite Forall_forall in W.
    apply list_elem_of_fmap in Hr as (r' & -> & Hr).
    apply list_elem_of_fmap in Hr as (l & -> & Hl). simpl.
    apply bool_decide_eq_true. by destruct (W _ Hl) as (_ & ? & _).
Qed.

Lemma Save_contents ls j j' : Save ls j = (j', None) ->
  json_Marshal {| Format := journalFormat; Leases := record_of <$> ls |} = Some (contents j').
Proof.
  unfold Save. destruct (json_Marshal _) as [f|]; [|done].
  destruct (next_fault j); intros; by simplify_eq.
Qed.

#[global] Instance FileJournal_Spec : JournalSpec FileJournal.
Proof.
  refine {| storable := storable_lease |}.
  - simpl. unfold Load. intros j ls.
    destruct (contents j) as [| | |d]; try done; [intros [= <-]; split; constructor|].
    simpl. destruct (bool_decide _ && _) eqn:B; [|done]. apply andb_prop in B as [_ B].
    destruct (negb _); [done|]. intros L.
    apply load_records_wf in L as (? & _ & ?); [done|].
    apply Forall_forall. intros r Hr. rewrite forallb_forall in B.
    apply list_elem_of_In in Hr. specialize (B _ Hr). by apply bool_decide_eq_true in B.
  - simpl. intros j ls j' ND W S Sv. eapply Load_body; eauto using Save_contents.
Defined.

(** ** Properties *)

(** a save is all or nothing. For leases the format can hold, a journal that
    was saved reads back as exactly those leases, in order; a save that reports
    an error leaves either exactly the new leases, when it failed after its
    rename, or the file as it was. *)
Theorem Save_all_or_nothing ls j :
  NoDup (ID <$> ls) -> Forall lease_wf ls -> Forall storable_lease ls ->
  (Load (Save ls j).1 = Ok ls \/
   contents (Save ls j).1 = contents j /\ (Save ls j).2 = Some ErrJournalIO) /\
  ((Save ls j).2 = None -> Load (Save ls j).1 = Ok ls).
Proof.
  intros ND W S. split.
  - unfold Save. destruct (json_Marshal _) as [body|] eqn:M; [|by right].
    destruct (next_fault j); [left|by right|left]; by eapply Load_body.
  - destruct (Save ls j) as [j' e] eqn:E. simpl. intros ->. eapply Load_body; eauto using Save_contents.
Qed.

Lemma Save_all_or_nothing_witness :
  let ls := [{| ID := "b"; Tenant := "t"; Class := Elastic; Size := 3; GrantedAt := 5; Term := 7 |}] in
  let j := {| contents := Missing; faults := [AfterRename] |} in
  (Load (Save ls j).1 = Ok ls \/
   contents (Save ls j).1 = contents j /\ (Save ls j).2 = Some ErrJournalIO) /\
  ((Save ls j).2 = None -> Load (Save ls j).1 = Ok ls).
Proof.
  intros ls j. apply (Save_all_or_nothing ls j).
  - apply NoDup_singleton.
  - repeat constructor; simpl; unfold MinInt64, MaxInt64; lia.
  - repeat constructor.
Defined.
