(* ===== verification/LeaseTheorems.v ===== *)
(** * LeaseTheorems: the properties of the lease manager

    Each theorem here is a property of the program, with a witness that applies
    it to a concrete manager over a concrete journal file. The lemmas are in
    LeaseProofs.v. *)

From S2P Require Import Prelude Float64 Pool Lease LeaseProofs Journal.

Local Open Scope Z_scope.

(** ** Lemmas *)

Section lemmas.
Context {J : Type} `{Journal J}.
Implicit Types m : Manager J.

Lemma restore_loop_journal now ls : forall m dr un,
  journal (restore_loop ls now m dr un).1 = journal m.
Proof.
  induction ls as [|l ls IH]; intros m dr un; simpl; auto.
  case_if; auto. destruct (Lend _ _); by rewrite IH.
Qed.

Lemma Restore_journal now m : is_Some (journal m) -> is_Some (journal (Restore now m).1).
Proof.
  intros Hj. unfold Restore. destruct (journal m) as [j|] eqn:Ej; [|done].
  destruct (journal_Load j) as [ls|].
  - pose proof (restore_loop_journal now ls (forget_all m) [] []) as R.
    destruct (restore_loop ls now (forget_all m) [] []) as [m1 [dr un]]. simpl in R.
    case_if; [|simpl; by rewrite R, Ej].
    destruct (persistLocked m1) as [m2 e] eqn:P. apply persistLocked_journal in P.
    rewrite R, Ej in P. destruct e; simpl; by apply P.
  - destruct (persistLocked (forget_all m)) as [m2 e'] eqn:P. apply persistLocked_journal in P.
    simpl in P. rewrite Ej in P. destruct e'; simpl; by apply P.
Qed.

Lemma mstep_has_journal m m' : mstep m m' -> minv m -> is_Some (journal m) -> is_Some (journal m').
Proof.
  intros S (base & I & _) Hj. destruct S.
  - by apply Accept_same.
  - by apply Release_same.
  - by apply (Reclaim_same base).
  - by apply (Expire_same base).
  - by apply Restore_journal.
  - simpl. by destruct (prune_same now m) as [-> _].
  - simpl. eauto.
Qed.

Lemma reachable_journal `{!JournalSpec J} m m' :
  rtc mstep m m' -> minv m -> is_Some (journal m) -> is_Some (journal m').
Proof.
  intros R. induction R as [m|m m1 m2 S R IH]; [done|]. intros M Hj.
  apply IH; [by eapply mstep_minv|by eapply mstep_has_journal].
Qed.

(** Sums over the held leases of one kind, as the code computes them. *)
Lemma wsum_kind base P m : inv base m ->
  wsum (Size <$> List.filter P ((map_to_list (leases m)).*2))
  = sum_sizes (List.filter P (leasesLocked m)).
Proof.
  intros I. pose proof (inv_lent_bound _ _ I) as B.
  pose proof (sum_sizes_filter_le base P m I) as F.
  assert (sum_sizes (List.filter P ((map_to_list (leases m)).*2))
          = sum_sizes (List.filter P (leasesLocked m))) as E.
  { unfold sum_sizes. apply Zsum_Permutation, fmap_Permutation.
    pose proof (leasesLocked_Permutation m) as Q. revert Q.
    generalize (leasesLocked m) ((map_to_list (leases m)).*2). clear.
    induction 1; simpl; repeat case_if; auto using Permutation.perm_skip, Permutation.perm_swap.
    by etrans. }
  rewrite <- E in *. unfold sum_sizes in *. apply wsum_exact.
  destruct (inv_acct _ _ I). int64_lia.
Qed.

(** The same sum after a grant. *)
Lemma sum_kind_grant P l now m : leases m !! ID l = None ->
  (forall k, P (set_GrantedAt now k) = P k) ->
  sum_sizes (List.filter P (leasesLocked (grant l now m))) =
  (if P l then Size l else 0) + sum_sizes (List.filter P (leasesLocked m)).
Proof.
  intros E HP.
  assert (leasesLocked (grant l now m) ≡ₚ set_GrantedAt now l :: leasesLocked m) as Q.
  { rewrite !leasesLocked_Permutation. simpl. by rewrite map_to_list_insert. }
  assert (forall xs ys, xs ≡ₚ ys -> sum_sizes (List.filter P xs) = sum_sizes (List.filter P ys)) as F.
  { clear. induction 1; simpl; repeat case_if; rewrite ?sum_sizes_cons; lia. }
  rewrite (F _ _ Q). simpl. rewrite HP. case_if; rewrite ?sum_sizes_cons; simpl; lia.
Qed.

End lemmas.

(** ** A concrete manager, for the witnesses *)

Definition wit_cfg : Config := {|
  ReclaimWithin := 30 * Second; GuaranteedFraction := f64_lit 1 2; MinTerm := 10;
  ChurnWindow := 100; ChurnBudget := 6; Autonomy := true;
  CQuota := {| QBorrowed := 600; QGuaranteed := 400 |} |}.
Definition wit_acct : Accounting := {| Capacity := 1000; Reserved := 100; Borrowed := 0 |}.
Definition wit_disk : FileJournal := {| contents := Missing; faults := [] |}.
Definition wit_lease (id : string) (c : Class_) (n : Bytes) : Lease :=
  {| ID := id; Tenant := "t"; Class := c; Size := n; GrantedAt := 0; Term := 50 |}.
Definition wit_start : Manager FileJournal := WithJournal wit_disk (New wit_acct wit_cfg).
Definition wit_m0 : Manager FileJournal := (Restore 0 wit_start).1.
Definition wit_m1 : Manager FileJournal := (Accept (wit_lease "a" Opportunistic 200) 1 wit_m0).1.
Definition wit_m2 : Manager FileJournal := (Accept (wit_lease "b" Guaranteed 300) 2 wit_m1).1.

Lemma wit_acct_ok : acct_ok wit_acct.
Proof. constructor; simpl; unfold MaxInt64; lia. Qed.

Lemma wit_steps : rtc mstep wit_start wit_m2.
Proof.
  eapply rtc_l; [apply (step_Restore 0)|].
  eapply rtc_l; [apply (step_Accept (wit_lease "a" Opportunistic 200) 1); simpl; int64_lia|].
  eapply rtc_l; [apply (step_Accept (wit_lease "b" Guaranteed 300) 2); simpl; int64_lia|].
  apply rtc_refl.
Qed.

Lemma wit_reachable_inv (m : Manager FileJournal) :
  rtc mstep wit_start m -> restored m = true -> inv 0 m.
Proof.
  intros R Hr. assert (minv wit_start) as M by apply WithJournal_minv, New_minv, wit_acct_ok.
  pose proof (reachable_journal _ _ R M ltac:(simpl; eauto)) as Hj.
  destruct (reachable_minv _ _ M R) as [(b & I & B) _]. by rewrite B in I.
Qed.

Lemma wit_inv1 : inv 0 wit_m1.
Proof.
  apply wit_reachable_inv; [|reflexivity].
  eapply rtc_l; [apply (step_Restore 0)|].
  apply rtc_once, (step_Accept (wit_lease "a" Opportunistic 200) 1); simpl; int64_lia.
Qed.

Lemma wit_inv : inv 0 wit_m2.
Proof. apply wit_reachable_inv; [apply wit_steps|reflexivity]. Qed.

(** ** Accounting *)

(** C1: whatever sequence of grants, releases, reclamations, expiries, replays
    and disk changes a node goes through, its accounting stays within the
    device, the device's size and its residual share never change, every lease
    is filed under its own identifier, and once a journal has been replayed
    what is borrowed is exactly what the live leases hold: no capacity leaks
    and none is lent twice. *)
Theorem accounting_reachable {J} `{JournalSpec J} a c j (m : Manager J) :
  acct_ok a -> rtc mstep (WithJournal j (New a c)) m ->
  acct_ok (acct m) /\ Capacity (acct m) = Capacity a /\ Reserved (acct m) = Reserved a /\
  keyed (leases m) /\ Reserved a + lent (leases m) <= Capacity a /\
  (restored m = true -> Borrowed (acct m) = lent (leases m)).
Proof.
  intros A R.
  assert (minv (WithJournal j (New a c))) as M by by apply WithJournal_minv, New_minv.
  pose proof (reachable_journal _ _ R M ltac:(simpl; eauto)) as Hj.
  destruct (reachable_minv _ _ M R) as ((b & I & B) & Ec & Er).
  pose proof (inv_acct _ _ I) as Ok'. simpl in *.
  split_and!; auto; [apply I| |].
  - rewrite <- Ec, <- Er. destruct Ok'. pose proof (inv_sum _ _ I). pose proof (inv_base _ _ I). lia.
  - intros Hr. rewrite (inv_sum _ _ I), B by done. lia.
Qed.

Lemma accounting_reachable_witness :
  acct_ok (acct wit_m2) /\ Capacity (acct wit_m2) = 1000 /\ Reserved (acct wit_m2) = 100 /\
  keyed (leases wit_m2) /\ 100 + lent (leases wit_m2) <= 1000 /\
  (restored wit_m2 = true -> Borrowed (acct wit_m2) = lent (leases wit_m2)).
Proof. apply (accounting_reachable wit_acct wit_cfg wit_disk); [apply wit_acct_ok|apply wit_steps]. Defined.

(** a refused [Accept], for whatever reason and at whatever point, the
    journal included, leaves the live leases and the accounting as they were,
    and never needs the rollback that could fail. *)
Theorem Accept_refused_atomic {J} `{Journal J} base l now (m m' : Manager J) e :
  inv base m -> Accept l now m = (m', Some e) ->
  leases m' = leases m /\ acct m' = acct m /\ restored m' = restored m /\
  forall je re, e <> ErrJournalAndRollback je re.
Proof.
  intros I A. destruct (Accept_spec _ _ _ _ _ _ I A) as [j ->].
  destruct (prune_frame now m) as [rs E]. rewrite E. split_and!; auto.
  intros je re ->. revert A. unfold Accept. rewrite E in *.
  destruct (accept_refusal _ _ _) as [e|] eqn:R.
  { intros [= _ ->]. revert R. unfold accept_refusal, withinQuota. by repeat case_if. }
  destruct (Lend _ _) as [a|] eqn:L; [|done]. simpl in L.
  destruct (persistLocked _) as [q e] eqn:P. apply persistLocked_frame in P as [k ->].
  destruct e; [|done]. unfold releaseLocked. simpl.
  by rewrite (Return_Lend _ _ _ (inv_acct _ _ I) L).
Qed.

Lemma Accept_refused_atomic_witness :
  let m' := (Accept (wit_lease "c" Opportunistic 500) 3 wit_m2).1 in
  leases m' = leases wit_m2 /\ acct m' = acct wit_m2 /\ restored m' = restored wit_m2 /\
  forall je re, ErrTenantQuota <> ErrJournalAndRollback je re.
Proof.
  intros m'. apply (Accept_refused_atomic 0 (wit_lease "c" Opportunistic 500) 3); [apply wit_inv|].
  apply injective_projections; [reflexivity|]. vm_compute. reflexivity.
Defined.

(** ** The bounds a grant respects *)

(** What the live leases of one kind hold, on the integers. *)
Definition held_by {J} (P : Lease -> bool) (m : Manager J) : Z :=
  sum_sizes (List.filter P (leasesLocked m)).
Definition is_guaranteed (l : Lease) : bool := Class l =? Guaranteed.
Definition of_tenant (t : string) (l : Lease) : bool := (Tenant l =? t)%string.

Lemma filter_filter_andb {A} (P Q : A -> bool) l :
  List.filter P (List.filter Q l) = List.filter (fun x => Q x && P x) l.
Proof. induction l as [|x l IH]; simpl; [done|]. destruct (Q x); simpl; rewrite IH; done. Qed.

Section bounds.
Context {J : Type} `{Journal J}.
Implicit Types m : Manager J.

Lemma held_by_bound base P m : inv base m -> 0 <= held_by P m <= Borrowed (acct m).
Proof.
  intros I. pose proof (sum_sizes_filter_le base P m I). pose proof (inv_sum _ _ I).
  pose proof (inv_base _ _ I). unfold held_by. lia.
Qed.

(** A cap the code checks with wrap-around holds on the integers, because the
    grant also had to fit. *)
Lemma cap_exact base P l m cap : inv base m ->
  0 <= Size l <= Capacity (acct m) - Reserved (acct m) - Borrowed (acct m) ->
  (cap <? held_by P m +! Size l) = false -> held_by P m + Size l <= cap.
Proof.
  intros I B E. pose proof (held_by_bound base P m I). destruct (inv_acct _ _ I).
  apply Z.ltb_ge in E. rewrite wrap64_id in E by int64_lia. done.
Qed.

Lemma withinQuota_spec base l m : inv base m -> withinQuota l m = None ->
  0 <= Size l <= Capacity (acct m) - Reserved (acct m) - Borrowed (acct m) ->
  Bounded_quota (CQuota (cfg m)) = true -> Tenant l <> NodeTenant ->
  Tenant l <> ""%string /\
  (0 < QBorrowed (CQuota (cfg m)) ->
     held_by (of_tenant (Tenant l)) m + Size l <= QBorrowed (CQuota (cfg m))) /\
  (Class l = Guaranteed -> 0 < QGuaranteed (CQuota (cfg m)) ->
     held_by (fun k => of_tenant (Tenant l) k && is_guaranteed k) m + Size l
       <= QGuaranteed (CQuota (cfg m))).
Proof.
  intros I W B Q T. unfold withinQuota in W. rewrite Q in W. simpl in W.
  apply String.eqb_neq in T. rewrite T in W.
  destruct (Tenant l =? "")%string eqn:E; [done|]. unfold tenant_leases in W.
  rewrite filter_filter_andb, !(wsum_kind base) in W by done.
  change (sum_sizes _) with (held_by (of_tenant (Tenant l)) m) in W at 1.
  change (sum_sizes _) with (held_by (fun k => of_tenant (Tenant l) k && is_guaranteed k) m) in W.
  split_and!; [by apply String.eqb_neq| |].
  - intros P. apply Z.ltb_lt in P. rewrite P in W. simpl in W.
    destruct (_ <? held_by _ m +! _) eqn:C in W; [done|]. by eapply cap_exact.
  - intros G P. apply Z.ltb_lt in P. apply Z.eqb_eq in G. rewrite P, G in W. simpl in W.
    case_if; [done|]. destruct (_ <? held_by _ m +! _) eqn:C in W; [done|]. by eapply cap_exact.
Qed.

End bounds.

(** C3: a granted lease is filed under a fresh identifier and stamped with the
    time of the grant; the total of guaranteed leases stays within the
    configured share of the device, and the tenant within both of its quotas,
    as sums on the integers that no overflow can defeat; the pool was neither
    churning nor cooling down. *)
Theorem Accept_respects_bounds {J} `{Journal J} base l now (m m' : Manager J) :
  inv base m -> Accept l now m = (m', None) ->
  leases m !! ID l = None /\ leases m' = <[ID l := set_GrantedAt now l]> (leases m) /\
  Borrowed (acct m') = Borrowed (acct m) + Size l /\
  (Class l = Guaranteed -> held_by is_guaranteed m' <= guaranteed_limit m') /\
  (Bounded_quota (CQuota (cfg m')) = true -> Tenant l <> NodeTenant ->
     Tenant l <> ""%string /\
     (0 < QBorrowed (CQuota (cfg m')) ->
        held_by (of_tenant (Tenant l)) m' <= QBorrowed (CQuota (cfg m'))) /\
     (Class l = Guaranteed -> 0 < QGuaranteed (CQuota (cfg m')) ->
        held_by (fun k => of_tenant (Tenant l) k && is_guaranteed k) m'
          <= QGuaranteed (CQuota (cfg m')))) /\
  churning now m' = false /\ (inCooldown now m').1 = false.
Proof.
  intros I A. destruct (Accept_spec _ _ _ _ _ _ I A) as (j & -> & E & R & B). clear A.
  assert (inv base (prune now m)) as Ip by by apply prune_inv.
  destruct (prune_frame now m) as [rs Ep]. rewrite Ep in *. clear Ep.
  set (p := set_reclaims rs m) in *.
  assert (forall P, (forall k, P (set_GrantedAt now k) = P k) -> P l = true ->
            held_by P (set_journal j (grant l now p)) = held_by P p + Size l) as G.
  { intros P HP Pl. unfold held_by.
    change (leasesLocked (set_journal j _)) with (leasesLocked (grant l now p)).
    rewrite sum_kind_grant by done. rewrite Pl. lia. }
  unfold accept_refusal in R.
  destruct (negb (restored p)); [done|]. destruct (negb (Valid _)); [done|].
  destruct (Term l <=? 0); [done|]. destruct (bool_decide _); [done|].
  destruct (churning now p) eqn:Ch; [done|]. destruct (inCooldown now p).1 eqn:Co; [done|].
  destruct (_ && _) in R; [done|]. destruct (withinQuota l p) eqn:W; [done|].
  split_and!; auto.
  - intros Gc. rewrite G by (auto; by apply Z.eqb_eq). rewrite (proj2 (Z.eqb_eq _ _) Gc) in R.
    unfold guaranteedTotal in R. rewrite (wsum_kind base) in R by done. simpl in R.
    destruct (_ <? _) eqn:C in R; [done|]. by eapply (cap_exact base is_guaranteed).
  - intros Q T. destruct (withinQuota_spec base l p Ip W B Q T) as (T1 & T2 & T3).
    split_and!; auto; intros; rewrite G; auto.
    + unfold of_tenant. apply String.eqb_refl.
    + unfold of_tenant, is_guaranteed. rewrite String.eqb_refl. by apply Z.eqb_eq.
Qed.

Lemma Accept_respects_bounds_witness :
  let l := wit_lease "b" Guaranteed 300 in
  let m' := (Accept l 2 wit_m1).1 in
  leases wit_m1 !! ID l = None /\ leases m' = <[ID l := set_GrantedAt 2 l]> (leases wit_m1) /\
  Borrowed (acct m') = Borrowed (acct wit_m1) + Size l /\
  (Class l = Guaranteed -> held_by is_guaranteed m' <= guaranteed_limit m') /\
  (Bounded_quota (CQuota (cfg m')) = true -> Tenant l <> NodeTenant ->
     Tenant l <> ""%string /\
     (0 < QBorrowed (CQuota (cfg m')) ->
        held_by (of_tenant (Tenant l)) m' <= QBorrowed (CQuota (cfg m'))) /\
     (Class l = Guaranteed -> 0 < QGuaranteed (CQuota (cfg m')) ->
        held_by (fun k => of_tenant (Tenant l) k && is_guaranteed k) m'
          <= QGuaranteed (CQuota (cfg m')))) /\
  churning 2 m' = false /\ (inCooldown 2 m').1 = false.
Proof.
  intros l m'. apply (Accept_respects_bounds 0 l 2); [apply wit_inv1|].
  apply injective_projections; [reflexivity|]. vm_compute. reflexivity.
Defined.

(** ** The reclaim ladder *)

Section ladder.
Context {J : Type} `{Journal J}.
Implicit Types m : Manager J.

Lemma elem_of_filter_b {A} (P : A -> bool) (l : list A) x :
  x ∈ List.filter P l <-> x ∈ l /\ P x = true.
Proof. by rewrite list_elem_of_In, List.filter_In, list_elem_of_In. Qed.

Lemma reclaim_choice_held base need now m : inv base m -> held m (reclaim_choice need now m).
Proof.
  intros I. pose proof (expired_held _ now _ I) as Hx. unfold reclaim_choice.
  set (ex := expired_leases now m) in *.
  pose proof (ladder_held base ex (need - sum_sizes ex) m I Hx) as [ND F].
  assert (forall l, l ∈ shortest_prefix (need - sum_sizes ex)
            (reclaimable (leasesLocked (drop_leases ex m))) -> ID l ∉ ID <$> ex /\
            leases m !! ID l = Some l) as K.
  { intros l Hl. rewrite Forall_forall in F. pose proof (F _ Hl) as E.
    rewrite drop_leases_lookup in E. case_bool_decide; [done|]. done. }
  destruct Hx as [NDx Fx]. split.
  - rewrite fmap_app. apply NoDup_app. split_and!; auto.
    intros i Hi (l & -> & Hl)%list_elem_of_fmap. by destruct (K _ Hl).
  - apply Forall_app. split; auto. apply Forall_forall. intros l Hl. by apply K.
Qed.

Lemma elem_of_expired base now m l : inv base m ->
  l ∈ expired_leases now m <-> leases m !! ID l = Some l /\ Expired l now = true.
Proof.
  intros I. unfold expired_leases. rewrite elem_of_filter_b, elem_of_leasesLocked.
  split; intros [A B]; split; eauto. destruct A as [id E]. by rewrite (inv_keyed _ _ I _ _ E).
Qed.

(** What the ladder picks among the leases still running. *)
Lemma ladder_elem need ls l : l ∈ shortest_prefix need (reclaimable ls) ->
  l ∈ ls /\ Class l <> Guaranteed.
Proof.
  intros Hl. eapply elem_of_sublist in Hl; [|apply shortest_prefix_sublist].
  apply elem_of_filter_b in Hl as [Hl G]. bool_to_prop. auto.
Qed.

(** A running lease that stays is either guaranteed or no cheaper than any
    running lease that goes, and then the need is covered. *)
Lemma ladder_cheapest need ls k : StronglySorted reclaim_le ls -> k ∈ ls ->
  Class k <> Guaranteed -> k ∉ shortest_prefix need (reclaimable ls) ->
  need <= sum_sizes (shortest_prefix need (reclaimable ls)) /\
  forall l, l ∈ shortest_prefix need (reclaimable ls) -> reclaim_le l k.
Proof.
  intros S Hk G N.
  assert (k ∈ reclaimable ls) as Kr.
  { apply elem_of_filter_b. split; auto. by apply negb_true_iff, Z.eqb_neq. }
  split.
  - destruct (shortest_prefix_covers (reclaimable ls) need) as [|E]; [done|]. by rewrite E in N.
  - intros l Hl. destruct (shortest_prefix_prefix (reclaimable ls) need) as [t E].
    assert (StronglySorted reclaim_le (reclaimable ls)) as S' by by apply StronglySorted_filterb.
    rewrite E in Kr, S'. apply elem_of_app in Kr as [Kr|Kr]; [done|].
    eapply StronglySorted_app_1_elem_of; eauto.
Qed.

Lemma reclaim_keeps base need now m id l : inv base m ->
  leases (drop_leases (reclaim_choice need now m) m) !! id = Some l ->
  leases m !! ID l = Some l /\ l ∉ reclaim_choice need now m /\ Expired l now = false /\
  l ∈ leasesLocked (drop_leases (expired_leases now m) m).
Proof.
  intros I E. rewrite drop_leases_lookup in E. case_bool_decide as Hid; [done|].
  pose proof (inv_keyed _ _ I _ _ E) as Ei. simpl in Ei. subst id.
  assert (forall ls : list Lease, l ∈ ls -> ID l ∈ ID <$> ls) as In.
  { intros ls Hl. apply list_elem_of_fmap. eauto. }
  assert (ID l ∉ ID <$> expired_leases now m) as Nx.
  { intros Hx. apply Hid. unfold reclaim_choice. rewrite fmap_app. set_solver. }
  split_and!; auto.
  - destruct (Expired l now) eqn:X; auto. exfalso. apply Nx, In. by apply (elem_of_expired base).
  - apply elem_of_leasesLocked. exists (ID l). by rewrite drop_leases_lookup, bool_decide_false.
Qed.

(** Of the leases the ladder takes, those still running come from its second
    phase. *)
Lemma reclaim_running base need now m l : inv base m ->
  l ∈ reclaim_choice need now m -> Expired l now = false ->
  l ∈ shortest_prefix (need - sum_sizes (expired_leases now m))
        (reclaimable (leasesLocked (drop_leases (expired_leases now m) m))).
Proof.
  intros I [Hl|Hl]%elem_of_app X; auto.
  apply (elem_of_expired base) in Hl as [_ ?]; auto. congruence.
Qed.

Lemma reclaim_minimal base need now m p l : inv base m ->
  reclaim_choice need now m = p ++ [l] -> Expired l now = false -> sum_sizes p < need.
Proof.
  intros I E X. assert (l ∈ reclaim_choice need now m) as Hl by (rewrite E; set_solver).
  apply (reclaim_running base) in Hl; auto. unfold reclaim_choice in E.
  destruct (shortest_prefix _ _) as [|y t _] eqn:Sp using rev_ind; [by apply elem_of_nil in Hl|].
  rewrite app_assoc in E. apply app_inj_tail in E as [<- <-].
  apply shortest_prefix_minimal in Sp. rewrite sum_sizes_app. lia.
Qed.

Lemma reclaim_short base need now m id l : inv base m ->
  sum_sizes (reclaim_choice need now m) < need ->
  leases (drop_leases (reclaim_choice need now m) m) !! id = Some l -> Class l = Guaranteed.
Proof.
  intros I Sh E. destruct (decide (Class l = Guaranteed)) as [|G]; auto.
  exfalso. apply (reclaim_keeps base) in E as (_ & Nc & _ & El); auto.
  unfold reclaim_choice in Sh, Nc. rewrite sum_sizes_app in Sh.
  eapply (ladder_cheapest (need - sum_sizes (expired_leases now m))) in El as [Cov _];
    auto using leasesLocked_Sorted; [lia|set_solver].
Qed.

End ladder.

(** C2: [Reclaim] refines the ladder. It releases every lease whose term has run
    out and no running guaranteed lease; among running leases it takes the
    cheapest first, in class order and oldest first, and none it could have
    left; the totals it reports are what it released, and it falls short only
    when running guaranteed leases are all that is left. *)
Theorem Reclaim_refines_ladder {J} `{Journal J} base need now (m m' : Manager J) r :
  inv base m -> is_int64 need -> 0 < need -> Reclaim need now m = (m', r) ->
  exists gone,
    Dropped r = ID <$> gone /\ Reclaimed r = sum_sizes gone /\
    Shortfall r = Z.max 0 (need - sum_sizes gone) /\
    Borrowed (acct m') = Borrowed (acct m) - sum_sizes gone /\
    NoDup (ID <$> gone) /\ Forall (fun l => leases m !! ID l = Some l) gone /\
    (forall id, leases m' !! id =
       if bool_decide (id ∈ ID <$> gone) then None else leases m !! id) /\
    (forall id l, leases m' !! id = Some l -> Expired l now = false) /\
    (forall l, l ∈ gone -> Expired l now = false -> Class l <> Guaranteed) /\
    (forall l k id, l ∈ gone -> Expired l now = false -> leases m' !! id = Some k ->
       Class k <> Guaranteed -> reclaim_le l k) /\
    (forall p l, gone = p ++ [l] -> Expired l now = false -> sum_sizes p < need) /\
    (0 < Shortfall r -> forall id l, leases m' !! id = Some l -> Class l = Guaranteed).
Proof.
  intros I Hn N R. destruct (Reclaim_spec base need now m m' r) as ((j & rs & ->) & D & S & F & _); auto.
  pose proof (reclaim_choice_held base need now m I) as [ND Hd].
  exists (reclaim_choice need now m).
  change (leases (set_journal j (set_reclaims rs ?x))) with (leases x).
  change (acct (set_journal j (set_reclaims rs ?x))) with (acct x).
  split_and!; auto using drop_leases_Borrowed, drop_leases_lookup.
  - intros id l E. apply (reclaim_keeps base) in E as (_ & _ & ? & _); auto.
  - intros l Hl X. apply (reclaim_running base) in Hl; auto. by apply ladder_elem in Hl as [_ ?].
  - intros l k id Hl X E G. apply (reclaim_running base) in Hl; auto.
    apply (reclaim_keeps base) in E as (_ & Nc & _ & El); auto.
    eapply ladder_cheapest; eauto using leasesLocked_Sorted.
    intros Hk. apply Nc. unfold reclaim_choice. set_solver.
  - intros p l E X. by eapply reclaim_minimal.
  - intros Sh id l. rewrite F in Sh. apply (reclaim_short base); [done|lia].
Qed.

Lemma Reclaim_refines_ladder_witness :
  let m' := (Reclaim 150 3 wit_m2).1 in
  let r := (Reclaim 150 3 wit_m2).2 in
  exists gone,
    Dropped r = ID <$> gone /\ Reclaimed r = sum_sizes gone /\
    Shortfall r = Z.max 0 (150 - sum_sizes gone) /\
    Borrowed (acct m') = Borrowed (acct wit_m2) - sum_sizes gone /\
    NoDup (ID <$> gone) /\ Forall (fun l => leases wit_m2 !! ID l = Some l) gone /\
    (forall id, leases m' !! id =
       if bool_decide (id ∈ ID <$> gone) then None else leases wit_m2 !! id) /\
    (forall id l, leases m' !! id = Some l -> Expired l 3 = false) /\
    (forall l, l ∈ gone -> Expired l 3 = false -> Class l <> Guaranteed) /\
    (forall l k id, l ∈ gone -> Expired l 3 = false -> leases m' !! id = Some k ->
       Class k <> Guaranteed -> reclaim_le l k) /\
    (forall p l, gone = p ++ [l] -> Expired l 3 = false -> sum_sizes p < 150) /\
    (0 < Shortfall r -> forall id l, leases m' !! id = Some l -> Class l = Guaranteed).
Proof.
  intros m' r. apply (Reclaim_refines_ladder 0 150 3); [apply wit_inv|int64_lia|lia|].
  apply surjective_pairing.
Defined.

(** ** Restart *)

(** C4: a node that restarts keeps exactly the leases that were still running:
    when the last save succeeded and the journal's format can hold the leases,
    a manager built afresh for a device they fit, and replayed at any later
    time, holds every unexpired lease unchanged and nothing else, counts
    exactly their capacity as borrowed, reports the expired ones as dropped,
    and accepts leases again unless rewriting the journal failed. *)
Theorem restart_roundtrip {J} `{S : JournalSpec J} base (m : Manager J) j0 j a c now :
  inv base m -> journal_Save (leasesLocked m) j0 = (j, None) ->
  Forall storable (leasesLocked m) -> acct_ok a ->
  Reserved a + held_by (fun l => negb (Expired l now)) m <= Capacity a ->
  let '(m', (res, e)) := Restore now (WithJournal j (New a c)) in
  leases m' = filter (fun kv => negb (Expired kv.2 now) = true) (leases m) /\
  Borrowed (acct m') = held_by (fun l => negb (Expired l now)) m /\
  Dropped res = ID <$> List.filter (fun l => Expired l now) (leasesLocked m) /\
  Unfittable res = [] /\ restored m' = is_ok (match e with None => Ok tt | Some x => Err x end).
Proof.
  intros I Sv St A Fit. pose proof (leasesLocked_NoDup m (inv_keyed _ _ I)) as ND.
  pose proof (inv_wf_list _ _ I) as W.
  pose proof (Save_Load _ _ _ ND W St Sv) as Ld.
  unfold Restore. simpl. rewrite Ld.
  set (m0 := forget_all (WithJournal j (New a c))).
  assert (inv 0 m0) as I0 by (apply (forget_all_inv (Borrowed a)), set_restored_inv, set_journal_inv;
    constructor; simpl; [done|apply A|rewrite lent_empty; lia|apply map_Forall_empty..]).
  rewrite (restore_loop_fits 0 now (leasesLocked m) m0); auto.
  - destruct (restore_fold_frame (live_leases now (leasesLocked m)) m0) as (Ea & El & _ & _ & _ & Er).
    set (m1 := fold_left _ _ m0) in *. simpl.
    assert (leases m1 = filter (fun kv => negb (Expired kv.2 now) = true) (leases m)) as El'.
    { rewrite El. apply (rebuild_filter (fun l => negb (Expired l now))), I. }
    assert (Borrowed (acct m1) = held_by (fun l => negb (Expired l now)) m) as Eb by by rewrite Ea.
    destruct (_ || _); [|by split_and!].
    destruct (persistLocked m1) as [m2 e] eqn:P. apply persistLocked_frame in P as [k ->].
    destruct e; simpl; split_and!; auto.
  - apply Forall_forall. intros l Hl. apply elem_of_leasesLocked in Hl as [id E].
    apply (inv_sizes _ _ I _ _ E).
  - apply Forall_forall. intros. apply lookup_empty.
  - simpl. unfold held_by in Fit. unfold live_leases. lia.
Qed.

Definition wit_saved : FileJournal := (Save (leasesLocked wit_m2) wit_disk).1.

Lemma restart_roundtrip_witness :
  let '(m', (res, e)) := Restore 51 (WithJournal wit_saved (New wit_acct wit_cfg)) in
  leases m' = filter (fun kv => negb (Expired kv.2 51) = true) (leases wit_m2) /\
  Borrowed (acct m') = held_by (fun l => negb (Expired l 51)) wit_m2 /\
  Dropped res = ID <$> List.filter (fun l => Expired l 51) (leasesLocked wit_m2) /\
  Unfittable res = [] /\ restored m' = is_ok (match e with None => Ok tt | Some x => Err x end).
Proof.
  apply (restart_roundtrip 0 wit_m2 wit_disk wit_saved wit_acct wit_cfg 51).
  - apply wit_inv.
  - vm_compute. reflexivity.
  - replace (leasesLocked wit_m2) with
      [set_GrantedAt 1 (wit_lease "a" Opportunistic 200); set_GrantedAt 2 (wit_lease "b" Guaranteed 300)]
      by (vm_compute; reflexivity).
    repeat constructor.
  - apply wit_acct_ok.
  - vm_compute. discriminate.
Defined.

(** ** The cooldown *)

(** with autonomy on and a term floor no longer than the churn window, the
    cooldown after n recent reclamations is the term floor doubled n-1 times
    and capped at the churn window; it never falls below the floor and the
    doubling never overflows. *)
Theorem cooldown_closed_form {J} (m : Manager J) now :
  0 < MinTerm (cfg m) <= ChurnWindow (cfg m) -> ChurnWindow (cfg m) <= 2 ^ 62 ->
  Autonomy (cfg m) = true ->
  let n := zlen (List.filter (after_cutoff now (ChurnWindow (cfg m))) (reclaims m)) in
  cooldownFor now m =
    (Z.min (ChurnWindow (cfg m)) (MinTerm (cfg m) * 2 ^ Z.max 0 (n - 1)), n) /\
  MinTerm (cfg m) <= (cooldownFor now m).1.
Proof.
  intros B W A n. change (2 ^ 62) with 4611686018427387904 in W.
  unfold cooldownFor. fold n. rewrite A.
  destruct (Z.leb_spec (MinTerm (cfg m)) 0); [lia|].
  destruct (Z.leb_spec n 1); simpl.
  - rewrite Z.max_l, Z.min_r by lia. split; [f_equal; lia|lia].
  - rewrite Z.max_r by lia.
    destruct (double_until_min (Z.to_nat (n - 1)) (MinTerm (cfg m)) (ChurnWindow (cfg m)))
      as [E L]; [lia|lia|]. rewrite Z2Nat.id in E by lia. rewrite <- E.
    destruct (Z.ltb_spec 0 (ChurnWindow (cfg m))); [|lia]. simpl.
    destruct (Z.ltb_spec (ChurnWindow (cfg m))
      (double_until (Z.to_nat (n - 1)) (MinTerm (cfg m)) (ChurnWindow (cfg m)))); simpl;
      split; try lia; f_equal; lia.
Qed.

Definition wit_reclaims : list time := [950; 960; 970].
Lemma cooldown_closed_form_witness :
  let m := set_reclaims wit_reclaims wit_m2 in
  let n := zlen (List.filter (after_cutoff 1000 (ChurnWindow (cfg m))) (reclaims m)) in
  cooldownFor 1000 m =
    (Z.min (ChurnWindow (cfg m)) (MinTerm (cfg m) * 2 ^ Z.max 0 (n - 1)), n) /\
  MinTerm (cfg m) <= (cooldownFor 1000 m).1.
Proof. apply cooldown_closed_form; vm_compute; intuition discriminate. Defined.

(** when the term floor is longer than the churn window, the cooldown meant
    to grow shrinks instead: from the second recent reclamation on it is the
    churn window, which is shorter than the floor a single one imposes. *)
Theorem cooldown_shrinks {J} (m : Manager J) now :
  0 < ChurnWindow (cfg m) < MinTerm (cfg m) -> Autonomy (cfg m) = true ->
  1 < zlen (List.filter (after_cutoff now (ChurnWindow (cfg m))) (reclaims m)) ->
  (cooldownFor now m).1 = ChurnWindow (cfg m) /\ (cooldownFor now m).1 < MinTerm (cfg m).
Proof.
  intros B A N. unfold cooldownFor.
  set (n := zlen _) in *. rewrite A.
  destruct (Z.leb_spec (MinTerm (cfg m)) 0); [lia|]. destruct (Z.leb_spec n 1); [lia|]. simpl.
  assert (double_until (Z.to_nat (n - 1)) (MinTerm (cfg m)) (ChurnWindow (cfg m)) = MinTerm (cfg m))
    as ->.
  { destruct (Z.to_nat (n - 1)); simpl; [done|].
    destruct (Z.ltb_spec (MinTerm (cfg m)) (ChurnWindow (cfg m))); [lia|done]. }
  destruct (Z.ltb_spec 0 (ChurnWindow (cfg m))); [|lia].
  destruct (Z.ltb_spec (ChurnWindow (cfg m)) (MinTerm (cfg m))); [|lia]. simpl. lia.
Qed.

Definition wit_short_window : Manager FileJournal :=
  {| cfg := {| ReclaimWithin := 30; GuaranteedFraction := f64_lit 1 2; MinTerm := 100;
               ChurnWindow := 60; ChurnBudget := 6; Autonomy := true;
               CQuota := {| QBorrowed := 0; QGuaranteed := 0 |} |};
     acct := wit_acct; leases := ∅; reclaims := wit_reclaims; journal := None; restored := true |}.

Lemma cooldown_shrinks_witness :
  (cooldownFor 980 wit_short_window).1 = 60 /\ (cooldownFor 980 wit_short_window).1 < 100.
Proof. apply (cooldown_shrinks wit_short_window 980); vm_compute; intuition congruence. Defined.
