(* ===== verification/FastTier.v ===== *)
(** * FastTier: the node-local block cache (internal/fasttier)

    A cache is a set of slabs (one per lease), a map from block keys to
    placements, the record of first reads and the clocks. Slabs are shared by
    pointer between the cache and the readers in flight, so they live in a heap
    of their own and a placement holds a pointer. [Read] drops the lock while
    it reads the extent; it is three definitions, [Read_begin], [slab_read] and
    [Read_end], and [tstep] interleaves them, chunk by chunk, with every other
    operation. The theorems are in FastTierProofs.v.

    Where the source ranges over the resident map, the fold is over
    [map_to_list]; the theorems do not depend on its order. *)

From S2P Require Import Prelude.

Local Open Scope Z_scope.

(** ** Keys (block.go) *)

Record BlockRef : Type := mkBlockRef {
  Backend : string;
  Object : string;
  Index : Z;
}.

Record Key : Type := mkKey {
  KTenant : string;
  Block : BlockRef;
}.

#[global] Instance BlockRef_eq_dec : EqDecision BlockRef.
Proof. solve_decision. Defined.
#[global] Instance Key_eq_dec : EqDecision Key.
Proof. solve_decision. Defined.
#[global] Instance Key_countable : Countable Key.
Proof.
  apply (inj_countable'
    (fun k => (KTenant k, Backend (Block k), Object (Block k), Index (Block k)))
    (fun t => mkKey t.1.1.1 (mkBlockRef t.1.1.2 t.1.2 t.2))).
  by intros [? []].
Defined.

(** ** First reads (admission.go)

    [order] is the list, oldest at the front; [seen] is the map's keys. *)
Record firstReads : Type := mkFirstReads {
  limit : Z;
  forder : list Key;
  seen : gset Key;
}.

Definition newFirstReads (lim : Z) : firstReads :=
  {| limit := lim; forder := []; seen := ∅ |}.

(** [order.Remove] of the element holding [k]. *)
Definition remove_key (k : Key) : list Key -> list Key :=
  List.filter (fun k' => negb (bool_decide (k' = k))).

Definition sawBefore (k : Key) (f : firstReads) : firstReads * bool :=
  if bool_decide (k ∈ seen f) then (f, true)
  else if limit f <=? 0 then (f, false)
  else
    let f := if limit f <=? zlen (forder f) then
               match forder f with
               | oldest :: rest =>
                   {| limit := limit f; forder := rest; seen := seen f ∖ {[oldest]} |}
               | [] => f
               end
             else f in
    ({| limit := limit f; forder := forder f ++ [k]; seen := {[k]} ∪ seen f |}, false).

Definition forget (k : Key) (f : firstReads) : firstReads :=
  if bool_decide (k ∈ seen f)
  then {| limit := limit f; forder := remove_key k (forder f); seen := seen f ∖ {[k]} |}
  else f.

(** ** Slabs (slab.go) *)

Inductive TierErr : Type :=
  | ErrRevoked
  | ErrNoCapacity
  | ErrWouldEvict
  | ErrBlockTooLarge
  | ErrExtent
  | ErrHeld
  | ErrDevice.

#[global] Instance TierErr_eq_dec : EqDecision TierErr.
Proof. solve_decision. Defined.

(** [file] is the extent's bytes, which the descriptor keeps alive after an
    unlink; [closed] is the descriptor's state. *)
Record slab : Type := mkSlab {
  lease : string;
  file : list byte;
  slots : Z;
  free : list Z;
  revoked : bool;
  closed : bool;
}.

Definition set_free (fr : list Z) (s : slab) : slab :=
  {| lease := lease s; file := file s; slots := slots s; free := fr;
     revoked := revoked s; closed := closed s |}.
Definition set_file (f : list byte) (s : slab) : slab :=
  {| lease := lease s; file := f; slots := slots s; free := free s;
     revoked := revoked s; closed := closed s |}.

(** [for i := slots - 1; i >= 0; i--] *)
Definition countdown (n : Z) : list Z := reverse (seqZ 0 n).

(** [extent] is what opening the path gives: the file's bytes, or an error. *)
Definition openSlab (l : string) (extent : option (list byte)) (blockSize : Z)
  : result TierErr slab :=
  match extent with
  | None => Err ErrExtent
  | Some f =>
      let n := zlen f / blockSize in
      if n =? 0 then Err ErrExtent
      else Ok {| lease := l; file := f; slots := n; free := countdown n;
                 revoked := false; closed := false |}
  end.

Definition slab_take (s : slab) : option (Z * slab) :=
  if revoked s then None
  else match last (free s) with
       | None => None
       | Some slot => Some (slot, set_free (removelast (free s)) s)
       end.

Definition slab_release (slot : Z) (s : slab) : slab := set_free (free s ++ [slot]) s.

(** [WriteAt] within the file. *)
Definition write_at (off : Z) (data f : list byte) : list byte :=
  ztake off f ++ data ++ zdrop (off + zlen data) f.

(** [io] is whether the device carries the write out. *)
Definition slab_write (slot : Z) (data : list byte) (blockSize : Z) (io : bool) (s : slab)
  : result TierErr slab :=
  if revoked s then Err ErrRevoked
  else if blockSize <? zlen data then Err ErrBlockTooLarge
  else if closed s || negb io then Err ErrDevice
  else Ok (set_file (write_at (slot * blockSize) data (file s)) s).

(** [ReadAt] of [len] bytes reports an error when fewer are there. *)
Definition slab_read (slot len blockSize : Z) (io : bool) (s : slab) : result TierErr (list byte) :=
  if revoked s then Err ErrRevoked
  else if closed s || negb io then Err ErrDevice
  else let data := slice (slot * blockSize) (slot * blockSize + len) (file s) in
       if zlen data <? len then Err ErrDevice else Ok data.

Definition slab_revoke (s : slab) : slab :=
  {| lease := lease s; file := file s; slots := slots s; free := free s;
     revoked := true; closed := closed s |}.
Definition slab_close (s : slab) : slab :=
  {| lease := lease s; file := file s; slots := slots s; free := free s;
     revoked := revoked s; closed := true |}.

(** ** The cache (cache.go) *)

Record Config : Type := mkTierConfig {
  BlockSize : Z;
  FirstReadLimit : Z;
}.

Record placement : Type := mkPlacement {
  pslab : nat;
  pslot : Z;
  plength : Z;
  used : Z;
  gen : Z;
}.

Record Cache : Type := mkCache {
  tcfg : Config;
  heap : list slab;
  slabs : gmap string nat;
  order : list string;
  resident : gmap Key placement;
  first : firstReads;
  clock : Z;
  generation : Z;
  hits : Z;
  misses : Z;
}.

Definition set_heap (h : list slab) (c : Cache) : Cache :=
  {| tcfg := tcfg c; heap := h; slabs := slabs c; order := order c; resident := resident c;
     first := first c; clock := clock c; generation := generation c;
     hits := hits c; misses := misses c |}.
Definition set_slabs (m : gmap string nat) (c : Cache) : Cache :=
  {| tcfg := tcfg c; heap := heap c; slabs := m; order := order c; resident := resident c;
     first := first c; clock := clock c; generation := generation c;
     hits := hits c; misses := misses c |}.
Definition set_order (o : list string) (c : Cache) : Cache :=
  {| tcfg := tcfg c; heap := heap c; slabs := slabs c; order := o; resident := resident c;
     first := first c; clock := clock c; generation := generation c;
     hits := hits c; misses := misses c |}.
Definition set_resident (m : gmap Key placement) (c : Cache) : Cache :=
  {| tcfg := tcfg c; heap := heap c; slabs := slabs c; order := order c; resident := m;
     first := first c; clock := clock c; generation := generation c;
     hits := hits c; misses := misses c |}.
Definition set_first (f : firstReads) (c : Cache) : Cache :=
  {| tcfg := tcfg c; heap := heap c; slabs := slabs c; order := order c; resident := resident c;
     first := f; clock := clock c; generation := generation c;
     hits := hits c; misses := misses c |}.
Definition tick (c : Cache) : Cache :=
  {| tcfg := tcfg c; heap := heap c; slabs := slabs c; order := order c; resident := resident c;
     first := first c; clock := wrapU64 (clock c + 1); generation := generation c;
     hits := hits c; misses := misses c |}.
Definition next_generation (c : Cache) : Cache :=
  {| tcfg := tcfg c; heap := heap c; slabs := slabs c; order := order c; resident := resident c;
     first := first c; clock := clock c; generation := wrapU64 (generation c + 1);
     hits := hits c; misses := misses c |}.
Definition count_hit (c : Cache) : Cache :=
  {| tcfg := tcfg c; heap := heap c; slabs := slabs c; order := order c; resident := resident c;
     first := first c; clock := clock c; generation := generation c;
     hits := hits c +! 1; misses := misses c |}.
Definition count_miss (c : Cache) : Cache :=
  {| tcfg := tcfg c; heap := heap c; slabs := slabs c; order := order c; resident := resident c;
     first := first c; clock := clock c; generation := generation c;
     hits := hits c; misses := misses c +! 1 |}.

(** Update the slab a pointer refers to. *)
Definition with_slab (p : nat) (f : slab -> slab) (c : Cache) : Cache :=
  set_heap (alter f p (heap c)) c.

Definition New (c : Config) : option Cache :=
  if BlockSize c <=? 0 then None
  else if FirstReadLimit c <? 0 then None
  else Some {| tcfg := c; heap := []; slabs := ∅; order := []; resident := ∅;
               first := newFirstReads (FirstReadLimit c); clock := 0; generation := 0;
               hits := 0; misses := 0 |}.

Definition AddCapacity (l : string) (extent : option (list byte)) (c : Cache)
  : Cache * option TierErr :=
  match openSlab l extent (BlockSize (tcfg c)) with
  | Err e => (c, Some e)
  | Ok s =>
      let p := length (heap c) in
      match slabs c !! l with
      | Some _ => (set_heap (heap c ++ [slab_close s]) c, Some ErrHeld)
      | None =>
          (set_order (order c ++ [l]) (set_slabs (<[l := p]> (slabs c))
             (set_heap (heap c ++ [s]) c)), None)
      end
  end.

(** Drop the first occurrence, as the loop over [c.order] does. *)
Fixpoint remove_first (l : string) (ls : list string) : list string :=
  match ls with
  | [] => []
  | x :: ls => if (x =? l)%string then ls else x :: remove_first l ls
  end.

Definition Revoke (l : string) (c : Cache) : Cache * Z :=
  match slabs c !! l with
  | None => (c, 0)
  | Some s =>
      let c := with_slab s slab_revoke c in
      let kept := filter (fun kp : Key * placement => pslab kp.2 <> s) (resident c) in
      let dropped := Z.of_nat (size (resident c)) - Z.of_nat (size kept) in
      let c := set_resident kept c in
      let c := set_slabs (delete l (slabs c)) c in
      let c := set_order (remove_first l (order c)) c in
      (with_slab s slab_close c, dropped)
  end.

Definition ReclaimOrder (ls : list string) (c : Cache) : Cache := set_order ls c.

(** *** Reading *)

(** A read in flight: what [Read] remembers across the unlocked section. *)
Record reader : Type := mkReader {
  rkey : Key;
  rplace : placement;
}.

Definition Read_begin (k : Key) (c : Cache) : Cache * option reader :=
  match resident c !! k with
  | None => (count_miss c, None)
  | Some p =>
      let c := tick c in
      let p := {| pslab := pslab p; pslot := pslot p; plength := plength p;
                  used := clock c; gen := gen p |} in
      (set_resident (<[k := p]> (resident c)) c, Some {| rkey := k; rplace := p |})
  end.

(** The unlocked part, when nothing interrupts it. *)
Definition Read_slab (r : reader) (io : bool) (c : Cache) : result TierErr (list byte) :=
  match heap c !! pslab (rplace r) with
  | Some s => slab_read (pslot (rplace r)) (plength (rplace r)) (BlockSize (tcfg c)) io s
  | None => Err ErrDevice
  end.

Definition slab_is_revoked (p : nat) (c : Cache) : bool :=
  match heap c !! p with Some s => revoked s | None => true end.

Definition Read_end (r : reader) (res : result TierErr (list byte)) (c : Cache)
  : Cache * option (list byte) :=
  let k := rkey r in
  let p := rplace r in
  let same := match resident c !! k with Some cur => gen cur =? gen p | None => false end in
  match res with
  | Err _ =>
      let c := if same then
                 let c := set_resident (delete k (resident c)) c in
                 if negb (slab_is_revoked (pslab p) c)
                 then with_slab (pslab p) (slab_release (pslot p)) c else c
               else c in
      (count_miss c, None)
  | Ok data => if negb same then (count_miss c, None) else (count_hit c, Some data)
  end.

(** [Read], uninterrupted. *)
Definition Read (k : Key) (io : bool) (c : Cache) : Cache * option (list byte) :=
  match Read_begin k c with
  | (c, None) => (c, None)
  | (c, Some r) => Read_end r (Read_slab r io c) c
  end.

(** *** Placing *)

(** The first slab, in the given order, with a slot to give. *)
Fixpoint take_first (ls : list string) (c : Cache) : option (nat * Z * Cache) :=
  match ls with
  | [] => None
  | l :: ls =>
      match slabs c !! l with
      | Some p =>
          match heap c !! p with
          | Some s =>
              match slab_take s with
              | Some (slot, s') => Some (p, slot, with_slab p (fun _ => s') c)
              | None => take_first ls c
              end
          | None => take_first ls c
          end
      | None => take_first ls c
      end
  end.

(** One round of the scan for the least recently used block of a slab. *)
Definition older (s : nat) (acc : option (Key * placement)) (kp : Key * placement)
  : option (Key * placement) :=
  if negb (Nat.eqb (pslab kp.2) s) then acc
  else match acc with
       | None => Some kp
       | Some v => if used kp.2 <? used v.2 then Some kp else acc
       end.
Definition lru (s : nat) (c : Cache) : option (Key * placement) :=
  fold_left (older s) (map_to_list (resident c)) None.

Fixpoint evict_from (ls : list string) (c : Cache) : option Cache :=
  match ls with
  | [] => None
  | l :: ls =>
      match slabs c !! l with
      | None => evict_from ls c
      | Some s =>
          match lru s c with
          | None => evict_from ls c
          | Some (k, p) =>
              Some (set_resident (delete k (resident c))
                      (with_slab s (slab_release (pslot p)) c))
          end
      end
  end.
Definition evictOneLocked (c : Cache) : option Cache := evict_from (order c) c.

Definition placeLocked (prefetched : bool) (c : Cache) : Cache * result TierErr (nat * Z) :=
  match take_first (order c) c with
  | Some (p, slot, c) => (c, Ok (p, slot))
  | None =>
      if prefetched then (c, Err ErrWouldEvict)
      else match evictOneLocked c with
           | None => (c, Err ErrNoCapacity)
           | Some c =>
               match take_first (order c) c with
               | Some (p, slot, c) => (c, Ok (p, slot))
               | None => (c, Err ErrNoCapacity)
               end
           end
  end.

Definition Admit (k : Key) (data : list byte) (prefetched io : bool) (c : Cache)
  : Cache * (bool * option TierErr) :=
  if BlockSize (tcfg c) <? zlen data then (c, (false, Some ErrBlockTooLarge))
  else if bool_decide (is_Some (resident c !! k)) then (c, (false, None))
  else
    let '(f, before) := if prefetched then (first c, true) else sawBefore k (first c) in
    let c := set_first f c in
    if negb before then (c, (false, None))
    else
      let '(c, placed) := placeLocked prefetched c in
      match placed with
      | Err e => (c, (false, Some e))
      | Ok (p, slot) =>
          match heap c !! p with
          | None => (c, (false, Some ErrDevice))
          | Some s =>
              match slab_write slot data (BlockSize (tcfg c)) io s with
              | Err e => (with_slab p (slab_release slot) c, (false, Some e))
              | Ok s' =>
                  let c := next_generation (tick (with_slab p (fun _ => s') c)) in
                  let pl := {| pslab := p; pslot := slot; plength := zlen data;
                               used := clock c; gen := generation c |} in
                  let c := set_resident (<[k := pl]> (resident c)) c in
                  (set_first (forget k (first c)) c, (true, None))
              end
          end
      end.

(** ** What the tier reports *)

Record Held : Type := mkHeld {
  HTenant : string;
  HBackend : string;
  HObject : string;
}.
#[global] Instance Held_eq_dec : EqDecision Held.
Proof. solve_decision. Defined.
#[global] Instance Held_countable : Countable Held.
Proof.
  apply (inj_countable' (fun h => (HTenant h, HBackend h, HObject h))
    (fun t => mkHeld t.1.1 t.1.2 t.2)). by intros [].
Defined.

Definition held_of (k : Key) : Held :=
  {| HTenant := KTenant k; HBackend := Backend (Block k); HObject := Object (Block k) |}.

Definition HeldBlocks (c : Cache) : gmap Held Z :=
  fold_left (fun out kp => <[held_of kp.1 := default 0 (out !! held_of kp.1) +! 1]> out)
    (map_to_list (resident c)) ∅.

Definition Resident (k : Key) (c : Cache) : bool := bool_decide (is_Some (resident c !! k)).

Definition Stats (c : Cache) : Z * Z * Z :=
  (hits c, misses c, Z.of_nat (size (resident c))).

Definition Close (c : Cache) : Cache :=
  let h := fold_left (fun h lp => alter slab_close lp.2 h) (map_to_list (slabs c)) (heap c) in
  set_resident ∅ (set_slabs ∅ (set_heap h c)).
