(* ===== verification/FastTierProofs.v ===== *)
(** * FastTierProofs: what the block cache guarantees

    [core] is the invariant of a cache, stated over its heap, its registered
    slabs and its resident blocks, and [keeps] what an operation owes to a read
    in flight; every operation is shown to preserve the first and satisfy the
    second. [tstep] interleaves operations with readers between their unlocked
    chunks, and [treachable] carries both over any number of steps. *)

From S2P Require Import Prelude FastTier.

Local Open Scope Z_scope.

(** ** Slices of a file being written *)

Section files.
Context {A : Type}.
Implicit Types f data : list A.

Lemma lookup_zdrop n f i : zdrop n f !! i = f !! (Z.to_nat n + i)%nat.
Proof. apply lookup_drop. Qed.

Lemma slice_lookup lo hi f i : 0 <= lo <= hi ->
  slice lo hi f !! i = if decide (Z.of_nat i < hi - lo) then f !! (Z.to_nat lo + i)%nat else None.
Proof.
  intros B. unfold slice, ztake. case_decide.
  - rewrite lookup_take_lt by lia. apply lookup_zdrop.
  - apply lookup_take_ge. lia.
Qed.

Lemma slice_ext lo hi f g : 0 <= lo <= hi ->
  (forall i, lo <= Z.of_nat i < hi -> f !! i = g !! i) -> slice lo hi f = slice lo hi g.
Proof.
  intros B E. apply list_eq. intros i. rewrite !slice_lookup by done. case_decide; auto.
  apply E. lia.
Qed.

End files.

Lemma write_at_lookup off data f i : 0 <= off -> off + zlen data <= zlen f ->
  write_at off data f !! i =
    if decide (off <= Z.of_nat i < off + zlen data)
    then data !! (i - Z.to_nat off)%nat else f !! i.
Proof.
  intros O B. unfold write_at, ztake, zlen in *.
  assert (length (take (Z.to_nat off) f) = Z.to_nat off) as L by (rewrite length_take; lia).
  case_decide.
  - rewrite lookup_app_r by lia. rewrite lookup_app_l by lia. by rewrite L.
  - destruct (decide (Z.of_nat i < off)).
    + rewrite lookup_app_l by lia. rewrite lookup_take_lt by lia. done.
    + rewrite lookup_app_r, lookup_app_r, lookup_zdrop, L by lia. f_equal. lia.
Qed.

Lemma zlen_write_at off data f : 0 <= off -> off + zlen data <= zlen f ->
  zlen (write_at off data f) = zlen f.
Proof.
  intros O B. unfold write_at, ztake, zdrop, zlen in *.
  rewrite !length_app, length_take, length_drop. lia.
Qed.

Lemma slice_write_same off data f : 0 <= off -> off + zlen data <= zlen f ->
  slice off (off + zlen data) (write_at off data f) = data.
Proof.
  intros O B. apply list_eq. intros i. pose proof (zlen_nonneg data).
  rewrite slice_lookup by lia. case_decide.
  - rewrite write_at_lookup by done. rewrite decide_True by lia. f_equal. lia.
  - symmetry. apply lookup_ge_None. unfold zlen in *. lia.
Qed.

Lemma slice_write_other off data f lo hi : 0 <= off -> off + zlen data <= zlen f ->
  0 <= lo <= hi -> hi <= off \/ off + zlen data <= lo ->
  slice lo hi (write_at off data f) = slice lo hi f.
Proof.
  intros O B L D. apply slice_ext; [done|]. intros i Hi.
  rewrite write_at_lookup by done. rewrite decide_False by lia. done.
Qed.

(** ** The occupied slots of a slab *)

Definition occ (p : nat) (res : gmap Key placement) : list Z :=
  pslot <$> List.filter (fun pl => Nat.eqb (pslab pl) p) (map_to_list res).*2.

Lemma filter_Permutation_b {A} (P : A -> bool) (xs ys : list A) :
  xs ≡ₚ ys -> List.filter P xs ≡ₚ List.filter P ys.
Proof.
  induction 1; simpl; repeat case_if; auto using Permutation.perm_skip, Permutation.perm_swap.
  by etrans.
Qed.

Lemma occ_insert p res k pl : res !! k = None ->
  occ p (<[k := pl]> res) ≡ₚ (if Nat.eqb (pslab pl) p then [pslot pl] else []) ++ occ p res.
Proof.
  intros N. unfold occ.
  rewrite (filter_Permutation_b _ _ ((k, pl) :: map_to_list res).*2)
    by by rewrite map_to_list_insert.
  csimpl. by case_if.
Qed.

Lemma occ_delete p res k pl : res !! k = Some pl ->
  occ p res ≡ₚ (if Nat.eqb (pslab pl) p then [pslot pl] else []) ++ occ p (delete k res).
Proof.
  intros E. rewrite <- (insert_delete_id res k pl E) at 1.
  apply occ_insert, lookup_delete_eq.
Qed.

Lemma elem_of_occ p res k pl : res !! k = Some pl -> pslab pl = p -> pslot pl ∈ occ p res.
Proof. intros E <-. rewrite (occ_delete _ _ _ _ E), Nat.eqb_refl. set_solver. Qed.

(** Restamping a placement does not move it. *)
Lemma occ_restamp p res k pl pl' : res !! k = Some pl ->
  pslab pl' = pslab pl -> pslot pl' = pslot pl -> occ p (<[k := pl']> res) ≡ₚ occ p res.
Proof.
  intros E Hp Hs. rewrite <- (insert_delete_eq res), occ_insert by apply lookup_delete_eq.
  by rewrite (occ_delete _ _ _ _ E), Hp, Hs.
Qed.

Lemma occ_empty_filter p res :
  occ p (filter (fun kp : Key * placement => pslab kp.2 <> p) res) = [].
Proof.
  unfold occ. replace (List.filter _ _) with (@nil placement); [done|]. symmetry.
  apply elem_of_nil_inv. intros pl [Hin E]%list_elem_of_In%List.filter_In.
  apply list_elem_of_In, list_elem_of_fmap in Hin as ([k q] & -> & Hin).
  apply elem_of_map_to_list, map_lookup_filter_Some in Hin as [_ N].
  by apply Nat.eqb_eq in E.
Qed.

Lemma occ_filter_ne p q res : p <> q ->
  occ p (filter (fun kp : Key * placement => pslab kp.2 <> q) res) ≡ₚ occ p res.
Proof.
  intros N. induction res as [|k pl res Hk IH] using map_ind; [done|].
  rewrite occ_insert by done. destruct (decide (pslab pl = q)) as [<-|Nq].
  - rewrite map_filter_insert_False by (intros X; by apply X).
    assert (delete k res = res) as -> by by apply delete_id.
    destruct (Nat.eqb_spec (pslab pl) p); [congruence|]. exact IH.
  - rewrite map_filter_insert_True by done. rewrite occ_insert, IH; [done|].
    apply map_lookup_filter_None. auto.
Qed.

(** ** The invariant *)

(** The bytes a placement stands for. *)
Definition data_of (bs : Z) (h : list slab) (pl : placement) : option (list byte) :=
  (fun s => slice (pslot pl * bs) (pslot pl * bs + plength pl) (file s)) <$> h !! pslab pl.

(** The slots of slab [p] a placement under construction has taken. *)
Definition pending (p : nat) (pend : list (nat * Z)) : list Z :=
  (List.filter (fun x => Nat.eqb x.1 p) pend).*2.

Section invariant.
(** What the backend says a block's content is: [content k d] when [d] is the
    content of [k]. *)
Variable content : Key -> list byte -> Prop.

Record core (bs : Z) (h : list slab) (sl : gmap string nat) (res : gmap Key placement)
    (g : Z) (pend : list (nat * Z)) : Prop := {
  c_bs : 0 < bs;
  c_reg : forall l p, sl !! l = Some p -> exists s, h !! p = Some s /\ lease s = l /\
            revoked s = false /\ closed s = false /\ slots s * bs <= zlen (file s);
  c_res : forall k pl, res !! k = Some pl ->
            exists s, h !! pslab pl = Some s /\ sl !! lease s = Some (pslab pl);
  c_slots : forall l p s, sl !! l = Some p -> h !! p = Some s ->
            free s ++ occ p res ++ pending p pend ≡ₚ seqZ 0 (slots s);
  c_data : forall k pl, res !! k = Some pl -> exists d, data_of bs h pl = Some d /\
            zlen d = plength pl /\ plength pl <= bs /\ content k d;
  c_gen : forall k pl, res !! k = Some pl -> 0 < gen pl <= g;
}.

Definition cache_core (c : Cache) (pend : list (nat * Z)) : Prop :=
  core (BlockSize (tcfg c)) (heap c) (slabs c) (resident c) (generation c) pend.
Definition tinv (c : Cache) : Prop := cache_core c [].

(** What an operation owes to a read in flight: a block that is still the same
    occupancy is where it was, with the bytes it had. *)
Definition keeps (c c' : Cache) : Prop :=
  tcfg c' = tcfg c /\ generation c <= generation c' /\
  forall k pl', resident c' !! k = Some pl' -> gen pl' <= generation c ->
    exists pl, resident c !! k = Some pl /\ gen pl = gen pl' /\
      pslab pl = pslab pl' /\ pslot pl = pslot pl' /\ plength pl = plength pl' /\
      data_of (BlockSize (tcfg c)) (heap c') pl' = data_of (BlockSize (tcfg c)) (heap c) pl.

Lemma keeps_refl c : keeps c c.
Proof. split_and!; auto; [lia|]. intros k pl E _. exists pl. auto 10. Qed.

Lemma keeps_trans c1 c2 c3 : keeps c1 c2 -> keeps c2 c3 -> keeps c1 c3.
Proof.
  intros (E1 & G1 & K1) (E2 & G2 & K2). split_and!; [congruence|lia|].
  intros k pl3 R3 L3. destruct (K2 k pl3 R3 ltac:(lia)) as (pl2 & R2 & ? & ? & ? & ? & D2).
  destruct (K1 k pl2 R2 ltac:(lia)) as (pl1 & R1 & ? & ? & ? & ? & D1).
  exists pl1. rewrite E1 in D2. split_and!; auto; congruence.
Qed.

(** Slots are within the slab and held once. *)
Lemma slot_bounds c pend l p s x : cache_core c pend -> slabs c !! l = Some p ->
  heap c !! p = Some s -> x ∈ free s ++ occ p (resident c) ++ pending p pend -> 0 <= x < slots s.
Proof.
  intros I E H Hx. rewrite (c_slots _ _ _ _ _ _ I _ _ _ E H) in Hx.
  apply elem_of_seqZ in Hx. lia.
Qed.

Lemma slots_NoDup c pend l p s : cache_core c pend -> slabs c !! l = Some p ->
  heap c !! p = Some s -> NoDup (free s ++ occ p (resident c) ++ pending p pend).
Proof.
  intros I E H. rewrite (c_slots _ _ _ _ _ _ I _ _ _ E H). apply NoDup_seqZ.
Qed.

(** A registered pointer belongs to one lease. *)
Lemma reg_inj c pend l l' p : cache_core c pend ->
  slabs c !! l = Some p -> slabs c !! l' = Some p -> l = l'.
Proof.
  intros I E E'. destruct (c_reg _ _ _ _ _ _ I _ _ E) as (s & H & <- & _).
  destruct (c_reg _ _ _ _ _ _ I _ _ E') as (s' & H' & <- & _). congruence.
Qed.

Lemma data_of_heap bs h h' pl : file <$> h' !! pslab pl = file <$> h !! pslab pl ->
  data_of bs h' pl = data_of bs h pl.
Proof.
  unfold data_of. intros E.
  destruct (h' !! pslab pl), (h !! pslab pl); simpl in *; congruence.
Qed.

(** ** Changes that keep every file *)

Lemma alter_lookup {A} (f : A -> A) (p q : nat) (h : list A) :
  alter f p h !! q = if decide (p = q) then f <$> h !! q else h !! q.
Proof. rewrite list_lookup_alter. case_decide; by subst. Qed.

(** Giving or taking slots of one slab. *)
Lemma data_of_set_free bs f p h pl : (forall s, file (f s) = file s) ->
  data_of bs (alter f p h) pl = data_of bs h pl.
Proof.
  intros F. apply data_of_heap. rewrite alter_lookup. case_decide; [|done].
  destruct (h !! _); simpl; by rewrite ?F.
Qed.

(** The invariant survives any change to one slab that keeps its file and
    registration and only moves slots between its free list, the resident
    blocks and the pending one. *)
Lemma core_alter bs h sl res g pend res' pend' f p s :
  core bs h sl res g pend -> h !! p = Some s -> sl !! lease s = Some p ->
  (forall s, lease (f s) = lease s /\ file (f s) = file s /\ slots (f s) = slots s /\
             revoked (f s) = revoked s /\ closed (f s) = closed s) ->
  res' ⊆ res ->
  free (f s) ++ occ p res' ++ pending p pend' ≡ₚ free s ++ occ p res ++ pending p pend ->
  (forall q, q <> p -> occ q res' ++ pending q pend' ≡ₚ occ q res ++ pending q pend) ->
  core bs (alter f p h) sl res' g pend'.
Proof.
  intros I Hp Hl F Sub P Q.
  assert (forall q s0, alter f p h !! q = Some s0 -> exists s1, h !! q = Some s1 /\
    (q <> p /\ s0 = s1 \/ q = p /\ s1 = s /\ s0 = f s)) as L.
  { intros q s0. rewrite alter_lookup. case_decide as Eq; [|eauto]. subst q. rewrite Hp.
    intros [= <-]. eauto 10. }
  assert (forall q s1, h !! q = Some s1 -> exists s0, alter f p h !! q = Some s0 /\
    lease s0 = lease s1 /\ revoked s0 = revoked s1 /\ closed s0 = closed s1 /\
    slots s0 = slots s1 /\ file s0 = file s1) as R.
  { intros q s1 E. rewrite alter_lookup, E. destruct (F s1) as (? & ? & ? & ? & ?).
    case_decide; [exists (f s1)|exists s1]; auto 10. }
  constructor.
  - apply I.
  - intros l q E. destruct (c_reg _ _ _ _ _ _ I _ _ E) as (s1 & H1 & ? & ? & ? & ?).
    destruct (R _ _ H1) as (s0 & Hs0 & ? & ? & ? & Es & Ef). exists s0. rewrite Es, Ef.
    split_and!; congruence.
  - intros k pl E. eapply lookup_weaken in E; [|exact Sub].
    destruct (c_res _ _ _ _ _ _ I _ _ E) as (s1 & H1 & ?).
    destruct (R _ _ H1) as (s0 & Hs0 & El & _). exists s0. by rewrite El.
  - intros l q s0 E Hs0. destruct (L _ _ Hs0) as (s1 & H1 & [[N ->]|(-> & -> & ->)]).
    + rewrite Q by done. by apply (c_slots _ _ _ _ _ _ I l).
    + rewrite P. destruct (F s) as (_ & _ & -> & _). by apply (c_slots _ _ _ _ _ _ I l).
  - intros k pl E. eapply lookup_weaken in E; [|exact Sub].
    rewrite data_of_set_free by (intros s0; apply F). by apply (c_data _ _ _ _ _ _ I).
  - intros k pl E. eapply lookup_weaken in E; [|exact Sub]. by apply (c_gen _ _ _ _ _ _ I k).
Qed.

Lemma keeps_sub c c' : tcfg c' = tcfg c -> generation c' = generation c ->
  resident c' ⊆ resident c ->
  (forall pl, data_of (BlockSize (tcfg c)) (heap c') pl = data_of (BlockSize (tcfg c)) (heap c) pl) ->
  keeps c c'.
Proof.
  intros E G S D. split_and!; auto; [lia|]. intros k pl H _. exists pl.
  eapply lookup_weaken in H; [|exact S]. auto 10.
Qed.

(** *** Taking a slot *)

Lemma slab_take_spec s slot s' : slab_take s = Some (slot, s') ->
  revoked s = false /\ s' = set_free (removelast (free s)) s /\ removelast (free s) ++ [slot] = free s.
Proof.
  unfold slab_take. destruct (revoked s); [done|]. destruct (last (free s)) eqn:E; [|done].
  intros [= -> <-]. split_and!; auto. apply last_Some in E as [l' ->].
  by rewrite removelast_last.
Qed.

Lemma take_first_spec ls : forall c p slot c', tinv c -> take_first ls c = Some (p, slot, c') ->
  exists s, heap c !! p = Some s /\ slabs c !! lease s = Some p /\
    c' = with_slab p (set_free (removelast (free s))) c /\
    removelast (free s) ++ [slot] = free s.
Proof.
  induction ls as [|l ls IH]; intros c p slot c' I; simpl; [done|].
  destruct (slabs c !! l) as [q|] eqn:El; [|by apply IH].
  destruct (heap c !! q) as [s|] eqn:Eq; [|by apply IH].
  destruct (slab_take s) as [[x s']|] eqn:T; [|by apply IH].
  intros [= <- <- <-]. apply slab_take_spec in T as (_ & -> & R).
  destruct (c_reg _ _ _ _ _ _ I _ _ El) as (s0 & E0 & Hl & _).
  rewrite Eq in E0. injection E0 as <-. exists s. subst l. split_and!; auto.
  unfold with_slab. f_equal. apply list_eq. intros i. rewrite !alter_lookup.
  case_decide; [|done]. subst i. by rewrite Eq.
Qed.

Lemma set_free_fields fr : forall s, lease (set_free fr s) = lease s /\
  file (set_free fr s) = file s /\ slots (set_free fr s) = slots s /\
  revoked (set_free fr s) = revoked s /\ closed (set_free fr s) = closed s.
Proof. done. Qed.

Lemma release_fields x : forall s, lease (slab_release x s) = lease s /\
  file (slab_release x s) = file s /\ slots (slab_release x s) = slots s /\
  revoked (slab_release x s) = revoked s /\ closed (slab_release x s) = closed s.
Proof. done. Qed.

Lemma take_first_core ls c p slot c' : tinv c -> take_first ls c = Some (p, slot, c') ->
  cache_core c' [(p, slot)] /\ keeps c c' /\ resident c' = resident c /\
  slabs c' = slabs c /\ order c' = order c /\ first c' = first c /\
  clock c' = clock c /\ generation c' = generation c /\ tcfg c' = tcfg c /\
  exists s, heap c' !! p = Some s /\ slabs c' !! lease s = Some p.
Proof.
  intros I T. destruct (take_first_spec _ _ _ _ _ I T) as (s & Hp & Hl & -> & R).
  split_and!; auto.
  - eapply core_alter; eauto using set_free_fields.
    + simpl. rewrite <- R at 2. unfold pending. simpl. rewrite Nat.eqb_refl. simpl.
      rewrite <- (app_assoc (removelast _)). apply Permutation_app_head.
      rewrite app_nil_r. apply Permutation_app_comm.
    + intros q N. unfold pending. simpl. destruct (Nat.eqb_spec p q); [congruence|]. done.
  - apply keeps_sub; auto. intros pl. by apply data_of_set_free.
  - exists (set_free (removelast (free s)) s). simpl. rewrite alter_lookup, decide_True, Hp by done. done.
Qed.

(** *** Giving a slot back *)

Lemma release_pending_core c p slot s : cache_core c [(p, slot)] ->
  heap c !! p = Some s -> slabs c !! lease s = Some p ->
  tinv (with_slab p (slab_release slot) c) /\ keeps c (with_slab p (slab_release slot) c).
Proof.
  intros I Hp Hl. split.
  - eapply core_alter; eauto using release_fields.
    + simpl. rewrite <- app_assoc. apply Permutation_app_head.
      unfold pending. simpl. rewrite Nat.eqb_refl. simpl. rewrite app_nil_r.
      apply (Permutation_app_comm [slot]).
    + intros q N. unfold pending. simpl. destruct (Nat.eqb_spec p q); [congruence|]. done.
  - apply keeps_sub; auto. intros pl. by apply data_of_set_free.
Qed.

(** Dropping a resident block and giving its slot back. *)
Lemma drop_core c k pl s : tinv c -> resident c !! k = Some pl ->
  heap c !! pslab pl = Some s -> slabs c !! lease s = Some (pslab pl) ->
  let c' := set_resident (delete k (resident c)) (with_slab (pslab pl) (slab_release (pslot pl)) c) in
  tinv c' /\ keeps c c'.
Proof.
  intros I E Hp Hl c'. split.
  - eapply core_alter; eauto using release_fields.
    + apply delete_subseteq.
    + simpl. rewrite <- app_assoc. apply Permutation_app_head.
      rewrite (occ_delete (pslab pl) _ _ _ E), Nat.eqb_refl. done.
    + intros q N. rewrite (occ_delete q _ _ _ E).
      destruct (Nat.eqb_spec (pslab pl) q); [congruence|]. done.
  - apply keeps_sub; auto; [apply delete_subseteq|]. intros q. by apply data_of_set_free.
Qed.

(** *** The least recently used block of a slab *)

Lemma older_fold s l : forall acc,
  match fold_left (older s) l acc with
  | None => acc = None /\ Forall (fun kp => pslab kp.2 <> s) l
  | Some v => (acc = Some v \/ v ∈ l /\ pslab v.2 = s) /\
      Forall (fun kp => pslab kp.2 = s -> used v.2 <= used kp.2) l /\
      (forall a, acc = Some a -> used v.2 <= used a.2)
  end.
Proof.
  induction l as [|kp l IH]; intros acc.
  { simpl. destruct acc; [|by split]. split_and!; auto. intros a [= ->]. lia. }
  simpl. specialize (IH (older s acc kp)). unfold older in *.
  destruct (Nat.eqb_spec (pslab kp.2) s) as [Es|Es]; simpl in *.
  - destruct (fold_left _ l _) as [v|] eqn:Ev.
    + destruct IH as (D & F & M). destruct acc as [a|].
      * destruct (Z.ltb_spec (used kp.2) (used a.2)) as [Lt|Lt].
        -- pose proof (M _ eq_refl). split_and!.
           ++ destruct D as [[= ->]|[? ?]]; right; split; auto; set_solver.
           ++ constructor; auto.
           ++ intros ? [= <-]. lia.
        -- pose proof (M _ eq_refl). split_and!.
           ++ destruct D as [?|[? ?]]; [by left|right; split; auto; set_solver].
           ++ constructor; [intros _; lia|done].
           ++ intros ? [= <-]. lia.
      * pose proof (M _ eq_refl). split_and!; [|constructor; auto|done].
        destruct D as [[= ->]|[? ?]]; right; split; auto; set_solver.
    + exfalso. destruct IH as [IH _]. destruct acc; [case_if|]; done.
  - destruct (fold_left _ l _) as [v|] eqn:Ev.
    + destruct IH as (D & F & M). split_and!; auto; [|by constructor].
      destruct D as [?|[? ?]]; [by left|right; split; auto; set_solver].
    + destruct IH as [-> F]. split; auto.
Qed.

Lemma lru_spec s c : match lru s c with
  | None => forall k pl, resident c !! k = Some pl -> pslab pl <> s
  | Some (k, pl) => resident c !! k = Some pl /\ pslab pl = s /\
      forall k' pl', resident c !! k' = Some pl' -> pslab pl' = s -> used pl <= used pl'
  end.
Proof.
  unfold lru. pose proof (older_fold s (map_to_list (resident c)) None) as O.
  destruct (fold_left _ _ _) as [[k pl]|].
  - destruct O as ([D|[D E]] & F & _); [done|]. rewrite Forall_forall in F.
    apply elem_of_map_to_list in D. split_and!; auto.
    intros k' pl' E'. by apply (F (k', pl')), elem_of_map_to_list.
  - destruct O as [_ F]. rewrite Forall_forall in F. intros k pl E.
    by apply (F (k, pl)), elem_of_map_to_list.
Qed.

Lemma evict_from_spec ls c c' : evict_from ls c = Some c' ->
  exists l s k pl, l ∈ ls /\ slabs c !! l = Some s /\ lru s c = Some (k, pl) /\
    c' = set_resident (delete k (resident c)) (with_slab s (slab_release (pslot pl)) c).
Proof.
  induction ls as [|l ls IH]; simpl; [done|].
  destruct (slabs c !! l) as [s|] eqn:El; [|intros H; destruct (IH H) as (l' & s' & k & pl & ? & ?)];
    [|exists l', s', k, pl; split; [set_solver|done]].
  destruct (lru s c) as [[k pl]|] eqn:Lr.
  - intros [= <-]. exists l, s, k, pl. split_and!; auto. set_solver.
  - intros H; destruct (IH H) as (l' & s' & k & pl & ? & ?).
    exists l', s', k, pl. split; [set_solver|done].
Qed.

Lemma evict_core c c' : tinv c -> evictOneLocked c = Some c' ->
  tinv c' /\ keeps c c' /\ tcfg c' = tcfg c /\ generation c' = generation c /\
  clock c' = clock c /\ slabs c' = slabs c /\ order c' = order c /\ first c' = first c /\
  resident c' ⊆ resident c.
Proof.
  intros I (l & s & k & pl & _ & El & Lr & ->)%evict_from_spec.
  pose proof (lru_spec s c) as Sp. rewrite Lr in Sp. destruct Sp as (E & <- & _).
  destruct (c_reg _ _ _ _ _ _ I _ _ El) as (s0 & H0 & <- & _).
  destruct (drop_core c k pl s0 I E H0 El) as [Ti Ke].
  split_and!; auto. simpl. apply delete_subseteq.
Qed.

(** *** Filling a slot *)

(** A block in another slot does not overlap the slot being written. *)
Lemma slots_disjoint bs x y n d : 0 < bs -> 0 <= x -> 0 <= y -> x <> y ->
  0 <= n <= bs -> 0 <= d <= bs ->
  y * bs + n <= x * bs \/ x * bs + d <= y * bs.
Proof. intros. destruct (Z_lt_le_dec x y); [right|left]; nia. Qed.

Definition filled (p : nat) (slot : Z) (data : list byte) (c : Cache) : Cache :=
  with_slab p (fun s => set_file (write_at (slot * BlockSize (tcfg c)) data (file s)) s) c.

Lemma filled_data c p slot data s pl :
  cache_core c [(p, slot)] -> heap c !! p = Some s -> slabs c !! lease s = Some p ->
  zlen data <= BlockSize (tcfg c) ->
  (exists k, resident c !! k = Some pl) ->
  data_of (BlockSize (tcfg c)) (heap (filled p slot data c)) pl
  = data_of (BlockSize (tcfg c)) (heap c) pl.
Proof.
  intros I Hp Hl B [k E]. pose proof (zlen_nonneg data).
  destruct (c_data _ _ _ _ _ _ I _ _ E) as (d & Ed & Ld & Bd & _). pose proof (zlen_nonneg d).
  pose proof (c_bs _ _ _ _ _ _ I).
  unfold data_of. simpl. rewrite alter_lookup. case_decide as Eq; [|done].
  rewrite <- Eq, Hp. simpl. f_equal.
  pose proof (slots_NoDup _ _ _ _ _ I Hl Hp) as ND.
  assert (pslot pl ∈ occ p (resident c)) as Ho by (eapply elem_of_occ; eauto).
  assert (slot ∈ pending p [(p, slot)]) as Hs.
  { unfold pending. simpl. rewrite Nat.eqb_refl. set_solver. }
  assert (pslot pl <> slot) as Ne.
  { intros <-. apply NoDup_app in ND as (_ & _ & ND). apply NoDup_app in ND as (_ & ND & _).
    by apply (ND (pslot pl)). }
  pose proof (slot_bounds _ _ _ _ _ (pslot pl) I Hl Hp ltac:(set_solver)).
  pose proof (slot_bounds _ _ _ _ _ slot I Hl Hp ltac:(set_solver)).
  destruct (c_reg _ _ _ _ _ _ I _ _ Hl) as (s0 & Hs0 & _ & _ & _ & Sz).
  rewrite Hp in Hs0. injection Hs0 as <-.
  apply slice_write_other; [nia|nia|nia|]. apply slots_disjoint; lia.
Qed.

Lemma fill_core c p slot data s k u :
  cache_core c [(p, slot)] -> heap c !! p = Some s -> slabs c !! lease s = Some p ->
  zlen data <= BlockSize (tcfg c) -> content k data -> resident c !! k = None ->
  0 <= generation c ->
  let pl := {| pslab := p; pslot := slot; plength := zlen data; used := u; gen := generation c + 1 |} in
  core (BlockSize (tcfg c)) (heap (filled p slot data c)) (slabs c) (<[k := pl]> (resident c))
    (generation c + 1) [].
Proof.
  intros I Hp Hl B C N G pl. pose proof (zlen_nonneg data). pose proof (c_bs _ _ _ _ _ _ I) as Bs.
  destruct (c_reg _ _ _ _ _ _ I _ _ Hl) as (s0 & Hs0 & _ & _ & _ & Sz).
  rewrite Hp in Hs0. injection Hs0 as <-.
  assert (slot ∈ pending p [(p, slot)]) as Hs.
  { unfold pending. simpl. rewrite Nat.eqb_refl. set_solver. }
  pose proof (slot_bounds _ _ _ _ _ slot I Hl Hp ltac:(set_solver)) as Bd.
  assert (forall q s1, heap (filled p slot data c) !! q = Some s1 -> exists s2, heap c !! q = Some s2 /\
    lease s1 = lease s2 /\ free s1 = free s2 /\ slots s1 = slots s2) as Back.
  { intros q s1. simpl. rewrite alter_lookup. case_decide; [|eauto 10].
    destruct (heap c !! q) as [s2|]; [|done]. intros [= <-]. exists s2. auto. }
  assert (forall q s1, heap c !! q = Some s1 -> exists s2, heap (filled p slot data c) !! q = Some s2 /\
    lease s2 = lease s1 /\ revoked s2 = revoked s1 /\ closed s2 = closed s1 /\ slots s2 = slots s1 /\
    (q = p -> s1 = s) /\ zlen (file s2) = zlen (file s1)) as Forth.
  { intros q s1 E. simpl. rewrite alter_lookup, E. case_decide as Eq; [|exists s1; split_and!; auto; congruence].
    subst q. rewrite Hp in E. injection E as <-. eexists. split_and!; eauto.
    simpl. apply zlen_write_at; nia. }
  constructor.
  - done.
  - intros l q E. destruct (c_reg _ _ _ _ _ _ I _ _ E) as (s1 & Hh1 & ? & ? & ? & ?).
    destruct (Forth _ _ Hh1) as (s2 & Hh2 & ? & ? & ? & Es & _ & Ez). exists s2. rewrite Es, Ez.
    split_and!; congruence.
  - intros k' pl'. rewrite lookup_insert_Some. intros [[<- <-]|[_ E]].
    + destruct (Forth _ _ Hp) as (s2 & Hh2 & El & _). exists s2. simpl. by rewrite El.
    + destruct (c_res _ _ _ _ _ _ I _ _ E) as (s1 & Hh1 & Hl1).
      destruct (Forth _ _ Hh1) as (s2 & Hh2 & El & _). exists s2. by rewrite El.
  - intros l q s1 E Hh1. destruct (Back _ _ Hh1) as (s2 & Hh2 & _ & -> & ->).
    rewrite <- (c_slots _ _ _ _ _ _ I _ _ _ E Hh2). apply Permutation_app_head.
    rewrite occ_insert by done. unfold pending. simpl. destruct (Nat.eqb p q); simpl; [|done].
    rewrite app_nil_r. apply (Permutation_app_comm [slot]).
  - intros k' pl'. rewrite lookup_insert_Some. intros [[<- <-]|[_ E]].
    + exists data. simpl. split_and!; auto. unfold data_of. simpl.
      rewrite alter_lookup, decide_True, Hp by done. simpl. f_equal.
      apply slice_write_same; nia.
    + rewrite (filled_data _ _ _ _ s) by eauto. by apply (c_data _ _ _ _ _ _ I).
  - intros k' pl'. rewrite lookup_insert_Some. intros [[<- <-]|[_ E]]; simpl; [lia|].
    pose proof (c_gen _ _ _ _ _ _ I _ _ E). lia.
Qed.

(** *** Placing and admitting *)

Lemma placeLocked_core pf c c1 placed : tinv c -> placeLocked pf c = (c1, placed) ->
  keeps c c1 /\ tcfg c1 = tcfg c /\ generation c1 = generation c /\ resident c1 ⊆ resident c /\
  (pf = true -> resident c1 = resident c) /\
  match placed with
  | Err _ => tinv c1
  | Ok (p, slot) => cache_core c1 [(p, slot)] /\
      exists s, heap c1 !! p = Some s /\ slabs c1 !! lease s = Some p
  end.
Proof.
  intros I. unfold placeLocked.
  destruct (take_first (order c) c) as [[[p slot] c2]|] eqn:T.
  { intros [= <- <-]. destruct (take_first_core _ _ _ _ _ I T) as (? & ? & Er & ? & ? & ? & ? & ? & ? & ?).
    rewrite Er. auto 10. }
  destruct pf.
  { intros [= <- <-]. auto 10 using keeps_refl. }
  destruct (evictOneLocked c) as [c2|] eqn:Ev.
  2: { intros [= <- <-]. auto 10 using keeps_refl. }
  destruct (evict_core _ _ I Ev) as (I2 & K2 & Ec & Eg & _ & _ & _ & _ & Sub).
  destruct (take_first (order c2) c2) as [[[p slot] c3]|] eqn:T2; intros [= <- <-].
  - destruct (take_first_core _ _ _ _ _ I2 T2) as (? & K3 & Er & ? & ? & ? & ? & ? & ? & ?).
    rewrite Er. split_and!; auto; try congruence. by eapply keeps_trans.
  - split_and!; auto; congruence.
Qed.

Lemma filled_keeps c p slot data s k u :
  cache_core c [(p, slot)] -> heap c !! p = Some s -> slabs c !! lease s = Some p ->
  zlen data <= BlockSize (tcfg c) ->
  let pl := {| pslab := p; pslot := slot; plength := zlen data; used := u; gen := generation c + 1 |} in
  forall c', tcfg c' = tcfg c -> generation c' = generation c + 1 ->
  heap c' = heap (filled p slot data c) -> resident c' = <[k := pl]> (resident c) -> keeps c c'.
Proof.
  intros I Hp Hl B pl c' Ec Eg Eh Er. split_and!; auto; [lia|].
  intros k' pl'. rewrite Er, Eh, lookup_insert_Some. intros [[<- <-]|[_ E]] Lt; [simpl in Lt; lia|].
  exists pl'. split_and!; auto. by eapply filled_data; eauto.
Qed.

Lemma slab_write_Ok slot data bs io s s' : slab_write slot data bs io s = Ok s' ->
  zlen data <= bs /\ s' = set_file (write_at (slot * bs) data (file s)) s.
Proof.
  unfold slab_write. destruct (revoked s); [done|]. destruct (Z.ltb_spec bs (zlen data)); [done|].
  destruct (_ || _); [done|]. by intros [= <-].
Qed.

Lemma with_slab_const p s s' f c : heap c !! p = Some s -> f s = s' ->
  with_slab p (fun _ => s') c = with_slab p f c.
Proof.
  intros E Ef. unfold with_slab. f_equal. apply list_eq. intros i. rewrite !alter_lookup.
  case_decide; [|done]. subst i. rewrite E. simpl. by rewrite Ef.
Qed.

Lemma Admit_core k data pf io c : tinv c -> content k data ->
  0 <= generation c < 18446744073709551615 ->
  let c' := (Admit k data pf io c).1 in
  tinv c' /\ keeps c c' /\ generation c' <= generation c + 1.
Proof.
  intros I C G. unfold Admit. case_if; [simpl; auto using keeps_refl with lia|].
  case_bool_decide as R; [simpl; auto using keeps_refl with lia|].
  destruct (if pf then _ else _) as [f before]. set (c0 := set_first f c).
  assert (tinv c0) as I0 by exact I. assert (keeps c c0) as K0 by exact (keeps_refl c).
  destruct (negb before); [simpl; auto with lia|].
  destruct (placeLocked pf c0) as [c1 placed] eqn:P.
  destruct (placeLocked_core _ _ _ _ I0 P) as (K1 & Ec & Eg & Sub & _ & Pl).
  pose proof (keeps_trans _ _ _ K0 K1) as K. simpl in Eg, Ec, Sub.
  destruct placed as [[p slot]|e]; [|simpl; split_and!; auto; lia].
  destruct Pl as (I1 & s & Hp & Hl). rewrite Hp.
  destruct (slab_write slot data (BlockSize (tcfg c1)) io s) as [s'|e] eqn:W.
  - apply slab_write_Ok in W as [B Es].
    rewrite (with_slab_const p s s' (fun s => set_file (write_at (slot * BlockSize (tcfg c1)) data (file s)) s) c1)
      by auto.
    change (with_slab p _ c1) with (filled p slot data c1). simpl.
    rewrite Eg, (wrapU64_id (generation c + 1)) by (unfold is_uint64; lia).
    assert (resident c1 !! k = None) as N.
    { apply eq_None_not_Some. intros [pl E]. apply R. exists pl. by eapply lookup_weaken. }
    split_and!; [| |lia].
    + pose proof (fill_core c1 p slot data s k (wrapU64 (clock c1 + 1)) I1 Hp Hl B C N ltac:(lia)) as F.
      unfold tinv, cache_core. simpl. rewrite Eg, (wrapU64_id (generation c + 1))
        by (unfold is_uint64; lia). simpl in F. rewrite Eg in F. exact F.
    + eapply keeps_trans; [exact K|].
      eapply (filled_keeps c1 p slot data s k (wrapU64 (clock c1 + 1))); eauto; simpl; rewrite ?Eg; auto.
      apply wrapU64_id. unfold is_uint64. lia.
  - destruct (release_pending_core _ _ _ _ I1 Hp Hl) as [I2 K2].
    simpl. split_and!; [exact I2|by eapply keeps_trans|lia].
Qed.

(** *** Capacity coming and going *)

Lemma zlen_seqZ n : 0 <= n -> zlen (seqZ 0 n) = n.
Proof. intros. unfold zlen. rewrite length_seqZ. lia. Qed.

Lemma openSlab_Ok l ext bs s : 0 < bs -> openSlab l ext bs = Ok s ->
  lease s = l /\ revoked s = false /\ closed s = false /\ slots s * bs <= zlen (file s) /\
  free s ≡ₚ seqZ 0 (slots s).
Proof.
  intros B. unfold openSlab. destruct ext as [f|]; [|done]. case_if; [done|].
  intros [= <-]. simpl. split_and!; auto; [|apply reverse_Permutation].
  rewrite Z.mul_comm. apply Z.mul_div_le. lia.
Qed.

Lemma occ_unregistered c p : tinv c -> heap c !! p = None -> occ p (resident c) = [].
Proof.
  intros I N. unfold occ. replace (List.filter _ _) with (@nil placement); [done|]. symmetry.
  apply elem_of_nil_inv. intros pl [Hin E]%list_elem_of_In%List.filter_In.
  apply list_elem_of_In, list_elem_of_fmap in Hin as ([k q] & -> & Hin%elem_of_map_to_list).
  destruct (c_res _ _ _ _ _ _ I _ _ Hin) as (s & Hs & _). apply Nat.eqb_eq in E. simpl in *.
  congruence.
Qed.

(** More heap does not disturb what is there. *)
Lemma data_of_app c h pl k : tinv c -> resident c !! k = Some pl ->
  data_of (BlockSize (tcfg c)) (heap c ++ h) pl = data_of (BlockSize (tcfg c)) (heap c) pl.
Proof.
  intros I E. destruct (c_res _ _ _ _ _ _ I _ _ E) as (s & Hs & _).
  unfold data_of. by rewrite lookup_app_l by (apply lookup_lt_is_Some; eauto).
Qed.

Lemma heap_app_keeps c c' h : tinv c -> tcfg c' = tcfg c -> generation c' = generation c ->
  resident c' = resident c -> heap c' = heap c ++ h -> keeps c c'.
Proof.
  intros I Ec Eg Er Eh. split_and!; auto; [lia|]. intros k pl. rewrite Er, Eh. intros E _.
  exists pl. split_and!; auto. by eapply data_of_app.
Qed.

Lemma grow_core c sl s : tinv c ->
  (sl = slabs c \/ exists l, slabs c !! l = None /\ sl = <[l := length (heap c)]> (slabs c) /\
     lease s = l /\ revoked s = false /\ closed s = false /\
     slots s * BlockSize (tcfg c) <= zlen (file s) /\ free s ≡ₚ seqZ 0 (slots s)) ->
  core (BlockSize (tcfg c)) (heap c ++ [s]) sl (resident c) (generation c) [].
Proof.
  intros I Sl.
  assert (forall q s1, heap c !! q = Some s1 -> (heap c ++ [s]) !! q = Some s1) as Forth.
  { intros q s1 E. rewrite lookup_app_l; [done|]. apply lookup_lt_is_Some. eauto. }
  assert ((heap c ++ [s]) !! length (heap c) = Some s) as New by by apply list_lookup_middle.
  assert (forall l q, sl !! l = Some q -> slabs c !! l = Some q \/
    q = length (heap c) /\ lease s = l /\ revoked s = false /\ closed s = false /\
    slots s * BlockSize (tcfg c) <= zlen (file s) /\ free s ≡ₚ seqZ 0 (slots s)) as Reg.
  { intros l q. destruct Sl as [->|(l0 & _ & -> & <- & ?)]; [auto|].
    rewrite lookup_insert_Some. intros [[<- <-]|[_ ?]]; auto. }
  constructor.
  - apply I.
  - intros l q E. destruct (Reg _ _ E) as [E'|(-> & ?)]; [|exists s; tauto].
    destruct (c_reg _ _ _ _ _ _ I _ _ E') as (s1 & H1 & ?). eauto 10.
  - intros k pl E. destruct (c_res _ _ _ _ _ _ I _ _ E) as (s1 & H1 & El).
    exists s1. split; auto. destruct Sl as [->|(l0 & N & -> & _)]; auto.
    apply lookup_insert_Some. right. split; [congruence|done].
  - intros l q s1 E Hq. destruct (Reg _ _ E) as [E'|(-> & _ & _ & _ & _ & P)].
    + destruct (c_reg _ _ _ _ _ _ I _ _ E') as (s2 & H2 & _).
      rewrite (Forth _ _ H2) in Hq. injection Hq as <-. by apply (c_slots _ _ _ _ _ _ I l).
    + rewrite New in Hq. injection Hq as <-.
      rewrite (occ_unregistered c) by (auto; apply lookup_ge_None; lia). by rewrite app_nil_r.
  - intros k pl E. rewrite (data_of_app c [s] pl k) by auto. by apply (c_data _ _ _ _ _ _ I).
  - apply I.
Qed.

Lemma AddCapacity_core l ext c : tinv c ->
  let c' := (AddCapacity l ext c).1 in
  tinv c' /\ keeps c c' /\ generation c' = generation c.
Proof.
  intros I. pose proof (c_bs _ _ _ _ _ _ I) as B. unfold AddCapacity.
  destruct (openSlab l ext _) as [s|e] eqn:O; [|simpl; auto using keeps_refl].
  destruct (openSlab_Ok _ _ _ _ B O) as (El & ? & ? & ? & ?).
  destruct (slabs c !! l) as [q|] eqn:E; simpl; split_and!; auto;
    try (eapply heap_app_keeps; eauto; fail).
  - exact (grow_core c (slabs c) (slab_close s) I (or_introl eq_refl)).
  - apply (grow_core c _ s I). right. exists l. auto 10.
Qed.

(** A slab that is gone takes its blocks with it. *)
Lemma Revoke_core l c : tinv c ->
  let c' := (Revoke l c).1 in
  tinv c' /\ keeps c c' /\ generation c' = generation c.
Proof.
  intros I. unfold Revoke. destruct (slabs c !! l) as [p|] eqn:El; [|simpl; auto using keeps_refl].
  simpl. set (h := alter slab_close p (alter slab_revoke p (heap c))).
  set (res := filter _ (resident c)).
  assert (forall q, file <$> h !! q = file <$> heap c !! q) as Fi.
  { intros q. unfold h. rewrite !alter_lookup. case_decide; [|done]. by destruct (heap c !! q). }
  assert (forall q, q <> p -> h !! q = heap c !! q) as Hq.
  { intros q N. unfold h. by rewrite !alter_lookup, !decide_False. }
  assert (res ⊆ resident c) as Sub by apply map_filter_subseteq.
  assert (forall k pl, res !! k = Some pl -> resident c !! k = Some pl /\ pslab pl <> p) as Res.
  { intros k pl [? ?]%map_lookup_filter_Some. auto. }
  assert (forall l' q, delete l (slabs c) !! l' = Some q -> slabs c !! l' = Some q /\ q <> p) as Reg.
  { intros l' q. rewrite lookup_delete_Some. intros [N E]. split; auto. intros ->.
    by apply N, (reg_inj c [] l l' p). }
  split_and!; auto; [|apply keeps_sub; auto; intros; by apply data_of_heap].
  constructor; simpl; fold h; try fold res.
  - apply I.
  - intros l' q E. destruct (Reg _ _ E) as [E' N]. rewrite (Hq _ N).
    by apply (c_reg _ _ _ _ _ _ I).
  - intros k pl E. destruct (Res _ _ E) as [E' N]. rewrite (Hq _ N).
    destruct (c_res _ _ _ _ _ _ I _ _ E') as (s & Hs & Ls). exists s. split; auto.
    apply lookup_delete_Some. split; [|done]. intros ->. congruence.
  - intros l' q s E Hs. destruct (Reg _ _ E) as [E' N]. rewrite (Hq _ N) in Hs.
    unfold res. rewrite occ_filter_ne by done. by apply (c_slots _ _ _ _ _ _ I l').
  - intros k pl E. destruct (Res _ _ E) as [E' N].
    rewrite (data_of_heap _ (heap c)) by apply Fi. by apply (c_data _ _ _ _ _ _ I).
  - intros k pl E. destruct (Res _ _ E) as [E' _]. by apply (c_gen _ _ _ _ _ _ I k).
Qed.

(** Closing the cache empties it. *)
Lemma Close_core c : tinv c -> let c' := Close c in
  tinv c' /\ keeps c c' /\ generation c' = generation c.
Proof.
  intros I. split_and!; auto.
  - constructor; simpl; [apply I|..]; intros ? ? *; by rewrite lookup_empty.
  - split_and!; [done|simpl; lia|]. intros k pl. simpl. by rewrite lookup_empty.
Qed.

(** *** Reading *)

Lemma restamp_core c k pl u : tinv c -> resident c !! k = Some pl ->
  let pl' := {| pslab := pslab pl; pslot := pslot pl; plength := plength pl;
                used := u; gen := gen pl |} in
  let c' := set_resident (<[k := pl']> (resident c)) c in
  tinv c' /\ keeps c c'.
Proof.
  intros I E pl' c'.
  assert (forall k0 pl0, resident c' !! k0 = Some pl0 -> exists pl1, resident c !! k0 = Some pl1 /\
    gen pl1 = gen pl0 /\ pslab pl1 = pslab pl0 /\ pslot pl1 = pslot pl0 /\ plength pl1 = plength pl0)
    as Back.
  { intros k0 pl0. simpl. rewrite lookup_insert_Some. intros [[<- <-]|[_ E0]]; eauto 10. }
  assert (forall pl0 pl1, pslab pl1 = pslab pl0 -> pslot pl1 = pslot pl0 -> plength pl1 = plength pl0 ->
    data_of (BlockSize (tcfg c)) (heap c) pl0 = data_of (BlockSize (tcfg c)) (heap c) pl1) as Dat.
  { intros pl0 pl1 E1 E2 E3. unfold data_of. by rewrite E1, E2, E3. }
  split.
  - constructor; simpl; try apply I.
    + intros k0 pl0 E0. destruct (Back _ _ E0) as (pl1 & E1 & _ & <- & _). by apply (c_res _ _ _ _ _ _ I k0).
    + intros l q s El Hs. rewrite (occ_restamp _ _ _ pl) by done. by apply (c_slots _ _ _ _ _ _ I l).
    + intros k0 pl0 E0. destruct (Back _ _ E0) as (pl1 & E1 & _ & Ep & Es & Ez).
      rewrite (Dat pl0 pl1), <- Ez by done. by apply (c_data _ _ _ _ _ _ I).
    + intros k0 pl0 E0. destruct (Back _ _ E0) as (pl1 & E1 & <- & _). by apply (c_gen _ _ _ _ _ _ I k0).
  - split_and!; [done|simpl; lia|]. intros k0 pl0 E0 _.
    destruct (Back _ _ E0) as (pl1 & E1 & Eg & Ep & Es & Ez). exists pl1. split_and!; auto.
Qed.

Lemma Read_begin_core k c : tinv c -> let c' := (Read_begin k c).1 in
  tinv c' /\ keeps c c' /\ generation c' = generation c.
Proof.
  intros I. unfold Read_begin. destruct (resident c !! k) as [pl|] eqn:E; simpl.
  - destruct (restamp_core (tick c) k pl (wrapU64 (clock c + 1))) as [Ti Ke]; auto.
  - split_and!; [exact I|exact (keeps_refl c)|done].
Qed.

Lemma Read_end_core r res c : tinv c ->
  (forall cur, resident c !! rkey r = Some cur -> gen cur = gen (rplace r) ->
     pslab cur = pslab (rplace r) /\ pslot cur = pslot (rplace r)) ->
  let c' := (Read_end r res c).1 in
  tinv c' /\ keeps c c' /\ generation c' = generation c.
Proof.
  intros I P. unfold Read_end. destruct res as [d|e].
  { case_if; (split_and!; [exact I|exact (keeps_refl c)|done]). }
  destruct (resident c !! rkey r) as [cur|] eqn:E;
    [destruct (Z.eqb_spec (gen cur) (gen (rplace r))) as [G|G]|];
    try (split_and!; [exact I|exact (keeps_refl c)|done]).
  destruct (P _ eq_refl G) as [Ep Es]. rewrite <- Ep, <- Es.
  destruct (c_res _ _ _ _ _ _ I _ _ E) as (s & Hs & Hl).
  destruct (c_reg _ _ _ _ _ _ I _ _ Hl) as (s0 & Hs0 & _ & Rv & _).
  unfold slab_is_revoked. simpl. rewrite Hs. rewrite Hs in Hs0. injection Hs0 as <-.
  rewrite Rv. simpl. destruct (drop_core c _ cur s I E Hs Hl) as [Ti Ke].
  split_and!; [exact Ti|exact Ke|done].
Qed.

(** ** Readers in flight *)

(** Between its two locked sections a read has not yet checked the slab, has
    read some bytes, or has its result. *)
Inductive phase : Type :=
  | Started
  | Reading (got : list byte)
  | Done (res : result TierErr (list byte)).

Definition tstate : Type := Cache * list (reader * phase).

Inductive tstep : tstate -> tstate -> Prop :=
  | ts_AddCapacity l ext c rs : tstep (c, rs) ((AddCapacity l ext c).1, rs)
  | ts_Revoke l c rs : tstep (c, rs) ((Revoke l c).1, rs)
  | ts_ReclaimOrder ls c rs : tstep (c, rs) (ReclaimOrder ls c, rs)
  | ts_Close c rs : tstep (c, rs) (Close c, rs)
  | ts_Admit k d pf io c rs : content k d -> tstep (c, rs) ((Admit k d pf io c).1, rs)
  | ts_Read_miss k c c' rs : Read_begin k c = (c', None) -> tstep (c, rs) (c', rs)
  | ts_Read_begin k r c c' rs : Read_begin k c = (c', Some r) ->
      tstep (c, rs) (c', (r, Started) :: rs)
  | ts_check i r s c rs : rs !! i = Some (r, Started) -> heap c !! pslab (rplace r) = Some s ->
      tstep (c, rs) (c, <[i := (r, if revoked s then Done (Err ErrRevoked) else Reading [])]> rs)
  | ts_chunk i r s got n c rs : rs !! i = Some (r, Reading got) ->
      heap c !! pslab (rplace r) = Some s -> closed s = false ->
      0 <= n -> zlen got + n <= plength (rplace r) ->
      let off := pslot (rplace r) * BlockSize (tcfg c) in
      let chunk := slice (off + zlen got) (off + zlen got + n) (file s) in
      tstep (c, rs) (c, <[i := (r, Reading (got ++ chunk))]> rs)
  | ts_full i r got c rs : rs !! i = Some (r, Reading got) -> zlen got = plength (rplace r) ->
      tstep (c, rs) (c, <[i := (r, Done (Ok got))]> rs)
  | ts_fail i r got c rs : rs !! i = Some (r, Reading got) ->
      tstep (c, rs) (c, <[i := (r, Done (Err ErrDevice))]> rs)
  | ts_Read_end i r res c rs : rs !! i = Some (r, Done res) ->
      tstep (c, rs) ((Read_end r res c).1, delete i rs).

(** What a read in flight may rely on. *)
Definition reader_ok (c : Cache) (x : reader * phase) : Prop :=
  let p := rplace x.1 in
  gen p <= generation c /\
  forall cur, resident c !! rkey x.1 = Some cur -> gen cur = gen p ->
    pslab cur = pslab p /\ pslot cur = pslot p /\ plength cur = plength p /\
    exists d, data_of (BlockSize (tcfg c)) (heap c) cur = Some d /\
      match x.2 with
      | Started => True
      | Reading got => zlen got <= plength p /\ got = slice 0 (zlen got) d
      | Done (Ok data) => data = d
      | Done (Err _) => True
      end.

Lemma reader_keeps c c' x : keeps c c' -> reader_ok c x -> reader_ok c' x.
Proof.
  intros (Ec & G & K) [B R]. split; [lia|]. intros cur' E' Eg'.
  destruct (K _ _ E' ltac:(lia)) as (cur & E & Eg & Ep & Es & Ez & Ed).
  destruct (R _ E ltac:(lia)) as (? & ? & ? & d & Hd & Ph).
  rewrite <- Ep, <- Es, <- Ez, Ec, Ed. eauto 10.
Qed.

Definition tstate_ok (st : tstate) : Prop := tinv st.1 /\ Forall (reader_ok st.1) st.2.

Lemma tstate_op c c' rs : Forall (reader_ok c) rs ->
  tinv c' -> keeps c c' -> tstate_ok (c', rs).
Proof.
  intros F I K. split; [done|]. eapply Forall_impl; [exact F|]. intros x. by apply reader_keeps.
Qed.

Lemma tstate_phase c rs i r ph ph' : tstate_ok (c, rs) -> rs !! i = Some (r, ph) ->
  (reader_ok c (r, ph) -> reader_ok c (r, ph')) -> tstate_ok (c, <[i := (r, ph')]> rs).
Proof.
  intros [I F] E P. split; [done|]. apply Forall_insert; [done|]. apply P.
  by eapply Forall_lookup_1 in F.
Qed.

(** A phase that promises nothing about the bytes. *)
Lemma reader_ok_weaken c r ph ph' : tinv c -> reader_ok c (r, ph) ->
  match ph' with Started | Done (Err _) => True | Reading got => got = [] | _ => False end ->
  reader_ok c (r, ph').
Proof.
  intros I [B R] P. split; [done|]. intros cur E G.
  destruct (R _ E G) as (? & ? & El & d & Hd & _). split_and!; auto. exists d. split; [done|].
  destruct (c_data _ _ _ _ _ _ I _ _ E) as (d' & _ & Ld & _). pose proof (zlen_nonneg d').
  simpl in *. destruct ph' as [|got|[]]; try done. subst got. split; [unfold zlen in *; simpl; lia|done].
Qed.

(** A chunk extends what was read with the next bytes of the block. *)
Lemma reader_ok_chunk c r got s n : tinv c -> reader_ok c (r, Reading got) ->
  heap c !! pslab (rplace r) = Some s -> 0 <= n -> zlen got + n <= plength (rplace r) ->
  let off := pslot (rplace r) * BlockSize (tcfg c) in
  reader_ok c (r, Reading (got ++ slice (off + zlen got) (off + zlen got + n) (file s))).
Proof.
  intros I [B R] Hs Hn Hl off. split; [done|]. simpl. intros cur E G. pose proof (zlen_nonneg got).
  destruct (R _ E G) as (Ep & Es & El & d & Hd & Lg & Eg). simpl in *.
  split_and!; auto. exists d. split; [done|].
  destruct (c_data _ _ _ _ _ _ I _ _ E) as (d' & Hd' & Ld & _). rewrite Hd in Hd'. injection Hd' as <-.
  destruct (c_res _ _ _ _ _ _ I _ _ E) as (s' & Hs' & Hl').
  assert (0 <= pslot cur < slots s') as Sl.
  { eapply (slot_bounds c []); eauto. rewrite !elem_of_app. right; left. by eapply elem_of_occ. }
  unfold data_of in Hd. rewrite Ep, Hs in Hd. simpl in Hd. injection Hd as Hd.
  rewrite Es, El in Hd. fold off in Hd. pose proof (c_bs _ _ _ _ _ _ I).
  assert (0 <= off) by (unfold off; rewrite <- Es; nia).
  assert (slice (off + zlen got) (off + zlen got + n) (file s) = slice (zlen got) (zlen got + n) d) as Ec.
  { rewrite <- Hd, slice_slice by lia. f_equal; lia. }
  rewrite Ec. assert (zlen (slice (zlen got) (zlen got + n) d) = n) as Lc by (rewrite zlen_slice; lia).
  rewrite zlen_app, Lc. split; [lia|]. rewrite Eg at 1.
  apply slice_app; lia.
Qed.

Lemma tstep_ok st st' : tstep st st' -> tstate_ok st ->
  0 <= generation st.1 < 18446744073709551615 ->
  tstate_ok st' /\ 0 <= generation st'.1 <= generation st.1 + 1.
Proof.
  intros S [I F] G. destruct S; simpl in *.
  - destruct (AddCapacity_core l ext c I) as (? & ? & ?). split; [by eapply tstate_op|lia].
  - destruct (Revoke_core l c I) as (? & ? & ?). split; [by eapply tstate_op|lia].
  - split; [|lia]. exact (tstate_op c (ReclaimOrder ls c) rs F I (keeps_refl c)).
  - destruct (Close_core c I) as (? & ? & ?). split; [by eapply tstate_op|lia].
  - destruct (Admit_core k d pf io c I) as (? & K & ?); auto.
    split; [by eapply tstate_op|]. destruct K as (_ & ? & _). lia.
  - destruct (Read_begin_core k c I) as (? & ? & ?). rewrite H in *. simpl in *.
    split; [by eapply tstate_op|lia].
  - destruct (Read_begin_core k c I) as (I' & K & E). rewrite H in *. simpl in *.
    split; [|lia]. destruct (tstate_op _ _ _ F I' K) as [_ F']. split; [done|].
    constructor; [|done]. unfold Read_begin in H. destruct (resident c !! k) as [p|] eqn:Ek; [|done].
    injection H as <- <-. split; simpl; [pose proof (c_gen _ _ _ _ _ _ I _ _ Ek); lia|].
    intros cur. rewrite lookup_insert_Some. intros [[_ <-]|[N _]]; [|done]. intros _. simpl.
    split_and!; auto. destruct (c_data _ _ _ _ _ _ I _ _ Ek) as (d & Hd & _). exists d. split; [|done].
    exact Hd.
  - split; [|simpl; lia]. eapply tstate_phase; eauto; [by split|]. intros R.
    eapply reader_ok_weaken; eauto. by destruct (revoked s).
  - split; [|simpl; lia]. eapply tstate_phase; eauto; [by split|]. intros R.
    by apply reader_ok_chunk.
  - split; [|simpl; lia]. eapply tstate_phase; eauto; [by split|]. intros [B R]. split; [done|].
    intros cur E Eg. destruct (R _ E Eg) as (? & ? & El & d & Hd & _ & Ed). split_and!; auto.
    exists d. split; [done|]. simpl in *. rewrite Ed, H0.
    destruct (c_data _ _ _ _ _ _ I _ _ E) as (d' & Hd' & Ld & _). rewrite Hd in Hd'. injection Hd' as <-.
    rewrite <- El, <- Ld. apply slice_all.
  - split; [|simpl; lia]. eapply tstate_phase; eauto; [by split|]. intros R.
    by eapply reader_ok_weaken.
  - pose proof (Forall_lookup_1 _ _ _ _ F H) as [_ R]. simpl in R.
    destruct (Read_end_core r res c I) as (? & ? & ?).
    { intros cur E Eg. by destruct (R _ E Eg) as (? & ? & _). }
    split; [|lia]. eapply tstate_op; eauto. by apply Forall_delete.
Qed.

Lemma nsteps_ok n st st' : nsteps tstep n st st' -> tstate_ok st -> 0 <= generation st.1 ->
  generation st.1 + Z.of_nat n <= 18446744073709551615 ->
  tstate_ok st' /\ 0 <= generation st'.1.
Proof.
  intros S. induction S as [|n st1 st2 st3 S1 S IH]; [done|]. intros Ok0 G B.
  destruct (tstep_ok _ _ S1 Ok0) as [Ok1 G1]; [lia|]. apply IH; auto; lia.
Qed.

Lemma New_ok cf c : New cf = Some c -> tstate_ok (c, []) /\ generation c = 0.
Proof.
  unfold New. destruct (Z.leb_spec (BlockSize cf) 0); [done|]. destruct (_ <? _); [done|].
  intros [= <-]. split; [|done]. split; [|constructor].
  constructor; simpl; [done|..]; intros ? ? *; by rewrite lookup_empty.
Qed.

Lemma reachable_ok cf c0 n st : New cf = Some c0 -> nsteps tstep n (c0, []) st ->
  Z.of_nat n <= 18446744073709551615 -> tstate_ok st.
Proof.
  intros N S B. destruct (New_ok _ _ N) as [Ok0 G]. eapply nsteps_ok; eauto; simpl; lia.
Qed.

End invariant.
