(* ===== verification/FastTierTheorems.v ===== *)
(** * FastTierTheorems: the properties of the block cache *)

From S2P Require Import Prelude FastTier FastTierProofs.

Local Open Scope Z_scope.

(** ** Lemmas *)

Definition any_content : Key -> list byte -> Prop := fun _ _ => True.

Lemma core_weaken (P Q : Key -> list byte -> Prop) bs h sl res g pend :
  core P bs h sl res g pend -> (forall k d, is_Some (res !! k) -> P k d -> Q k d) ->
  core Q bs h sl res g pend.
Proof.
  intros I W. constructor; try apply I. intros k pl E.
  destruct (c_data _ _ _ _ _ _ _ I _ _ E) as (d & ? & ? & ? & ?). exists d. eauto 10.
Qed.

Lemma Admit_accepts k d pf io c c' : Admit k d pf io c = (c', (true, None)) ->
  resident c !! k = None /\ exists pl, resident c' !! k = Some pl.
Proof.
  unfold Admit. destruct (_ <? _); [done|]. case_bool_decide as R; [done|].
  destruct (if pf then _ else _) as [f b]. destruct (negb b); [done|].
  destruct (placeLocked _ _) as [c1 [[p s]|]]; [|done]. destruct (heap c1 !! p); [|done].
  destruct (slab_write _ _ _ _ _); [|done]. intros [= <-]. split; [by apply eq_None_not_Some|].
  eexists. apply lookup_insert_eq.
Qed.

(** A resident block on a slab in service reads back whole. *)
Lemma Read_resident P c k pl : tinv P c -> resident c !! k = Some pl ->
  exists d, (Read k true c).2 = Some d /\ P k d.
Proof.
  intros I E. destruct (c_data _ _ _ _ _ _ _ I _ _ E) as (d & Hd & Ld & _ & Pd).
  exists d. split; [|done].
  destruct (c_res _ _ _ _ _ _ _ I _ _ E) as (s & Hs & Hl).
  destruct (c_reg _ _ _ _ _ _ _ I _ _ Hl) as (s0 & Hs0 & _ & Rv & Cl & _).
  rewrite Hs in Hs0. injection Hs0 as <-.
  unfold Read, Read_begin. rewrite E. unfold Read_slab. simpl. rewrite Hs. unfold slab_read.
  rewrite Rv, Cl. simpl. unfold data_of in Hd. rewrite Hs in Hd. simpl in Hd. injection Hd as ->.
  rewrite Ld, Z.ltb_irrefl. unfold Read_end. simpl. rewrite lookup_insert_eq. simpl.
  by rewrite Z.eqb_refl.
Qed.

(** ** First reads *)

Definition fr_ok (f : firstReads) : Prop :=
  NoDup (forder f) /\ (forall k, k ∈ seen f <-> k ∈ forder f) /\
  zlen (forder f) <= Z.max 0 (limit f).

Lemma elem_of_remove_key k k' ks : k' ∈ remove_key k ks <-> k' ∈ ks /\ k' <> k.
Proof.
  unfold remove_key. rewrite list_elem_of_In, List.filter_In, list_elem_of_In, negb_true_iff,
    bool_decide_eq_false. done.
Qed.

Lemma sawBefore_ok k f : fr_ok f -> fr_ok (sawBefore k f).1.
Proof.
  intros (ND & S & L). unfold sawBefore. case_bool_decide as K; [by split_and!|].
  destruct (Z.leb_spec (limit f) 0) as [N|N]; [by split_and!|]. simpl.
  destruct (Z.leb_spec (limit f) (zlen (forder f))) as [F|F].
  - destruct (forder f) as [|o rest] eqn:Eo; [unfold zlen in F; simpl in F; lia|]. simpl.
    apply NoDup_cons in ND as [No ND]. unfold zlen in *. simpl in *. split_and!.
    + apply NoDup_app. split_and!; auto; [|apply NoDup_singleton].
      intros x Hx ->%list_elem_of_singleton. apply K, S. set_solver.
    + intros x. simpl. rewrite elem_of_union, elem_of_difference, S, elem_of_app, elem_of_cons, !elem_of_singleton.
      rewrite list_elem_of_singleton. split; [naive_solver|]. intros [Hx| ->]; [|auto].
      right. split; [auto|]. by intros ->.
    + simpl. rewrite zlen_app. unfold zlen in *. simpl. lia.
  - simpl. split_and!.
    + apply NoDup_app. split_and!; auto; [|apply NoDup_singleton].
      intros x Hx ->%list_elem_of_singleton. by apply K, S.
    + intros x. simpl. rewrite elem_of_union, S, elem_of_app, elem_of_singleton, list_elem_of_singleton. tauto.
    + simpl. rewrite zlen_app. unfold zlen in *. simpl. lia.
Qed.

Lemma forget_ok k f : fr_ok f -> fr_ok (forget k f).
Proof.
  intros (ND & S & L). unfold forget. case_bool_decide; [|by split_and!]. split_and!; simpl.
  - unfold remove_key. apply NoDup_ListNoDup, List.NoDup_filter. by apply NoDup_ListNoDup.
  - intros x. rewrite elem_of_difference, elem_of_remove_key, S, elem_of_singleton. done.
  - unfold zlen, remove_key in *. pose proof (List.filter_length_le
      (fun k' => negb (bool_decide (k' = k))) (forder f)). lia.
Qed.

(** How far from eviction a recorded key is: the records before it are dropped
    one by one. *)
Lemma sawBefore_push k ks : forall f pre post, fr_ok f -> forder f = pre ++ k :: post ->
  zlen (post) + zlen ks < limit f ->
  k ∈ seen (fold_left (fun f x => (sawBefore x f).1) ks f).
Proof.
  induction ks as [|x ks IH]; intros f pre post Ok0 E L; simpl.
  { destruct Ok0 as (_ & S & _). apply S. rewrite E. set_solver. }
  assert (zlen (x :: ks) = 1 + zlen ks) as Lx by (unfold zlen; simpl; lia).
  pose proof (zlen_nonneg post). pose proof (zlen_nonneg ks).
  pose proof (sawBefore_ok x f Ok0) as Ok1. unfold sawBefore in *.
  case_bool_decide as K; [apply (IH f pre post); auto; simpl; lia|].
  destruct (Z.leb_spec (limit f) 0); [lia|]. simpl in *.
  destruct (Z.leb_spec (limit f) (zlen (forder f))) as [F|F].
  - rewrite E in *. destruct pre as [|o pre]; simpl in *.
    + unfold zlen in *. simpl in *. lia.
    + apply (IH _ pre (post ++ [x])); auto; simpl.
      * by rewrite <- app_assoc.
      * rewrite zlen_app. unfold zlen at 2. simpl. lia.
  - apply (IH _ pre (post ++ [x])); auto; simpl.
    + rewrite E, <- app_assoc. done.
    + rewrite zlen_app. unfold zlen at 2. simpl. lia.
Qed.

(** ** A concrete cache, for the witnesses *)

Definition wkey (o : string) (i : Z) : Key :=
  {| KTenant := "t"; Block := {| Backend := "b"; Object := o; Index := i |} |}.
Definition wcfg : Config := {| BlockSize := 2; FirstReadLimit := 4 |}.
Definition bytes_of (s : string) : list byte := list_ascii_of_string s.
(** One extent of five bytes: two slots and a remainder. *)
Definition wcache0 : Cache :=
  {| tcfg := wcfg; heap := []; slabs := ∅; order := []; resident := ∅;
     first := newFirstReads 4; clock := 0; generation := 0; hits := 0; misses := 0 |}.
Definition wcache1 : Cache := (AddCapacity "l1" (Some (bytes_of ".....")) wcache0).1.
Definition wcache2 : Cache := (Admit (wkey "x" 0) (bytes_of "ab") true true wcache1).1.
Definition wcache3 : Cache := (Admit (wkey "y" 0) (bytes_of "cd") true true wcache2).1.

Definition wcontent : Key -> list byte -> Prop :=
  fun k d => d = bytes_of (if (Object (Block k) =? "x")%string then "ab" else "cd").

Lemma wcache_steps : nsteps (tstep wcontent) 3 (wcache0, []) (wcache3, []).
Proof.
  eapply nsteps_l; [apply (ts_AddCapacity _ "l1" (Some (bytes_of ".....")))|].
  eapply nsteps_l; [apply (ts_Admit _ (wkey "x" 0) (bytes_of "ab") true true); reflexivity|].
  eapply nsteps_l; [apply (ts_Admit _ (wkey "y" 0) (bytes_of "cd") true true); reflexivity|].
  apply nsteps_O.
Qed.

Lemma wcache_tinv : tinv wcontent wcache3.
Proof.
  destruct (reachable_ok wcontent wcfg wcache0 3 (wcache3, [])) as [I _]; auto; [|done].
  apply wcache_steps.
Qed.

(** ** Reads *)

(** C33: a read never answers with the content of another block. Over any
    interleaving of operations with reads that run outside the lock, chunk by
    chunk, while slots are evicted, refilled and revoked under them, bytes that
    a read returns for a key are content the backend gave for that key. *)
Theorem read_serves_own_content (content : Key -> list byte -> Prop) cf c0 n c rs i r res data :
  New cf = Some c0 -> nsteps (tstep content) n (c0, []) (c, rs) ->
  Z.of_nat n <= 18446744073709551615 ->
  rs !! i = Some (r, Done res) -> (Read_end r res c).2 = Some data ->
  content (rkey r) data.
Proof.
  intros N S B E R. destruct (reachable_ok _ _ _ _ _ N S B) as [I F].
  pose proof (Forall_lookup_1 _ _ _ _ F E) as [_ Rd]. simpl in *.
  unfold Read_end in R. destruct res as [d|e]; [|done].
  destruct (resident c !! rkey r) as [cur|] eqn:Ec; [|done].
  destruct (Z.eqb_spec (gen cur) (gen (rplace r))) as [G|]; [|done]. simpl in R. injection R as <-.
  destruct (Rd _ eq_refl G) as (_ & _ & _ & d' & Hd & ->).
  destruct (c_data _ _ _ _ _ _ _ I _ _ Ec) as (d2 & Hd2 & _ & _ & C). congruence.
Qed.

Definition wread : reader :=
  {| rkey := wkey "x" 0;
     rplace := {| pslab := 0; pslot := 0; plength := 2; used := 3; gen := 1 |} |}.

Lemma read_serves_own_content_witness : wcontent (wkey "x" 0) (bytes_of "ab").
Proof.
  apply (read_serves_own_content wcontent wcfg wcache0 (3 + 5)
    (Read_begin (wkey "x" 0) wcache3).1 [(wread, Done (Ok (bytes_of "ab")))] 0 wread
    (Ok (bytes_of "ab")) (bytes_of "ab")).
  - reflexivity.
  - eapply nsteps_trans; [apply wcache_steps|].
    eapply nsteps_l; [apply (ts_Read_begin _ (wkey "x" 0) wread); vm_compute; reflexivity|].
    eapply nsteps_l; [eapply (ts_check _ 0); reflexivity|].
    eapply nsteps_l; [eapply (ts_chunk _ 0 _ _ _ 1); vm_compute; (reflexivity || discriminate)|].
    eapply nsteps_l; [eapply (ts_chunk _ 0 _ _ _ 1); vm_compute; (reflexivity || discriminate)|].
    eapply nsteps_l; [eapply (ts_full _ 0); vm_compute; reflexivity|].
    vm_compute. apply nsteps_O.
  - vm_compute. discriminate.
  - reflexivity.
  - reflexivity.
Defined.

(** ** Slots *)

(** slots are conserved. In every reachable cache each slot of a slab in
    service is either free or holds exactly one resident block, so none leaks
    and none is handed out twice, and every resident block lies in such a slab. *)
Theorem slots_conserved (content : Key -> list byte -> Prop) cf c0 n c rs :
  New cf = Some c0 -> nsteps (tstep content) n (c0, []) (c, rs) ->
  Z.of_nat n <= 18446744073709551615 ->
  (forall l p s, slabs c !! l = Some p -> heap c !! p = Some s ->
     free s ++ occ p (resident c) ≡ₚ seqZ 0 (slots s)) /\
  (forall k pl, resident c !! k = Some pl ->
     exists s, heap c !! pslab pl = Some s /\ slabs c !! lease s = Some (pslab pl) /\
       revoked s = false /\ closed s = false).
Proof.
  intros N S B. destruct (reachable_ok _ _ _ _ _ N S B) as [I _]. split.
  - intros l p s E H. rewrite <- (c_slots _ _ _ _ _ _ _ I l p s E H). simpl. by rewrite app_nil_r.
  - intros k pl E. destruct (c_res _ _ _ _ _ _ _ I _ _ E) as (s & Hs & Hl).
    destruct (c_reg _ _ _ _ _ _ _ I _ _ Hl) as (s' & Hs' & _ & ? & ? & _).
    exists s. simpl in *. rewrite Hs in Hs'. injection Hs' as <-. done.
Qed.

Lemma slots_conserved_witness :
  (forall l p s, slabs wcache3 !! l = Some p -> heap wcache3 !! p = Some s ->
     free s ++ occ p (resident wcache3) ≡ₚ seqZ 0 (slots s)) /\
  (forall k pl, resident wcache3 !! k = Some pl ->
     exists s, heap wcache3 !! pslab pl = Some s /\ slabs wcache3 !! lease s = Some (pslab pl) /\
       revoked s = false /\ closed s = false).
Proof.
  apply (slots_conserved wcontent wcfg wcache0 3 wcache3 []);
    [reflexivity|apply wcache_steps|vm_compute; discriminate].
Defined.

(** ** Admission *)

(** a prediction never evicts. Whatever admitting a prefetched block comes
    to, every block that was resident still is, where it was. *)
Theorem prefetch_never_evicts content k data io c :
  tinv content c -> resident c ⊆ resident (Admit k data true io c).1.
Proof.
  intros I. unfold Admit. case_if; [done|]. case_bool_decide as R; [done|]. simpl.
  destruct (placeLocked true (set_first (first c) c)) as [c1 placed] eqn:P.
  destruct (placeLocked_core content true (set_first (first c) c) c1 placed I P)
    as (_ & _ & _ & _ & Er & _).
  specialize (Er eq_refl). simpl in Er. destruct placed as [[p slot]|]; simpl; [|by rewrite Er].
  destruct (heap c1 !! p); simpl; [|by rewrite Er].
  destruct (slab_write _ _ _ _ _); simpl; [|by rewrite Er].
  rewrite Er. apply insert_subseteq. by apply eq_None_not_Some.
Qed.

Lemma prefetch_never_evicts_witness :
  resident wcache3 ⊆ resident (Admit (wkey "z" 0) (bytes_of "ef") true true wcache3).1.
Proof. apply (prefetch_never_evicts wcontent). apply wcache_tinv. Defined.

(** a scan admits nothing. A sequential pass that offers blocks nobody has
    read before, each once, leaves every resident block and every slot as they
    were: only the record of first reads changes. *)
Theorem scan_admits_nothing (blocks : list (Key * list byte)) c :
  NoDup blocks.*1 ->
  Forall (fun b => b.1 ∉ seen (first c)) blocks ->
  let c' := fold_left (fun c b => (Admit b.1 b.2 false true c).1) blocks c in
  resident c' = resident c /\ heap c' = heap c /\ slabs c' = slabs c.
Proof.
  revert c. induction blocks as [|[k d] blocks IH]; intros c ND F; simpl; [done|].
  apply NoDup_cons in ND as [N ND]. apply Forall_cons in F as [Fk F]. simpl in *.
  assert (exists f, (Admit k d false true c).1 = set_first f c /\
    forall x, x ∈ seen f -> x = k \/ x ∈ seen (first c)) as (f & Ef & Sf).
  { unfold Admit. case_if; [exists (first c); split; [by destruct c|auto]|].
    case_bool_decide; [exists (first c); split; [by destruct c|auto]|].
    unfold sawBefore. rewrite bool_decide_false by done. case_if; simpl.
    - exists (first c). auto.
    - eexists. split; [done|]. intros x. simpl. repeat case_match; simpl; set_solver. }
  rewrite Ef. destruct (IH (set_first f c)) as (-> & -> & ->); auto.
  apply Forall_forall. intros b Hb Hs. destruct (Sf _ Hs) as [E|E].
  - apply N. rewrite <- E. apply list_elem_of_fmap. eauto.
  - rewrite Forall_forall in F. by apply (F b).
Qed.

Lemma scan_admits_nothing_witness :
  let blocks := [(wkey "p" 0, bytes_of "pp"); (wkey "q" 0, bytes_of "qq")] in
  let c' := fold_left (fun c b => (Admit b.1 b.2 false true c).1) blocks wcache3 in
  resident c' = resident wcache3 /\ heap c' = heap wcache3 /\ slabs c' = slabs wcache3.
Proof.
  intros blocks. apply (scan_admits_nothing blocks wcache3).
  - apply (bool_decide_unpack _). vm_compute. done.
  - repeat constructor; apply (bool_decide_unpack _); vm_compute; done.
Defined.

(** a second read is recognised as long as it comes back within the record's
    bound: after the first read of a block, fewer than the limit of other reads
    cannot push its record out, and the record itself never outgrows the limit. *)
Theorem second_read_recognised k ks f :
  fr_ok f -> k ∉ seen f -> zlen ks < limit f ->
  let f' := fold_left (fun f x => (sawBefore x f).1) ks (sawBefore k f).1 in
  (sawBefore k f').2 = true /\ zlen (forder f') <= limit f'.
Proof.
  intros Ok0 N L f'. pose proof (zlen_nonneg ks).
  assert (exists pre, forder (sawBefore k f).1 = pre ++ [k] /\ limit (sawBefore k f).1 = limit f)
    as (pre & E & El).
  { unfold sawBefore. rewrite bool_decide_false by done.
    destruct (Z.leb_spec (limit f) 0); [lia|]. simpl. eexists. split; [done|].
    repeat case_match; done. }
  pose proof (sawBefore_ok k f Ok0) as Ok1.
  assert (fr_ok f' /\ limit f' = limit f) as [Ok2 El2].
  { unfold f'. rewrite <- El. revert Ok1. generalize (sawBefore k f).1. clear.
    induction ks as [|x ks IH]; intros f Ok0; simpl; [done|].
    destruct (IH _ (sawBefore_ok x f Ok0)) as [? ->]. split; [done|].
    unfold sawBefore. repeat case_match; done. }
  split; [|destruct Ok2 as (_ & _ & ?); rewrite El2 in *; lia].
  unfold sawBefore at 1. rewrite bool_decide_true; [done|].
  apply (sawBefore_push k ks _ pre []); auto. rewrite El. unfold zlen at 1. simpl. lia.
Qed.

Lemma second_read_recognised_witness :
  let f' := fold_left (fun f x => (sawBefore x f).1) [wkey "p" 0; wkey "q" 0]
              (sawBefore (wkey "x" 0) (newFirstReads 4)).1 in
  (sawBefore (wkey "x" 0) f').2 = true /\ zlen (forder f') <= limit f'.
Proof.
  apply (second_read_recognised (wkey "x" 0) [wkey "p" 0; wkey "q" 0] (newFirstReads 4)).
  - split_and!; simpl; [constructor|set_solver|unfold zlen; simpl; lia].
  - simpl. set_solver.
  - vm_compute. done.
Defined.

(** what was admitted is read back: a block [Admit] reports kept is
    returned, byte for byte, by the next read of its key. *)
Theorem admitted_block_reads_back k data pf io c c' :
  tinv any_content c -> 0 <= generation c < 18446744073709551615 ->
  Admit k data pf io c = (c', (true, None)) -> (Read k true c').2 = Some data.
Proof.
  intros I G A. destruct (Admit_accepts _ _ _ _ _ _ A) as [N [pl E]].
  set (P := fun k' d => k' = k -> d = data).
  assert (tinv P c) as IP.
  { eapply core_weaken; [exact I|]. intros k' d [pl' E'] _ ->. simpl in *. congruence. }
  destruct (Admit_core P k data pf io c IP) as (IP' & _); [by intros _|done|].
  rewrite A in IP'. destruct (Read_resident P c' k pl IP' E) as (d & R & Pd).
  rewrite R. by rewrite Pd.
Qed.

Lemma wcache2_any : tinv any_content wcache2.
Proof.
  destruct (reachable_ok any_content wcfg wcache0 2 (wcache2, [])) as [I _]; auto; [|done].
  eapply nsteps_l; [apply (ts_AddCapacity _ "l1" (Some (bytes_of ".....")))|].
  eapply nsteps_l; [apply (ts_Admit _ (wkey "x" 0) (bytes_of "ab") true true); done|].
  apply nsteps_O.
Qed.

Lemma admitted_block_reads_back_witness : (Read (wkey "y" 0) true wcache3).2 = Some (bytes_of "cd").
Proof.
  apply (admitted_block_reads_back (wkey "y" 0) (bytes_of "cd") true true wcache2 wcache3).
  - apply wcache2_any.
  - vm_compute. split; [discriminate|done].
  - apply injective_projections; vm_compute; reflexivity.
Defined.

(** ** Eviction and revocation *)

Lemma evict_from_first ls c c' : evict_from ls c = Some c' ->
  exists pre l post s k pl, ls = pre ++ l :: post /\ slabs c !! l = Some s /\
    lru s c = Some (k, pl) /\
    (forall l' s' k' pl', l' ∈ pre -> slabs c !! l' = Some s' -> resident c !! k' = Some pl' ->
       pslab pl' <> s') /\
    c' = set_resident (delete k (resident c)) (with_slab s (slab_release (pslot pl)) c).
Proof.
  induction ls as [|l ls IH]; simpl; [done|].
  destruct (slabs c !! l) as [s|] eqn:El; [destruct (lru s c) as [[k pl]|] eqn:Lr|].
  { intros [= <-]. exists [], l, ls, s, k, pl. split_and!; auto. set_solver. }
  all: intros H; destruct (IH H) as (pre & l1 & post & s1 & k & pl & -> & ? & ? & P & ?).
  all: exists (l :: pre), l1, post, s1, k, pl; split_and!; auto.
  all: intros l' s' k' pl' [->|Hl]%elem_of_cons El' E'; [|by eapply P].
  - rewrite El in El'. injection El' as <-. pose proof (lru_spec s c) as Sp. rewrite Lr in Sp. eauto.
  - congruence.
Qed.

(** eviction prefers what is leaving anyway. The block it drops belongs to
    the first lease, in the reclaim order the tier was told, that holds any
    block, and no block of that lease was used less recently; nothing else is
    dropped. *)
Theorem eviction_prefers_leaving_lru c c' :
  evictOneLocked c = Some c' ->
  exists pre l post s k pl, order c = pre ++ l :: post /\ slabs c !! l = Some s /\
    resident c !! k = Some pl /\ pslab pl = s /\ resident c' = delete k (resident c) /\
    (forall l' s' k' pl', l' ∈ pre -> slabs c !! l' = Some s' -> resident c !! k' = Some pl' ->
       pslab pl' <> s') /\
    (forall k' pl', resident c !! k' = Some pl' -> pslab pl' = s -> used pl <= used pl').
Proof.
  intros (pre & l & post & s & k & pl & E & El & Lr & P & ->)%evict_from_first.
  pose proof (lru_spec s c) as Sp. rewrite Lr in Sp. destruct Sp as (Ek & Es & M).
  exists pre, l, post, s, k, pl. auto 10.
Qed.

Lemma eviction_prefers_leaving_lru_witness :
  exists pre l post s k pl, order wcache3 = pre ++ l :: post /\ slabs wcache3 !! l = Some s /\
    resident wcache3 !! k = Some pl /\ pslab pl = s /\
    resident (default wcache3 (evictOneLocked wcache3)) = delete k (resident wcache3) /\
    (forall l' s' k' pl', l' ∈ pre -> slabs wcache3 !! l' = Some s' ->
       resident wcache3 !! k' = Some pl' -> pslab pl' <> s') /\
    (forall k' pl', resident wcache3 !! k' = Some pl' -> pslab pl' = s -> used pl <= used pl').
Proof. apply eviction_prefers_leaving_lru. vm_compute. reflexivity. Defined.

(** revoking a lease forgets exactly the blocks it held and counts them, and
    makes its slab unreadable before it is closed: a read that already chose
    it, at whatever slot, is answered as revoked, not with bytes. *)
Theorem Revoke_forgets_lease l p c :
  slabs c !! l = Some p ->
  let (c', n) := Revoke l c in
  (forall k pl, resident c' !! k = Some pl <-> resident c !! k = Some pl /\ pslab pl <> p) /\
  n = Z.of_nat (size (resident c)) - Z.of_nat (size (resident c')) /\
  slabs c' = delete l (slabs c) /\
  (forall s slot len io, heap c' !! p = Some s ->
     slab_read slot len (BlockSize (tcfg c)) io s = Err ErrRevoked).
Proof.
  intros E. unfold Revoke. rewrite E. simpl. split_and!; auto.
  - intros k pl. by rewrite map_lookup_filter_Some.
  - intros s slot len io. rewrite !alter_lookup, !decide_True by done.
    destruct (heap c !! p) as [s0|]; [|done]. intros [= <-]. done.
Qed.

Lemma Revoke_forgets_lease_witness :
  let (c', n) := Revoke "l1" wcache3 in
  (forall k pl, resident c' !! k = Some pl <-> resident wcache3 !! k = Some pl /\ pslab pl <> 0%nat) /\
  n = Z.of_nat (size (resident wcache3)) - Z.of_nat (size (resident c')) /\
  slabs c' = delete "l1" (slabs wcache3) /\
  (forall s slot len io, heap c' !! 0%nat = Some s ->
     slab_read slot len (BlockSize (tcfg wcache3)) io s = Err ErrRevoked).
Proof. apply (Revoke_forgets_lease "l1" 0 wcache3). reflexivity. Defined.
