(* ===== verification/Tier.v ===== *)
(** * Tier: what the block cache promises the data server

    [Tier] is the part of the cache the data server calls, and [TierSpec] what
    it relies on: bytes the tier returns for a key are bytes it was given for
    that key. The cache implements it, with a device that may fail under any
    operation. Other readers, reclamation and prefetch act on the cache between
    and during these calls; that they cannot break the promise is
    [FastTierTheorems.read_serves_own_content]. *)

From S2P Require Import Prelude FastTier FastTierProofs.

Local Open Scope Z_scope.

Class Tier (T : Type) : Type := {
  tier_BlockSize : T -> Z;
  tier_Read : Key -> T -> T * option (list byte);
  tier_Admit : Key -> list byte -> bool -> T -> T * (bool * option TierErr);
  tier_Resident : Key -> T -> bool;
}.

(** [tier_ok P n t]: [t] holds only content [P] allows, and has room for [n]
    more admissions before its generation counter could wrap. *)
Class TierSpec (T : Type) `{Tier T} : Type := {
  tier_ok : (Key -> list byte -> Prop) -> nat -> T -> Prop;
  tier_ok_weaken P n t : tier_ok P (S n) t -> tier_ok P n t;
  tier_BlockSize_pos P n t : tier_ok P n t -> 0 < tier_BlockSize t;
  tier_Read_ok P n k t : tier_ok P n t ->
    tier_ok P n (tier_Read k t).1 /\ tier_BlockSize (tier_Read k t).1 = tier_BlockSize t /\
    forall d, (tier_Read k t).2 = Some d -> P k d;
  tier_Admit_ok P n k d pf t : tier_ok P (S n) t -> P k d ->
    tier_ok P n (tier_Admit k d pf t).1 /\
    tier_BlockSize (tier_Admit k d pf t).1 = tier_BlockSize t;
}.

(** ** The cache, on a device that may fail *)

Record FaultyCache : Type := mkFaultyCache {
  fcache : Cache;
  fio : list bool;
}.

Definition next_io (t : FaultyCache) : bool := default true (head (fio t)).
Definition put_cache (c : Cache) (t : FaultyCache) : FaultyCache :=
  {| fcache := c; fio := tail (fio t) |}.

#[global] Instance FaultyCache_Tier : Tier FaultyCache := {
  tier_BlockSize t := BlockSize (tcfg (fcache t));
  tier_Read k t := let '(c, o) := Read k (next_io t) (fcache t) in (put_cache c t, o);
  tier_Admit k d pf t :=
    let '(c, r) := Admit k d pf (next_io t) (fcache t) in (put_cache c t, r);
  tier_Resident k t := Resident k (fcache t);
}.

Lemma Read_ok P k io c : tinv P c ->
  tinv P (Read k io c).1 /\ keeps c (Read k io c).1 /\
  generation (Read k io c).1 = generation c /\ forall d, (Read k io c).2 = Some d -> P k d.
Proof.
  intros I. destruct (Read_begin_core P k c I) as (I1 & K1 & G1). unfold Read.
  destruct (Read_begin k c) as [c1 [r|]] eqn:B; simpl in *; [|split_and!; auto; done].
  unfold Read_begin in B. destruct (resident c !! k) as [p|] eqn:Ek; [|done]. injection B as <- <-.
  set (p' := {| pslab := pslab p; pslot := pslot p; plength := plength p; used := _; gen := gen p |}) in *.
  set (r := {| rkey := k; rplace := p' |}). set (c1 := set_resident _ _) in *.
  assert (resident c1 !! k = Some p') as Er by apply lookup_insert_eq.
  destruct (Read_end_core P r (Read_slab r io c1) c1 I1) as (I2 & K2 & G2).
  { intros cur E _. change (resident c1 !! k = Some cur) in E. rewrite Er in E. by injection E as <-. }
  split_and!; [exact I2|by eapply keeps_trans|exact (eq_trans G2 G1)|].
  intros d. unfold Read_end. destruct (Read_slab r io c1) as [d'|] eqn:Rs; [|done].
  change (resident c1 !! rkey r) with (resident c1 !! k). rewrite Er. simpl. rewrite Z.eqb_refl. simpl. intros [= <-].
  destruct (c_data _ _ _ _ _ _ _ I1 _ _ Er) as (d & Hd & Ld & _ & Pd).
  unfold Read_slab in Rs. simpl in Rs. unfold data_of in Hd. simpl in Hd.
  destruct (heap c !! pslab p) as [s|]; [|done]. simpl in Hd. injection Hd as Hd.
  unfold slab_read in Rs. destruct (revoked s); [done|]. destruct (_ || _); [done|].
  destruct (_ <? _) in Rs; [done|]. injection Rs as <-. unfold p' in *. simpl in *. by rewrite Hd.
Qed.

Definition cache_ok (P : Key -> list byte -> Prop) (n : nat) (t : FaultyCache) : Prop :=
  tinv P (fcache t) /\ 0 <= generation (fcache t) /\
  generation (fcache t) + Z.of_nat n <= 18446744073709551615.

#[global] Instance FaultyCache_Spec : TierSpec FaultyCache.
Proof.
  refine {| tier_ok := cache_ok |}.
  - intros P n t (I & G & B). split_and!; auto. lia.
  - intros P n t (I & _). apply I.
  - intros P n k t (I & G & B). simpl.
    destruct (Read_ok P k (next_io t) (fcache t) I) as (I' & (Ec & _) & Eg & D).
    destruct (Read k (next_io t) (fcache t)) as [c o]. simpl in *.
    split_and!; [split_and!; simpl; auto; lia|congruence|done].
  - intros P n k d pf t (I & G & B) Pd. simpl.
    destruct (Admit_core P k d pf (next_io t) (fcache t) I Pd) as (I' & (Ec & Eg & _) & Le); [lia|].
    destruct (Admit k d pf (next_io t) (fcache t)) as [c r]. simpl in *.
    split; [split_and!; simpl; auto; lia|congruence].
Defined.
