(* ===== verification/Prefetch.v ===== *)
(** * Prefetch: the stride detector (internal/prefetch/prefetch.go)

    A detector holds what it knows about each stream; [Observe] records a read
    and returns the blocks worth fetching next. Indices and strides are int64
    and wrap. [score] walks the map of outstanding predictions while it deletes
    from it; the walk is over the entries the map had when it began, which is
    what Go does here even when [record] replaces the map. *)

From S2P Require Import Prelude Float64.

Local Open Scope Z_scope.

Record Block : Type := mkBlock {
  Stream : string;
  BIndex : Z;
}.
#[global] Instance Block_eq_dec : EqDecision Block.
Proof. solve_decision. Defined.

Record Config : Type := mkPrefetchConfig {
  Depth : Z;
  Confirmations : Z;
  Window : Z;
  MinAccuracy : float64;
  Patience : duration;
}.

Definition Validate (c : Config) : bool :=
  negb (Depth c <=? 0) && negb (Confirmations c <? 3) && negb (Window c <=? 0) &&
  negb (f64_ltb (MinAccuracy c) (f64_of_Z 0) || f64_ltb (f64_of_Z 1) (MinAccuracy c)) &&
  negb (Patience c <=? 0).

Definition DefaultConfig : Config :=
  {| Depth := 8; Confirmations := 3; Window := 64; MinAccuracy := f64_lit 1 2; Patience := Minute |}.

Record stream : Type := mkStream {
  slast : Z;
  stride : Z;
  runs : Z;
  started : bool;
  outstanding : gmap Z time;
  recent : list bool;
  muted : bool;
  mutedStride : Z;
}.

Definition new_stream : stream :=
  {| slast := 0; stride := 0; runs := 0; started := false; outstanding := ∅; recent := [];
     muted := false; mutedStride := 0 |}.

Definition set_recent (r : list bool) (s : stream) : stream :=
  {| slast := slast s; stride := stride s; runs := runs s; started := started s;
     outstanding := outstanding s; recent := r; muted := muted s; mutedStride := mutedStride s |}.
Definition set_outstanding (o : gmap Z time) (s : stream) : stream :=
  {| slast := slast s; stride := stride s; runs := runs s; started := started s;
     outstanding := o; recent := recent s; muted := muted s; mutedStride := mutedStride s |}.
Definition set_stride (st r : Z) (s : stream) : stream :=
  {| slast := slast s; stride := st; runs := r; started := started s;
     outstanding := outstanding s; recent := recent s; muted := muted s; mutedStride := mutedStride s |}.
Definition set_last (i : Z) (s : stream) : stream :=
  {| slast := i; stride := stride s; runs := runs s; started := true;
     outstanding := outstanding s; recent := recent s; muted := muted s; mutedStride := mutedStride s |}.
Definition set_muted (m : bool) (ms : Z) (s : stream) : stream :=
  {| slast := slast s; stride := stride s; runs := runs s; started := started s;
     outstanding := outstanding s; recent := recent s; muted := m; mutedStride := ms |}.

Record Detector : Type := mkDetector {
  dcfg : Config;
  streams : gmap string stream;
}.

Definition New (c : Config) : option Detector :=
  if Validate c then Some {| dcfg := c; streams := ∅ |} else None.

Definition accuracy (rs : list bool) : float64 :=
  f64_div (f64_of_Z (zlen (List.filter (fun ok => ok) rs))) (f64_of_Z (zlen rs)).

Definition record (c : Config) (read : bool) (s : stream) : stream :=
  let r := recent s ++ [read] in
  let r := if Window c <? zlen r then zdrop (zlen r - Window c) r else r in
  let s := set_recent r s in
  if zlen r <? Window c then s
  else if negb (muted s) && f64_ltb (accuracy r) (MinAccuracy c) then
    set_stride 0 0 (set_outstanding ∅ (set_muted true (stride s) s))
  else s.

Definition score_one (c : Config) (now : time) (s : stream) (p : Z * time) : stream :=
  if Patience c <=? time_Sub now p.2
  then record c false (set_outstanding (delete p.1 (outstanding s)) s)
  else s.

Definition score (c : Config) (index : Z) (now : time) (s : stream) : stream :=
  let s := if bool_decide (is_Some (outstanding s !! index))
           then record c true (set_outstanding (delete index (outstanding s)) s) else s in
  fold_left (score_one c now) (map_to_list (outstanding s)) s.

Definition track (c : Config) (index : Z) (s : stream) : stream :=
  if negb (started s) then set_last index s
  else
    let st := index -! slast s in
    let s := set_last index s in
    if st =? 0 then s
    else if st =? stride s then
      let s := set_stride (stride s) (runs s +! 1) s in
      if muted s && negb (st =? mutedStride s) && (Confirmations c <=? runs s +! 2)
      then set_recent [] (set_muted false (mutedStride s) s)
      else s
    else set_stride st 0 s.

(** The loop [for i := 1; i <= Depth; i++], with the blocks collected so far. *)
Definition predict_one (b : Block) (now : time) (acc : stream * list Block) (i : Z)
  : stream * list Block :=
  let '(s, out) := acc in
  let next := BIndex b +! stride s *! i in
  if bool_decide (is_Some (outstanding s !! next)) then (s, out)
  else (set_outstanding (<[next := now]> (outstanding s)) s,
        out ++ [{| Stream := Stream b; BIndex := next |}]).

Definition predicting (c : Config) (s : stream) : bool :=
  started s && negb (muted s) && (Confirmations c <=? runs s +! 2).

Definition Observe (b : Block) (now : time) (d : Detector) : Detector * list Block :=
  let c := dcfg d in
  let s := default new_stream (streams d !! Stream b) in
  let s := track c (BIndex b) (score c (BIndex b) now s) in
  let put s := {| dcfg := c; streams := <[Stream b := s]> (streams d) |} in
  if negb (started s) || (runs s +! 2 <? Confirmations c) || muted s then (put s, [])
  else
    let '(s, out) := fold_left (predict_one b now) (seqZ 1 (Depth c)) (s, []) in
    (put s, out).

Definition Accuracy (name : string) (d : Detector) : option float64 :=
  match streams d !! name with
  | None => None
  | Some s => match recent s with [] => None | r => Some (accuracy r) end
  end.

Definition Predicting (name : string) (d : Detector) : bool :=
  match streams d !! name with
  | None => false
  | Some s => predicting (dcfg d) s
  end.

Definition Forget (name : string) (d : Detector) : Detector :=
  {| dcfg := dcfg d; streams := delete name (streams d) |}.

(** ** What a stream has read

    [history] is a stream's reads, newest first, with immediate repeats left
    out, since a repeat neither confirms a stride nor breaks it. *)
Fixpoint history (name : string) (reads : list (Block * time)) : list Z :=
  match reads with
  | [] => []
  | (b, _) :: older =>
      let h := history name older in
      if (Stream b =? name)%string then
        match h with
        | i :: _ => if BIndex b -! i =? 0 then h else BIndex b :: h
        | [] => [BIndex b]
        end
      else h
  end.

(** The reads arrive oldest first; [reads] lists them newest first. *)
Fixpoint observe_all (reads : list (Block * time)) (d : Detector) : Detector :=
  match reads with
  | [] => d
  | (b, t) :: older => (Observe b t (observe_all older d)).1
  end.

(** The newest [n] reads step by [st]. *)
Fixpoint steps_by (st : Z) (n : nat) (h : list Z) : Prop :=
  match n, h with
  | S m, i :: ((j :: _) as t) => i -! j = st /\ steps_by st m t
  | S _, _ => False
  | O, _ => True
  end.

(** ** Invariant *)

(** What a stream knows agrees with what it has read. *)
Record stream_ok (h : list Z) (s : stream) : Prop := {
  ok_started : started s = true <-> h <> [];
  ok_last : forall i, head h = Some i -> slast s = i;
  ok_runs : 0 <= runs s;
  ok_none : stride s = 0 -> runs s = 0;
  ok_steps : stride s <> 0 -> steps_by (stride s) (S (Z.to_nat (runs s))) h;
}.

Lemma steps_by_length st n : forall h, steps_by st (S n) h -> (S (S n) <= length h)%nat.
Proof.
  induction n as [|n IH]; intros [|i [|j t]]; simpl; try tauto; [lia|].
  intros [_ H]. apply (IH (j :: t)) in H. simpl in H. lia.
Qed.

Lemma steps_by_le st n m : forall h, (m <= n)%nat -> steps_by st n h -> steps_by st m h.
Proof.
  revert m. induction n as [|n IH]; intros [|m] h L; try done; [lia|].
  destruct h as [|i [|j t]]; simpl; try tauto. intros [E H]. split; [done|].
  apply IH; [lia|done].
Qed.

(** Scoring may reset the stride, and touches nothing else a stream knows about
    its reads. *)
Definition rescored (s s' : stream) : Prop :=
  slast s' = slast s /\ started s' = started s /\
  (stride s' = stride s /\ runs s' = runs s \/ stride s' = 0 /\ runs s' = 0).

Lemma rescored_trans s1 s2 s3 : rescored s1 s2 -> rescored s2 s3 -> rescored s1 s3.
Proof. intros (? & ? & ?) (? & ? & ?). split_and!; try congruence. intuition congruence. Qed.

Lemma record_rescored c r s : rescored s (record c r s).
Proof. unfold record, rescored. repeat case_if; simpl; auto. Qed.

Lemma score_rescored c i now s : rescored s (score c i now s).
Proof.
  unfold score. set (s1 := if bool_decide _ then _ else s).
  assert (rescored s s1) as R1.
  { unfold s1. case_if; [|by split_and!; auto].
    pose proof (record_rescored c true (set_outstanding (delete i (outstanding s)) s)) as R. exact R. }
  eapply rescored_trans; [exact R1|]. clear R1. clearbody s1.
  generalize (map_to_list (outstanding s1)) as l. intros l. revert s1.
  induction l as [|p l IH]; intros s1; simpl; [by split_and!; auto|].
  eapply rescored_trans; [|apply IH]. unfold score_one. case_if; [|by split_and!; auto].
  pose proof (record_rescored c false (set_outstanding (delete p.1 (outstanding s1)) s1)) as R. exact R.
Qed.

Lemma rescored_ok h s s' : rescored s s' -> stream_ok h s -> stream_ok h s'.
Proof.
  intros (El & Es & D) [A B C N S]. constructor; rewrite ?El, ?Es; auto;
    destruct D as [[E1 E2]|[E1 E2]]; rewrite ?E1, ?E2; auto; lia || done.
Qed.

Lemma wrap64_sub_0 a b : is_int64 a -> is_int64 b -> a -! b = 0 -> a = b.
Proof.
  intros A B E. destruct (wrap64_cong (a - b)) as [k Ek].
  unfold is_int64, MinInt64, MaxInt64 in *. lia.
Qed.

(** The read a stream is told of. *)
Definition read_index (i : Z) (h : list Z) : list Z :=
  match h with
  | j :: _ => if i -! j =? 0 then h else i :: h
  | [] => [i]
  end.

Lemma track_ok c i h s : is_int64 i -> Forall is_int64 h ->
  Z.of_nat (length h) < 4611686018427387904 ->
  stream_ok h s -> stream_ok (read_index i h) (track c i s).
Proof.
  intros Ii Ih L [St La Ru No Ste]. unfold track.
  destruct h as [|j h].
  { destruct (started s) eqn:Es; [destruct St as [St _]; by destruct (St eq_refl)|]. simpl. constructor; simpl; auto.
    all: try (by intros ? [= ->]); try (by split; auto).
    }
  assert (started s = true) as -> by by apply St. simpl.
  assert (slast s = j) as -> by by apply La. apply Forall_cons in Ih as [Ij Ih].
  destruct (Z.eqb_spec (i -! j) 0) as [E|E].
  { apply wrap64_sub_0 in E as ->; auto. constructor; simpl; auto; try (by intros ? [= ->]); by split. }
  destruct (Z.eqb_spec (i -! j) (stride s)) as [Es|Es].
  - assert (stride s <> 0) as N by congruence. pose proof (Ste N) as Sb.
    apply steps_by_length in Sb as Lb. simpl in Lb, L.
    assert (runs s +! 1 = runs s + 1) as Er by int64_lia.
    assert (stream_ok (i :: j :: h) (set_stride (stride s) (runs s +! 1) (set_last i s))) as O.
    { constructor; simpl; rewrite ?Er; auto; try lia.
      all: try (by intros ? [= ->]); try (by split; auto).
      intros _. by replace (Z.to_nat (runs s + 1)) with (S (Z.to_nat (runs s))) by lia. }
    simpl in O. case_if; [|done]. destruct O. by constructor.
  - constructor; simpl; auto; try lia; try (by intros ? [= ->]); by split; auto.
Qed.

(** ** Prediction *)

Lemma predict_fold b now ixs : forall s out s' out',
  fold_left (predict_one b now) ixs (s, out) = (s', out') ->
  (slast s' = slast s /\ started s' = started s /\ stride s' = stride s /\ runs s' = runs s) /\
  (muted s' = muted s /\ recent s' = recent s) /\
  exists new, out' = out ++ new /\ (length new <= length ixs)%nat /\ NoDup new /\
    Forall (fun p => Stream p = Stream b /\ outstanding s !! BIndex p = None /\
                     exists i, i ∈ ixs /\ BIndex p = BIndex b +! stride s *! i) new.
Proof.
  induction ixs as [|i ixs IH]; intros s out s' out'; simpl.
  { intros [= <- <-]. split; [done|]. split; [done|]. exists []. rewrite app_nil_r. split_and!; auto; constructor. }
  set (next := BIndex b +! stride s *! i). case_bool_decide as N; intros E.
  - destruct (IH _ _ _ _ E) as (? & ? & new & -> & L & ND & F).
    split; [done|]. split; [done|]. exists new. split_and!; auto; try lia.
    eapply Forall_impl; [exact F|]. intros p (? & ? & j & ? & ?). split_and!; auto.
    exists j. split; auto. by apply elem_of_cons; right.
  - destruct (IH _ _ _ _ E) as (? & ? & new & -> & L & ND & F). simpl in *.
    split; [done|]. split; [done|]. exists ({| Stream := Stream b; BIndex := next |} :: new).
    rewrite <- app_assoc. split_and!; auto; [simpl; lia| |].
    + constructor; [|done]. intros Hin. rewrite Forall_forall in F.
      destruct (F _ Hin) as (_ & O & _). simpl in O. by rewrite lookup_insert_eq in O.
    + constructor.
      * simpl. split_and!; auto; [by apply eq_None_not_Some|]. exists i. split; [set_solver|done].
      * eapply Forall_impl; [exact F|]. intros p (? & O & j & ? & ?). split_and!; auto.
        -- by apply lookup_insert_None in O as [? _].
        -- exists j. split; auto. by apply elem_of_cons; right.
Qed.

Lemma history_length name reads : (length (history name reads) <= length reads)%nat.
Proof.
  induction reads as [|[b t] reads IH]; simpl; [lia|].
  case_if; [|lia]. destruct (history name reads); simpl in *; [lia|]. case_if; simpl; lia.
Qed.

Lemma history_int64 name reads : Forall (fun r => is_int64 (BIndex r.1)) reads ->
  Forall is_int64 (history name reads).
Proof.
  induction 1 as [|[b t] reads Hb _ IH]; simpl; [constructor|].
  case_if; [|done]. destruct (history name reads); simpl in *; [by constructor|]. case_if; [done|by constructor].
Qed.

Lemma history_cons b t reads :
  history (Stream b) ((b, t) :: reads) = read_index (BIndex b) (history (Stream b) reads).
Proof. simpl. rewrite String.eqb_refl. by destruct (history (Stream b) reads). Qed.

Definition stream_of (name : string) (d : Detector) : stream :=
  default new_stream (streams d !! name).

(** ** Muting *)

(** A stream that is not muted has had few predictions judged, or pays. *)
Definition pays (c : Config) (s : stream) : Prop :=
  zlen (recent s) < Window c \/ f64_ltb (accuracy (recent s)) (MinAccuracy c) = false.
Definition heeds (c : Config) (s : stream) : Prop := muted s = false -> pays c s.
(** Muted, and on which stride. *)
Definition muted_on (st : Z) (s : stream) : Prop := muted s = true /\ mutedStride s = st.

Lemma record_heeds c r s : heeds c (record c r s).
Proof.
  unfold record, heeds, pays. cbv zeta. set (w := if Window c <? _ then _ else _). simpl.
  destruct (Z.ltb_spec (zlen w) (Window c)); [simpl; auto|]. destruct (muted s) eqn:M; simpl; [by rewrite M|].
  destruct (f64_ltb (accuracy w) (MinAccuracy c)) eqn:A; simpl; auto. done.
Qed.
Lemma record_muted_on c r st s : muted_on st s -> muted_on st (record c r s).
Proof. intros [M E]. unfold record. cbv zeta. simpl. rewrite M. by case_match. Qed.

Lemma score_one_heeds c now s p : heeds c s -> heeds c (score_one c now s p).
Proof. unfold score_one. case_match; [|done]. intros _. apply record_heeds. Qed.
Lemma score_heeds c i now s : heeds c s -> heeds c (score c i now s).
Proof.
  intros H. unfold score. set (s1 := if bool_decide _ then _ else s).
  assert (heeds c s1) as H1 by (unfold s1; case_bool_decide; [apply record_heeds|done]).
  generalize (map_to_list (outstanding s1)). clearbody s1. intros l. revert s1 H1.
  induction l as [|p l IH]; intros s1 H1; [done|]. apply IH. by apply score_one_heeds.
Qed.
Lemma score_muted_on c i now st s : muted_on st s -> muted_on st (score c i now s).
Proof.
  intros H. unfold score. set (s1 := if bool_decide _ then _ else s).
  assert (muted_on st s1) as H1 by (unfold s1; case_bool_decide; [by apply record_muted_on|done]).
  generalize (map_to_list (outstanding s1)). clearbody s1. intros l. revert s1 H1.
  induction l as [|p l IH]; intros s1 H1; [done|]. apply IH. unfold score_one. case_match; [by apply record_muted_on|done].
Qed.

Lemma track_heeds c i s : 0 < Window c -> heeds c s -> heeds c (track c i s).
Proof.
  intros W H. unfold track. cbv zeta. repeat case_match; try exact H. intros _. left. unfold zlen. simpl. lia.
Qed.
(** Only another stride lifts it. *)
Lemma track_muted_on c i st s : muted_on st s -> muted (track c i s) = false -> stride (track c i s) <> st.
Proof.
  intros [M E]. unfold track. cbv zeta. repeat case_match; simpl; try congruence. intros _ X.
  simpl in *. bool_to_prop. congruence.
Qed.

(** The stream as [Observe] leaves it before it predicts. *)
Definition observed (b : Block) (now : time) (d : Detector) : stream :=
  track (dcfg d) (BIndex b) (score (dcfg d) (BIndex b) now (stream_of (Stream b) d)).

Lemma Observe_stream b now d : exists s, stream_of (Stream b) (Observe b now d).1 = s /\
  slast s = slast (observed b now d) /\ started s = started (observed b now d) /\
  stride s = stride (observed b now d) /\ runs s = runs (observed b now d).
Proof.
  unfold Observe, observed, stream_of. set (s := track _ _ _). case_if.
  - exists s. simpl. by rewrite lookup_insert_eq.
  - destruct (fold_left _ _ _) as [s' out] eqn:E. apply predict_fold in E as ((? & ? & ? & ?) & _).
    exists s'. simpl. by rewrite lookup_insert_eq.
Qed.

Lemma Observe_other b now d name : name <> Stream b ->
  streams (Observe b now d).1 !! name = streams d !! name.
Proof.
  intros N. unfold Observe. case_if; simpl; [by rewrite lookup_insert_ne|].
  destruct (fold_left _ _ _). simpl. by rewrite lookup_insert_ne.
Qed.

Lemma Observe_cfg b now d : dcfg (Observe b now d).1 = dcfg d.
Proof. unfold Observe. case_if; [done|]. by destruct (fold_left _ _ _). Qed.

Lemma Observe_heeds b now d : 0 < Window (dcfg d) -> (forall name, heeds (dcfg d) (stream_of name d)) ->
  forall name, heeds (dcfg d) (stream_of name (Observe b now d).1).
Proof.
  intros W H name. destruct (decide (name = Stream b)) as [->|N]; [|unfold stream_of; rewrite Observe_other by done; apply H].
  assert (heeds (dcfg d) (observed b now d)) as Ho by (by apply track_heeds, score_heeds, H).
  unfold stream_of, Observe. fold (stream_of (Stream b) d). fold (observed b now d). case_match.
  - simpl. by rewrite lookup_insert_eq.
  - destruct (fold_left _ _ _) as [s' out] eqn:E. apply predict_fold in E as (_ & [Em Er] & _). simpl. rewrite lookup_insert_eq. simpl.
    unfold heeds, pays. by rewrite Em, Er.
Qed.

Lemma observe_all_heeds reads d0 : 0 < Window (dcfg d0) -> (forall name, heeds (dcfg d0) (stream_of name d0)) ->
  dcfg (observe_all reads d0) = dcfg d0 /\ forall name, heeds (dcfg d0) (stream_of name (observe_all reads d0)).
Proof.
  intros W H. induction reads as [|[b t] reads [Ec IH]]; [done|]. simpl. rewrite Observe_cfg. split; [done|].
  rewrite <- Ec. apply Observe_heeds; by rewrite Ec.
Qed.

Lemma observe_all_ok c reads : Forall (fun r => is_int64 (BIndex r.1)) reads ->
  Z.of_nat (length reads) < 4611686018427387904 -> forall d0, New c = Some d0 ->
  dcfg (observe_all reads d0) = c /\
  forall name, stream_ok (history name reads) (stream_of name (observe_all reads d0)).
Proof.
  intros F L d0 Hn. unfold New in Hn. destruct (Validate c); [|done]. injection Hn as <-.
  induction F as [|[b t] reads Hb F IH].
  { simpl. split; [done|]. intros name. unfold stream_of. simpl. rewrite lookup_empty. simpl.
    by constructor. }
  simpl in L. destruct IH as [Ec IH]; [lia|]. simpl observe_all.
  set (d := observe_all reads _) in *.
  rewrite Observe_cfg. split; [done|]. intros name.
  destruct (decide (name = Stream b)) as [->|N].
  - rewrite history_cons. destruct (Observe_stream b t d) as (s & <- & E1 & E2 & E3 & E4).
    assert (stream_ok (read_index (BIndex b) (history (Stream b) reads)) (observed b t d)) as O.
    { apply track_ok; auto; [by apply history_int64|pose proof (history_length (Stream b) reads); lia|].
      eapply rescored_ok; [apply score_rescored|apply IH]. }
    destruct O. constructor; rewrite ?E1, ?E2, ?E3, ?E4; auto.
  - simpl. rewrite (proj2 (String.eqb_neq _ _)) by congruence.
    unfold stream_of. rewrite Observe_other by done. apply IH.
Qed.

(** ** Properties *)

(** C35: nothing is predicted from noise. Whatever the interleaving of streams, a
    read's predictions are distinct blocks of that read's own stream, at most
    [Depth] of them, ahead of it by multiples of one non-zero stride, and the
    last [Confirmations] distinct reads of that stream all stepped by it. Nor is
    anything predicted of a muted stream: the stream is not muted, and fewer than
    [Window] of its predictions are judged, or the newest [Window] of them were read
    at least as often as the floor asks; and where it was muted before the read, the
    stride is another than the one it was muted on. *)
Theorem predicts_confirmed_stride c d0 reads b now d' out :
  New c = Some d0 -> Forall (fun r => is_int64 (BIndex r.1)) ((b, now) :: reads) ->
  Z.of_nat (length reads) < 4611686018427387903 -> Confirmations c <= MaxInt64 ->
  Observe b now (observe_all reads d0) = (d', out) -> out <> [] ->
  exists st, st <> 0 /\
    steps_by st (Z.to_nat (Confirmations c - 1)) (history (Stream b) ((b, now) :: reads)) /\
    NoDup out /\ zlen out <= Depth c /\
    Forall (fun p => Stream p = Stream b /\
      exists i, 1 <= i <= Depth c /\ BIndex p = BIndex b +! st *! i) out /\
    muted (stream_of (Stream b) d') = false /\ pays c (stream_of (Stream b) d') /\
    forall failed, muted_on failed (stream_of (Stream b) (observe_all reads d0)) -> st <> failed.
Proof.
  intros Hn F L Cm E Ne. apply Forall_cons in F as [Fb F]. simpl in Fb.
  destruct (observe_all_ok c reads F ltac:(lia) d0 Hn) as [Ec Ok0].
  assert (Validate c = true) as V by (unfold New in Hn; by destruct (Validate c)).
  assert (0 < Window c) as Wp by (unfold Validate in V; bool_to_prop; lia).
  assert (heeds c (stream_of (Stream b) (observe_all reads d0))) as Hd.
  { assert (d0 = {| dcfg := c; streams := ∅ |}) as -> by (unfold New in Hn; rewrite V in Hn; by injection Hn as <-).
    apply (observe_all_heeds reads {| dcfg := c; streams := ∅ |}); [simpl; lia|]. intros name _. left. unfold stream_of. simpl. rewrite lookup_empty. unfold zlen. simpl. lia. }
  unfold Validate in V. bool_to_prop.
  set (d := observe_all reads d0) in *.
  assert (stream_ok (history (Stream b) ((b, now) :: reads)) (observed b now d)) as O.
  { rewrite history_cons. apply track_ok; auto; [by apply history_int64|
      pose proof (history_length (Stream b) reads); lia|].
    eapply rescored_ok; [apply score_rescored|apply Ok0]. }
  unfold Observe in E. fold (stream_of (Stream b) d) in E. fold (observed b now d) in E.
  rewrite Ec in E. set (s := observed b now d) in *.
  destruct (negb (started s) || (runs s +! 2 <? Confirmations c) || muted s) eqn:G;
    [injection E as _ <-; done|]. bool_to_prop.
  destruct (fold_left _ _ _) as [s' out'] eqn:Fo. injection E as <- <-.
  apply predict_fold in Fo as (_ & [Em Er] & new & -> & Ln & ND & Fn).
  rewrite app_nil_l.
  pose proof (ok_runs _ _ O) as R0. 
  assert (stride s <> 0) as N.
  { intros Z0. assert (runs s +! 2 = 2) by (rewrite (ok_none _ _ O Z0); reflexivity). lia. }
  pose proof (ok_steps _ _ O N) as St. pose proof (steps_by_length _ _ _ St) as Sl.
  pose proof (history_length (Stream b) ((b, now) :: reads)) as Hl. rewrite length_cons in Hl.
  assert (Confirmations c <= runs s + 2).
  { assert (runs s +! 2 = runs s + 2) as <- by int64_lia. lia. }
  exists (stride s). split_and!; auto.
  - eapply steps_by_le; [|exact St]. lia.
  - rewrite length_seqZ in Ln. unfold zlen. lia.
  - eapply Forall_impl; [exact Fn|]. intros p (? & _ & i & Hi & ?). split; [done|].
    exists i. apply elem_of_seqZ in Hi. split; [lia|done].
  - unfold stream_of. simpl. rewrite lookup_insert_eq. simpl. by rewrite Em.
  - unfold stream_of. simpl. rewrite lookup_insert_eq. simpl. unfold pays. rewrite Er. subst s. unfold observed.
    rewrite <- Ec in *. apply track_heeds; [lia|by apply score_heeds|done].
  - intros failed M. subst s. unfold observed in *. rewrite Ec in *. apply track_muted_on; [by apply score_muted_on|done].
Qed.

Definition wblk (i : Z) : Block := {| Stream := "s"; BIndex := i |}.
Definition wdet : Detector := {| dcfg := DefaultConfig; streams := ∅ |}.
Definition wreads : list (Block * time) := [(wblk 104, 2); ({| Stream := "o"; BIndex := 7 |}, 1); (wblk 100, 0)].

Lemma predicts_confirmed_stride_witness :
  let out := (Observe (wblk 108) 3 (observe_all wreads wdet)).2 in
  exists st, st <> 0 /\
    steps_by st 2 (history "s" ((wblk 108, 3) :: wreads)) /\
    NoDup out /\ zlen out <= 8 /\
    Forall (fun p => Stream p = "s"%string /\
      exists i, 1 <= i <= 8 /\ BIndex p = 108 +! st *! i) out.
Proof.
  destruct (predicts_confirmed_stride DefaultConfig wdet wreads (wblk 108) 3
    (Observe (wblk 108) 3 (observe_all wreads wdet)).1 (Observe (wblk 108) 3 (observe_all wreads wdet)).2)
    as (st & N & S & ND & Le & Fo & _).
  - vm_compute. reflexivity.
  - repeat constructor; vm_compute; discriminate.
  - vm_compute. reflexivity.
  - vm_compute. discriminate.
  - apply surjective_pairing.
  - vm_compute. discriminate.
  - by exists st.
Defined.

(** A stream whose predictions go unread past patience is muted, goes on unpredicted
    at the stride that failed it, and is predicted again at another. *)
Example unread_mutes :
  let c := {| Depth := 2; Confirmations := 3; Window := 2; MinAccuracy := f64_lit 1 2; Patience := 10 |} in
  let d0 := {| dcfg := c; streams := ∅ |} in
  let d := observe_all [(wblk 35, 100); (wblk 20, 3); (wblk 10, 2); (wblk 0, 1)] d0 in
  let next i j := (Observe (wblk j) 102 (Observe (wblk i) 101 d).1).2 in
  muted_on 10 (stream_of "s" d) /\ next 45 55 = [] /\ next 36 37 = [wblk 38; wblk 39].
Proof. vm_compute. split_and!; reflexivity. Qed.
