(* ===== verification/Efficiency.v ===== *)
(** * Efficiency: the scoreboard (internal/efficiency/efficiency.go)

    [Record] keeps, per power-of-two size bucket, a bounded window of backend
    durations and a tally of tier hits; [Estimate] compares them. Counts and
    durations are int64 and wrap. *)

From S2P Require Import Prelude Float64.

Local Open Scope Z_scope.

Inductive Source : Type := Tier | Backend.
#[global] Instance Source_eq_dec : EqDecision Source.
Proof. solve_decision. Defined.

Record Read : Type := mkRead {
  RSource : Source;
  RBytes : Z;
  RTook : duration;
}.

(** [bits.Len64] *)
Definition bucket (n : Z) : Z := if n <=? 0 then 0 else Z.log2 n + 1.

Definition samplesPerBucket : Z := 256.

Record tally : Type := mkTally {
  tn : Z;
  total : duration;
}.
Definition no_tally : tally := {| tn := 0; total := 0 |}.

Record Scoreboard : Type := mkScoreboard {
  misses : gmap Z (list duration);
  hits : gmap Z tally;
}.

Definition New : Scoreboard := {| misses := ∅; hits := ∅ |}.

Definition missed (b : Z) (s : Scoreboard) : list duration := default [] (misses s !! b).
Definition tallied (b : Z) (s : Scoreboard) : tally := default no_tally (hits s !! b).

Definition keep_last (n : Z) (l : list duration) : list duration :=
  if n <? zlen l then zdrop (zlen l - n) l else l.

Definition Record_ (r : Read) (s : Scoreboard) : Scoreboard :=
  let b := bucket (RBytes r) in
  match RSource r with
  | Backend =>
      {| misses := <[b := keep_last samplesPerBucket (missed b s ++ [RTook r])]> (misses s);
         hits := hits s |}
  | Tier =>
      let t := tallied b s in
      {| misses := misses s;
         hits := <[b := {| tn := tn t +! 1; total := total t +! RTook r |}]> (hits s) |}
  end.

Record Estimate_ : Type := mkEstimate {
  Saved : duration;
  Spread : duration;
  Covered : Z;
  Uncovered : Z;
}.

#[global] Instance Zle_dec : RelDecision Z.le.
Proof. intros x y. apply Z_le_dec. Defined.
Definition sorted (d : list duration) : list duration := merge_sort Z.le d.
Definition at_ (i : nat) (d : list duration) : duration := default 0 (d !! i).

Definition median (d : list duration) : duration := at_ (length d / 2) (sorted d).
Definition interquartile (d : list duration) : duration :=
  at_ (length d * 3 / 4) (sorted d) -! at_ (length d / 4) (sorted d).

(** One round of the loop, accumulating the estimate with the weighted spread
    in place of the final one. *)
Definition estimate_one (s : Scoreboard) (e : Estimate_) (bh : Z * tally) : Estimate_ :=
  match missed bh.1 s with
  | [] => {| Saved := Saved e; Spread := Spread e; Covered := Covered e;
             Uncovered := Uncovered e +! tn bh.2 |}
  | ms => {| Saved := Saved e +! (median ms *! tn bh.2 -! total bh.2);
             Spread := Spread e +! interquartile ms *! tn bh.2;
             Covered := Covered e +! tn bh.2;
             Uncovered := Uncovered e |}
  end.

Definition Estimate (s : Scoreboard) : Estimate_ :=
  let e := fold_left (estimate_one s) (map_to_list (hits s))
             {| Saved := 0; Spread := 0; Covered := 0; Uncovered := 0 |} in
  {| Saved := Saved e;
     Spread := if 0 <? Covered e then Z.quot (Spread e) (Covered e) else 0;
     Covered := Covered e; Uncovered := Uncovered e |}.

Definition CoveredFraction (e : Estimate_) : float64 :=
  let total := Covered e +! Uncovered e in
  if total =? 0 then f64_of_Z 0 else f64_div (f64_of_Z (Covered e)) (f64_of_Z total).

Record Conversion : Type := mkConversion {
  Accelerators : float64;
  PricePerHour : float64;
}.

(** [time.Duration.Hours]: whole hours plus the remainder. *)
Definition Hours (d : duration) : float64 :=
  f64_add (f64_of_Z (Z.quot d Hour)) (f64_div (f64_of_Z (Z.rem d Hour)) (f64_of_Z Hour)).

Definition positive (x : float64) : bool := negb (f64_leb x (f64_of_Z 0)).

(** [None] is [ErrNoConversion]. *)
Definition AcceleratorHours (e : Estimate_) (c : Conversion) : option float64 :=
  if f64_leb (Accelerators c) (f64_of_Z 0) then None
  else Some (f64_mul (Hours (Saved e)) (Accelerators c)).

Definition Money (e : Estimate_) (c : Conversion) : option float64 :=
  if f64_leb (PricePerHour c) (f64_of_Z 0) then None
  else match AcceleratorHours e c with
       | None => None
       | Some hours => Some (f64_mul hours (PricePerHour c))
       end.

(** ** What the reads themselves say

    A scoreboard refines the list of every read it was told of, oldest first. *)

Definition record_all (reads : list Read) : Scoreboard :=
  fold_left (fun s r => Record_ r s) reads New.

Definition of_bucket (src : Source) (b : Z) (r : Read) : bool :=
  bool_decide (RSource r = src) && (bucket (RBytes r) =? b).
Definition evidence (b : Z) (reads : list Read) : list duration :=
  keep_last samplesPerBucket (RTook <$> List.filter (of_bucket Backend b) reads).
Definition is_hit (r : Read) : bool := bool_decide (RSource r = Tier).
Definition covered (reads : list Read) (r : Read) : bool :=
  is_hit r && negb (bool_decide (evidence (bucket (RBytes r)) reads = [])).

(** *** The same, told without the code's own functions

    Two sizes are alike that have the same highest bit, or are none at all; of a
    list the newest few are those at its end; and the [k]-th smallest is the one
    that at most [k] are below and more than [k] do not exceed. *)

Definition alike (m n : Z) : bool := (m <=? 0) && (n <=? 0) || (0 <? m) && (0 <? n) && (Z.log2 m =? Z.log2 n).
Definition newest {A} (n : nat) (l : list A) : list A := reverse (take n (reverse l)).
Definition below (x : Z) (l : list Z) : nat := length (List.filter (fun y => y <? x) l).
Definition up_to (x : Z) (l : list Z) : nat := length (List.filter (fun y => y <=? x) l).
Definition ranked (k : nat) (l : list Z) (x : Z) : Prop := (below x l <= k < up_to x l)%nat.
#[global] Instance ranked_dec k l x : Decision (ranked k l x).
Proof. apply _. Defined.
Definition kth (k : nat) (l : list Z) : Z := default 0 (head (filter (ranked k l) l)).

(** The backend's times a hit is measured against. *)
Definition against (reads : list Read) (r : Read) : list Z :=
  newest 256 (RTook <$> List.filter (fun x => bool_decide (RSource x = Backend) && alike (RBytes x) (RBytes r)) reads).
Definition measured (reads : list Read) (r : Read) : bool := is_hit r && negb (bool_decide (against reads r = [])).
Definition middle (l : list Z) : Z := kth (length l / 2) l.
Definition width (l : list Z) : Z := kth (length l * 3 / 4) l - kth (length l / 4) l.

(** ** Lemmas *)

Lemma below_up_to l x y : x < y -> (up_to x l <= below y l)%nat.
Proof.
  intros L. unfold up_to, below. induction l as [|z l IH]; simpl; [done|].
  destruct (Z.leb_spec z x), (Z.ltb_spec z y); simpl; lia.
Qed.

Lemma ranked_unique k l x y : ranked k l x -> ranked k l y -> x = y.
Proof.
  intros [Lx Ux] [Ly Uy]. destruct (Z.lt_trichotomy x y) as [L|[|L]]; [|done|]; apply (below_up_to l) in L; lia.
Qed.

#[global] Instance below_Permutation x : Proper ((≡ₚ) ==> eq) (below x).
Proof. intros l l' P. unfold below. induction P; simpl; repeat case_match; simpl; lia. Qed.
#[global] Instance up_to_Permutation x : Proper ((≡ₚ) ==> eq) (up_to x).
Proof. intros l l' P. unfold up_to. induction P; simpl; repeat case_match; simpl; lia. Qed.

Lemma below_least x l : Forall (Z.le x) l -> below x l = 0%nat.
Proof.
  unfold below. induction 1 as [|y l L F IH]; simpl; [done|]. destruct (Z.ltb_spec y x); [lia|done].
Qed.

(** In order, what is at a place has that rank. *)
Lemma sorted_ranked k l x : sorted l !! k = Some x -> ranked k l x.
Proof.
  assert (sorted l ≡ₚ l) as P by apply merge_sort_Permutation.
  assert (StronglySorted Z.le (sorted l)) as S by (apply StronglySorted_merge_sort; apply _).
  intros E. unfold ranked. rewrite <- P. clear P. revert k E. induction S as [|z s S IH F]; intros k E; [done|].
  destruct k as [|k]; simpl in E.
  - injection E as ->. pose proof (below_least x s F) as B. unfold below, up_to in *. simpl.
    destruct (Z.ltb_spec x x), (Z.leb_spec x x); simpl; lia.
  - destruct (IH k E) as [B U]. rewrite Forall_lookup in F. specialize (F k x E). unfold below, up_to in *. simpl.
    destruct (Z.ltb_spec z x), (Z.leb_spec z x); simpl; lia.
Qed.

Lemma at_sorted k l : (k < length l)%nat -> at_ k (sorted l) = kth k l.
Proof.
  intros L. destruct (lookup_lt_is_Some_2 (sorted l) k) as [x E].
  { unfold sorted. by rewrite merge_sort_Permutation. }
  unfold at_. rewrite E. simpl. pose proof (sorted_ranked k l x E) as R. unfold kth.
  destruct (filter (ranked k l) l) as [|y f] eqn:Ef.
  - apply list_elem_of_lookup_2 in E. unfold sorted in E. rewrite merge_sort_Permutation in E.
    assert (x ∈ filter (ranked k l) l) as I by (by apply list_elem_of_filter). rewrite Ef in I. by inversion I.
  - assert (y ∈ filter (ranked k l) l) as [Ry _]%list_elem_of_filter by (rewrite Ef; by left). by apply (ranked_unique k l).
Qed.

Lemma median_middle l : l <> [] -> median l = middle l.
Proof.
  intros N. apply at_sorted. destruct l; [done|]. apply Nat.div_lt; simpl; lia.
Qed.
Lemma interquartile_width l : l <> [] -> interquartile l = wrap64 (width l).
Proof.
  intros N. unfold interquartile, width. assert (0 < length l)%nat by (destruct l; [done|simpl; lia]).
  rewrite !at_sorted; [done|apply Nat.Div0.div_lt_upper_bound; lia..].
Qed.

Lemma bucket_alike m n : bucket m = bucket n <-> alike m n = true.
Proof.
  unfold bucket, alike. pose proof (Z.log2_nonneg m). pose proof (Z.log2_nonneg n).
  destruct (Z.leb_spec m 0), (Z.leb_spec n 0), (Z.ltb_spec 0 m), (Z.ltb_spec 0 n); simpl; rewrite ?Z.eqb_eq; try lia; split; try lia; done.
Qed.

Lemma keep_last_newest (n : nat) (l : list Z) : keep_last (Z.of_nat n) l = newest n l.
Proof.
  unfold keep_last, newest. rewrite take_reverse, reverse_involutive. unfold zlen, zdrop.
  destruct (Z.ltb_spec (Z.of_nat n) (Z.of_nat (length l))); [f_equal; lia|].
  replace (length l - n)%nat with 0%nat by lia. done.
Qed.

Lemma evidence_against reads r : evidence (bucket (RBytes r)) reads = against reads r.
Proof.
  unfold evidence, against. change samplesPerBucket with (Z.of_nat 256). rewrite keep_last_newest. f_equal. f_equal.
  apply List.filter_ext. intros x. unfold of_bucket. f_equal. pose proof (bucket_alike (RBytes x) (RBytes r)) as B.
  rewrite <- Z.eqb_eq in B. destruct (bucket (RBytes x) =? bucket (RBytes r)), (alike (RBytes x) (RBytes r)); intuition congruence.
Qed.

Lemma covered_measured reads r : covered reads r = measured reads r.
Proof. unfold covered, measured. by rewrite evidence_against. Qed.


Lemma bucket_bounds n : 0 < n -> 2 ^ (bucket n - 1) <= n < 2 ^ bucket n.
Proof.
  intros H. unfold bucket. destruct (Z.leb_spec n 0); [lia|].
  replace (Z.log2 n + 1 - 1) with (Z.log2 n) by lia. rewrite Z.add_1_r.
  by apply Z.log2_spec.
Qed.

Lemma keep_last_snoc n l x : 0 < n -> keep_last n (keep_last n l ++ [x]) = keep_last n (l ++ [x]).
Proof.
  intros N. unfold keep_last. rewrite (zlen_app l). change (zlen [x]) with 1.
  destruct (Z.ltb_spec n (zlen l)) as [L|L].
  - rewrite zlen_app. change (zlen [x]) with 1.
    assert (zlen (zdrop (zlen l - n) l) = n) as -> by (unfold zlen, zdrop in *; rewrite length_drop; lia).
    destruct (Z.ltb_spec n (n + 1)), (Z.ltb_spec n (zlen l + 1)); try lia.
    unfold zdrop, zlen in *.
    rewrite !skipn_app, drop_drop, length_drop. f_equal; f_equal; lia.
  - rewrite zlen_app. done.
Qed.

Lemma record_snoc reads r : record_all (reads ++ [r]) = Record_ r (record_all reads).
Proof. unfold record_all. by rewrite fold_left_app. Qed.

Lemma filter_snoc {A} (P : A -> bool) l x :
  List.filter P (l ++ [x]) = List.filter P l ++ if P x then [x] else [].
Proof. by rewrite List.filter_app. Qed.

Lemma of_bucket_true src b r :
  of_bucket src b r = true <-> RSource r = src /\ bucket (RBytes r) = b.
Proof. unfold of_bucket. by rewrite andb_true_iff, bool_decide_eq_true, Z.eqb_eq. Qed.

Lemma of_bucket_self r : of_bucket (RSource r) (bucket (RBytes r)) r = true.
Proof. by apply of_bucket_true. Qed.

(** The windows hold the newest durations of each bucket. *)
Lemma record_all_misses reads b : missed b (record_all reads) = evidence b reads.
Proof.
  induction reads as [|r reads IH] using rev_ind; [done|].
  rewrite record_snoc. unfold evidence in *. rewrite filter_snoc.
  destruct (of_bucket Backend b r) eqn:E.
  - apply of_bucket_true in E as [S <-]. unfold Record_. rewrite S. unfold missed at 1. simpl.
    rewrite lookup_insert_eq. simpl. rewrite IH, fmap_app. by apply keep_last_snoc.
  - rewrite app_nil_r, <- IH. unfold Record_, missed. destruct (RSource r) eqn:S; simpl; [done|].
    rewrite lookup_insert_ne; [done|]. intros <-. rewrite <- S, of_bucket_self in E. done.
Qed.

(** The tallies count and sum each bucket's hits. *)
Lemma record_all_hits reads b :
  tallied b (record_all reads) =
    {| tn := wrap64 (zlen (List.filter (of_bucket Tier b) reads));
       total := wrap64 (Zsum (RTook <$> List.filter (of_bucket Tier b) reads)) |}.
Proof.
  induction reads as [|r reads IH] using rev_ind; [done|].
  rewrite record_snoc, filter_snoc.
  destruct (of_bucket Tier b r) eqn:E.
  - apply of_bucket_true in E as [S <-]. unfold Record_. rewrite S. unfold tallied at 1. simpl.
    rewrite lookup_insert_eq. simpl. rewrite IH. simpl.
    rewrite zlen_app, fmap_app, Zsum_app, !wrap64_add_l. simpl. f_equal; f_equal; lia.
  - rewrite app_nil_r, <- IH. unfold Record_, tallied. destruct (RSource r) eqn:S; simpl; [|done].
    rewrite lookup_insert_ne; [done|]. intros <-. rewrite <- S, of_bucket_self in E. done.
Qed.

Lemma record_all_hit_buckets reads b :
  is_Some (hits (record_all reads) !! b) <-> exists r, r ∈ reads /\ of_bucket Tier b r = true.
Proof.
  induction reads as [|r reads IH] using rev_ind.
  { split; [intros [? ?]; done|intros (r & Hr & _); set_solver]. }
  rewrite record_snoc. unfold Record_. destruct (RSource r) eqn:S; simpl.
  - rewrite lookup_insert_is_Some. rewrite IH. split.
    + intros [<-|[_ (r' & ? & ?)]]; [exists r|exists r'; set_solver].
      split; [set_solver|]. by apply of_bucket_true.
    + intros (r' & [Hr|Hr%list_elem_of_singleton]%elem_of_app & E).
      * destruct (decide (bucket (RBytes r) = b)); [by left|right]. eauto.
      * subst r'. left. by apply of_bucket_true in E as [_ <-].
  - rewrite IH. split; intros (r' & Hr & E); exists r'; split; auto; [set_solver|].
    apply elem_of_app in Hr as [?|Hr%list_elem_of_singleton]; auto. subst r'.
    apply of_bucket_true in E as [E _]. congruence.
Qed.

(** ** Summing per bucket is summing per read *)

#[local] Arguments Zsum : simpl never.

Lemma wrap64_mul_r a b : wrap64 (a * wrap64 b) = wrap64 (a * b).
Proof. by rewrite Z.mul_comm, wrap64_mul_l, Z.mul_comm. Qed.

Lemma wrap64_sub_l a b : wrap64 (wrap64 a - b) = wrap64 (a - b).
Proof. rewrite <- !Z.add_opp_r. apply wrap64_add_l. Qed.

Lemma wrap64_sub_r a b : wrap64 (a - wrap64 b) = wrap64 (a - b).
Proof.
  destruct (wrap64_cong b) as [k ->].
  replace (a - (b + k * 18446744073709551616)) with (a - b + (- k) * 18446744073709551616) by lia.
  apply wrap64_shift.
Qed.

Definition bucket_sum (w : Read -> Z) (b : Z) (reads : list Read) : Z :=
  Zsum (w <$> List.filter (of_bucket Tier b) reads).

Lemma bucket_sum_snoc w b reads r : bucket_sum w b (reads ++ [r]) =
  bucket_sum w b reads + if of_bucket Tier b r then w r else 0.
Proof.
  unfold bucket_sum. rewrite filter_snoc, fmap_app, Zsum_app.
  destruct (of_bucket Tier b r); unfold Zsum; simpl; lia.
Qed.

Lemma Zsum_one_bucket w bs r : NoDup bs -> bucket (RBytes r) ∈ bs -> RSource r = Tier ->
  Zsum ((fun b => if of_bucket Tier b r then w r else 0) <$> bs) = w r.
Proof.
  intros ND Hin S. induction ND as [|b bs N ND IH]; [by apply elem_of_nil in Hin|]. csimpl.
  destruct (of_bucket Tier b r) eqn:E.
  - apply of_bucket_true in E as [_ <-]. rewrite Zsum_cons.
    replace (Zsum _) with 0; [lia|]. symmetry. clear -N S. induction bs as [|b bs IH]; csimpl; [done|].
    rewrite Zsum_cons, IH by set_solver. destruct (of_bucket Tier b r) eqn:E; [|done].
    apply of_bucket_true in E as [_ <-]. set_solver.
  - rewrite Zsum_cons, IH; [lia|]. apply elem_of_cons in Hin as [<-|]; [|done].
    pose proof (of_bucket_self r) as E'. rewrite S in E'. congruence.
Qed.

Lemma Zsum_fmap_add {A} (f g : A -> Z) l :
  Zsum ((fun x => f x + g x) <$> l) = Zsum (f <$> l) + Zsum (g <$> l).
Proof. induction l as [|x l IH]; csimpl; [done|]. rewrite !Zsum_cons, IH. lia. Qed.

Lemma Zsum_zero {A} (l : list A) : Zsum ((fun _ => 0) <$> l) = 0.
Proof. induction l; csimpl; [done|]. by rewrite Zsum_cons, IHl. Qed.

Lemma Zsum_buckets w bs reads : NoDup bs ->
  (forall r, r ∈ reads -> is_hit r = true -> bucket (RBytes r) ∈ bs) ->
  Zsum ((fun b => bucket_sum w b reads) <$> bs) = Zsum (w <$> List.filter is_hit reads).
Proof.
  intros ND. induction reads as [|r reads IH] using rev_ind; intros Hin.
  { unfold bucket_sum. simpl. apply Zsum_zero. }
  rewrite (list_fmap_ext _ (fun b => bucket_sum w b reads + if of_bucket Tier b r then w r else 0))
    by (intros; apply bucket_sum_snoc).
  rewrite Zsum_fmap_add, IH by set_solver. rewrite filter_snoc, fmap_app, Zsum_app. f_equal.
  destruct (is_hit r) eqn:E; simpl.
  - rewrite Zsum_one_bucket; auto; [unfold Zsum; simpl; lia|apply Hin; [set_solver|done]|].
    unfold is_hit in E. by apply bool_decide_eq_true in E.
  - unfold is_hit in E. apply bool_decide_eq_false in E.
    rewrite (list_fmap_ext _ (fun _ => 0)); [apply Zsum_zero|]. intros _ b _.
    destruct (of_bucket Tier b r) eqn:O; [|done]. by apply of_bucket_true in O as [O _].
Qed.

Section estimate.
Variable reads : list Read.

Definition saved_by (r : Read) : Z :=
  if bool_decide (evidence (bucket (RBytes r)) reads = []) then 0
  else median (evidence (bucket (RBytes r)) reads) - RTook r.
Definition spread_by (r : Read) : Z :=
  if bool_decide (evidence (bucket (RBytes r)) reads = []) then 0 else interquartile (evidence (bucket (RBytes r)) reads).
Lemma bucket_sum_const (w : Read -> Z) c b :
  (forall r, bucket (RBytes r) = b -> w r = c) ->
  bucket_sum w b reads = c * zlen (List.filter (of_bucket Tier b) reads).
Proof.
  intros E. unfold bucket_sum. induction reads as [|r rs IH]; simpl; [unfold Zsum, zlen; simpl; lia|].
  destruct (of_bucket Tier b r) eqn:O; [|exact IH]. csimpl. rewrite Zsum_cons, IH.
  apply of_bucket_true in O as [_ O]. rewrite (E _ O), zlen_cons. lia.
Qed.

Lemma bucket_sum_saved b : evidence b reads <> [] ->
  bucket_sum saved_by b reads =
    median (evidence b reads) * zlen (List.filter (of_bucket Tier b) reads)
    - Zsum (RTook <$> List.filter (of_bucket Tier b) reads).
Proof.
  intros Ne. unfold bucket_sum.
  enough (forall rs, Zsum (saved_by <$> List.filter (of_bucket Tier b) rs) =
    median (evidence b reads) * zlen (List.filter (of_bucket Tier b) rs)
    - Zsum (RTook <$> List.filter (of_bucket Tier b) rs)) as G by apply G.
  induction rs as [|r rs IH]; simpl; [unfold Zsum, zlen; simpl; lia|].
  destruct (of_bucket Tier b r) eqn:O; [|exact IH].
  csimpl. rewrite !Zsum_cons, IH. apply of_bucket_true in O as [_ O].
  unfold saved_by at 1. rewrite O, bool_decide_false by done. rewrite zlen_cons. lia.
Qed.

Lemma tallied_sums b : tallied b (record_all reads) =
  {| tn := wrap64 (bucket_sum (fun _ => 1) b reads);
     total := wrap64 (bucket_sum RTook b reads) |}.
Proof.
  rewrite record_all_hits. f_equal. f_equal.
  rewrite (bucket_sum_const (fun _ => 1) 1) by done. lia.
Qed.

Definition no_evidence (b : Z) : bool := bool_decide (evidence b reads = []).

Lemma estimate_fold bs : forall e,
  is_int64 (Saved e) -> is_int64 (Spread e) -> is_int64 (Covered e) -> is_int64 (Uncovered e) ->
  let e' := fold_left (estimate_one (record_all reads))
              ((fun b => (b, tallied b (record_all reads))) <$> bs) e in
  let n b := bucket_sum (fun _ => 1) b reads in
  Saved e' = wrap64 (Saved e + Zsum ((fun b => bucket_sum saved_by b reads) <$> bs)) /\
  Spread e' = wrap64 (Spread e + Zsum ((fun b => bucket_sum spread_by b reads) <$> bs)) /\
  Covered e' = wrap64 (Covered e + Zsum ((fun b => if no_evidence b then 0 else n b) <$> bs)) /\
  Uncovered e' = wrap64 (Uncovered e + Zsum ((fun b => if no_evidence b then n b else 0) <$> bs)).
Proof.
  induction bs as [|b bs IH]; intros e Hs Hp Hc Hu e' n.
  { unfold e', Zsum. simpl. rewrite !Z.add_0_r, !wrap64_id by done. done. }
  unfold e'. csimpl. set (e1 := estimate_one _ e _).
  assert (is_int64 (Saved e1) /\ is_int64 (Spread e1) /\ is_int64 (Covered e1) /\ is_int64 (Uncovered e1)) as (? & ? & ? & ?).
  { unfold e1, estimate_one. case_match; simpl; auto using wrap64_range. }
  destruct (IH e1) as (-> & -> & -> & ->); auto. clear IH. rewrite !Zsum_cons.
  unfold e1, estimate_one, no_evidence. simpl. rewrite record_all_misses, tallied_sums. simpl.
  fold (n b). pose proof (bucket_sum_saved b) as Sv.
  destruct (evidence b reads) as [|d ms] eqn:Ev.
  - rewrite bool_decide_true by done. simpl.
    rewrite (bucket_sum_const saved_by 0 b), (bucket_sum_const spread_by 0 b)
      by (intros r <-; unfold saved_by, spread_by; by rewrite bool_decide_true).
    rewrite wrap64_add_r, wrap64_add_l. unfold n. cbv beta. split_and!; f_equal; lia.
  - rewrite bool_decide_false by done. cbn [Saved Spread Covered Uncovered].
    rewrite (bucket_sum_const spread_by (interquartile (d :: ms)) b)
      by (intros r <-; unfold spread_by; by rewrite Ev, bool_decide_false).
    rewrite !wrap64_mul_r, wrap64_sub_l, wrap64_sub_r, !wrap64_add_r, !wrap64_add_l.
    rewrite Sv by done. unfold n. rewrite (bucket_sum_const (fun _ => 1) 1 b) by done.
    change (Zsum (RTook <$> _)) with (bucket_sum RTook b reads). cbv beta.
    split_and!; f_equal; lia.
Qed.

(** The tier hits are the reads of the tallied buckets. *)
Lemma hit_buckets : NoDup (map_to_list (hits (record_all reads))).*1 /\
  forall r, r ∈ reads -> is_hit r = true ->
    bucket (RBytes r) ∈ (map_to_list (hits (record_all reads))).*1.
Proof.
  split; [apply NoDup_fst_map_to_list|]. intros r Hr E. unfold is_hit in E.
  apply bool_decide_eq_true in E.
  destruct (proj2 (record_all_hit_buckets reads (bucket (RBytes r)))) as [t Ht].
  { exists r. split; [done|]. by apply of_bucket_true. }
  apply list_elem_of_fmap. exists (bucket (RBytes r), t). split; [done|]. by apply elem_of_map_to_list.
Qed.

Lemma hits_tallied : map_to_list (hits (record_all reads)) =
  (fun b => (b, tallied b (record_all reads))) <$> (map_to_list (hits (record_all reads))).*1.
Proof.
  rewrite <- list_fmap_compose. rewrite <- (list_fmap_id (map_to_list _)) at 1.
  apply list_fmap_ext. intros i [b t] E. simpl. f_equal. unfold tallied.
  apply list_elem_of_lookup_2, elem_of_map_to_list in E. by rewrite E.
Qed.

Lemma Zsum_select {A} (P Q : A -> bool) (w : A -> Z) l :
  Zsum ((fun x => if Q x then w x else 0) <$> List.filter P l)
  = Zsum (w <$> List.filter (fun x => P x && Q x) l).
Proof.
  induction l as [|x l IH]; csimpl; [done|].
  destruct (P x); csimpl; [|done]. rewrite Zsum_cons, IH.
  destruct (Q x); csimpl; by rewrite ?Zsum_cons.
Qed.

Lemma Zsum_ones {A} (l : list A) : Zsum ((fun _ => 1) <$> l) = zlen l.
Proof. induction l as [|x l IH]; csimpl; [done|]. rewrite Zsum_cons, zlen_cons. lia. Qed.

Lemma Zsum_ext {A} (f g : A -> Z) l : (forall x, f x = g x) -> Zsum (f <$> l) = Zsum (g <$> l).
Proof. intros E. f_equal. by apply list_fmap_ext. Qed.

(** Counting the hits whose bucket passes a test. *)
Lemma count_buckets (keep : Z -> bool) :
  Zsum ((fun b => if keep b then bucket_sum (fun _ => 1) b reads else 0)
          <$> (map_to_list (hits (record_all reads))).*1)
  = zlen (List.filter (fun r => is_hit r && keep (bucket (RBytes r))) reads).
Proof.
  destruct hit_buckets as [ND In].
  rewrite (Zsum_ext _ (fun b => bucket_sum (fun r => if keep (bucket (RBytes r)) then 1 else 0) b reads)).
  - rewrite Zsum_buckets by done.
    etrans; [exact (Zsum_select is_hit (fun r => keep (bucket (RBytes r))) (fun _ => 1) reads)|].
    apply Zsum_ones.
  - intros b. rewrite (bucket_sum_const (fun r => if keep (bucket (RBytes r)) then 1 else 0)
      (if keep b then 1 else 0)) by (by intros r <-).
    rewrite (bucket_sum_const (fun _ => 1) 1) by done. destruct (keep b); lia.
Qed.

End estimate.

Lemma measured_or_not reads l : zlen (List.filter (measured reads) l) +
  zlen (List.filter (fun r => is_hit r && negb (measured reads r)) l) = zlen (List.filter is_hit l).
Proof.
  assert (forall r, measured reads r = true -> is_hit r = true) as M by (by intros r [? _]%andb_true_iff).
  induction l as [|r l IH]; [done|]. simpl. specialize (M r).
  destruct (measured reads r); [rewrite M by done|destruct (is_hit r)]; simpl; rewrite ?zlen_cons; lia.
Qed.

(** ** Properties *)

(** C34: the scoreboard refines the history of reads. After any reads, the saving
    it reports is the sum over the tier hits that can be measured, each against the
    middle one of the newest 256 backend reads of like size; hits of a size with no
    backend read are counted apart and estimate nothing. The spread is the mean, over
    the measured hits, of how far apart the quartiles of those backend reads lie; and
    the covered fraction is the measured hits over all of them. All sums are modulo
    int64. *)
Theorem scoreboard_refines_history reads :
  let e := Estimate (record_all reads) in
  let hits := List.filter (measured reads) reads in
  let covered := wrap64 (zlen hits) in
  Saved e = wrap64 (Zsum ((fun r => middle (against reads r) - RTook r) <$> hits)) /\
  Covered e = covered /\
  Uncovered e = wrap64 (zlen (List.filter (fun r => is_hit r && negb (measured reads r)) reads)) /\
  Spread e = (if 0 <? covered then Z.quot (wrap64 (Zsum ((fun r => wrap64 (width (against reads r))) <$> hits))) covered else 0) /\
  let all := wrap64 (zlen (List.filter is_hit reads)) in
  CoveredFraction e = if all =? 0 then f64_of_Z 0 else f64_div (f64_of_Z covered) (f64_of_Z all).
Proof.
  intros e hits_ covered_. assert (List.filter (covered reads) reads = hits_) as Eh.
  { apply List.filter_ext. intros r. apply covered_measured. }
  assert (Saved e = wrap64 (Zsum (saved_by reads <$> List.filter is_hit reads)) /\ Covered e = covered_ /\
    Uncovered e = wrap64 (zlen (List.filter (fun r => is_hit r && negb (measured reads r)) reads)) /\
    Spread e = if 0 <? covered_ then Z.quot (wrap64 (Zsum (spread_by reads <$> List.filter is_hit reads))) covered_ else 0)
    as (Es & Ec & Eu & Ep).
  { unfold e, Estimate. cbv zeta. rewrite hits_tallied. destruct (hit_buckets reads) as [ND In]. cbn [Saved Spread Covered Uncovered].
    destruct (estimate_fold reads (map_to_list (hits (record_all reads))).*1 {| Saved := 0; Spread := 0; Covered := 0; Uncovered := 0 |})
      as (-> & -> & -> & ->); [simpl; unfold is_int64, MinInt64, MaxInt64; lia..|].
    cbv beta zeta. cbn [Saved Spread Covered Uncovered]. rewrite !Z.add_0_l.
    rewrite !Zsum_buckets, (count_buckets reads (no_evidence reads)) by done.
    rewrite (Zsum_ext _ (fun b => if negb (no_evidence reads b) then bucket_sum (fun _ => 1) b reads else 0))
      by (intros b; by destruct (no_evidence reads b)).
    rewrite (count_buckets reads (fun b => negb (no_evidence reads b))).
    change (List.filter (fun r => is_hit r && negb (no_evidence reads (bucket (RBytes r)))) reads) with (List.filter (covered reads) reads).
    rewrite Eh. split_and!; try done. do 2 f_equal. apply List.filter_ext. intros r. rewrite <- covered_measured.
    unfold covered, no_evidence. by destruct (is_hit r), (bool_decide _). }
  assert (forall w w' : Read -> Z, (forall r, w r = if negb (bool_decide (against reads r = [])) then w' r else 0) ->
    Zsum (w <$> List.filter is_hit reads) = Zsum (w' <$> hits_)) as Sel.
  { intros w w' E. rewrite (Zsum_ext _ _ _ E). apply (Zsum_select is_hit (fun r => negb (bool_decide (against reads r = [])))). }
  split_and!; try done.
  - rewrite Es. f_equal. apply Sel. intros r. unfold saved_by. rewrite evidence_against. case_bool_decide as D; [done|]. simpl.
    by rewrite median_middle.
  - rewrite Ep. rewrite (Sel _ (fun r => wrap64 (width (against reads r)))); [done|]. intros r. unfold spread_by. rewrite evidence_against.
    case_bool_decide as D; [done|]. simpl. by apply interquartile_width.
  - unfold CoveredFraction. rewrite Ec, Eu. assert (covered_ +! wrap64 (zlen (List.filter (fun r => is_hit r && negb (measured reads r)) reads)) =
      wrap64 (zlen (List.filter is_hit reads))) as ->; [|done].
    unfold covered_. rewrite wrap64_add_l, wrap64_add_r. f_equal. unfold hits_. apply measured_or_not.
Qed.

(** A tier that saves two against the middle of three, of which the quartiles are
    three apart, and a hit of a size never missed. *)
Example scoreboard_ex :
  let e := Estimate (record_all [mkRead Backend 9 4; mkRead Tier 12 3; mkRead Backend 10 5; mkRead Tier 1 1; mkRead Backend 15 7]) in
  e = {| Saved := 2; Spread := 3; Covered := 1; Uncovered := 1 |} /\ CoveredFraction e = f64_div (f64_of_Z 1) (f64_of_Z 2).
Proof. vm_compute. split; reflexivity. Qed.
