(* ===== verification/Backend.v ===== *)
(** * Backend: a driver held to its own declaration (driver/driver.go,
    driver/backend.go)

    [Driver] is the interface a durable store implements: its calls may change
    the store and may fail. [Backend] wraps one, refuses what was not declared
    before the driver sees it, and narrows when a credential is denied. *)

From S2P Require Import Prelude.

Local Open Scope Z_scope.

(** ** The contract (driver.go) *)

Abbreviation Capability := string (only parsing).
Definition ReadRangeCap : Capability := "read-range".
Definition ObjectSize : Capability := "object-size".
Definition WriteObjectCap : Capability := "write-object".
Definition DeleteObjectCap : Capability := "delete-object".
Definition Snapshot : Capability := "snapshot".
Definition CloneCap : Capability := "clone".
Definition Replicate : Capability := "replicate".
Definition Thin : Capability := "thin".
Definition Compresses : Capability := "compresses".
Definition CompressOnRequest : Capability := "compress-on-request".
Definition TopologyHint : Capability := "topology-hint".
Definition ListObjects : Capability := "list-objects".
Definition WriteStream : Capability := "write-stream".

Record Entry : Type := mkEntry {
  EName : string;
  EDir : bool;
  EBytes : Z;
}.
#[global] Instance Entry_eq_dec : EqDecision Entry.
Proof. solve_decision. Defined.

(** Which sentinel an error is, as [errors.Is] tells; [ErrOther] is none. *)
Inductive DrvErr : Type :=
  | ErrNotSupported
  | ErrNoReadRange
  | ErrRange
  | ErrDenied
  | ErrOther.
#[global] Instance DrvErr_eq_dec : EqDecision DrvErr.
Proof. solve_decision. Defined.

Record Declaration : Type := mkDeclaration {
  Contract : Z;
  Capabilities : list Capability;
}.

Definition decl_Supports (c : Capability) (d : Declaration) : bool :=
  existsb (fun x => (x =? c)%string) (Capabilities d).

Definition decl_Validate (d : Declaration) : option DrvErr :=
  if Contract d <=? 0 then Some ErrOther
  else if negb (decl_Supports ReadRangeCap d) then Some ErrNoReadRange
  else None.

(** [drv_List] and [drv_WriteObjectFrom] are the optional interfaces [Lister]
    and [Streamer]; a source is the bytes it holds. *)
Class Driver (D : Type) : Type := {
  drv_Declare : D -> Declaration;
  drv_ReadRange : string -> Z -> Z -> D -> D * result DrvErr (list byte);
  drv_SizeOf : string -> D -> D * result DrvErr Z;
  drv_WriteObject : string -> list byte -> D -> D * result DrvErr ();
  drv_DeleteObject : string -> D -> D * result DrvErr ();
  drv_SnapshotObject : string -> D -> D * result DrvErr string;
  drv_CloneObject : string -> string -> D -> D * result DrvErr ();
  drv_List : option (string -> string -> Z -> D -> D * result DrvErr (list Entry));
  drv_WriteObjectFrom : option (string -> list byte -> Z -> D -> D * result DrvErr ());
}.

(** ** What a driver promises its readers

    [obj] is what the store holds. A read that succeeds returns exactly the
    bytes asked for; a range error means the range runs past the end; a size is
    the object's. [drv_inv] is whatever the driver needs of its own state. *)
Class DriverSpec (D : Type) `{Driver D} (obj : string -> option (list byte)) : Type := {
  drv_inv : D -> Prop;
  drv_ReadRange_inv o off len d : drv_inv d -> drv_inv (drv_ReadRange o off len d).1;
  drv_SizeOf_inv o d : drv_inv d -> drv_inv (drv_SizeOf o d).1;
  drv_ReadRange_Ok o off len d data : drv_inv d -> 0 <= off <= MaxInt64 -> 0 <= len ->
    (drv_ReadRange o off len d).2 = Ok data ->
    exists bytes, obj o = Some bytes /\ off + len <= zlen bytes /\
      data = slice off (off + len) bytes;
  drv_ReadRange_Range o off len d bytes : drv_inv d -> 0 <= off -> 0 <= len ->
    off + len <= MaxInt64 -> (drv_ReadRange o off len d).2 = Err ErrRange -> obj o = Some bytes -> zlen bytes < off + len;
  drv_SizeOf_Ok o d n : drv_inv d -> (drv_SizeOf o d).2 = Ok n ->
    exists bytes, obj o = Some bytes /\ n = zlen bytes;
  drv_SizeOf_Range o d : drv_inv d -> (drv_SizeOf o d).2 <> Err ErrRange;
}.

(** A store with no faults: it answers every range within an object, every size,
    and refuses a range past the end as such. *)
Definition store_live {D} `{DS : DriverSpec D obj} : Prop := forall d o bytes,
  drv_inv d -> obj o = Some bytes ->
  (drv_SizeOf o d).2 = Ok (zlen bytes) /\
  forall off len, 0 <= off -> 0 <= len -> off + len <= MaxInt64 ->
    is_ok (drv_ReadRange o off len d).2 = true \/
    (drv_ReadRange o off len d).2 = Err ErrRange /\ zlen bytes < off + len.

(** ** The backend (backend.go) *)

Section backend.
Context {D : Type} `{Driver D}.

(** [lister] and [streamer] say whether [Open] set the field. *)
Record Backend : Type := mkBackend {
  driver : D;
  lister : bool;
  streamer : bool;
  declare : Declaration;
  denied : option (gset Capability);
}.

Definition set_driver (d : D) (b : Backend) : Backend :=
  {| driver := d; lister := lister b; streamer := streamer b; declare := declare b;
     denied := denied b |}.
Definition set_denied (s : gset Capability) (b : Backend) : Backend :=
  {| driver := driver b; lister := lister b; streamer := streamer b; declare := declare b;
     denied := Some s |}.

Definition Open (d : D) : result DrvErr Backend :=
  let decl := drv_Declare d in
  match decl_Validate decl with
  | Some e => Err e
  | None =>
      let listed := decl_Supports ListObjects decl in
      let streams := decl_Supports WriteStream decl in
      if listed && negb (bool_decide (is_Some (drv_List (D := D)))) then Err ErrNotSupported
      else if streams && negb (bool_decide (is_Some (drv_WriteObjectFrom (D := D))))
           then Err ErrNotSupported
      else Ok {| driver := d; lister := listed; streamer := streams; declare := decl;
                 denied := None |}
  end.

Definition is_denied (c : Capability) (b : Backend) : bool :=
  match denied b with Some s => bool_decide (c ∈ s) | None => false end.

Definition Supports (c : Capability) (b : Backend) : bool :=
  if is_denied c b then false else decl_Supports c (declare b).

Definition Denied (b : Backend) : list Capability :=
  match denied b with None => [] | Some s => sort_Strings (elements s) end.

Definition narrow {A} (c : Capability) (r : result DrvErr A) (b : Backend) : Backend :=
  match r with
  | Err ErrDenied => set_denied ({[c]} ∪ default ∅ (denied b)) b
  | _ => b
  end.

(** A guarded call: run the driver, then narrow on what it said. *)
Definition guarded {A} (c : Capability) (call : D -> D * result DrvErr A) (b : Backend)
  : Backend * result DrvErr A :=
  let '(d, r) := call (driver b) in (narrow c r (set_driver d b), r).

Definition ReadRange (object : string) (offset length : Z) (b : Backend)
  : Backend * result DrvErr (list byte) :=
  if (offset <? 0) || (length <? 0) then (b, Err ErrRange)
  else let '(d, r) := drv_ReadRange object offset length (driver b) in (set_driver d b, r).

Definition List (prefix after : string) (limit : Z) (b : Backend)
  : Backend * result DrvErr (list Entry) :=
  match drv_List with
  | Some list =>
      if negb (Supports ListObjects b) || negb (lister b) then (b, Err ErrNotSupported)
      else if limit <=? 0 then (b, Err ErrNotSupported)
      else guarded ListObjects (list prefix after limit) b
  | None => (b, Err ErrNotSupported)
  end.

Definition SizeOf (object : string) (b : Backend) : Backend * result DrvErr Z :=
  if negb (Supports ObjectSize b) then (b, Err ErrNotSupported)
  else guarded ObjectSize (drv_SizeOf object) b.

Definition WriteObject (object : string) (data : list byte) (b : Backend)
  : Backend * result DrvErr () :=
  if negb (Supports WriteObjectCap b) then (b, Err ErrNotSupported)
  else guarded WriteObjectCap (drv_WriteObject object data) b.

Definition WriteObjectFrom (object : string) (src : list byte) (size : Z) (b : Backend)
  : Backend * result DrvErr () :=
  match drv_WriteObjectFrom with
  | Some write =>
      if negb (Supports WriteStream b) || negb (streamer b) then (b, Err ErrNotSupported)
      else if size <? 0 then (b, Err ErrOther)
      else guarded WriteStream (write object src size) b
  | None => (b, Err ErrNotSupported)
  end.

Definition DeleteObject (object : string) (b : Backend) : Backend * result DrvErr () :=
  if negb (Supports DeleteObjectCap b) then (b, Err ErrNotSupported)
  else guarded DeleteObjectCap (drv_DeleteObject object) b.

Definition SnapshotObject (object : string) (b : Backend) : Backend * result DrvErr string :=
  if negb (Supports Snapshot b) then (b, Err ErrNotSupported)
  else guarded Snapshot (drv_SnapshotObject object) b.

Definition CloneObject (from to : string) (b : Backend) : Backend * result DrvErr () :=
  if negb (Supports CloneCap b) then (b, Err ErrNotSupported)
  else guarded CloneCap (drv_CloneObject from to) b.

(** ** Calls, as one type *)

Inductive call : Type :=
  | CReadRange (object : string) (offset length : Z)
  | CList (pre after : string) (limit : Z)
  | CSizeOf (object : string)
  | CWriteObject (object : string) (data : list byte)
  | CWriteObjectFrom (object : string) (src : list byte) (size : Z)
  | CDeleteObject (object : string)
  | CSnapshotObject (object : string)
  | CCloneObject (from to : string).

Definition capability (c : call) : Capability :=
  match c with
  | CReadRange _ _ _ => ReadRangeCap
  | CList _ _ _ => ListObjects
  | CSizeOf _ => ObjectSize
  | CWriteObject _ _ => WriteObjectCap
  | CWriteObjectFrom _ _ _ => WriteStream
  | CDeleteObject _ => DeleteObjectCap
  | CSnapshotObject _ => Snapshot
  | CCloneObject _ _ => CloneCap
  end.

Definition to_error {A} (r : result DrvErr A) : option DrvErr :=
  match r with Ok _ => None | Err e => Some e end.

(** The state a call leaves and the error it reports. *)
Definition perform (c : call) (b : Backend) : Backend * option DrvErr :=
  match c with
  | CReadRange o off len => let '(b, r) := ReadRange o off len b in (b, to_error r)
  | CList p a n => let '(b, r) := List p a n b in (b, to_error r)
  | CSizeOf o => let '(b, r) := SizeOf o b in (b, to_error r)
  | CWriteObject o d => let '(b, r) := WriteObject o d b in (b, to_error r)
  | CWriteObjectFrom o s n => let '(b, r) := WriteObjectFrom o s n b in (b, to_error r)
  | CDeleteObject o => let '(b, r) := DeleteObject o b in (b, to_error r)
  | CSnapshotObject o => let '(b, r) := SnapshotObject o b in (b, to_error r)
  | CCloneObject f t => let '(b, r) := CloneObject f t b in (b, to_error r)
  end.

Definition run (cs : list call) (b : Backend) : Backend :=
  fold_left (fun b c => (perform c b).1) cs b.

(** ** Lemmas *)

Lemma narrow_denied {A} k c (r : result DrvErr A) b :
  is_denied k (narrow c r b) =
    is_denied k b || bool_decide (k = c /\ to_error r = Some ErrDenied).
Proof.
  destruct r as [a|[]]; simpl; try (rewrite bool_decide_false by naive_solver; by rewrite orb_false_r).
  unfold is_denied. simpl. apply eq_bool_prop_intro. rewrite orb_True, !bool_decide_spec.
  destruct (denied b); simpl; rewrite ?bool_decide_spec; set_solver.
Qed.

Lemma narrow_declare {A} c (r : result DrvErr A) b : declare (narrow c r b) = declare b.
Proof. by destruct r as [a|[]]. Qed.

(** A guarded call changes what is supported exactly when it is denied. *)
Lemma guarded_Supports {A} c (f : D -> D * result DrvErr A) b k :
  Supports k (guarded c f b).1 =
    Supports k b && negb (bool_decide (k = c /\ to_error (guarded c f b).2 = Some ErrDenied)).
Proof.
  unfold guarded. destruct (f (driver b)) as [d r]. simpl. unfold Supports.
  rewrite narrow_denied, narrow_declare. unfold is_denied. simpl.
  destruct (match denied b with Some _ => _ | None => _ end), (bool_decide _); simpl;
    by rewrite ?andb_false_r, ?andb_true_r.
Qed.

(** Every call but the core is either refused, changing nothing, or guarded. *)
Inductive performed (c : call) (b : Backend) : Backend * option DrvErr -> Prop :=
  | performed_refused e : e <> ErrDenied ->
      (Supports (capability c) b = false -> e = ErrNotSupported) -> performed c b (b, Some e)
  | performed_guarded A (f : D -> D * result DrvErr A) : Supports (capability c) b = true ->
      performed c b ((guarded (capability c) f b).1, to_error (guarded (capability c) f b).2).

Lemma guard_performed {A} c (f : D -> D * result DrvErr A) b :
  performed c b (let '(b', r) := if negb (Supports (capability c) b) then (b, Err ErrNotSupported)
                                 else guarded (capability c) f b in (b', to_error r)).
Proof.
  destruct (Supports _ b) eqn:S; simpl.
  - pose proof (performed_guarded c b A f S) as P. by destruct (guarded _ f b).
  - by constructor.
Qed.

Lemma perform_cases c b : capability c <> ReadRangeCap -> performed c b (perform c b).
Proof.
  destruct c; intros N; simpl; try (apply (guard_performed (CSizeOf object)));
    try (apply (guard_performed (CWriteObject object data)));
    try (apply (guard_performed (CDeleteObject object)));
    try (apply (guard_performed (CSnapshotObject object)));
    try (apply (guard_performed (CCloneObject from to))); try done.
  - unfold List. destruct drv_List as [f|]; [|by constructor].
    destruct (Supports ListObjects b) eqn:S; simpl; [|by constructor].
    destruct (lister b); simpl; [|by constructor; rewrite ?S]. case_if; [by constructor|].
    pose proof (performed_guarded (CList pre after limit) b _ (f pre after limit) S) as P.
    simpl in P. by destruct (guarded _ _ b).
  - unfold WriteObjectFrom. destruct drv_WriteObjectFrom as [f|]; [|by constructor].
    destruct (Supports WriteStream b) eqn:S; simpl; [|by constructor].
    destruct (streamer b); simpl; [|by constructor; rewrite ?S].
    case_if; [constructor; [done|simpl; congruence]|].
    pose proof (performed_guarded (CWriteObjectFrom object src size) b _ (f object src size) S) as P.
    simpl in P. by destruct (guarded _ _ b).
Qed.

Lemma perform_Supports c b k :
  Supports k (perform c b).1 =
    Supports k b && negb (bool_decide (k = capability c /\ k <> ReadRangeCap /\
                                       (perform c b).2 = Some ErrDenied)).
Proof.
  destruct (decide (capability c = ReadRangeCap)) as [E|N].
  - rewrite bool_decide_false by naive_solver. rewrite andb_true_r.
    destruct c; try done. simpl. unfold ReadRange. case_if; [done|].
    by destruct (drv_ReadRange _ _ _ _).
  - destruct (perform_cases c b N) as [e Ne _|A f S]; simpl.
    + rewrite bool_decide_false by naive_solver. by rewrite andb_true_r.
    + rewrite guarded_Supports. f_equal. f_equal. apply bool_decide_ext. naive_solver.
Qed.

Lemma run_Supports cs : forall b k, Supports k (run cs b) = true -> Supports k b = true.
Proof.
  induction cs as [|c cs IH]; intros b k; simpl; [done|]. intros S%IH.
  rewrite perform_Supports in S. by apply andb_prop in S as [? _].
Qed.

End backend.
Arguments Backend D : clear implicits.

(** ** Properties *)

(** a backend is held to its declaration. A call to a capability that was
    not declared, or that the credential turned out not to have, is refused
    without the driver seeing it and changes nothing; a call narrows what is
    offered exactly when the driver answers that the credential is denied, by
    exactly that capability and never by the mandatory read; and over any
    sequence of calls nothing withdrawn ever comes back. *)
Theorem backend_held_to_declaration {D} `{Driver D} (b : Backend D) c cs k :
  (capability c <> ReadRangeCap -> Supports (capability c) b = false ->
     perform c b = (b, Some ErrNotSupported)) /\
  (Supports k (perform c b).1 = true <->
     Supports k b = true /\ ~ (k = capability c /\ k <> ReadRangeCap /\
                               (perform c b).2 = Some ErrDenied)) /\
  (Supports k (run cs b) = true -> Supports k b = true).
Proof.
  split_and!.
  - intros N S. destruct (perform_cases c b N) as [e Ne E|A f S']; [by rewrite E|congruence].
  - rewrite perform_Supports, andb_true_iff, negb_true_iff, bool_decide_eq_false. done.
  - apply run_Supports.
Qed.

(** A store that lists and sizes one object, and denies deletes. *)
Definition toy_driver : Driver (list byte) := {|
  drv_Declare := fun _ => {| Contract := 1; Capabilities := [ReadRangeCap; ObjectSize; DeleteObjectCap] |};
  drv_ReadRange := fun _ off len d =>
    (d, if zlen d <? off + len then Err ErrRange else Ok (slice off (off + len) d));
  drv_SizeOf := fun _ d => (d, Ok (zlen d));
  drv_WriteObject := fun _ _ d => (d, Err ErrNotSupported);
  drv_DeleteObject := fun _ d => (d, Err ErrDenied);
  drv_SnapshotObject := fun _ d => (d, Err ErrNotSupported);
  drv_CloneObject := fun _ _ d => (d, Err ErrNotSupported);
  drv_List := None;
  drv_WriteObjectFrom := None;
|}.

(** The first delete reaches the store and is denied; the second does not. *)
Example narrowing_runs :
  match Open (H := toy_driver) (list_ascii_of_string "abc") with
  | Ok b => let '(b1, e1) := perform (H := toy_driver) (CDeleteObject "o") b in
            (e1, Supports DeleteObjectCap b, Supports DeleteObjectCap b1,
             (perform (H := toy_driver) (CDeleteObject "o") b1).2)
  | Err _ => (None, false, false, None)
  end = (Some ErrDenied, true, false, Some ErrNotSupported).
Proof. vm_compute. reflexivity. Qed.
