(* ===== verification/DataServer.v ===== *)
(** * DataServer: a byte range of an immutable object
    (internal/dataserver/dataserver.go, ahead.go)

    The server's state is threaded through a small monad [M]; one definition
    per method, in the order of the source. The tier and the backend are the
    interfaces [Tier] and [Backend]. The clock and the context are what the
    world answers when asked: [clock] lists the readings [time.Now] will give
    and [cancelled] what [ctx.Err] will say. The loop of [ReadRange] runs on
    fuel, which [ReadRange] sets to one more than the blocks of the range. *)

From S2P Require Import Prelude Efficiency Prefetch Backend FastTier Tier.

Local Open Scope Z_scope.

(** ** Data *)

Record Stats : Type := mkStats {
  Blocks : Z;
  Hits : Z;
  Fetched : Z;
  Narrowed : Z;
  Admitted_ : Z;
  NotAdmitted : Z;
  Prefetched : Z;
  PrefetchRefused : Z;
  PrefetchFailed : Z;
  PrefetchDropped : Z;
}.
Definition no_Stats : Stats := mkStats 0 0 0 0 0 0 0 0 0 0.

Inductive counter : Type :=
  | CBlocks | CHits | CFetched | CNarrowed | CAdmitted | CNotAdmitted
  | CPrefetched | CPrefetchRefused | CPrefetchFailed | CPrefetchDropped.
#[global] Instance counter_eq_dec : EqDecision counter.
Proof. solve_decision. Defined.

Definition bump (c : counter) (s : Stats) : Stats :=
  let up k n := if bool_decide (k = c) then n +! 1 else n in
  {| Blocks := up CBlocks (Blocks s); Hits := up CHits (Hits s);
     Fetched := up CFetched (Fetched s); Narrowed := up CNarrowed (Narrowed s);
     Admitted_ := up CAdmitted (Admitted_ s); NotAdmitted := up CNotAdmitted (NotAdmitted s);
     Prefetched := up CPrefetched (Prefetched s);
     PrefetchRefused := up CPrefetchRefused (PrefetchRefused s);
     PrefetchFailed := up CPrefetchFailed (PrefetchFailed s);
     PrefetchDropped := up CPrefetchDropped (PrefetchDropped s) |}.

(** [ErrDriver] is an error of the backend, passed on; [ErrContext] the
    context's; [ErrContradiction], [ErrAssembled] and [ErrPanic] are the faults
    the code guards against, the last being a slice out of bounds. *)
Inductive SrvErr : Type :=
  | ErrRefused
  | ErrDriver (e : DrvErr)
  | ErrContext
  | ErrContradiction
  | ErrAssembled
  | ErrPanic
  | ErrFuel.
#[global] Instance SrvErr_eq_dec : EqDecision SrvErr.
Proof. solve_decision. Defined.

Inductive metric : Type :=
  | ReadsInFlight (delta : Z)
  | ReadSeconds (took : duration)
  | TierHits
  | ReadBytes (source : string) (n : Z)
  | PrefetchBlocks (fact : string).

Definition DefaultMaxRead : Z := Z.shiftl 64 20.
Definition maxListing : Z := 4096.
Definition aheadQueue : Z := 64.
Definition DefaultIdle : duration := 5 * Minute.
Definition DefaultExchangeBudget : duration := 60 * Second.

Section server.
Context {T D : Type} `{Tier T} `{Driver D}.

Record Server : Type := mkServer {
  tier : T;
  backend : Backend.Backend D;
  sname : string;
  maxRead : Z;
  idle : duration;
  exchange : duration;
  sblock : Z;
  stats : Stats;
  score : Scoreboard;
  detect : option Detector;
  ahead : list Key;
  reg : option (list metric);
  ready : option (list (duration * time));
  clock : list time;
  cancelled : list bool;
}.

Record Config : Type := mkServerConfig {
  CBackend : string;
  CIdle : duration;
  CExchange : duration;
  CMetrics : bool;
  CReady : bool;
  CPrefetch : option Prefetch.Config;
  CMaxRead : Z;
}.

(** [New]: [None] for an absent tier or backend cannot be expressed, since
    neither is a pointer here. [clk] and [ctx] are what the world will answer. *)
Definition New (t : T) (b : Backend.Backend D) (c : Config) (clk : list time) (ctx : list bool)
  : option Server :=
  if (CBackend c =? "")%string then None
  else if CMaxRead c <? 0 then None
  else if CIdle c <? 0 then None
  else if CExchange c <? 0 then None
  else
    let detector := match CPrefetch c with
                    | None => Some None
                    | Some pc => Some <$> Prefetch.New pc
                    end in
    match detector with
    | None => None
    | Some d => Some {|
        tier := t; backend := b; sname := CBackend c;
        maxRead := if CMaxRead c =? 0 then DefaultMaxRead else CMaxRead c;
        idle := if CIdle c =? 0 then DefaultIdle else CIdle c;
        exchange := if CExchange c =? 0 then DefaultExchangeBudget else CExchange c;
        sblock := tier_BlockSize t; stats := no_Stats; score := Efficiency.New; detect := d;
        ahead := []; reg := if CMetrics c then Some [] else None;
        ready := if CReady c then Some [] else None; clock := clk; cancelled := ctx |}
    end.

(** ** The monad *)

Definition M (A : Type) : Type := Server -> Server * A.
Definition ret {A} (a : A) : M A := fun s => (s, a).
Definition bind {A B} (m : M A) (k : A -> M B) : M B := fun s => let '(s, a) := m s in k a s.
Definition get {A} (f : Server -> A) : M A := fun s => (s, f s).
Definition upd (f : Server -> Server) : M () := fun s => (f s, ()).

#[local] Notation "'do' x <- m ; k" := (bind m (fun x => k))
  (at level 200, x pattern, m at level 100, k at level 200).

(** Only what a step changes. *)
Definition put (t : T) (b : Backend.Backend D) (st : Stats) (sc : Scoreboard) (de : option Detector)
    (ah : list Key) (re : option (list metric)) (rd : option (list (duration * time)))
    (cl : list time) (ca : list bool) (s : Server) : Server :=
  {| tier := t; backend := b; sname := sname s; maxRead := maxRead s; idle := idle s;
     exchange := exchange s; sblock := sblock s; stats := st; score := sc; detect := de;
     ahead := ah; reg := re; ready := rd; clock := cl; cancelled := ca |}.
Definition with_tier (t : T) (s : Server) : Server :=
  put t (backend s) (stats s) (score s) (detect s) (ahead s) (reg s) (ready s) (clock s) (cancelled s) s.
Definition with_backend (b : Backend.Backend D) (s : Server) : Server :=
  put (tier s) b (stats s) (score s) (detect s) (ahead s) (reg s) (ready s) (clock s) (cancelled s) s.
Definition with_stats (st : Stats) (s : Server) : Server :=
  put (tier s) (backend s) st (score s) (detect s) (ahead s) (reg s) (ready s) (clock s) (cancelled s) s.
Definition with_score (sc : Scoreboard) (s : Server) : Server :=
  put (tier s) (backend s) (stats s) sc (detect s) (ahead s) (reg s) (ready s) (clock s) (cancelled s) s.
Definition with_ahead (de : option Detector) (ah : list Key) (s : Server) : Server :=
  put (tier s) (backend s) (stats s) (score s) de ah (reg s) (ready s) (clock s) (cancelled s) s.
Definition with_reg (re : option (list metric)) (s : Server) : Server :=
  put (tier s) (backend s) (stats s) (score s) (detect s) (ahead s) re (ready s) (clock s) (cancelled s) s.
Definition with_ready (rd : option (list (duration * time))) (s : Server) : Server :=
  put (tier s) (backend s) (stats s) (score s) (detect s) (ahead s) (reg s) rd (clock s) (cancelled s) s.
Definition with_world (cl : list time) (ca : list bool) (s : Server) : Server :=
  put (tier s) (backend s) (stats s) (score s) (detect s) (ahead s) (reg s) (ready s) cl ca s.

(** [time.Now] and [ctx.Err] *)
Definition Now : M time :=
  fun s => (with_world (tail (clock s)) (cancelled s) s, default 0 (head (clock s))).
Definition ctx_Err : M bool :=
  fun s => (with_world (clock s) (tail (cancelled s)) s, default false (head (cancelled s))).
Definition Since (began : time) : M duration :=
  do now <- Now; ret (time_Sub now began).

(** Calls into the tier and the backend. *)
Definition call_Read (k : Key) : M (option (list byte)) :=
  fun s => let '(t, o) := tier_Read k (tier s) in (with_tier t s, o).
Definition call_Admit (k : Key) (d : list byte) (pf : bool) : M (bool * option TierErr) :=
  fun s => let '(t, r) := tier_Admit k d pf (tier s) in (with_tier t s, r).
Definition call_ReadRange (o : string) (off len : Z) : M (result DrvErr (list byte)) :=
  fun s => let '(b, r) := Backend.ReadRange o off len (backend s) in (with_backend b s, r).
Definition call_SizeOf (o : string) : M (result DrvErr Z) :=
  fun s => let '(b, r) := Backend.SizeOf o (backend s) in (with_backend b s, r).
Definition call_List (p a : string) (n : Z) : M (result DrvErr (list Entry)) :=
  fun s => let '(b, r) := Backend.List p a n (backend s) in (with_backend b s, r).

(** ** What the read path counts and publishes *)

Definition record (c : counter) : M () := upd (fun s => with_stats (bump c (stats s)) s).
Definition publish (m : metric) : M () :=
  upd (fun s => match reg s with None => s | Some ms => with_reg (Some (ms ++ [m])) s end).
Definition measure (src : Efficiency.Source) (bytes : Z) (took : duration) : M () :=
  upd (fun s => with_score (Record_ {| RSource := src; RBytes := bytes; RTook := took |} (score s)) s).
Definition inFlight (delta : Z) : M () := publish (ReadsInFlight delta).
Definition answered (took : duration) : M () :=
  do _ <- publish (ReadSeconds took);
  do rd <- get ready;
  match rd with
  | None => ret ()
  | Some obs => do now <- Now; upd (with_ready (Some (obs ++ [(took, now)])))
  end.
Definition delivered (src : Efficiency.Source) (bytes : Z) : M () :=
  match src with
  | Efficiency.Tier => do _ <- publish TierHits; publish (ReadBytes "tier" bytes)
  | Efficiency.Backend => publish (ReadBytes "backend" bytes)
  end.

(** ** Prediction (ahead.go) *)

Definition predicted (fact : string) : M () := publish (PrefetchBlocks fact).

Definition block_key (tenant object : string) (index : Z) (s : Server) : Key :=
  {| KTenant := tenant;
     FastTier.Block := {| FastTier.Backend := sname s; Object := object; Index := index |} |}.

(** Queue one predicted block, or drop it when the queue is full. *)
Definition enqueue (k : Key) : M () :=
  do q <- get ahead;
  if zlen q <? aheadQueue then do de <- get detect; upd (with_ahead de (q ++ [k]))
  else do _ <- record CPrefetchDropped; predicted "dropped".

Fixpoint enqueue_all (ks : list Key) : M () :=
  match ks with
  | [] => ret ()
  | k :: ks => do _ <- enqueue k; enqueue_all ks
  end.

Definition predict (tenant object : string) (index : Z) : M () :=
  do de <- get detect;
  match de with
  | None => ret ()
  | Some det =>
      do now <- Now;
      let '(det', next) := Prefetch.Observe
        {| Stream := tenant +:+ "/" +:+ object; BIndex := index |} now det in
      do q <- get ahead;
      do _ <- upd (with_ahead (Some det') q);
      do s <- get (fun s => s);
      enqueue_all ((fun b => block_key tenant object (BIndex b) s) <$> next)
  end.

(** ** Reading *)

Definition admit_block (k : Key) (data : list byte) : M () :=
  do r <- call_Admit k data false;
  match r with
  | (_, Some _) => record CNotAdmitted
  | (true, None) => record CAdmitted
  | (false, None) => ret ()
  end.

(** What both backend reads that answer do, once they have their bytes. *)
Definition backend_read (c : counter) (data : list byte) (began : time) : M () :=
  do _ <- record CBlocks;
  do _ <- record c;
  do took <- Since began;
  do _ <- measure Efficiency.Backend (zlen data) took;
  delivered Efficiency.Backend (zlen data).

Definition tailBySize (k : Key) (object : string) (start wantEnd : Z)
  : M (result SrvErr (list byte)) :=
  do block <- get sblock;
  do size <- call_SizeOf object;
  match size with
  | Err e => ret (Err (ErrDriver e))
  | Ok size =>
      let length := size -! start in
      if size <? wantEnd then ret (Err (ErrDriver ErrRange))
      else if block <=? length then ret (Err ErrContradiction)
      else
        do began <- Now;
        do r <- call_ReadRange object start length;
        match r with
        | Err e => ret (Err (ErrDriver e))
        | Ok data =>
            do _ <- backend_read CFetched data began;
            do _ <- admit_block k data;
            ret (Ok data)
        end
  end.

(** The narrowed read, when the backend cannot say how large the object is. *)
Definition narrowed (object : string) (start wantEnd : Z) : M (result SrvErr (list byte)) :=
  do block <- get sblock;
  let narrow := wantEnd -! start in
  if (narrow <=? 0) || (block <=? narrow) then ret (Err (ErrDriver ErrRange))
  else
    do began <- Now;
    do r <- call_ReadRange object start narrow;
    match r with
    | Err e => ret (Err (ErrDriver e))
    | Ok data => do _ <- backend_read CNarrowed data began; ret (Ok data)
    end.

(** A block the tier did not have. *)
Definition missed_block (k : Key) (object : string) (index wantEnd : Z)
  : M (result SrvErr (list byte)) :=
  do block <- get sblock;
  let start := index *! block in
  do began <- Now;
  do r <- call_ReadRange object start block;
  match r with
  | Ok data =>
      do _ <- backend_read CFetched data began;
      do _ <- admit_block k data;
      ret (Ok data)
  | Err ErrRange =>
      do sized <- get (fun s => Supports ObjectSize (backend s));
      if sized then tailBySize k object start wantEnd else narrowed object start wantEnd
  | Err e => ret (Err (ErrDriver e))
  end.

Definition blockAt (tenant object : string) (index wantEnd : Z) : M (result SrvErr (list byte)) :=
  do k <- get (block_key tenant object index);
  do _ <- predict tenant object index;
  do began <- Now;
  do cached <- call_Read k;
  match cached with
  | Some data =>
      do _ <- record CBlocks;
      do _ <- record CHits;
      do took <- Since began;
      do _ <- measure Efficiency.Tier (zlen data) took;
      do _ <- delivered Efficiency.Tier (zlen data);
      ret (Ok data)
  | None => missed_block k object index wantEnd
  end.

(** [data[lo:hi]] *)
Definition reslice (lo hi : Z) (data : list byte) : result SrvErr (list byte) :=
  if (lo <=? hi) && (hi <=? zlen data) then Ok (slice lo hi data) else Err ErrPanic.

(** The loop over the blocks of a range. *)
Fixpoint read_blocks (fuel : nat) (tenant object : string) (offset end_ start : Z)
    (out : list byte) : M (result SrvErr (list byte)) :=
  match fuel with
  | O => ret (Err ErrFuel)
  | S fuel =>
      if negb (start <? end_) then ret (Ok out)
      else
        do block <- get sblock;
        do stop <- ctx_Err;
        if stop then ret (Err ErrContext)
        else
          do r <- blockAt tenant object (Z.quot start block) end_;
          match r with
          | Err e => ret (Err e)
          | Ok data =>
              let held := zlen data in
              if (held <? block) && (start +! held <? end_) then ret (Err (ErrDriver ErrRange))
              else
                let lo := if start <? offset then offset -! start else 0 in
                let hi := if end_ -! start <? held then end_ -! start else held in
                match reslice lo hi data with
                | Err e => ret (Err e)
                | Ok part =>
                    read_blocks fuel tenant object offset end_ (start +! block) (out ++ part)
                end
          end
  end.

(** The refusals of [ReadRange], in the order it makes them; [Some (Ok [])] is
    the empty read. *)
Definition refusal (tenant object : string) (offset length maxRead : Z)
  : option (result SrvErr (list byte)) :=
  if (tenant =? "")%string then Some (Err ErrRefused)
  else if (object =? "")%string then Some (Err ErrRefused)
  else if (offset <? 0) || (length <? 0) then Some (Err ErrRefused)
  else if length =? 0 then Some (Ok [])
  else if MaxInt64 - length <? offset then Some (Err ErrRefused)
  else if maxRead <? length then Some (Err ErrRefused)
  else None.

Definition read_fuel (length block : Z) : nat := Z.to_nat (length / block + 3).

Definition ReadRange (tenant object : string) (offset length : Z)
  : M (result SrvErr (list byte)) :=
  do bound <- get maxRead;
  match refusal tenant object offset length bound with
  | Some r => ret r
  | None =>
      do block <- get sblock;
      do began <- Now;
      do _ <- inFlight 1;
      do r <- read_blocks (read_fuel length block) tenant object offset (offset +! length)
                (Z.quot offset block *! block) [];
      let r := match r with
               | Ok out => if zlen out =? length then Ok out else Err ErrAssembled
               | Err e => Err e
               end in
      do _ <- inFlight (-1);
      do took <- Since began;
      do _ <- answered took;
      ret r
  end.

Definition SizeOf (tenant object : string) : M (result SrvErr Z) :=
  if (tenant =? "")%string then ret (Err ErrRefused)
  else if (object =? "")%string then ret (Err ErrRefused)
  else
    do size <- call_SizeOf object;
    match size with
    | Err e => ret (Err (ErrDriver e))
    | Ok size => if size <? 0 then ret (Err ErrRefused) else ret (Ok size)
    end.

Definition List (tenant pre after : string) (limit : Z) : M (result SrvErr (list Entry)) :=
  if (tenant =? "")%string then ret (Err ErrRefused)
  else if (limit <=? 0) || (maxListing <? limit) then ret (Err ErrRefused)
  else
    do found <- call_List pre after limit;
    match found with
    | Err e => ret (Err (ErrDriver e))
    | Ok es => ret (Ok es)
    end.

(** ** Fetching ahead (ahead.go) *)

Definition fetchOne (k : Key) : M () :=
  do held <- get (fun s => tier_Resident k (tier s));
  if held then ret ()
  else
    do block <- get sblock;
    do began <- Now;
    do r <- call_ReadRange (Object (FastTier.Block k)) (Index (FastTier.Block k) *! block) block;
    match r with
    | Err _ => do _ <- record CPrefetchFailed; predicted "failed"
    | Ok data =>
        do took <- Since began;
        do _ <- measure Efficiency.Backend (zlen data) took;
        do a <- call_Admit k data true;
        match a with
        | (true, _) => do _ <- record CPrefetched; predicted "admitted"
        | (false, Some ErrWouldEvict) => do _ <- record CPrefetchRefused; predicted "refused"
        | (false, _) => do _ <- record CPrefetchDropped; predicted "dropped"
        end
    end.

(** One turn of the worker: take a prediction off the queue and fetch it. *)
Definition fetchAhead_turn : M () :=
  do q <- get ahead;
  match q with
  | [] => ret ()
  | k :: q => do de <- get detect; do _ <- upd (with_ahead de q); fetchOne k
  end.

End server.
Arguments Server T D : clear implicits.
