(* ===== verification/FileDriver.v ===== *)
(** * FileDriver: a driver over a directory (driver/filedriver/filedriver.go)

    A directory tree is a map from the segments of a path, below the root, to
    the file or directory there. Symbolic links and special files are not
    modelled. Each operation meets the next of [faults], which says where the
    filesystem fails it, and the context [ctx_done]. *)

From S2P Require Import Prelude GoStrings Backend.

Local Open Scope Z_scope.

Inductive node : Type :=
  | File (bytes : list byte)
  | Dir.
#[global] Instance node_eq_dec : EqDecision node.
Proof. solve_decision. Defined.

Abbreviation fs := (gmap (list string) node).

(** Where an operation fails; [FailWrite n] after [n] bytes are written. *)
Inductive fault : Type :=
  | NoFault
  | FailStat
  | FailMkdir
  | FailOpen
  | FailRead
  | FailWrite (n : Z)
  | FailSync
  | FailClose.

Record FileStore : Type := mkFileStore {
  tree : fs;
  faults : list fault;
  ctx_done : bool;
}.

Definition next_fault (d : FileStore) : fault := default NoFault (head (faults d)).
Definition step (t : fs) (d : FileStore) : FileStore :=
  {| tree := t; faults := tail (faults d); ctx_done := ctx_done d |}.

Definition declared : Declaration :=
  {| Contract := 1;
     Capabilities := [ReadRangeCap; ObjectSize; WriteObjectCap; DeleteObjectCap; ListObjects;
                      WriteStream] |}.

(** ** Paths *)

Definition bad_segment (s : string) : bool :=
  (s =? "")%string || (s =? ".")%string || (s =? "..")%string.

(** The segments of an object key below the root; [None] is [ErrBadObject]. *)
Definition path (object : string) : option (list string) :=
  if (object =? "")%string then None
  else let segments := Split "/" object in
       if existsb bad_segment segments then None else Some segments.

(** What is at a path; the root is a directory. *)
Definition at_path (p : list string) (t : fs) : option node :=
  match p with [] => Some Dir | _ => t !! p end.

(** ** Reading *)

Definition file_size (n : node) : Z := match n with File b => zlen b | Dir => 0 end.

Definition SizeOf (object : string) (d : FileStore) : FileStore * result DrvErr Z :=
  match path object with
  | None => (d, Err ErrOther)
  | Some p =>
      match at_path p (tree d), next_fault d with
      | Some (File b), NoFault => (step (tree d) d, Ok (zlen b))
      | _, _ => (step (tree d) d, Err ErrOther)
      end
  end.

(** [io.ReadFull] of [length] bytes from [offset]. *)
Definition read_full (offset length : Z) (b : list byte) : result DrvErr (list byte) :=
  let buf := slice offset (offset + length) b in
  if zlen buf =? length then Ok buf else Err ErrOther.

Definition ReadRange (object : string) (offset length : Z) (d : FileStore)
  : FileStore * result DrvErr (list byte) :=
  match path object with
  | None => (d, Err ErrOther)
  | Some p =>
      (step (tree d) d,
       match at_path p (tree d), next_fault d with
       | Some (File b), FailRead =>
           if zlen b <? offset +! length then Err ErrRange else Err ErrOther
       | Some (File b), NoFault =>
           if zlen b <? offset +! length then Err ErrRange else read_full offset length b
       | _, _ => Err ErrOther
       end)
  end.

(** ** Listing *)

(** The name of [q] as a child of [p]. *)
Fixpoint child (p q : list string) : option string :=
  match p, q with
  | [], [n] => Some n
  | x :: p, y :: q => if (x =? y)%string then child p q else None
  | _, _ => None
  end.

(** [os.ReadDir], sorted. *)
Definition readdir (p : list string) (t : fs) : list (string * node) :=
  omap (fun n => (fun nd => (n, nd)) <$> t !! (p ++ [n]))
    (sort_Strings (omap (child p) (map_to_list t).*1)).

Definition entry_of (e : string * node) : Entry :=
  {| EName := e.1; EDir := bool_decide (e.2 = Dir); EBytes := file_size e.2 |}.

(** The loop over the sorted names. *)
Fixpoint page (after : string) (limit : Z) (es : list (string * node)) (out : list Entry)
  : list Entry :=
  match es with
  | [] => out
  | e :: es =>
      if str_leb e.1 after then page after limit es out
      else if zlen out =? limit then out
      else page after limit es (out ++ [entry_of e])
  end.

(** The directory a listing reads: the root for no prefix. *)
Definition level_path (pre : string) : option (list string) :=
  if (pre =? "")%string then Some [] else path pre.

Definition List (pre after : string) (limit : Z) (d : FileStore)
  : FileStore * result DrvErr (list Entry) :=
  match level_path pre with
  | None => (d, Err ErrOther)
  | Some p =>
      (step (tree d) d,
       match next_fault d with
       | NoFault =>
           match at_path p (tree d) with
           | Some Dir => if ctx_done d then Err ErrOther
                         else Ok (page after limit (readdir p (tree d)) [])
           | _ => Ok []
           end
       | _ => Err ErrOther
       end)
  end.

(** ** Writing *)

(** [os.MkdirAll] of the levels above an object; [None] when one is a file. *)
Fixpoint mkdir_all (done_ todo : list string) (t : fs) : option fs :=
  match todo with
  | [] => Some t
  | n :: todo =>
      let p := done_ ++ [n] in
      match t !! p with
      | Some (File _) => None
      | Some Dir => mkdir_all p todo t
      | None => mkdir_all p todo (<[p := Dir]> t)
      end
  end.

(** The levels above the object, then [O_CREATE|O_EXCL]. *)
Definition create (p : list string) (ft : fault) (t : fs) : fs * bool :=
  match ft with
  | FailMkdir => (t, false)
  | _ =>
      match mkdir_all [] (removelast p) t with
      | None => (t, false)
      | Some t' =>
          match ft, t' !! p with
          | FailOpen, _ => (t', false)
          | _, Some _ => (t', false)
          | _, None => (<[p := File []]> t', true)
          end
      end
  end.

Definition WriteObject (object : string) (data : list byte) (d : FileStore)
  : FileStore * result DrvErr () :=
  match path object with
  | None => (d, Err ErrOther)
  | Some p =>
      let ft := next_fault d in
      let '(t, created) := create p ft (tree d) in
      if negb created then (step t d, Err ErrOther)
      else match ft with
           | FailWrite n => (step (<[p := File (ztake n data)]> t) d, Err ErrOther)
           | FailClose => (step (<[p := File data]> t) d, Err ErrOther)
           | _ => (step (<[p := File data]> t) d, Ok ())
           end
  end.

Definition WriteObjectFrom (object : string) (src : list byte) (size : Z) (d : FileStore)
  : FileStore * result DrvErr () :=
  match path object with
  | None => (d, Err ErrOther)
  | Some p =>
      let ft := next_fault d in
      let '(t, created) := create p ft (tree d) in
      if negb created then (step t d, Err ErrOther)
      else
        let copied := ztake (size +! 1) src in
        let removed := step (delete p t) d in
        match ft with
        | FailWrite _ => (removed, Err ErrOther)
        | _ =>
            if negb (zlen copied =? size) then (removed, Err ErrOther)
            else match ft with
                 | FailSync | FailClose => (removed, Err ErrOther)
                 | _ => (step (<[p := File copied]> t) d,
                         if ctx_done d then Err ErrOther else Ok ())
                 end
        end
  end.

(** [os.Remove] removes a file or an empty directory. *)
Definition is_empty_dir (p : list string) (t : fs) : bool :=
  bool_decide (readdir p t = []).

Definition DeleteObject (object : string) (d : FileStore) : FileStore * result DrvErr () :=
  match path object with
  | None => (d, Err ErrOther)
  | Some p =>
      match at_path p (tree d), next_fault d with
      | Some (File _), NoFault => (step (delete p (tree d)) d, Ok ())
      | Some Dir, NoFault =>
          if is_empty_dir p (tree d) then (step (delete p (tree d)) d, Ok ())
          else (step (tree d) d, Err ErrOther)
      | _, _ => (step (tree d) d, Err ErrOther)
      end
  end.

#[global] Instance FileStore_Driver : Driver FileStore := {
  drv_Declare _ := declared;
  drv_ReadRange := ReadRange;
  drv_SizeOf := SizeOf;
  drv_WriteObject := WriteObject;
  drv_DeleteObject := DeleteObject;
  drv_SnapshotObject _ d := (d, Err ErrNotSupported);
  drv_CloneObject _ _ d := (d, Err ErrNotSupported);
  drv_List := Some List;
  drv_WriteObjectFrom := Some WriteObjectFrom;
}.

(** ** Lemmas *)

(** The object a key names. *)
Definition object_at (t : fs) (object : string) : option (list byte) :=
  match path object with
  | Some p => match at_path p t with Some (File b) => Some b | _ => None end
  | None => None
  end.

Lemma mkdir_all_files todo : forall done_ t t' p b, mkdir_all done_ todo t = Some t' ->
  t !! p = Some (File b) <-> t' !! p = Some (File b).
Proof.
  induction todo as [|n todo IH]; simpl; intros done_ t t' p b; [by intros [= ->]|].
  destruct (t !! (done_ ++ [n])) as [[|]|] eqn:E; [done|apply IH|].
  intros M. rewrite <- (IH _ _ _ p b M).
  destruct (decide (p = done_ ++ [n])) as [->|N]; [|by rewrite lookup_insert_ne].
  rewrite lookup_insert_eq. split; congruence.
Qed.

Lemma create_spec p ft t t' ok : create p ft t = (t', ok) ->
  (forall q b, t !! q = Some (File b) -> t' !! q = Some (File b)) /\
  (forall q b, q <> p -> t' !! q = Some (File b) -> t !! q = Some (File b)) /\
  (ok = true -> t' !! p = Some (File []) /\ forall b, t !! p <> Some (File b)) /\
  (ok = false -> forall b, t' !! p = Some (File b) -> t !! p = Some (File b)).
Proof.
  unfold create. intros C.
  assert (t' = t /\ ok = false \/ exists t1, mkdir_all [] (removelast p) t = Some t1 /\
    (t' = t1 /\ ok = false \/ t' = <[p := File []]> t1 /\ ok = true /\ t1 !! p = None)) as K.
  { destruct ft; try (by left; simplify_eq); destruct (mkdir_all [] (removelast p) t) as [t1|];
      try (by left; simplify_eq); right; exists t1; destruct (t1 !! p) eqn:E; simplify_eq; auto. }
  destruct K as [[-> ->]|(t1 & M & K)]; [by split_and!|].
  pose proof (fun q b => mkdir_all_files _ _ _ _ q b M) as F.
  destruct K as [[-> ->]|(-> & -> & N)]; split_and!; try done; try (intros; by apply F).
  - intros q b E. apply F in E. rewrite lookup_insert_ne; [done|]. congruence.
  - intros q b Nq. rewrite lookup_insert_ne by done. apply F.
  - intros _. rewrite lookup_insert_eq. split; [done|]. intros b E. apply F in E. congruence.
Qed.

(** ** Reading *)

Lemma ReadRange_tree o off len d : tree (ReadRange o off len d).1 = tree d.
Proof. unfold ReadRange. by destruct (path o). Qed.
Lemma SizeOf_tree o d : tree (SizeOf o d).1 = tree d.
Proof. unfold SizeOf. destruct (path o); [|done]. destruct (at_path _ _) as [[]|], (next_fault d); done. Qed.

Lemma wrap64_le z : 0 <= z -> wrap64 z <= z.
Proof.
  intros H. unfold wrap64.
  pose proof (Z.mod_le (z + 9223372036854775808) 18446744073709551616). lia.
Qed.

Lemma read_full_Ok off len b data : 0 <= off -> 0 <= len -> read_full off len b = Ok data ->
  off + len <= zlen b /\ data = slice off (off + len) b \/ len = 0 /\ data = [].
Proof.
  intros Ho Hl. unfold read_full. destruct (Z.eqb_spec (zlen (slice off (off + len) b)) len) as [E|]; [|done].
  intros [= <-]. unfold zlen, slice, ztake, zdrop in *. rewrite length_take, length_drop in E.
  destruct (Z.eqb_spec len 0) as [->|]; [right|left].
  - split; [done|]. by rewrite Z.add_0_r, Z.sub_diag.
  - split; [lia|done].
Qed.

Lemma ReadRange_Ok o off len d data : 0 <= off -> 0 <= len ->
  (ReadRange o off len d).2 = Ok data ->
  exists b, object_at (tree d) o = Some b /\ off +! len <= zlen b /\
    read_full off len b = Ok data.
Proof.
  intros Ho Hl. unfold ReadRange, object_at. destruct (path o) as [p|]; [|done]. simpl.
  destruct (at_path p (tree d)) as [[b|]|], (next_fault d); try done;
    destruct (Z.ltb_spec (zlen b) (off +! len)); try done. eauto.
Qed.

Lemma ReadRange_Range o off len d b : 0 <= off -> 0 <= len ->
  (ReadRange o off len d).2 = Err ErrRange -> object_at (tree d) o = Some b -> zlen b < off + len.
Proof.
  intros Ho Hl. unfold ReadRange, object_at. destruct (path o) as [p|]; [|done]. simpl.
  pose proof (wrap64_le (off + len)).
  destruct (at_path p (tree d)) as [[b'|]|], (next_fault d); try done;
    destruct (Z.ltb_spec (zlen b') (off +! len)); try done; unfold read_full;
    try (destruct (_ =? _); done); intros _ [= <-]; lia.
Qed.

(** ** Writing *)

Lemma ztake_all {A} n (l : list A) : zlen (ztake (n + 1) l) = n -> 0 <= n -> ztake (n + 1) l = l /\ zlen l = n.
Proof.
  unfold zlen, ztake. rewrite length_take. intros E H. split; [apply take_ge|]; lia.
Qed.

Lemma at_path_insert p q n t : p <> [] ->
  at_path q (<[p := n]> t) = if decide (q = p) then Some n else at_path q t.
Proof.
  intros Np. destruct q as [|x q]; [by rewrite decide_False|]. unfold at_path. simpl.
  case_decide as E; [rewrite E; apply lookup_insert_eq|by apply lookup_insert_ne].
Qed.

Lemma path_nonempty o p : path o = Some p -> p <> [].
Proof.
  unfold path. destruct (o =? "")%string; [done|]. case_if; [done|]. intros [= <-].
  apply Split_not_nil.
Qed.

(** What [create] leaves, object by object. *)
Lemma create_objects o p ft t t' ok : path o = Some p -> create p ft t = (t', ok) ->
  (forall o', path o' <> path o -> object_at t' o' = object_at t o') /\
  (ok = true -> object_at t o = None) /\
  (ok = false -> object_at t' o = object_at t o).
Proof.
  intros Ep C. pose proof (create_spec _ _ _ _ _ C) as (F & B & Yes & No).
  pose proof (path_nonempty _ _ Ep).
  assert (forall q, q <> [] -> (forall b, t !! q = Some (File b) <-> t' !! q = Some (File b)) ->
    match at_path q t' with Some (File b) => Some b | _ => None end
    = match at_path q t with Some (File b) => Some b | _ => None end) as Same.
  { intros [|x q] Nq E; [done|]. simpl.
    destruct (t !! (x :: q)) as [[b|]|], (t' !! (x :: q)) as [[b'|]|]; try done;
      try (pose proof (proj1 (E b) eq_refl)); try (pose proof (proj2 (E b') eq_refl));
      by simplify_eq. }
  split_and!.
  - intros o' Ne. unfold object_at. destruct (path o') as [q|] eqn:Eq; [|done].
    apply Same; [by eapply path_nonempty|]. intros b.
    split; intros; [by apply F|apply B; [congruence|done]].
  - intros E. destruct (Yes E) as [_ N]. unfold object_at. rewrite Ep.
    destruct p as [|x p]; [done|]. simpl. destruct (t !! (x :: p)) as [[b|]|] eqn:E'; try done.
    by destruct (N b).
  - intros E. unfold object_at. rewrite Ep. apply Same; [done|]. intros b. split; auto.
Qed.

(** Putting at, or removing, one object's path. *)
Lemma object_at_other (o o' : string) (p : list string) (t t' : fs) : path o = Some p -> path o' <> path o ->
  (forall q, q <> p -> t' !! q = t !! q) -> object_at t' o' = object_at t o'.
Proof.
  intros Ep Ne E. unfold object_at. destruct (path o') as [q|] eqn:Eq; [|done].
  pose proof (path_nonempty _ _ Eq). destruct q as [|x q]; [done|]. simpl.
  rewrite E; [done|congruence].
Qed.
Lemma object_at_insert (o : string) (p : list string) (b : list byte) (t : fs) : path o = Some p -> object_at (<[p := File b]> t) o = Some b.
Proof.
  intros Ep. unfold object_at. rewrite Ep, at_path_insert by by eapply path_nonempty.
  by rewrite decide_True.
Qed.
Lemma object_at_delete (o : string) (p : list string) (t : fs) : path o = Some p -> object_at (delete p t) o = None.
Proof.
  intros Ep. unfold object_at. rewrite Ep. pose proof (path_nonempty _ _ Ep).
  destruct p; [done|]. simpl. by rewrite lookup_delete_eq.
Qed.

(** ** Properties *)

Lemma WriteObjectFrom_outcome o src size d :
  0 <= size < MaxInt64 ->
  let '(d', r) := WriteObjectFrom o src size d in
  (forall o', path o' <> path o -> object_at (tree d') o' = object_at (tree d) o') /\
  let created := object_at (tree d) o = None /\ zlen src = size /\
                 object_at (tree d') o = Some src in
  match r with
  | Ok _ => created
  | Err _ => object_at (tree d') o = object_at (tree d) o \/ ctx_done d = true /\ created
  end.
Proof.
  intros Sz. unfold WriteObjectFrom.
  destruct (path o) as [p|] eqn:Ep; [|split; [done|by left]].
  destruct (create p (next_fault d) (tree d)) as [t ok] eqn:C.
  pose proof (create_objects _ _ _ _ _ _ Ep C) as (Same & New & Fail). rewrite Ep in Same.
  assert (size +! 1 = size + 1) as -> by int64_lia.
  destruct ok; simpl; [|split; [done|by left; apply Fail]]. specialize (New eq_refl).
  assert (forall e : DrvErr, (forall o', path o' <> Some p ->
      object_at (delete p t) o' = object_at (tree d) o') /\
    (object_at (delete p t) o = object_at (tree d) o \/ ctx_done d = true /\
     object_at (tree d) o = None /\ zlen src = size /\ object_at (delete p t) o = Some src)) as Removed.
  { intros _. rewrite object_at_delete by done. split; [|by left]. intros o' Ne.
    rewrite <- Same by done. apply (object_at_other o o' p); [done|congruence|].
    intros q Nq. by rewrite lookup_delete_ne. }
  assert (zlen (ztake (size + 1) src) = size -> (forall o', path o' <> Some p ->
      object_at (<[p := File (ztake (size + 1) src)]> t) o' = object_at (tree d) o') /\
    match (if ctx_done d then Err ErrOther else Ok ()) : result DrvErr () with
    | Ok _ => object_at (tree d) o = None /\ zlen src = size /\
              object_at (<[p := File (ztake (size + 1) src)]> t) o = Some src
    | Err _ => object_at (<[p := File (ztake (size + 1) src)]> t) o = object_at (tree d) o \/
               ctx_done d = true /\ object_at (tree d) o = None /\ zlen src = size /\
               object_at (<[p := File (ztake (size + 1) src)]> t) o = Some src
    end) as Kept.
  { intros E. destruct (ztake_all _ _ E) as [Es Zs]; [lia|].
    rewrite object_at_insert by done. rewrite Es in *. split; [|destruct (ctx_done d); auto].
    intros o' Ne. rewrite <- Same by done. apply (object_at_other o o' p); [done|congruence|].
    intros q Nq. by rewrite lookup_insert_ne. }
  destruct (Z.eqb_spec (zlen (ztake (size + 1) src)) size) as [E|];
    destruct (next_fault d); simpl; eauto using ErrOther.
Qed.

(** an upload is all or nothing. When [WriteObjectFrom] succeeds the object
    is new and holds exactly the declared bytes; when it fails, for a bad key,
    an existing name, a source of the wrong size, or a fault at any step, no
    object has appeared or changed; no other object is ever touched, and an
    existing one is never replaced. The one error that leaves the whole object
    behind is a context that ended during the write. *)
Theorem WriteObjectFrom_all_or_nothing o src size d :
  0 <= size < MaxInt64 ->
  let '(d', r) := WriteObjectFrom o src size d in
  (forall o', path o' <> path o -> object_at (tree d') o' = object_at (tree d) o') /\
  let created := object_at (tree d) o = None /\ zlen src = size /\
                 object_at (tree d') o = Some src in
  match r with
  | Ok _ => created
  | Err _ => object_at (tree d') o = object_at (tree d) o \/ ctx_done d = true /\ created
  end.
Proof. apply WriteObjectFrom_outcome. Qed.

Definition empty_store : FileStore := {| tree := ∅; faults := []; ctx_done := false |}.

Lemma WriteObjectFrom_all_or_nothing_witness :
  let bytes := list_ascii_of_string "abc" in
  0 <= 3 < MaxInt64 /\
  object_at (tree (WriteObjectFrom "ckpt/0001" bytes 3 empty_store).1) "ckpt/0001" = Some bytes.
Proof.
  intros bytes. split; [unfold MaxInt64; lia|].
  pose proof (WriteObjectFrom_all_or_nothing "ckpt/0001" bytes 3 empty_store
    ltac:(unfold MaxInt64; lia)) as W.
  destruct (WriteObjectFrom "ckpt/0001" bytes 3 empty_store) as [d r] eqn:E.
  assert (r = Ok ()) as -> by (vm_compute in E; congruence).
  destruct W as (_ & _ & _ & W). exact W.
Defined.

(** ** Listing in pages *)

Definition entry_lt (x y : Entry) : Prop := str_ltb (EName x) (EName y) = true.
#[global] Instance entry_lt_trans : Transitive entry_lt.
Proof. intros x y z. apply str_ltb_trans. Qed.

(** The entries of a level, in name order; and those past a name. *)
Definition level (p : list string) (t : fs) : list Entry :=
  match at_path p t with Some Dir => entry_of <$> readdir p t | _ => [] end.
Definition level_after (after : string) (p : list string) (t : fs) : list Entry :=
  filter (fun e => str_ltb after (EName e) = true) (level p t).

Lemma page_spec after limit es : forall out, zlen out <= limit ->
  page after limit es out
  = out ++ ztake (limit - zlen out) (filter (fun e => str_ltb after (EName e) = true) (entry_of <$> es)).
Proof.
  induction es as [|e es IH]; intros out L; [simpl; rewrite filter_nil; unfold ztake; by rewrite firstn_nil, app_nil_r|].
  rewrite fmap_cons. simpl page. unfold str_leb.
  destruct (str_ltb after e.1) eqn:E; simpl negb.
  2: { rewrite filter_cons_False by (simpl; congruence). by apply IH. }
  rewrite filter_cons_True by done.
  destruct (Z.eqb_spec (zlen out) limit) as [->|N].
  - unfold ztake. rewrite Z.sub_diag. simpl. by rewrite app_nil_r.
  - rewrite IH by (rewrite zlen_app; unfold zlen in *; simpl; lia). rewrite zlen_app, <- app_assoc.
    f_equal. unfold ztake, zlen in *. simpl.
    replace (Z.to_nat (limit - Z.of_nat (length out))) with
      (S (Z.to_nat (limit - (Z.of_nat (length out) + 1)))) by lia. done.
Qed.

Lemma child_Some p q n : child p q = Some n <-> q = p ++ [n].
Proof.
  revert q. induction p as [|x p IH]; intros q; simpl.
  - destruct q as [|y [|z q]]; split; intros E; by simplify_eq.
  - destruct q as [|y q]; [done|]. destruct (String.eqb_spec x y) as [->|N].
    + rewrite IH. split; congruence.
    + split; [done|]. congruence.
Qed.

(** The names below [p], each once. *)
Lemma children_spec (p : list string) (t : fs) : NoDup (omap (child p) (map_to_list t).*1) /\
  forall n, n ∈ omap (child p) (map_to_list t).*1 <-> is_Some (t !! (p ++ [n])).
Proof.
  split.
  - pose proof (NoDup_fst_map_to_list t) as N. induction N as [|q l Hq N IH]; simpl; [constructor|].
    destruct (child p q) as [n|] eqn:E; [|done]. constructor; [|done].
    intros (q' & Hq' & E')%list_elem_of_omap. apply child_Some in E, E'. congruence.
  - intros n. rewrite list_elem_of_omap. split.
    + intros (q & Hq & ->%child_Some). apply list_elem_of_fmap in Hq as ([q' nd] & [= <-] & H).
      apply elem_of_map_to_list in H. eauto.
    + intros [nd H]. exists (p ++ [n]). split; [|by apply child_Some].
      apply list_elem_of_fmap. exists (p ++ [n], nd). by rewrite elem_of_map_to_list.
Qed.

Lemma sort_Strings_strict l : NoDup l -> StronglySorted (fun s t => str_ltb s t = true) (sort_Strings l).
Proof.
  intros N. rewrite <- (sort_Strings_Permutation l) in N.
  assert (StronglySorted (fun s t => str_leb s t = true) (sort_Strings l)) as S.
  { apply StronglySorted_merge_sort; apply _. }
  induction S as [|x k S IH F]; [constructor|]. apply NoDup_cons in N as [Nx Nk].
  constructor; [by apply IH|]. rewrite Forall_forall in *. intros y Hy.
  destruct (str_ltb_total x y) as [|L]; [congruence|done|].
  specialize (F y Hy). unfold str_leb in F. by rewrite L in F.
Qed.

Lemma readdir_entries (p : list string) (t : fs) : StronglySorted entry_lt (entry_of <$> readdir p t) /\
  forall n nd, (n, nd) ∈ readdir p t <-> t !! (p ++ [n]) = Some nd.
Proof.
  destruct (children_spec p t) as [N C]. unfold readdir.
  set (l := omap (child p) _) in *. pose proof (sort_Strings_strict l N) as S.
  split.
  - induction S as [|n k S IH F]; simpl; [constructor|].
    destruct (t !! (p ++ [n])) as [nd|]; simpl; [|done]. constructor; [done|].
    rewrite Forall_forall in *. intros e ([n' nd'] & -> & H)%list_elem_of_fmap.
    apply list_elem_of_omap in H as (n1 & Hn & E). destruct (t !! (p ++ [n1])); [|done].
    simpl in E. injection E as -> ->. exact (proj1 (Forall_forall _ _) F _ Hn).
  - intros n nd. rewrite list_elem_of_omap. split.
    + intros (n' & _ & E). destruct (t !! (p ++ [n'])) eqn:E'; [|done]. simpl in E. by simplify_eq.
    + intros E. exists n. rewrite E. split; [|done]. apply elem_of_sort_Strings, C. eauto.
Qed.

Lemma level_spec (p : list string) (t : fs) : StronglySorted entry_lt (level p t) /\
  forall e, e ∈ level p t <->
    at_path p t = Some Dir /\ exists nd, t !! (p ++ [EName e]) = Some nd /\ e = entry_of (EName e, nd).
Proof.
  unfold level. destruct (readdir_entries p t) as [S R].
  destruct (at_path p t) as [[b|]|]; (split; [done || constructor|]); intros e.
  1,3: rewrite elem_of_nil; naive_solver.
  rewrite list_elem_of_fmap. split.
  - intros ([n nd] & -> & H%R). eauto.
  - intros (_ & nd & H & ->). exists (EName e, nd). simpl. split; [done|by apply R].
Qed.

(** A listing that answers is the first entries of the level past [after]. *)
Lemma List_Ok pre after limit d es : 0 < limit -> (List pre after limit d).2 = Ok es ->
  exists p, level_path pre = Some p /\ es = ztake limit (level_after after p (tree d)).
Proof.
  intros L. unfold List, level_after, level. destruct (level_path pre) as [p|]; [|done].
  simpl. intros H. exists p. split; [done|]. revert H.
  destruct (next_fault d); try done. destruct (at_path p (tree d)) as [[b|]|].
  2: { destruct (ctx_done d); [done|]. intros [= <-].
       rewrite page_spec by (unfold zlen; simpl; lia). simpl. by rewrite Z.sub_0_r. }
  all: intros [= <-]; unfold ztake; by rewrite filter_nil, firstn_nil.
Qed.

(** In a level in name order, what is past the last of a first page is the rest. *)
Lemma filter_past l after n e : StronglySorted entry_lt l ->
  last (take n (filter (fun x => str_ltb after (EName x) = true) l)) = Some e ->
  filter (fun x => str_ltb (EName e) (EName x) = true) l
  = drop n (filter (fun x => str_ltb after (EName x) = true) l).
Proof.
  intros S. revert n. induction S as [|x l S IH F]; intros n; [by rewrite filter_nil, firstn_nil|].
  assert (forall y, y ∈ l -> entry_lt x y) as Fx by by apply Forall_forall.
  destruct (str_ltb after (EName x)) eqn:E.
  - rewrite filter_cons_True by done. destruct n as [|n]; [done|]. simpl take. simpl drop.
    destruct (last (take n (filter (fun x => str_ltb after (EName x) = true) l))) as [e'|] eqn:La.
    + rewrite last_cons, La. intros [= <-].
      assert (e' ∈ l) as He.
      { apply last_Some_elem_of, elem_of_take in La as (i & La & _).
        apply list_elem_of_lookup_2, list_elem_of_filter in La. by destruct La. }
      rewrite filter_cons_False; [by apply IH|].
      rewrite (str_ltb_asym _ _ (Fx _ He)). done.
    + rewrite last_cons, La. intros [= <-]. rewrite filter_cons_False by (by rewrite str_ltb_irrefl).
      apply last_None in La. apply (f_equal (fun k => length k)) in La. rewrite length_take in La. simpl in La.
      assert (filter (fun y => str_ltb (EName x) (EName y) = true) l = l) as ->.
      { apply list_filter_all. intros y Hy. by apply Fx. }
      assert (filter (fun y => str_ltb after (EName y) = true) l = l) as Ea.
      { apply list_filter_all. intros y Hy. eapply str_ltb_trans; [exact E|by apply Fx]. }
      rewrite Ea in *. destruct n as [|n]; [done|]. destruct l; [done|]. simpl in La. lia.
  - rewrite filter_cons_False by congruence. intros La.
    assert (e ∈ l) as He.
    { apply last_Some_elem_of, elem_of_take in La as (i & La & _).
      apply list_elem_of_lookup_2, list_elem_of_filter in La. by destruct La. }
    rewrite filter_cons_False; [by apply IH|].
    rewrite (str_ltb_asym _ _ (Fx _ He)). done.
Qed.

(** listing pages neither skip nor repeat. Over a tree that does not change
    in between, a page and the page asked for after the last name of it are
    together the first entries past the starting name: in strict name order,
    each the entry of a file or directory directly under the prefix; and when
    the second page comes back short, nothing under the prefix is missing. *)
Theorem List_pages pre after n m d d' es1 es2 e :
  0 < n -> 0 < m -> tree d' = tree d ->
  (List pre after n d).2 = Ok es1 -> last es1 = Some e ->
  (List pre (EName e) m d').2 = Ok es2 ->
  StronglySorted entry_lt (es1 ++ es2) /\
  exists p, level_path pre = Some p /\
    (forall x, x ∈ es1 ++ es2 -> str_ltb after (EName x) = true /\
       exists nd, tree d !! (p ++ [EName x]) = Some nd /\ x = entry_of (EName x, nd)) /\
    (zlen es2 < m -> at_path p (tree d) = Some Dir -> forall name nd,
       tree d !! (p ++ [name]) = Some nd -> str_ltb after name = true ->
       entry_of (name, nd) ∈ es1 ++ es2).
Proof.
  intros Ln Lm Et (p & Ep & ->)%List_Ok La (p' & Ep' & ->)%List_Ok; auto.
  rewrite Ep in Ep'. injection Ep' as <-. rewrite Et. destruct (level_spec p (tree d)) as [S El].
  unfold level_after in *. rewrite (filter_past _ _ _ _ S La). unfold ztake.
  set (l := filter _ _). rewrite take_take_drop.
  assert (forall x, x ∈ l <-> str_ltb after (EName x) = true /\ x ∈ level p (tree d)) as Hl.
  { intros x. unfold l. by rewrite list_elem_of_filter. }
  split; [|exists p; split_and!; [done| |]].
  - apply StronglySorted_app_1_l with (drop (Z.to_nat n + Z.to_nat m) l). rewrite take_drop.
    by apply StronglySorted_filter.
  - intros x (i & Hx & _)%elem_of_take. apply list_elem_of_lookup_2, Hl in Hx as [? Hx].
    split; [done|]. by apply (proj1 (El x)) in Hx as [_ ?].
  - unfold zlen. rewrite length_take, length_drop. intros Sh D name nd Hn Ha.
    rewrite take_ge by lia. apply (proj2 (Hl _)). split; [done|]. apply (proj2 (El _)). eauto.
Qed.

(** Three objects under [d/], one with a level of its own. *)
Definition small_store : FileStore :=
  {| tree := <[["d"] := Dir]> (<[["d"; "b"] := File []]> (<[["d"; "a"] := Dir]>
             (<[["d"; "a"; "x"] := File []]> (<[["d"; "c"] := File (list_ascii_of_string "abc")]> ∅))));
     faults := []; ctx_done := false |}.

Lemma List_pages_witness :
  (List "d" "" 2 small_store).2 = Ok [mkEntry "a" true 0; mkEntry "b" false 0] /\
  (List "d" "b" 2 small_store).2 = Ok [mkEntry "c" false 3] /\
  StronglySorted entry_lt ([mkEntry "a" true 0; mkEntry "b" false 0] ++ [mkEntry "c" false 3]).
Proof.
  assert ((List "d" "" 2 small_store).2 = Ok [mkEntry "a" true 0; mkEntry "b" false 0]) as P1
    by (vm_compute; reflexivity).
  assert ((List "d" "b" 2 small_store).2 = Ok [mkEntry "c" false 3]) as P2 by (vm_compute; reflexivity).
  split_and!; [exact P1|exact P2|].
  exact (proj1 (List_pages "d" "" 2 2 small_store small_store _ _ (mkEntry "b" false 0)
    ltac:(lia) ltac:(lia) eq_refl P1 eq_refl P2)).
Defined.

(** ** The driver's contract *)

(** What the directory holds does not change under reads; [live] says that
    nothing fails. *)
Definition store_inv (obj : string -> option (list byte)) (live : Prop) (d : FileStore) : Prop :=
  (forall o, object_at (tree d) o = obj o) /\ (live -> Forall (fun f => f = NoFault) (faults d)).

Lemma store_inv_step obj live d d' : tree d' = tree d ->
  faults d' = faults d \/ faults d' = tail (faults d) -> store_inv obj live d -> store_inv obj live d'.
Proof.
  intros Et Ef [A B]. split; [intros o; by rewrite Et|]. intros L. specialize (B L).
  destruct Ef as [->| ->]; [done|]. by destruct B.
Qed.

Definition FileStore_Spec (obj : string -> option (list byte)) (live : Prop) : DriverSpec FileStore obj.
Proof.
  refine {| drv_inv := store_inv obj live |}; simpl.
  - intros o off len d. apply store_inv_step; [apply ReadRange_tree|].
    unfold ReadRange. destruct (path o); auto.
  - intros o d. apply store_inv_step; [apply SizeOf_tree|].
    unfold SizeOf. destruct (path o); auto. destruct (at_path _ _) as [[]|], (next_fault d); auto.
  - intros o off len d data [A _] Ho Hl (b & Eb & Le & R)%ReadRange_Ok; [|lia..].
    rewrite A in Eb. exists b.
    destruct (read_full_Ok off len b data) as [[? ->]|[-> ->]]; [lia..|done|done|].
    rewrite Z.add_0_r, wrap64_id in Le by int64_lia. rewrite Z.add_0_r. by rewrite slice_nil.
  - intros o off len d b [A _] Ho Hl _ R E. eapply ReadRange_Range; eauto. by rewrite A.
  - intros o d n [A _] E. rewrite <- A. revert E. unfold SizeOf, object_at.
    destruct (path o) as [p|]; [|done].
    destruct (at_path p (tree d)) as [[b|]|], (next_fault d); try done. intros [= <-]. eauto.
  - intros o d [A _]. unfold SizeOf. destruct (path o); [|done].
    destruct (at_path _ _) as [[]|], (next_fault d); done.
Defined.

Lemma FileStore_live obj : store_live (DS := FileStore_Spec obj True).
Proof.
  intros d o b [A F] E. specialize (F I). rewrite <- A in E. unfold object_at in E.
  assert (next_fault d = NoFault) as Nf by (unfold next_fault; by destruct F as [|f l -> _]).
  simpl. unfold SizeOf, ReadRange. destruct (path o) as [p|]; [|done].
  destruct (at_path p (tree d)) as [[b'|]|]; try done. injection E as ->. rewrite Nf.
  split; [done|]. intros off len Ho Hl Hm. simpl. rewrite wrap64_id by int64_lia.
  destruct (Z.ltb_spec (zlen b) (off + len)) as [|Le]; [by right|left].
  unfold read_full. rewrite zlen_slice by lia.
  replace (off + len - off) with len by lia. by rewrite Z.eqb_refl.
Qed.
