(* ===== verification/DataServerProofs.v ===== *)
(** * DataServerProofs: the data server answers what the object holds

    Over any driver that keeps the contract ([DriverSpec]: immutable objects,
    whole answers) and any tier that keeps its own ([TierSpec]). *)

From S2P Require Import Prelude Efficiency Prefetch Backend FastTier Tier DataServer.

Local Open Scope Z_scope.

(** What a block of an object is: a whole block, or the tail of the object. It
    says nothing of a key no read can name: another backend's, or an index whose
    offset is out of range, which a prediction may have. *)
Definition content_of (obj : string -> option (list byte)) (name : string) (block : Z)
    (k : Key) (d : list byte) : Prop :=
  let start := Index (Block k) * block in
  FastTier.Backend (Block k) = name -> 0 <= start <= MaxInt64 ->
  exists bytes, obj (Object (Block k)) = Some bytes /\ start < zlen bytes /\
    d = slice start (Z.min (zlen bytes) (start + block)) bytes.

Section proofs.
Context {T D : Type} `{TS : TierSpec T} (obj : string -> option (list byte)) `{DS : DriverSpec D obj}.

Abbreviation Srv := (Server T D).
Implicit Types s : Srv.

(** [n] admissions are left before the tier's counter could wrap. *)
Record sinv (n : nat) s : Prop := {
  s_tier : tier_ok (content_of obj (sname s) (sblock s)) n (tier s);
  s_block : sblock s = tier_BlockSize (tier s);
  s_drv : drv_inv (driver (backend s));
}.

Definition calm s : Prop := Forall (fun b => b = false) (cancelled s).

(** What the bookkeeping leaves alone. *)
Record same_core s s' : Prop := {
  sc_tier : tier s' = tier s;
  sc_backend : backend s' = backend s;
  sc_name : sname s' = sname s;
  sc_block : sblock s' = sblock s;
  sc_max : maxRead s' = maxRead s;
  sc_calm : calm s -> calm s';
}.

Definition quiet {A} (m : M (T := T) (D := D) A) : Prop := forall s, same_core s (m s).1.

Lemma same_core_refl s : same_core s s.
Proof. by constructor. Qed.

Lemma same_core_trans s1 s2 s3 : same_core s1 s2 -> same_core s2 s3 -> same_core s1 s3.
Proof. intros [] []. constructor; try congruence. auto. Qed.

Lemma quiet_ret {A} (a : A) : quiet (ret a).
Proof. intros s. apply same_core_refl. Qed.

Lemma quiet_get {A} (f : Srv -> A) : quiet (get f).
Proof. intros s. apply same_core_refl. Qed.

Lemma quiet_bind {A B} (m : M A) (k : A -> M B) :
  quiet m -> (forall a, quiet (k a)) -> quiet (bind m k).
Proof.
  intros Qm Qk s. unfold bind. specialize (Qm s). destruct (m s) as [s' a].
  eapply same_core_trans; [exact Qm|apply Qk].
Qed.

Lemma quiet_Now : quiet Now.
Proof. intros s. by constructor. Qed.

Lemma quiet_ctx_Err : quiet ctx_Err.
Proof.
  intros s. constructor; try done. unfold calm. simpl. intros F. by destruct F.
Qed.

Lemma quiet_upd f : (forall s, same_core s (f s)) -> quiet (upd f).
Proof. intros F s. apply F. Qed.

Lemma quiet_record c : quiet (record c).
Proof. apply quiet_upd. intros s. by constructor. Qed.
Lemma quiet_publish m : quiet (publish m).
Proof. apply quiet_upd. intros s. destruct (reg s); [by constructor|apply same_core_refl]. Qed.
Lemma quiet_measure src n t : quiet (measure src n t).
Proof. apply quiet_upd. intros s. by constructor. Qed.

Create HintDb quiet.
#[local] Hint Resolve quiet_ret quiet_get quiet_Now quiet_ctx_Err quiet_record quiet_publish
  quiet_measure : quiet.
Ltac quiet_tac := repeat first [apply quiet_bind; [|intros ?] | progress eauto with quiet].

Lemma quiet_Since t : quiet (Since t).
Proof. unfold Since. quiet_tac. Qed.
#[local] Hint Resolve quiet_Since : quiet.
Lemma quiet_inFlight d : quiet (inFlight d).
Proof. unfold inFlight. quiet_tac. Qed.
Lemma quiet_answered t : quiet (answered t).
Proof.
  unfold answered. quiet_tac. destruct a0; quiet_tac. apply quiet_upd. intros s. by constructor.
Qed.
Lemma quiet_delivered src n : quiet (delivered src n).
Proof. unfold delivered. destruct src; quiet_tac. Qed.
#[local] Hint Resolve quiet_inFlight quiet_answered quiet_delivered : quiet.
Lemma quiet_enqueue k : quiet (enqueue k).
Proof.
  unfold enqueue. quiet_tac. case_if; unfold predicted; quiet_tac.
  apply quiet_upd. intros s. by constructor.
Qed.
#[local] Hint Resolve quiet_enqueue : quiet.
Lemma quiet_enqueue_all ks : quiet (enqueue_all ks).
Proof.
  induction ks as [|k ks IH]; [apply quiet_ret|]. apply quiet_bind; [apply quiet_enqueue|].
  intros _. exact IH.
Qed.
#[local] Hint Resolve quiet_enqueue_all : quiet.
Lemma quiet_predict t o i : quiet (predict t o i).
Proof.
  unfold predict. quiet_tac. destruct a; quiet_tac. destruct (Prefetch.Observe _ _ _). quiet_tac.
  apply quiet_upd. intros s. by constructor.
Qed.
#[local] Hint Resolve quiet_predict : quiet.
Lemma quiet_backend_read c d t : quiet (backend_read c d t).
Proof. unfold backend_read. quiet_tac. Qed.
#[local] Hint Resolve quiet_backend_read : quiet.

Lemma sinv_same n s s' : same_core s s' -> sinv n s -> sinv n s'.
Proof. intros [Et Eb En Ek _ _] [A B C]. constructor; rewrite ?Et, ?Eb, ?En, ?Ek; auto. Qed.

Lemma sinv_weaken n m s : sinv (n + m) s -> sinv m s.
Proof.
  induction n as [|n IH]; simpl; [done|]. intros [A B C]. apply IH.
  constructor; auto. by apply tier_ok_weaken.
Qed.

(** ** Stepping through the monad *)

(** [wp m Q s]: what [m] leaves and returns from [s] satisfies [Q]. *)
Definition wp {A} (m : M A) (Q : Srv -> A -> Prop) s : Prop := Q (m s).1 (m s).2.

Lemma wp_bind {A B} (m : M A) (k : A -> M B) Q s :
  wp m (fun s' a => wp (k a) Q s') s -> wp (bind m k) Q s.
Proof. unfold wp, bind. by destruct (m s). Qed.

Lemma wp_quiet {A} (m : M A) (Q : Srv -> A -> Prop) s :
  quiet m -> (forall s' a, same_core s s' -> Q s' a) -> wp m Q s.
Proof. intros Qm P. apply P, Qm. Qed.

(** Calls that change the tier or the driver keep everything else. *)
Record same_frame s s' : Prop := {
  sf_name : sname s' = sname s;
  sf_block : sblock s' = sblock s;
  sf_max : maxRead s' = maxRead s;
  sf_calm : calm s -> calm s';
  sf_supports : Supports ObjectSize (backend s') = true -> Supports ObjectSize (backend s) = true;
}.

Lemma same_frame_refl s : same_frame s s.
Proof. by constructor. Qed.
Lemma same_frame_trans s1 s2 s3 : same_frame s1 s2 -> same_frame s2 s3 -> same_frame s1 s3.
Proof. intros [] []. constructor; try congruence; auto. Qed.
Lemma same_core_frame s s' : same_core s s' -> same_frame s s'.
Proof. intros []. constructor; auto. congruence. Qed.

Lemma call_Read_spec n k s : sinv n s -> wp (call_Read k) (fun s' o =>
  sinv n s' /\ same_frame s s' /\ backend s' = backend s /\
  forall d, o = Some d -> content_of obj (sname s) (sblock s) k d) s.
Proof.
  intros [A B C]. unfold wp, call_Read.
  destruct (tier_Read_ok _ n k (tier s) A) as (A' & B' & R).
  destruct (tier_Read k (tier s)) as [t o]. simpl in *. split_and!; auto.
  - constructor; simpl; auto. congruence.
  - by constructor.
Qed.

Lemma call_Admit_spec n k d pf s : sinv (S n) s -> content_of obj (sname s) (sblock s) k d ->
  wp (call_Admit k d pf) (fun s' _ => sinv n s' /\ same_frame s s' /\ backend s' = backend s) s.
Proof.
  intros [A B C] P. unfold wp, call_Admit.
  destruct (tier_Admit_ok _ n k d pf (tier s) A P) as (A' & B').
  destruct (tier_Admit k d pf (tier s)) as [t o]. simpl in *. split_and!; auto.
  - constructor; simpl; auto. congruence.
  - by constructor.
Qed.

Lemma call_ReadRange_spec n o off len s : sinv n s -> 0 <= off -> 0 <= len -> off + len <= MaxInt64 ->
  wp (call_ReadRange o off len) (fun s' r =>
    sinv n s' /\ same_frame s s' /\ tier s' = tier s /\
    match r with
    | Ok data => exists bytes, obj o = Some bytes /\ off + len <= zlen bytes /\
                   data = slice off (off + len) bytes
    | Err ErrRange => forall bytes, obj o = Some bytes -> zlen bytes < off + len
    | Err _ => ~ (store_live (obj := obj) (D := D) /\ is_Some (obj o))
    end) s.
Proof.
  intros [A B C] Ho Hl Hm. unfold wp, call_ReadRange, Backend.ReadRange.
  destruct (Z.ltb_spec off 0); [lia|]. destruct (Z.ltb_spec len 0); [lia|]. simpl.
  pose proof (drv_ReadRange_inv o off len _ C) as C'.
  pose proof (fun d => drv_ReadRange_Ok o off len (driver (backend s)) d C ltac:(lia) ltac:(lia)) as R1.
  pose proof (fun b => drv_ReadRange_Range o off len (driver (backend s)) b C Ho Hl Hm) as R2.
  assert (store_live (obj := obj) (D := D) -> is_Some (obj o) ->
    is_ok (drv_ReadRange o off len (driver (backend s))).2 = true \/
    (drv_ReadRange o off len (driver (backend s))).2 = Err ErrRange) as L.
  { intros L [bytes Eb]. destruct (L _ _ _ C Eb) as [_ L']. destruct (L' off len Ho Hl Hm) as [?|[? _]]; auto. }
  destruct (drv_ReadRange o off len (driver (backend s))) as [d r]. simpl in *.
  split_and!; auto; [by constructor|by constructor|]. destruct r as [data|e]; [by apply R1|].
  destruct e; try (intros [Lv Eo]; destruct (L Lv Eo) as [X|X]; discriminate X).
  intros bytes. by apply R2.
Qed.

Lemma call_SizeOf_spec n o s : sinv n s ->
  wp (call_SizeOf o) (fun s' r =>
    sinv n s' /\ same_frame s s' /\ tier s' = tier s /\
    match r with
    | Ok size => exists bytes, obj o = Some bytes /\ size = zlen bytes
    | Err e => e <> ErrRange /\
        (Supports ObjectSize (backend s) = true -> ~ (store_live (obj := obj) (D := D) /\ is_Some (obj o)))
    end) s.
Proof.
  intros [A B C]. unfold wp, call_SizeOf, Backend.SizeOf.
  destruct (Supports ObjectSize (backend s)) eqn:Sp; simpl.
  - unfold guarded. pose proof (drv_SizeOf_inv o _ C) as C'.
    pose proof (fun n => drv_SizeOf_Ok o (driver (backend s)) n C) as R1.
    pose proof (drv_SizeOf_Range o _ C) as R2.
    assert (store_live (obj := obj) (D := D) -> is_Some (obj o) ->
      is_ok (drv_SizeOf o (driver (backend s))).2 = true) as L.
    { intros L [bytes Eb]. by destruct (L _ _ _ C Eb) as [-> _]. }
    destruct (drv_SizeOf o (driver (backend s))) as [d r]. simpl in *.
    assert (driver (narrow ObjectSize r (set_driver d (backend s))) = d) as Ed.
    { by destruct r as [|[]]. }
    split_and!; auto; [constructor; simpl; rewrite ?Ed; auto|by constructor|].
    destruct r; [by apply R1|]. split; [congruence|]. intros _ [Lv Eo].
    specialize (L Lv Eo). done.
  - split_and!; auto; [by constructor|by constructor|congruence].
Qed.

#[local] Arguments delivered : simpl never.

(** ** One block *)

(** What [blockAt] owes the loop: bytes of the object from the block's start,
    ending at the block's end, the object's, or the read's; a range error only
    when the object ends before the read does; and an answer, when the store is
    live and holds what the read wants. *)
Definition block_answer (object : string) (start wantEnd block : Z)
    (r : result SrvErr (list byte)) : Prop :=
  match r with
  | Ok data => exists bytes, obj object = Some bytes /\
      data = slice start (start + zlen data) bytes /\ start + zlen data <= zlen bytes /\
      0 < zlen data <= block /\
      (zlen data = block \/ start + zlen data = zlen bytes \/ start + zlen data = wantEnd)
  | Err (ErrDriver ErrRange) => forall bytes, obj object = Some bytes -> zlen bytes < wantEnd
  | Err (ErrDriver _) => ~ (store_live (obj := obj) (D := D) /\ is_Some (obj object))
  | Err _ => False
  end.

Lemma slice_answer off n (bytes : list byte) : 0 <= off -> 0 <= n -> off + n <= zlen bytes ->
  zlen (slice off (off + n) bytes) = n.
Proof. intros. rewrite zlen_slice; lia. Qed.

Lemma admit_spec n k data s : sinv (S n) s -> content_of obj (sname s) (sblock s) k data ->
  wp (admit_block k data) (fun s' _ => sinv n s' /\ same_frame s s') s.
Proof.
  intros I C. unfold admit_block. apply wp_bind. unfold wp at 1.
  pose proof (call_Admit_spec n k data false s I C) as W. unfold wp in W.
  destruct (call_Admit k data false s) as [s1 r]. simpl in *. destruct W as (I1 & F1 & _).
  assert (quiet (match r with
    | (_, Some _) => record (T := T) (D := D) CNotAdmitted
    | (true, None) => record CAdmitted
    | (false, None) => ret () end)) as Q.
  { destruct r as [[] []]; auto with quiet. }
  apply wp_quiet; [exact Q|]. intros s' _ Sc. split; [by eapply sinv_same|].
  eapply same_frame_trans; [exact F1|by apply same_core_frame].
Qed.

(** A backend read whose bytes the tier may keep, from the read's success on. *)
Lemma keep_spec n c k data began s : sinv (S n) s -> content_of obj (sname s) (sblock s) k data ->
  wp (bind (backend_read c data began) (fun _ => bind (admit_block k data) (fun _ => ret (Ok (E := SrvErr) data))))
    (fun s' r => sinv n s' /\ same_frame s s' /\ r = Ok data) s.
Proof.
  intros I C. apply wp_bind, wp_quiet; [auto with quiet|]. intros s1 _ Sc.
  apply wp_bind. pose proof (admit_spec n k data s1 (sinv_same _ _ _ Sc I)) as W.
  unfold wp in *. rewrite (sc_name _ _ Sc), (sc_block _ _ Sc) in W.
  destruct (W C) as [I' F']. simpl. split_and!; auto.
  eapply same_frame_trans; [|exact F']. by apply same_core_frame.
Qed.

(** The object ends inside the block of [k], as a whole-block read found. *)
Record in_tail (k : Key) (object : string) (start wantEnd : Z) s : Prop := {
  it_block : 0 < sblock s;
  it_start : start = Index (Block k) * sblock s;
  it_index : 0 <= Index (Block k);
  it_object : object = Object (Block k);
  it_name : FastTier.Backend (Block k) = sname s;
  it_want : start < wantEnd <= MaxInt64;
  it_room : start + sblock s <= MaxInt64;
}.

Lemma in_tail_frame k object start wantEnd s s' : same_frame s s' ->
  in_tail k object start wantEnd s -> in_tail k object start wantEnd s'.
Proof. intros [] []. constructor; congruence || (rewrite ?sf_block0; lia). Qed.

Lemma tailBySize_spec n k object start wantEnd s :
  sinv (S n) s -> in_tail k object start wantEnd s -> Supports ObjectSize (backend s) = true ->
  (forall bytes, obj object = Some bytes -> zlen bytes < start + sblock s) ->
  wp (tailBySize k object start wantEnd)
    (fun s' r => sinv n s' /\ same_frame s s' /\ block_answer object start wantEnd (sblock s) r) s.
Proof.
  intros I It Sup Short. pose proof It as [Bp Es Hi Eo En Hw Hr].
  unfold tailBySize. apply wp_bind. unfold wp at 1. simpl.
  apply wp_bind. pose proof (call_SizeOf_spec (S n) object s I) as W.
  unfold wp in W. unfold wp at 1. destruct (call_SizeOf object s) as [s1 [size|e]]; simpl in *.
  2: { destruct W as (I1 & F1 & _ & Ne & Lv). unfold wp. simpl. split_and!; auto; [by apply (sinv_weaken 1)|].
       specialize (Lv Sup). destruct e; auto. done. }
  destruct W as (I1 & F1 & _ & bytes & Eb & ->). assert (0 <= start) by nia.
  pose proof (Short _ Eb) as Sh. pose proof (zlen_nonneg bytes).
  destruct (Z.ltb_spec (zlen bytes) wantEnd) as [Lt|Ge].
  { unfold wp. simpl. split_and!; auto; [by apply (sinv_weaken 1)|]. intros b Eb'. by simplify_eq. }
  assert (zlen bytes -! start = zlen bytes - start) as -> by int64_lia.
  destruct (Z.leb_spec (sblock s) (zlen bytes - start)); [lia|].
  apply wp_bind, wp_quiet; [auto with quiet|]. intros s2 began Sc2.
  assert (sinv (S n) s2) as I2 by by eapply sinv_same.
  assert (same_frame s s2) as F2 by (eapply same_frame_trans; [exact F1|by apply same_core_frame]).
  apply wp_bind. pose proof (call_ReadRange_spec (S n) object start (zlen bytes - start) s2 I2
    ltac:(lia) ltac:(lia) ltac:(lia)) as W.
  unfold wp in W. unfold wp at 1.
  destruct (call_ReadRange object start (zlen bytes - start) s2) as [s3 [data|e]]; simpl in *.
  - destruct W as (I3 & F3 & _ & b & Eb' & Le & Ed). rewrite Eb in Eb'. injection Eb' as <-.
    replace (start + (zlen bytes - start)) with (zlen bytes) in * by lia.
    assert (zlen data = zlen bytes - start) as Lz.
    { rewrite Ed. replace (zlen bytes) with (start + (zlen bytes - start)) at 1 by lia.
      apply slice_answer; lia. }
    pose proof (same_frame_trans _ _ _ F2 F3) as F4.
    assert (content_of obj (sname s3) (sblock s3) k data) as C.
    { intros _ _. exists bytes. rewrite (sf_block _ _ F4), <- Es, <- Eo. split_and!; auto; [lia|].
      rewrite Z.min_l by lia. done. }
    pose proof (keep_spec n CFetched k data began s3 I3 C) as W. unfold wp in *.
    destruct W as (I5 & F5 & ->). split_and!; auto; [by eapply same_frame_trans|].
    exists bytes. rewrite Lz. replace (start + (zlen bytes - start)) with (zlen bytes) by lia.
    split_and!; auto; lia.
  - destruct W as (I3 & F3 & _ & R). unfold wp. simpl.
    split_and!; [by apply (sinv_weaken 1)|by eapply same_frame_trans|].
    destruct e; auto. intros b Eb'. pose proof (R _ Eb'). rewrite Eb in Eb'. injection Eb' as <-. lia.
Qed.

Lemma narrowed_spec n k object start wantEnd s :
  sinv n s -> in_tail k object start wantEnd s ->
  (forall bytes, obj object = Some bytes -> zlen bytes < start + sblock s) ->
  wp (narrowed object start wantEnd)
    (fun s' r => sinv n s' /\ same_frame s s' /\ block_answer object start wantEnd (sblock s) r) s.
Proof.
  intros I It Short. pose proof It as [Bp Es Hi Eo En Hw Hr]. assert (0 <= start) by nia.
  unfold narrowed. apply wp_bind. unfold wp at 1. simpl.
  assert (wantEnd -! start = wantEnd - start) as -> by int64_lia.
  destruct (Z.leb_spec (wantEnd - start) 0); [lia|]. simpl.
  destruct (Z.leb_spec (sblock s) (wantEnd - start)).
  { unfold wp. simpl. split_and!; auto; [apply same_frame_refl|].
    intros b Eb. pose proof (Short _ Eb). lia. }
  apply wp_bind, wp_quiet; [auto with quiet|]. intros s2 began Sc2.
  assert (sinv n s2) as I2 by by eapply sinv_same. pose proof (same_core_frame _ _ Sc2) as F2.
  apply wp_bind. pose proof (call_ReadRange_spec n object start (wantEnd - start) s2 I2
    ltac:(lia) ltac:(lia) ltac:(lia)) as W.
  unfold wp in W. unfold wp at 1.
  destruct (call_ReadRange object start (wantEnd - start) s2) as [s3 [data|e]]; simpl in *.
  - destruct W as (I3 & F3 & _ & b & Eb & Le & Ed).
    assert (zlen data = wantEnd - start) as Lz by (rewrite Ed; apply slice_answer; lia).
    apply wp_bind, wp_quiet; [auto with quiet|]. intros s4 _ Sc4. unfold wp. simpl.
    split_and!; [by eapply sinv_same| |].
    + eapply same_frame_trans; [exact F2|]. eapply same_frame_trans; [exact F3|by apply same_core_frame].
    + exists b. rewrite Lz. split_and!; auto; lia.
  - destruct W as (I3 & F3 & _ & R). unfold wp. simpl.
    split_and!; [done|by eapply same_frame_trans|].
    destruct e; auto. intros b Eb. pose proof (R _ Eb). lia.
Qed.

Lemma missed_block_spec n k object start wantEnd s :
  sinv (S n) s -> in_tail k object start wantEnd s ->
  wp (missed_block k object (Index (Block k)) wantEnd)
    (fun s' r => sinv n s' /\ same_frame s s' /\ block_answer object start wantEnd (sblock s) r) s.
Proof.
  intros I It. pose proof It as [Bp Es Hi Eo En Hw Hr]. assert (0 <= start) by nia.
  unfold missed_block. apply wp_bind. unfold wp at 1. simpl.
  assert (Index (Block k) *! sblock s = start) as -> by (rewrite <- Es; int64_lia).
  apply wp_bind, wp_quiet; [auto with quiet|]. intros s2 began Sc2.
  assert (sinv (S n) s2) as I2 by by eapply sinv_same. pose proof (same_core_frame _ _ Sc2) as F2.
  apply wp_bind. pose proof (call_ReadRange_spec (S n) object start (sblock s) s2 I2
    ltac:(lia) ltac:(lia) ltac:(lia)) as W.
  unfold wp in W. unfold wp at 1.
  destruct (call_ReadRange object start (sblock s) s2) as [s3 [data|e]]; simpl in *.
  - destruct W as (I3 & F3 & _ & b & Eb & Le & Ed).
    assert (zlen data = sblock s) as Lz by (rewrite Ed; apply slice_answer; lia).
    pose proof (same_frame_trans _ _ _ F2 F3) as F4.
    assert (content_of obj (sname s3) (sblock s3) k data) as C.
    { intros _ _. exists b. rewrite (sf_block _ _ F4), <- Es, <- Eo. split_and!; auto; [lia|].
      rewrite Z.min_r by lia. done. }
    pose proof (keep_spec n CFetched k data began s3 I3 C) as W. unfold wp in *.
    destruct W as (I5 & F5 & ->). split_and!; auto; [by eapply same_frame_trans|].
    exists b. rewrite Lz. split_and!; auto; lia.
  - destruct W as (I3 & F3 & _ & R). pose proof (same_frame_trans _ _ _ F2 F3) as F4.
    destruct e; try (unfold wp; simpl; split_and!; auto; by apply (sinv_weaken 1)).
    apply wp_bind. unfold wp at 1. simpl. rewrite <- (sf_block _ _ F4) in *.
    assert (in_tail k object start wantEnd s3) as It3 by by eapply in_tail_frame.
    destruct (Supports ObjectSize (backend s3)) eqn:Sp.
    + pose proof (tailBySize_spec n k object start wantEnd s3 I3 It3 Sp R) as W.
      unfold wp in *. destruct W as (? & F5 & ?). split_and!; auto. by eapply same_frame_trans.
    + pose proof (narrowed_spec n k object start wantEnd s3 (sinv_weaken 1 _ _ I3) It3 R) as W.
      unfold wp in *. destruct W as (? & F5 & ?). split_and!; auto. by eapply same_frame_trans.
Qed.

Lemma blockAt_spec n tenant object index start wantEnd s :
  sinv (S n) s -> start = index * sblock s -> 0 <= index ->
  start < wantEnd <= MaxInt64 -> start + sblock s <= MaxInt64 ->
  wp (blockAt tenant object index wantEnd)
    (fun s' r => sinv n s' /\ same_frame s s' /\ block_answer object start wantEnd (sblock s) r) s.
Proof.
  intros I Es Hi Hw Hr. unfold blockAt. apply wp_bind. unfold wp at 1. simpl.
  set (k := block_key tenant object index s).
  assert (0 < sblock s) as Bp.
  { rewrite (s_block _ _ I). eapply tier_BlockSize_pos, I. }
  assert (in_tail k object start wantEnd s) as It by by constructor.
  apply wp_bind, wp_quiet; [auto with quiet|]. intros s1 _ Sc1.
  apply wp_bind, wp_quiet; [auto with quiet|]. intros s2 began Sc2.
  pose proof (same_core_trans _ _ _ Sc1 Sc2) as Sc. pose proof (same_core_frame _ _ Sc) as F.
  assert (sinv (S n) s2) as I2 by by eapply sinv_same.
  apply wp_bind. pose proof (call_Read_spec (S n) k s2 I2) as W. unfold wp in W. unfold wp at 1.
  destruct (call_Read k s2) as [s3 [data|]]; simpl in *; destruct W as (I3 & F3 & _ & R);
    pose proof (same_frame_trans _ _ _ F F3) as F4.
  - destruct (R _ eq_refl) as (b & Eb & Lt & Ed); simpl in *;
      rewrite ?(sf_name _ _ F), ?(sf_block _ _ F), <- ?Es in *; [done|nia|].
    repeat (apply wp_bind, wp_quiet; [auto with quiet|]; intros ? ? ?). unfold wp. simpl.
    split_and!.
    + apply (sinv_weaken 1). do 5 (eapply sinv_same; [eassumption|]). done.
    + eapply same_frame_trans; [exact F4|]. apply same_core_frame.
      do 4 (eapply same_core_trans; [eassumption|]). done.
    + assert (zlen data = Z.min (zlen b) (start + sblock s) - start) as Lz.
      { rewrite Ed, zlen_slice; nia. }
      exists b. rewrite Lz. replace (start + _) with (Z.min (zlen b) (start + sblock s)) by lia.
      split_and!; auto; lia.
  - pose proof (missed_block_spec n k object start wantEnd s3 I3 (in_tail_frame _ _ _ _ _ _ F4 It)) as W.
    unfold wp in *. destruct W as (? & F5 & B). rewrite (sf_block _ _ F4) in B.
    split_and!; auto. by eapply same_frame_trans.
Qed.

(** ** The loop *)

(** What has been assembled when the loop reaches the block at [start]. *)
Definition assembled (object : string) (offset end_ start : Z) (out : list byte) : Prop :=
  start <= offset /\ out = [] \/
  offset < start /\ exists bytes, obj object = Some bytes /\ Z.min start end_ <= zlen bytes /\
    out = slice offset (Z.min start end_) bytes.

Definition range_answer (object : string) (offset end_ : Z) (calm0 : Prop)
    (r : result SrvErr (list byte)) : Prop :=
  match r with
  | Ok data => exists bytes, obj object = Some bytes /\ end_ <= zlen bytes /\
                 data = slice offset end_ bytes
  | Err (ErrDriver ErrRange) => forall bytes, obj object = Some bytes -> zlen bytes < end_
  | Err (ErrDriver _) => ~ (store_live (obj := obj) (D := D) /\ is_Some (obj object))
  | Err ErrContext => ~ calm0
  | Err _ => False
  end.

Lemma extend object offset end_ start block data out :
  0 <= offset -> offset < end_ -> 0 <= start < end_ -> offset < start + block ->
  end_ + block <= MaxInt64 ->
  assembled object offset end_ start out ->
  (exists bytes, obj object = Some bytes /\
      data = slice start (start + zlen data) bytes /\ start + zlen data <= zlen bytes /\
      0 < zlen data <= block) -> (zlen data = block \/ end_ <= start + zlen data) ->
  exists part,
    reslice (if start <? offset then offset -! start else 0)
      (if end_ -! start <? zlen data then end_ -! start else zlen data) data = Ok part /\
    assembled object offset end_ (start + block) (out ++ part).
Proof.
  intros Ho He Hs Hb Hm A (bytes & Eb & Ed & Le & Hz) Full.
  assert (end_ -! start = end_ - start) as -> by int64_lia.
  assert (offset -! start = offset - start) as -> by int64_lia.
  set (lo := if start <? offset then _ else _). set (hi := if _ <? zlen data then _ else _).
  assert (lo = Z.max 0 (offset - start)) as El by (unfold lo; destruct (Z.ltb_spec start offset); lia).
  assert (hi = Z.min (end_ - start) (zlen data)) as Eh
    by (unfold hi; destruct (Z.ltb_spec (end_ - start) (zlen data)); lia).
  assert (start + hi = Z.min (start + block) end_) as Eh2 by lia.
  assert (lo <= hi) by lia.
  exists (slice lo hi data). split.
  - unfold reslice. destruct (Z.leb_spec lo hi), (Z.leb_spec hi (zlen data)); try lia. done.
  - right. split; [lia|]. exists bytes. split_and!; auto; [lia|].
    assert (slice lo hi data = slice (start + lo) (Z.min (start + block) end_) bytes) as ->.
    { rewrite Ed, slice_slice by lia. by rewrite Eh2. }
    destruct A as [[L ->]|(L & b & Eb' & Lb & ->)].
    + simpl. f_equal. lia.
    + rewrite Eb in Eb'. injection Eb' as <-. rewrite Z.min_l by lia.
      replace (start + lo) with start by lia. apply slice_app; lia.
Qed.

Lemma read_blocks_spec tenant object offset end_ block fuel : forall n start out s,
  sinv (fuel + n) s -> sblock s = block -> 0 <= offset < end_ ->
  end_ + block <= MaxInt64 -> 0 <= start -> start mod block = 0 -> offset < start + block ->
  end_ - start <= (Z.of_nat fuel - 1) * block -> (1 <= fuel)%nat ->
  assembled object offset end_ start out ->
  wp (read_blocks fuel tenant object offset end_ start out)
    (fun s' r => sinv n s' /\ same_frame s s' /\ range_answer object offset end_ (calm s) r) s.
Proof.
  induction fuel as [|fuel IH]; intros n start out s I Ek Ho Hm Hs Mod Hn Fuel F1 A; [lia|].
  simpl read_blocks. assert (0 < block) as Bp.
  { rewrite <- Ek, (s_block _ _ I). eapply tier_BlockSize_pos, I. }
  destruct (Z.ltb_spec start end_) as [Lt|Ge]; simpl negb.
  2: { unfold wp. simpl. split_and!; [by apply (sinv_weaken (S fuel))|apply same_frame_refl|].
       destruct A as [[L _]|(L & b & Eb & Lb & ->)]; [lia|]. rewrite Z.min_r in * by lia. eauto. }
  apply wp_bind. unfold wp at 1. cbn [get fst snd]. rewrite Ek. apply wp_bind. unfold wp at 1.
  pose proof (quiet_ctx_Err s) as Sc. destruct (ctx_Err s) as [s1 stop] eqn:Cx. cbn [fst snd] in *.
  assert (sinv (S fuel + n) s1) as I1 by by eapply sinv_same.
  pose proof (same_core_frame _ _ Sc) as Fr.
  destruct stop.
  { unfold wp. simpl. split_and!; [by apply (sinv_weaken (S fuel))|done|].
    intros C. unfold calm in C. unfold ctx_Err in Cx. injection Cx as _ E.
    destruct C as [|b l -> _]; done. }
  assert (start = start / block * block) as Ed by (pose proof (Z.div_mod start block); lia).
  assert (sblock s1 = block) as Ek1 by (rewrite (sf_block _ _ Fr); done).
  rewrite Z.quot_div_nonneg by lia.
  apply wp_bind. pose proof (blockAt_spec (fuel + n) tenant object (start / block) start end_ s1 I1) as W.
  rewrite Ek1 in W. specialize (W Ed ltac:(apply Z.div_pos; lia) ltac:(lia) ltac:(lia)).
  unfold wp in W. unfold wp at 1. destruct (blockAt _ _ _ _ s1) as [s2 [data|e]]; cbn [fst snd] in *.
  2: { destruct W as (I2 & F2 & B). unfold wp. simpl. split_and!; [by apply (sinv_weaken fuel)|by eapply same_frame_trans|].
       destruct e as [|[]| | | | |]; simpl in *; auto; done. }
  destruct W as (I2 & F2 & (b & Eb & Eda & Le & Hz & Full)).
  assert (start +! zlen data = start + zlen data) as -> by int64_lia.
  assert (start +! block = start + block) as -> by int64_lia.
  destruct ((zlen data <? block) && (start + zlen data <? end_)) eqn:Sh.
  { unfold wp. simpl. split_and!; [by apply (sinv_weaken fuel)|by eapply same_frame_trans|].
    bool_to_prop. intros b' Eb'. rewrite Eb in Eb'. injection Eb' as <-. lia. }
  apply andb_false_iff in Sh.
  assert (zlen data = block \/ end_ <= start + zlen data) as Full'.
  { destruct Sh as [Sh|Sh]; apply Z.ltb_ge in Sh; lia. }
  destruct (extend object offset end_ start block data out) as (part & -> & A'); auto; try lia.
  { exists b. auto 10. }
  pose proof (same_frame_trans _ _ _ Fr F2) as F3.
  pose proof (IH n (start + block) (out ++ part) s2 I2) as W. rewrite (sf_block _ _ F3) in W.
  unfold wp in *. destruct W as (I4 & F4 & R); auto; try lia.
  - rewrite <- Z.add_mod_idemp_r, Z.mod_same, Z.add_0_r by lia. done.
  - split_and!; auto; [by eapply same_frame_trans|].
    destruct (_ : result _ _) as [d|[|[]| | | | |]]; simpl in *; auto.
    intros C. apply R, (sf_calm _ _ F3 C).
Qed.

Lemma refusal_None tenant object offset length cap :
  refusal tenant object offset length cap = None -> 0 <= offset /\ 0 < length.
Proof.
  unfold refusal. destruct (tenant =? "")%string; [done|]. destruct (object =? "")%string; [done|].
  destruct (Z.ltb_spec offset 0); [done|]. destruct (Z.ltb_spec length 0); [done|].
  destruct (Z.eqb_spec length 0); [done|]. lia.
Qed.

Lemma ReadRange_spec tenant object offset length n s :
  sinv (read_fuel length (sblock s) + n) s ->
  offset + length + sblock s <= MaxInt64 ->
  refusal tenant object offset length (maxRead s) = None ->
  wp (ReadRange tenant object offset length)
    (fun s' r => sinv n s' /\ same_frame s s' /\
       range_answer object offset (offset + length) (calm s) r) s.
Proof.
  intros I Hm R.
  assert (0 < sblock s) as Bp by (rewrite (s_block _ _ I); eapply tier_BlockSize_pos, I).
  destruct (refusal_None _ _ _ _ _ R) as [Ho Hl].
  unfold ReadRange. apply wp_bind. unfold wp at 1. cbn [get fst snd]. rewrite R.
  apply wp_bind. unfold wp at 1. cbn [get fst snd].
  assert (offset +! length = offset + length) as -> by int64_lia.
  pose proof (Z.div_mod offset (sblock s)) as Dm. pose proof (Z.mod_pos_bound offset (sblock s) Bp) as Mb.
  rewrite Z.quot_div_nonneg by lia.
  assert (0 <= offset / sblock s) by (apply Z.div_pos; lia).
  assert (offset / sblock s *! sblock s = offset / sblock s * sblock s) as -> by int64_lia.
  apply wp_bind, wp_quiet; [auto with quiet|]. intros s1 began Sc1.
  apply wp_bind, wp_quiet; [auto with quiet|]. intros s2 _ Sc2.
  pose proof (same_core_trans _ _ _ Sc1 Sc2) as Sc. pose proof (same_core_frame _ _ Sc) as F.
  apply wp_bind.
  pose proof (read_blocks_spec tenant object offset (offset + length) (sblock s)
    (read_fuel length (sblock s)) n (offset / sblock s * sblock s) [] s2 (sinv_same _ _ _ Sc I)) as W.
  rewrite (sf_block _ _ F) in W.
  pose proof (Z.div_mod length (sblock s)) as Dl. pose proof (Z.mod_pos_bound length (sblock s) Bp) as Ml.
  assert (0 <= length / sblock s) by (apply Z.div_pos; lia).
  assert (wp (read_blocks (read_fuel length (sblock s)) tenant object offset (offset + length)
    (offset / sblock s * sblock s) [])
    (fun s' r => sinv n s' /\ same_frame s2 s' /\
       range_answer object offset (offset + length) (calm s2) r) s2) as W'.
  { apply W; auto; try lia.
    - by apply Z.mod_mul; lia.
    - unfold read_fuel. rewrite Z2Nat.id by lia. nia.
    - unfold read_fuel. lia.
    - left. split; [lia|done]. }
  clear W. unfold wp in W'. unfold wp at 1.
  destruct (read_blocks _ _ _ _ _ _ _ s2) as [s3 r]. cbn [fst snd] in *.
  destruct W' as (I3 & F3 & Ra). set (r' := match r with Ok _ => _ | Err _ => _ end).
  assert (r' = r) as ->.
  { unfold r'. destruct r as [d|e]; [|done]. destruct Ra as (b & Eb & Le & ->).
    rewrite slice_answer by lia. by rewrite Z.eqb_refl. }
  repeat (apply wp_bind, wp_quiet; [auto with quiet|]; intros ? ? ?). unfold wp. cbn [ret fst snd].
  split_and!.
  - do 3 (eapply sinv_same; [eassumption|]). done.
  - eapply same_frame_trans; [exact F|]. eapply same_frame_trans; [exact F3|].
    apply same_core_frame. do 2 (eapply same_core_trans; [eassumption|]). done.
  - destruct r as [d|[|[]| | | | |]]; simpl in *; auto. intros C. apply Ra, (sf_calm _ _ F C).
Qed.

End proofs.
