(* ===== verification/DataServerTheorems.v ===== *)
(** * DataServerTheorems: what a run of the data server answers

    A run is any sequence of range requests and turns of the prefetch worker,
    on one server. *)

From S2P Require Import Prelude Efficiency Prefetch Backend FastTier FastTierProofs Tier FileDriver.
From S2P Require Import DataServer DataServerProofs.

Local Open Scope Z_scope.

Section run.
Context {T D : Type} `{TS : TierSpec T} (obj : string -> option (list byte)) `{DS : DriverSpec D obj}.
Implicit Types s : Server T D.

Create HintDb serving.
#[local] Hint Resolve quiet_ret quiet_get quiet_Now quiet_record quiet_publish quiet_measure
  quiet_Since : serving.

Lemma quiet_fetch_outcome (a : bool * option TierErr) : quiet (T := T) (D := D)
  match a with
  | (true, _) => bind (record CPrefetched) (fun _ => predicted "admitted")
  | (false, Some ErrWouldEvict) => bind (record CPrefetchRefused) (fun _ => predicted "refused")
  | (false, _) => bind (record CPrefetchDropped) (fun _ => predicted "dropped")
  end.
Proof. destruct a as [[] [[]|]]; apply quiet_bind; auto with serving; intros []; apply quiet_publish. Qed.

Lemma fetchOne_spec n k s : sinv obj (S n) s ->
  wp (fetchOne k) (fun s' _ => sinv obj n s' /\ same_frame s s') s.
Proof.
  intros I. unfold fetchOne. apply wp_bind. unfold wp at 1. cbn [get fst snd].
  destruct (tier_Resident k (tier s)).
  { unfold wp. simpl. split; [by apply (sinv_weaken obj 1)|apply same_frame_refl]. }
  apply wp_bind. unfold wp at 1. cbn [get fst snd].
  set (off := Index (Block k) *! sblock s).
  apply wp_bind, wp_quiet; [apply quiet_Now|]. intros s1 began Sc1.
  assert (sinv obj (S n) s1) as I1 by by eapply sinv_same. pose proof (same_core_frame _ _ Sc1) as F1.
  pose proof (s_block _ _ _ I1) as Bk. pose proof (tier_BlockSize_pos _ _ _ (s_tier _ _ _ I1)) as Bp.
  rewrite <- Bk, (sf_block _ _ F1) in Bp.
  apply wp_bind. unfold wp at 1.
  assert (let '(s2, r) := call_ReadRange (Object (Block k)) off (sblock s) s1 in
    sinv obj (S n) s2 /\ same_frame s1 s2 /\ forall data, r = Ok data ->
      content_of obj (sname s) (sblock s) k data) as W.
  { unfold call_ReadRange, Backend.ReadRange. pose proof (wrap64_range (Index (Block k) * sblock s)) as [_ Hr].
    fold off in Hr. destruct (Z.ltb_spec off 0); simpl.
    { split_and!; [destruct I1; by constructor|by constructor|done]. }
    destruct (Z.ltb_spec (sblock s) 0); [lia|]. simpl.
    destruct I1 as [A B C]. pose proof (drv_ReadRange_inv (Object (Block k)) off (sblock s) _ C) as C'.
    pose proof (fun data => drv_ReadRange_Ok (Object (Block k)) off (sblock s) _ data C) as R1.
    destruct (drv_ReadRange _ _ _ _) as [d r]. simpl in *.
    split_and!; [by constructor|by constructor|]. intros data -> _ Hs.
    destruct (R1 data) as (b & Eb & Le & ->); [lia|lia|done|].
    exists b. unfold off in *. rewrite wrap64_id in * by int64_lia. split_and!; [done|lia|].
    rewrite Z.min_r by lia. done. }
  destruct (call_ReadRange (Object (Block k)) off (sblock s) s1) as [s2 [data|e]]; cbn [fst snd] in *;
    destruct W as (I2 & F2 & C); pose proof (same_frame_trans _ _ _ F1 F2) as F.
  2: { apply wp_bind, wp_quiet; [apply quiet_record|]. intros s3 [] Sc3.
       apply wp_quiet; [apply quiet_publish|]. intros s4 _ Sc4.
       pose proof (same_core_trans _ _ _ Sc3 Sc4) as Sc. split.
       - eapply sinv_same; [exact Sc|]. by apply (sinv_weaken obj 1).
       - eapply same_frame_trans; [exact F|by apply same_core_frame]. }
  apply wp_bind, wp_quiet; [apply quiet_Since|]. intros s3 took Sc3.
  apply wp_bind, wp_quiet; [apply quiet_measure|]. intros s4 [] Sc4.
  pose proof (same_core_trans _ _ _ Sc3 Sc4) as Sc.
  assert (sinv obj (S n) s4) as I4 by by eapply sinv_same.
  pose proof (same_frame_trans _ _ _ F (same_core_frame _ _ Sc)) as F4.
  apply wp_bind. pose proof (call_Admit_spec obj n k data true s4 I4) as W.
  rewrite (sf_name _ _ F4), (sf_block _ _ F4) in W. specialize (W (C data eq_refl)).
  unfold wp in W. unfold wp at 1. destruct (call_Admit k data true s4) as [s5 a].
  destruct W as (I5 & F5 & _). cbn [fst snd] in *.
  apply wp_quiet; [apply quiet_fetch_outcome|]. intros s6 _ Sc6. split; [by eapply sinv_same|].
  eapply same_frame_trans; [exact F4|]. eapply same_frame_trans; [exact F5|by apply same_core_frame].
Qed.

Lemma fetchAhead_turn_spec n s : sinv obj (S n) s ->
  wp fetchAhead_turn (fun s' _ => sinv obj n s' /\ same_frame s s') s.
Proof.
  intros I. unfold fetchAhead_turn. apply wp_bind. unfold wp at 1. cbn [get fst snd].
  destruct (ahead s) as [|k q].
  { unfold wp. simpl. split; [by apply (sinv_weaken obj 1)|apply same_frame_refl]. }
  apply wp_bind. unfold wp at 1. cbn [get fst snd].
  apply wp_bind, wp_quiet; [apply quiet_upd; intros ?; by constructor|]. intros s1 [] Sc.
  pose proof (fetchOne_spec n k s1 (sinv_same _ _ _ _ Sc I)) as W. unfold wp in *.
  destruct W as [I' F']. split; [done|]. eapply same_frame_trans; [by apply same_core_frame|done].
Qed.

(** ** Runs *)

Inductive op : Type :=
  | Request (tenant object : string) (offset length : Z)
  | Turn.

Definition do_op (o : op) : M (T := T) (D := D) (option (result SrvErr (list byte))) :=
  match o with
  | Request tenant object offset length =>
      bind (ReadRange tenant object offset length) (fun r => ret (Some r))
  | Turn => bind fetchAhead_turn (fun _ => ret None)
  end.

Fixpoint serve (ops : list op) : M (T := T) (D := D) (list (op * option (result SrvErr (list byte)))) :=
  match ops with
  | [] => ret []
  | o :: ops => bind (do_op o) (fun r => bind (serve ops) (fun rs => ret ((o, r) :: rs)))
  end.

(** How many admissions an operation may make. *)
Definition cost (block : Z) (o : op) : nat :=
  match o with Request _ _ _ length => read_fuel length block | Turn => 1 end.
Definition costs (block : Z) (ops : list op) : nat := foldr (fun o n => (cost block o + n)%nat) O ops.

(** A read within one block of the end of [int64] may wrap its cursor. *)
Definition in_reach (block : Z) (o : op) : Prop :=
  match o with
  | Request _ _ offset length => offset + length + block <= MaxInt64
  | Turn => True
  end.

(** What a request is owed: the refusal its arguments call for, or exactly the
    bytes of the object; a range error only when the object ends before the
    range does; the backend's own error otherwise, never when the store is live
    and has the object; the context's only when it ended. *)
Definition owed (s : Server T D) (a : op * option (result SrvErr (list byte))) : Prop :=
  match a with
  | (Request tenant object offset length, Some r) =>
      match refusal tenant object offset length (maxRead s) with
      | Some r' => r = r'
      | None => range_answer obj object offset (offset + length) (calm s) r
      end
  | (Turn, None) => True
  | _ => False
  end.

Lemma owed_frame s s' a : same_frame s s' -> owed s' a -> owed s a.
Proof.
  intros F. destruct a as [[tenant object offset length|] [r|]]; simpl; auto.
  rewrite (sf_max _ _ F). destruct (refusal _ _ _ _ _); auto.
  destruct r as [|[|[]| | | | |]]; simpl; auto. intros N C. by apply N, (sf_calm _ _ F).
Qed.

Lemma do_op_spec n o s : sinv obj (cost (sblock s) o + n) s -> in_reach (sblock s) o ->
  wp (do_op o) (fun s' r => sinv obj n s' /\ same_frame s s' /\ owed s (o, r)) s.
Proof.
  intros I R. destruct o as [tenant object offset length|]; simpl in *; apply wp_bind.
  - destruct (refusal tenant object offset length (maxRead s)) as [r|] eqn:E.
    + unfold ReadRange. apply wp_bind. unfold wp. cbn [get ret fst snd]. rewrite E. simpl.
      split_and!; [by apply (sinv_weaken obj (read_fuel length (sblock s)))|apply same_frame_refl|done].
    + pose proof (ReadRange_spec obj tenant object offset length n s I R E) as W.
      unfold wp in *. destruct (ReadRange _ _ _ _ s) as [s' r]. simpl in *. exact W.
  - pose proof (fetchAhead_turn_spec n s I) as W. unfold wp in *. simpl. destruct W. auto.
Qed.

Lemma serve_spec ops : forall n s, sinv obj (costs (sblock s) ops + n) s ->
  Forall (in_reach (sblock s)) ops ->
  wp (serve ops) (fun s' as_ => sinv obj n s' /\ same_frame s s' /\ as_.*1 = ops /\
                                Forall (owed s) as_) s.
Proof.
  induction ops as [|o ops IH]; intros n s I R; simpl in *.
  { unfold wp. simpl. split_and!; [done|apply same_frame_refl|done|constructor]. }
  apply Forall_cons in R as [R Rs]. rewrite <- Nat.add_assoc in I.
  apply wp_bind. pose proof (do_op_spec _ o s I R) as W. unfold wp in W. unfold wp at 1.
  destruct (do_op o s) as [s1 r]. cbn [fst snd] in *. destruct W as (I1 & F1 & O1).
  apply wp_bind. pose proof (IH n s1) as W. rewrite (sf_block _ _ F1) in W. specialize (W I1 Rs).
  unfold wp in *. destruct (serve ops s1) as [s2 as_]. simpl in *. destruct W as (I2 & F2 & <- & O2).
  split_and!; [done|by eapply same_frame_trans|done|].
  constructor; [done|]. eapply Forall_impl; [exact O2|]. intros a. by apply owed_frame.
Qed.

Lemma New_sinv t (b : Backend.Backend D) c clk ctx s n : New t b c clk ctx = Some s ->
  tier_ok (content_of obj (CBackend c) (tier_BlockSize t)) n t -> drv_inv (driver b) ->
  sinv obj n s /\ sblock s = tier_BlockSize t /\ cancelled s = ctx.
Proof.
  unfold New. intros N Ht Hd. do 4 (case_if; [done|]).
  destruct (match CPrefetch c with None => Some None | Some pc => Some <$> Prefetch.New pc end); [|done].
  injection N as <-. split_and!; [|done..]. by constructor.
Qed.

End run.

(** ** Properties *)

(** C23: the data server answers with the object. A new server over any tier and
    any store that keep their contracts, run through any sequence of requests
    and turns of the prefetch worker, answers every request that is not refused
    for its arguments with exactly the bytes of the object in the range, or with
    a range error that says truly that the object ends before the range does, or
    with an error of the backend, never one made up by the assembly: no slice out
    of bounds, no short or contradictory block, no loop that does not end. The
    tier is given only what its contract lets it serve, so a later read of a
    cached, prefetched or evicted block is as right as the first. *)
Theorem data_server_answers_objects {T D} `{TS : TierSpec T} obj `{DS : DriverSpec D obj}
    (t : T) (b : Backend.Backend D) c clk ctx s ops :
  New t b c clk ctx = Some s ->
  tier_ok (content_of obj (CBackend c) (tier_BlockSize t)) (costs (tier_BlockSize t) ops) t ->
  drv_inv (driver b) ->
  Forall (in_reach (tier_BlockSize t)) ops ->
  (serve ops s).2.*1 = ops /\ Forall (owed obj s) (serve ops s).2.
Proof.
  intros N Ht Hd R. rewrite <- (Nat.add_0_r (costs _ _)) in Ht.
  destruct (New_sinv obj t b c clk ctx s _ N Ht Hd) as (I & Eb & _).
  rewrite <- Eb in *. by destruct (serve_spec obj ops 0 s I R) as (_ & _ & ? & ?).
Qed.

(** C24: over a store that does not fail and a context that does not end, a
    read of a range the object holds is answered, whatever was read, cached,
    evicted or prefetched before it: the result is the object's bytes, never an
    error and never a loop that runs out. *)
Theorem data_server_answers_live {T D} `{TS : TierSpec T} obj `{DS : DriverSpec D obj}
    (t : T) (b : Backend.Backend D) c clk ctx s ops tenant object offset length bytes :
  New t b c clk ctx = Some s ->
  let block := tier_BlockSize t in
  let ops' := ops ++ [Request tenant object offset length] in
  tier_ok (content_of obj (CBackend c) block) (costs block ops') t ->
  drv_inv (driver b) -> store_live (obj := obj) (D := D) -> Forall (fun x => x = false) ctx ->
  Forall (in_reach block) ops' ->
  tenant <> "" -> object <> "" -> 0 < length <= maxRead s ->
  obj object = Some bytes -> 0 <= offset -> offset + length <= zlen bytes ->
  last (serve ops' s).2 =
    Some (Request tenant object offset length, Some (Ok (slice offset (offset + length) bytes))).
Proof.
  intros N block ops' Ht Hd Lv Hc R Nt No Hl Eo Ho Hb. rewrite <- (Nat.add_0_r (costs _ _)) in Ht.
  destruct (New_sinv obj t b c clk ctx s _ N Ht Hd) as (I & Eb & Ec).
  fold block in Eb. rewrite <- Eb in *.
  destruct (serve_spec obj ops' 0 s I R) as (_ & _ & E & F).
  set (as_ := (serve ops' s).2) in *. apply (f_equal last) in E.
  unfold ops' in E. rewrite fmap_last, last_snoc in E.
  destruct (last as_) as [[o r]|] eqn:La; [|done]. injection E as ->.
  assert (owed obj s (Request tenant object offset length, r)) as O.
  { apply (proj1 (Forall_forall _ _) F). by apply last_Some_elem_of. }
  simpl in O. destruct r as [r|]; [|done]. unfold refusal in O.
  destruct (String.eqb_spec tenant ""); [done|]. destruct (String.eqb_spec object ""); [done|].
  destruct (Z.ltb_spec offset 0); [lia|]. destruct (Z.ltb_spec length 0); [lia|]. simpl in O.
  destruct (Z.eqb_spec length 0); [lia|].
  unfold ops' in R. apply Forall_app in R as [_ R]. inversion R as [|? ? R1]. simpl in R1.
  assert (0 < sblock s) by (rewrite Eb; eapply tier_BlockSize_pos, Ht).
  destruct (Z.ltb_spec (MaxInt64 - length) offset); [lia|].
  destruct (Z.ltb_spec (maxRead s) length); [lia|].
  destruct r as [d|[|[]| | | | |]]; simpl in O; try done.
  - destruct O as (b' & Eb' & _ & ->). rewrite Eo in Eb'. by injection Eb' as <-.
  - by destruct O.
  - by destruct O.
  - specialize (O _ Eo). lia.
  - by destruct O.
  - by destruct O.
  - destruct O. unfold calm. by rewrite Ec.
Qed.

(** ** A server over a small directory, for the witnesses *)

Definition wobj : string -> option (list byte) := object_at (tree small_store).
Definition wtier : FaultyCache :=
  {| fcache := (AddCapacity "l1" (Some (list_ascii_of_string "....."))
      {| tcfg := {| FastTier.BlockSize := 2; FirstReadLimit := 4 |}; heap := []; slabs := ∅; order := [];
         resident := ∅; first := newFirstReads 4; FastTier.clock := 0; generation := 0; hits := 0;
         misses := 0 |}).1; fio := [] |}.
Definition wbackend : Backend.Backend FileStore :=
  {| driver := small_store; lister := true; streamer := true; declare := FileDriver.declared;
     denied := None |}.
Definition wconfig : DataServer.Config :=
  {| CBackend := "files"; CIdle := 0; CExchange := 0; CMetrics := true; CReady := true;
     CPrefetch := Some Prefetch.DefaultConfig; CMaxRead := 0 |}.
Definition wserver : option (Server FaultyCache FileStore) := New wtier wbackend wconfig [] [].
(** The first read misses and is admitted; the second finds it. *)
Definition wops : list op := [Request "t" "d/c" 0 3; Turn; Request "t" "d/c" 1 2; Request "t" "d/c" 2 2].

#[local] Instance wDriverSpec : DriverSpec FileStore wobj := FileStore_Spec wobj True.

Lemma wtier_ok P n : Z.of_nat n <= 18446744073709551615 -> tier_ok P n wtier.
Proof.
  intros Hn. split_and!; [|vm_compute; discriminate|exact Hn].
  destruct (reachable_ok P (tcfg (fcache wtier)) {| tcfg := tcfg (fcache wtier); heap := []; slabs := ∅;
    order := []; resident := ∅; first := newFirstReads 4; FastTier.clock := 0; generation := 0;
    hits := 0; misses := 0 |} 1 (fcache wtier, [])) as [I _]; [reflexivity| |done|exact I].
  eapply nsteps_l; [apply (ts_AddCapacity _ "l1" (Some (list_ascii_of_string ".....")))|apply nsteps_O].
Qed.

Lemma wstore_inv : drv_inv (driver wbackend).
Proof. split; [done|constructor]. Qed.

(** The last read runs past the end of the object. *)
Lemma data_server_answers_objects_witness :
  exists s, wserver = Some s /\ Forall (owed wobj s) (serve wops s).2 /\
    last (serve wops s).2 = Some (Request "t" "d/c" 2 2, Some (Err (ErrDriver ErrRange))).
Proof.
  destruct wserver as [s|] eqn:E; [|discriminate]. exists s. split_and!; [done| |].
  - apply (data_server_answers_objects wobj wtier wbackend wconfig [] [] s wops E).
    + apply wtier_ok. vm_compute. discriminate.
    + apply wstore_inv.
    + repeat constructor; vm_compute; discriminate.
  - unfold wserver in E. vm_compute in E. injection E as <-. vm_compute. reflexivity.
Defined.

Lemma data_server_answers_live_witness :
  exists s, wserver = Some s /\
    last (serve (wops ++ [Request "t" "d/c" 1 2]) s).2
    = Some (Request "t" "d/c" 1 2, Some (Ok (list_ascii_of_string "bc"))).
Proof.
  destruct wserver as [s|] eqn:E; [|discriminate]. exists s. split; [done|].
  apply (data_server_answers_live wobj wtier wbackend wconfig [] [] s wops "t" "d/c" 1 2
    (list_ascii_of_string "abc") E).
  - apply wtier_ok. vm_compute. discriminate.
  - apply wstore_inv.
  - apply FileStore_live.
  - constructor.
  - repeat constructor; vm_compute; discriminate.
  - discriminate.
  - discriminate.
  - unfold wserver in E. vm_compute in E. injection E as <-. vm_compute. split; [reflexivity|discriminate].
  - vm_compute. reflexivity.
  - lia.
  - vm_compute. discriminate.
Defined.
