(* ===== verification/Wire.v ===== *)
(** * Wire: the protocol in front of the data server
    (internal/dataserver/protocol.go, serve.go, client.go)

    A frame is a list of bytes; a connection delivers what the far side has
    written, and [io.ReadFull] fails when that ends early. *)

From S2P Require Import Prelude Efficiency Prefetch Backend FastTier Tier DataServer.

Local Open Scope Z_scope.

(** ** Frames (protocol.go) *)

Definition magic : Z := 0x46425259.
Definition version : Z := 2.
Definition opReadRange : Z := 1.
Definition opStat : Z := 2.
Definition opList : Z := 3.

Abbreviation Status := Z (only parsing).
Definition StatusOK : Status := 0.
Definition StatusRange : Status := 1.
Definition StatusRefused : Status := 2.
Definition StatusFailed : Status := 3.

Definition maxName : Z := 1024.

(** [WireEOF] is [io.ReadFull]'s error. *)
Inductive WireErr : Type :=
  | WireEOF
  | NotThisProtocol
  | WrongVersion
  | UnknownOp
  | NameTooLong
  | ReplyTooLarge
  | InsideRecord
  | InsideName.
#[global] Instance WireErr_eq_dec : EqDecision WireErr.
Proof. solve_decision. Defined.

Record request : Type := mkRequest {
  Op : Z;
  Tenant : string;
  ReqObject : string;
  After : string;
  Offset : Z;
  Length : Z;
}.

Definition requestHeader : Z := 4 + 1 + 1 + 2 + 2 + 2 + 8 + 8.
Definition replyHeader : Z := 4 + 1 + 1 + 8.

Definition encode (r : request) : result WireErr (list byte) :=
  if (maxName <? strlen (Tenant r)) || (maxName <? strlen (ReqObject r)) || (maxName <? strlen (After r))
  then Err NameTooLong
  else
    let op := if Op r =? 0 then opReadRange else Op r in
    Ok (PutUint32 magic ++ [byte_of version] ++ [byte_of op] ++
        PutUint16 (strlen (Tenant r)) ++ PutUint16 (strlen (ReqObject r)) ++
        PutUint16 (strlen (After r)) ++ PutUint64 (Offset r) ++ PutUint64 (Length r) ++
        bytes_of (Tenant r) ++ bytes_of (ReqObject r) ++ bytes_of (After r)).

(** [io.ReadFull]: the bytes and what is left. *)
Definition ReadFull (n : Z) (s : list byte) : result WireErr (list byte * list byte) :=
  if zlen s <? n then Err WireEOF else Ok (ztake n s, zdrop n s).

(** The magic and version every frame starts with. *)
Definition check_head (head : list byte) : result WireErr () :=
  if negb (be_value (slice 0 4 head) =? magic) then Err NotThisProtocol
  else if negb (be_value (slice 4 5 head) =? version) then Err WrongVersion
  else Ok ().

Definition decodeRequest (s : list byte) : result WireErr (request * list byte) :=
  let? (head, s) := ReadFull requestHeader s in
  let? _ := check_head head in
  let op := be_value (slice 5 6 head) in
  if negb (op =? opReadRange) && negb (op =? opStat) && negb (op =? opList) then Err UnknownOp
  else
    let tenantLen := be_value (slice 6 8 head) in
    let objectLen := be_value (slice 8 10 head) in
    let afterLen := be_value (slice 10 12 head) in
    if (maxName <? tenantLen) || (maxName <? objectLen) || (maxName <? afterLen) then Err NameTooLong
    else
      let? (names, s) := ReadFull (tenantLen + objectLen + afterLen) s in
      Ok ({| Op := op; Tenant := string_of (slice 0 tenantLen names);
             ReqObject := string_of (slice tenantLen (tenantLen + objectLen) names);
             After := string_of (zdrop (tenantLen + objectLen) names);
             Offset := Uint64 (slice 12 20 head); Length := Uint64 (slice 20 28 head) |}, s).

Definition encode_entry (e : Entry) : list byte :=
  PutUint16 (strlen (EName e)) ++ [byte_of (if EDir e then 1 else 0)] ++ PutUint64 (EBytes e) ++
  bytes_of (EName e).

Fixpoint encodeEntries (es : list Entry) : result WireErr (list byte) :=
  match es with
  | [] => Ok []
  | e :: es => if maxName <? strlen (EName e) then Err NameTooLong
               else let? out := encodeEntries es in Ok (encode_entry e ++ out)
  end.

(** The loop, each round of which takes at least a record's header. *)
Fixpoint decode_entries (fuel : nat) (body : list byte) (out : list Entry)
  : result WireErr (list Entry) :=
  match fuel, body with
  | _, [] => Ok out
  | O, _ => Err InsideRecord
  | S fuel, _ =>
      if zlen body <? 11 then Err InsideRecord
      else
        let n := be_value (slice 0 2 body) in
        let dir := be_value (slice 2 3 body) =? 1 in
        let size := Uint64 (slice 3 11 body) in
        let body := zdrop 11 body in
        if zlen body <? n then Err InsideName
        else decode_entries fuel (zdrop n body)
               (out ++ [{| EName := string_of (ztake n body); EDir := dir; EBytes := size |}])
  end.
Definition decodeEntries (body : list byte) : result WireErr (list Entry) :=
  decode_entries (length body) body [].

Definition encodeReply (status : Status) (data : list byte) : list byte :=
  let data := if status =? StatusOK then data else [] in
  PutUint32 magic ++ [byte_of version] ++ [byte_of status] ++ PutUint64 (zlen data) ++ data.

Definition decodeReply (max : Z) (s : list byte) : result WireErr (Status * list byte * list byte) :=
  let? (head, s) := ReadFull replyHeader s in
  let? _ := check_head head in
  let status := be_value (slice 5 6 head) in
  let length := Uint64 (slice 6 14 head) in
  if (length <? 0) || (max <? length) then Err ReplyTooLarge
  else if length =? 0 then Ok (status, [], s)
  else let? (data, s) := ReadFull length s in Ok (status, data, s).

(** ** Cutting frames up *)

Lemma slice_app_l {A} lo hi (l k : list A) : 0 <= lo <= hi -> hi <= zlen l ->
  slice lo hi (l ++ k) = slice lo hi l.
Proof.
  unfold slice, ztake, zdrop, zlen. intros. rewrite skipn_app.
  replace (Z.to_nat lo - length l)%nat with O by lia.
  rewrite drop_0, take_app_le; [done|]. rewrite length_drop. lia.
Qed.

Lemma slice_app_r {A} lo hi (l k : list A) : zlen l <= lo <= hi ->
  slice lo hi (l ++ k) = slice (lo - zlen l) (hi - zlen l) k.
Proof.
  unfold slice, ztake, zdrop, zlen. intros. rewrite skipn_app, drop_ge by lia. simpl.
  f_equal; [lia|]. f_equal. lia.
Qed.

Lemma slice_exact {A} lo n (l : list A) : lo = 0 -> zlen l = n -> slice lo n l = l.
Proof. intros -> <-. apply slice_all. Qed.

Lemma ztake_app_exact {A} n (l k : list A) : zlen l = n -> ztake n (l ++ k) = l.
Proof. intros <-. unfold ztake, zlen. rewrite Nat2Z.id. apply take_app_length. Qed.
Lemma zdrop_app_exact {A} n (l k : list A) : zlen l = n -> zdrop n (l ++ k) = k.
Proof. intros <-. unfold zdrop, zlen. rewrite Nat2Z.id. apply drop_app_length. Qed.

Lemma zlen_1 {A} (x : A) : zlen [x] = 1.
Proof. done. Qed.
Lemma zlen_Put64 z : zlen (PutUint64 z) = 8.
Proof. apply zlen_be. Qed.

(** Lengths of the parts of a frame, and the part a slice cuts out. *)
Ltac frame_len := rewrite ?zlen_app, ?zlen_be, ?zlen_Put64, ?zlen_1 in *; simpl Z.of_nat in *; unfold strlen in *; lia.
Ltac frame_slices :=
  repeat first [rewrite slice_exact by frame_len | rewrite slice_app_l by frame_len |
                rewrite slice_app_r by frame_len];
  repeat rewrite slice_exact by frame_len.

Lemma be_value_byte z : be_value [byte_of z] = z mod 256.
Proof. unfold be_value. simpl. by rewrite of_byte_of. Qed.

Lemma strlen_range s : 0 <= strlen s.
Proof. apply zlen_nonneg. Qed.

Lemma be_value_16 n : 0 <= n <= maxName -> be_value (PutUint16 n) = n.
Proof. intros H. rewrite be_value_be. unfold maxName in H. apply Z.mod_small. simpl. lia. Qed.

Lemma string_of_bytes s : string_of (bytes_of s) = s.
Proof. apply string_of_list_ascii_of_string. Qed.
Lemma bytes_of_string l : bytes_of (string_of l) = l.
Proof. apply list_ascii_of_string_of_list_ascii. Qed.

Lemma ReadFull_Ok n s a b : 0 <= n -> ReadFull n s = Ok (a, b) <-> s = a ++ b /\ zlen a = n.
Proof.
  intros H. unfold ReadFull, ztake, zdrop, zlen. destruct (Z.ltb_spec (Z.of_nat (length s)) n); split.
  - done.
  - intros [-> <-]. rewrite length_app in *. lia.
  - intros [= <- <-]. by rewrite take_drop, length_take, Nat.min_l, Z2Nat.id by lia.
  - intros [-> <-]. by rewrite Nat2Z.id, take_app_length, drop_app_length.
Qed.

Lemma ReadFull_app n a b : zlen a = n -> ReadFull n (a ++ b) = Ok (a, b).
Proof. intros <-. by apply ReadFull_Ok; [apply zlen_nonneg|]. Qed.

(** ** Requests *)

(** What a frame can carry. *)
Record wire_request (r : request) : Prop := {
  wr_op : Op r = opReadRange \/ Op r = opStat \/ Op r = opList;
  wr_names : strlen (Tenant r) <= maxName /\ strlen (ReqObject r) <= maxName /\ strlen (After r) <= maxName;
  wr_offset : is_int64 (Offset r);
  wr_length : is_int64 (Length r);
}.

(** The frame of a request, by its parts. *)
Definition frame_of (r : request) : list byte :=
  (PutUint32 magic ++ [byte_of version] ++ [byte_of (Op r)] ++
   PutUint16 (strlen (Tenant r)) ++ PutUint16 (strlen (ReqObject r)) ++
   PutUint16 (strlen (After r)) ++ PutUint64 (Offset r) ++ PutUint64 (Length r)) ++
  (bytes_of (Tenant r) ++ bytes_of (ReqObject r) ++ bytes_of (After r)).

Lemma encode_frame r : wire_request r -> encode r = Ok (frame_of r).
Proof.
  intros [O (N1 & N2 & N3) _ _]. unfold encode.
  rewrite (proj2 (Z.ltb_ge _ _) N1), (proj2 (Z.ltb_ge _ _) N2), (proj2 (Z.ltb_ge _ _) N3). simpl.
  destruct (Z.eqb_spec (Op r) 0) as [E|_].
  { rewrite E in O. unfold opReadRange, opStat, opList in O. lia. }
  unfold frame_of. by rewrite <- !app_assoc.
Qed.

Lemma decode_frame r rest : wire_request r -> decodeRequest (frame_of r ++ rest) = Ok (r, rest).
Proof.
  intros [O (N1 & N2 & N3) H1 H2]. unfold decodeRequest, frame_of.
  pose proof (strlen_range (Tenant r)). pose proof (strlen_range (ReqObject r)).
  pose proof (strlen_range (After r)).
  rewrite <- app_assoc, ReadFull_app by (unfold requestHeader; frame_len). cbn [bind_result].
  unfold check_head. frame_slices.
  rewrite !be_value_be, !be_value_byte. change (magic mod _) with magic. change (version mod _) with version.
  rewrite !Z.eqb_refl. cbn [negb bind_result].
  assert (Op r mod 256 = Op r) as -> by (destruct O as [-> |[-> | ->]]; done).
  rewrite !Z.mod_small by (unfold maxName in *; simpl; lia).
  assert (negb (Op r =? opReadRange) && negb (Op r =? opStat) && negb (Op r =? opList) = false) as ->
    by (destruct O as [-> |[-> | ->]]; done).
  rewrite (proj2 (Z.ltb_ge _ _) N1), (proj2 (Z.ltb_ge _ _) N2), (proj2 (Z.ltb_ge _ _) N3). cbn [orb].
  rewrite ReadFull_app by frame_len. cbn [bind_result].
  rewrite !Uint64_Put by done. frame_slices. rewrite app_assoc, zdrop_app_exact by frame_len.
  rewrite !string_of_bytes. by destruct r.
Qed.

Lemma be_slice (n : nat) lo hi l : 0 <= lo -> hi - lo = Z.of_nat n -> hi <= zlen l ->
  be n (be_value (slice lo hi l)) = slice lo hi l.
Proof.
  intros. rewrite <- (be_be_value (slice lo hi l)) at 2. f_equal.
  assert (zlen (slice lo hi l) = Z.of_nat n) as E by (rewrite zlen_slice; lia). unfold zlen in E. lia.
Qed.

Lemma byte_slice lo hi l : 0 <= lo -> hi - lo = 1 -> hi <= zlen l ->
  [byte_of (be_value (slice lo hi l))] = slice lo hi l.
Proof. intros. rewrite <- (be_slice 1) at 2 by lia. done. Qed.

Lemma Put_slice lo hi l : 0 <= lo -> hi - lo = 8 -> hi <= zlen l ->
  PutUint64 (Uint64 (slice lo hi l)) = slice lo hi l.
Proof.
  intros. apply Put_Uint64. assert (zlen (slice lo hi l) = 8) as E by (rewrite zlen_slice; lia).
  unfold zlen in E. lia.
Qed.

Lemma strlen_string_of l : strlen (string_of l) = zlen l.
Proof. unfold strlen. by rewrite bytes_of_string. Qed.

Lemma be_value_slice_range lo hi l : 0 <= lo <= hi -> hi <= zlen l ->
  0 <= be_value (slice lo hi l) < 256 ^ (hi - lo).
Proof. intros. rewrite <- (zlen_slice lo hi l) by lia. apply be_value_range. Qed.

Lemma check_head_Ok head : 5 <= zlen head -> check_head head = Ok () ->
  slice 0 4 head = PutUint32 magic /\ slice 4 5 head = [byte_of version].
Proof.
  intros L. unfold check_head. destruct (Z.eqb_spec (be_value (slice 0 4 head)) magic) as [E|]; [|done].
  destruct (Z.eqb_spec (be_value (slice 4 5 head)) version) as [E'|]; [|done]. intros _.
  rewrite <- E, <- E', (be_slice 4), byte_slice by lia. done.
Qed.

Lemma decode_frame_inv s r rest : decodeRequest s = Ok (r, rest) ->
  wire_request r /\ s = frame_of r ++ rest.
Proof.
  unfold decodeRequest. intros D.
  apply bind_result_Ok in D as ([head s1] & R1 & D). apply ReadFull_Ok in R1 as [-> L1]; [|done].
  unfold requestHeader in L1. apply bind_result_Ok in D as ([] & C & D).
  apply check_head_Ok in C as [M V]; [|lia].
  destruct (negb _ && _ && _) eqn:Op_; [done|]. destruct (_ || _ || _) eqn:Nm; [done|]. bool_to_prop.
  apply bind_result_Ok in D as ([names s2] & R2 & D).
  pose proof (be_value_slice_range 6 8 head ltac:(lia) ltac:(lia)).
  pose proof (be_value_slice_range 8 10 head ltac:(lia) ltac:(lia)).
  pose proof (be_value_slice_range 10 12 head ltac:(lia) ltac:(lia)).
  apply ReadFull_Ok in R2 as [-> L2]; [|lia]. injection D as <- <-.
  set (tl := be_value (slice 6 8 head)) in *. set (ol := be_value (slice 8 10 head)) in *.
  set (al := be_value (slice 10 12 head)) in *.
  assert (zlen (slice 0 tl names) = tl) as L3 by (rewrite zlen_slice; lia).
  assert (zlen (slice tl (tl + ol) names) = ol) as L4 by (rewrite zlen_slice; lia).
  assert (zdrop (tl + ol) names = slice (tl + ol) (tl + ol + al) names) as Ed.
  { unfold slice, ztake, zdrop, zlen in *. rewrite take_ge; [done|]. rewrite length_drop. lia. }
  assert (zlen (slice (tl + ol) (tl + ol + al) names) = al) as L5 by (rewrite zlen_slice; lia).
  split.
  - constructor; simpl; rewrite ?strlen_string_of, ?Ed, ?L3, ?L4, ?L5.
    + destruct (Z.eqb_spec (be_value (slice 5 6 head)) opReadRange); [auto|].
      destruct (Z.eqb_spec (be_value (slice 5 6 head)) opStat); [auto|].
      destruct (Z.eqb_spec (be_value (slice 5 6 head)) opList); [auto|done].
    + auto.
    + apply wrap64_range.
    + apply wrap64_range.
  - unfold frame_of. cbn [Op Tenant ReqObject After Offset Length]. rewrite !strlen_string_of, !bytes_of_string, Ed, L3, L4, L5.
    unfold tl, ol, al. rewrite !(be_slice 2), !Put_slice by lia. fold tl ol al.
    rewrite <- M, <- V, byte_slice by lia. rewrite !slice_app by lia.
    rewrite slice_exact, <- app_assoc by lia. f_equal. f_equal. symmetry. apply slice_exact; lia.
Qed.

(** ** Listings and replies *)

Definition wire_entry (e : Entry) : Prop := strlen (EName e) <= maxName /\ is_int64 (EBytes e).

Definition entries_frame (es : list Entry) : list byte := concat (encode_entry <$> es).

Lemma encodeEntries_frame es : Forall wire_entry es -> encodeEntries es = Ok (entries_frame es).
Proof.
  induction 1 as [|e es [N _] _ IH]; [done|]. simpl.
  rewrite (proj2 (Z.ltb_ge _ _) N), IH. done.
Qed.

Lemma zlen_encode_entry e : zlen (encode_entry e) = 11 + strlen (EName e).
Proof. unfold encode_entry. frame_len. Qed.

Lemma decode_entries_frame es : Forall wire_entry es -> forall fuel out,
  (length es <= fuel)%nat -> decode_entries fuel (entries_frame es) out = Ok (out ++ es).
Proof.
  induction 1 as [|e es [N S] _ IH]; intros fuel out F; [destruct fuel; simpl; by rewrite app_nil_r|].
  simpl in F. destruct fuel as [|fuel]; [lia|]. pose proof (strlen_range (EName e)).
  change (entries_frame (e :: es)) with (encode_entry e ++ entries_frame es).
  set (rest := entries_frame es). pose proof (zlen_nonneg rest).
  assert (exists b l, encode_entry e ++ rest = b :: l) as (b & l & E).
  { unfold encode_entry. simpl. eauto. }
  cbn [decode_entries]. rewrite E. rewrite <- E. clear b l E.
  destruct (Z.ltb_spec (zlen (encode_entry e ++ rest)) 11) as [L|_].
  { rewrite zlen_app, zlen_encode_entry in L. lia. }
  unfold encode_entry. frame_slices.
  rewrite be_value_16, be_value_byte, Uint64_Put by (done || lia).
  assert ((PutUint16 (strlen (EName e)) ++ [byte_of (if EDir e then 1 else 0)] ++ PutUint64 (EBytes e) ++
           bytes_of (EName e)) ++ rest =
          (PutUint16 (strlen (EName e)) ++ [byte_of (if EDir e then 1 else 0)] ++ PutUint64 (EBytes e)) ++
           bytes_of (EName e) ++ rest) as -> by by rewrite <- !app_assoc.
  rewrite zdrop_app_exact by frame_len.
  destruct (Z.ltb_spec (zlen (bytes_of (EName e) ++ rest)) (strlen (EName e))) as [L|_].
  { rewrite zlen_app in L. unfold strlen in L. lia. }
  rewrite zdrop_app_exact, ztake_app_exact, string_of_bytes by done.
  rewrite IH by lia. rewrite <- app_assoc. destruct e as [n [] z]; done.
Qed.

Lemma length_entries_frame es : (length es <= length (entries_frame es))%nat.
Proof.
  induction es as [|e es IH]; [done|].
  change (entries_frame (e :: es)) with (encode_entry e ++ entries_frame es).
  rewrite length_app. pose proof (zlen_encode_entry e) as E. pose proof (strlen_range (EName e)).
  unfold zlen in E. simpl. lia.
Qed.

Lemma decodeEntries_frame es : Forall wire_entry es -> decodeEntries (entries_frame es) = Ok es.
Proof. intros F. apply (decode_entries_frame es F _ []), length_entries_frame. Qed.

(** What a reply delivers: bytes only with [StatusOK], and within the bound. *)
Lemma decodeReply_encodeReply st data max rest : 0 <= st < 256 -> 0 <= max <= MaxInt64 ->
  zlen data <= MaxInt64 ->
  let data' := if st =? StatusOK then data else [] in
  decodeReply max (encodeReply st data ++ rest) =
    if max <? zlen data' then Err ReplyTooLarge else Ok (st, data', rest).
Proof.
  intros Hs Hm Hd data'. pose proof (zlen_nonneg data).
  assert (0 <= zlen data' <= MaxInt64) as Hd' by (unfold data'; destruct (st =? StatusOK); [lia|done]).
  unfold decodeReply, encodeReply. fold data'.
  assert ((PutUint32 magic ++ [byte_of version] ++ [byte_of st] ++ PutUint64 (zlen data') ++ data') ++ rest =
          (PutUint32 magic ++ [byte_of version] ++ [byte_of st] ++ PutUint64 (zlen data')) ++ data' ++ rest)
    as -> by by rewrite <- !app_assoc.
  rewrite ReadFull_app by (unfold replyHeader; frame_len). cbn [bind_result].
  unfold check_head. frame_slices. rewrite !be_value_be, !be_value_byte, Uint64_Put by int64_lia.
  change (magic mod _) with magic. change (version mod _) with version.
  rewrite !Z.eqb_refl. cbn [negb bind_result].
  rewrite Z.mod_small by lia. destruct (Z.ltb_spec (zlen data') 0); [lia|]. cbn [orb].
  destruct (max <? zlen data'); [done|].
  destruct (Z.eqb_spec (zlen data') 0) as [E|_].
  - destruct data'; [done|]. rewrite zlen_cons in E. pose proof (zlen_nonneg data'). lia.
  - by rewrite ReadFull_app.
Qed.

(** ** Serving a connection (serve.go) *)

Inductive AnswerErr : Type :=
  | AServer (e : SrvErr)
  | AWire (e : WireErr).

Definition statusFor (err : option AnswerErr) : Status :=
  match err with
  | None => StatusOK
  | Some (AServer (ErrDriver ErrRange)) => StatusRange
  | Some (AServer ErrRefused) => StatusRefused
  | Some _ => StatusFailed
  end.

(** A connection's deadlines and writes fail as [faults] says; a failed write
    gets some bytes out. *)
Record Conn : Type := mkConn {
  inb : list byte;
  outb : list byte;
  faults : list (option Z);
}.
Definition next_conn_fault (c : Conn) : option Z := default None (head (faults c)).
Definition set_inb (s : list byte) (c : Conn) : Conn :=
  {| inb := s; outb := outb c; faults := faults c |}.
Definition conn_step (written : list byte) (c : Conn) : Conn :=
  {| inb := inb c; outb := outb c ++ written; faults := tail (faults c) |}.

Section serve.
Context {T D : Type} `{Tier T} `{Driver D}.
Abbreviation Srv := (Server T D).
Abbreviation M := (DataServer.M (T := T) (D := D)).

#[local] Notation "'do' x <- m ; k" := (bind m (fun x => k))
  (at level 200, x pattern, m at level 100, k at level 200).

Definition lift_err {A} (r : result SrvErr A) : result AnswerErr A :=
  match r with Ok a => Ok a | Err e => Err (AServer e) end.

Definition answer (req : request) : M (result AnswerErr (list byte)) :=
  if Op req =? opList then
    do entries <- DataServer.List (Tenant req) (ReqObject req) (After req) (Length req);
    ret (match entries with
         | Err e => Err (AServer e)
         | Ok es => match encodeEntries es with Ok b => Ok b | Err e => Err (AWire e) end
         end)
  else if Op req =? opStat then
    do size <- DataServer.SizeOf (Tenant req) (ReqObject req);
    ret (match size with Err e => Err (AServer e) | Ok size => Ok (PutUint64 size) end)
  else
    do r <- DataServer.ReadRange (Tenant req) (ReqObject req) (Offset req) (Length req);
    ret (lift_err r).

Definition reply_of (r : result AnswerErr (list byte)) : list byte :=
  match r with
  | Ok data => encodeReply (statusFor None) data
  | Err e => encodeReply (statusFor (Some e)) []
  end.

(** One turn of the loop of [converse]; the flag says whether it goes on. *)
Definition converse_turn (c : Conn) : M (Conn * bool) :=
  match next_conn_fault c with
  | Some _ => ret (conn_step [] c, false)
  | None =>
      let c := conn_step [] c in
      match decodeRequest (inb c) with
      | Err _ => ret (c, false)
      | Ok (req, rest) =>
          let c := set_inb rest c in
          match next_conn_fault c with
          | Some _ => ret (conn_step [] c, false)
          | None =>
              let c := conn_step [] c in
              do r <- answer req;
              match next_conn_fault c with
              | Some n => ret (conn_step (ztake n (reply_of r)) c, false)
              | None =>
                  do stop <- ctx_Err;
                  ret (conn_step (reply_of r) c, negb stop)
              end
          end
      end
  end.

Fixpoint converse_loop (fuel : nat) (c : Conn) : M Conn :=
  match fuel with
  | O => ret c
  | S fuel =>
      do r <- converse_turn c;
      if r.2 then converse_loop fuel r.1 else ret r.1
  end.
(** Every turn that goes on has taken a frame's header off the input. *)
Definition converse (c : Conn) : M Conn := converse_loop (S (length (inb c))) c.

(** What the conversation comes to: the requests answered in order, one reply
    each, until the context ends. *)
Fixpoint answer_all (reqs : list request) : M (list byte) :=
  match reqs with
  | [] => ret []
  | req :: reqs =>
      do r <- answer req;
      do stop <- ctx_Err;
      if stop then ret (reply_of r)
      else do out <- answer_all reqs; ret (reply_of r ++ out)
  end.

Lemma length_frame_of r : (28 <= length (frame_of r))%nat.
Proof.
  assert (28 <= zlen (frame_of r)) as L.
  { unfold frame_of. rewrite zlen_app.
    pose proof (zlen_nonneg (bytes_of (Tenant r) ++ bytes_of (ReqObject r) ++ bytes_of (After r))).
    frame_len. }
  unfold zlen in L. lia.
Qed.

Lemma converse_loop_frames reqs junk e : Forall wire_request reqs -> decodeRequest junk = Err e ->
  forall fuel c s, (length reqs < fuel)%nat -> inb c = concat (frame_of <$> reqs) ++ junk -> faults c = [] ->
  (converse_loop fuel c s).1 = (answer_all reqs s).1 /\
  outb (converse_loop fuel c s).2 = outb c ++ (answer_all reqs s).2.
Proof.
  intros W J. induction W as [|r reqs Wr _ IH]; intros fuel c s F I N; destruct fuel as [|fuel]; simpl in F; try lia.
  - cbn [converse_loop answer_all]. unfold bind, converse_turn, next_conn_fault. rewrite N. cbn [head default].
    cbn [conn_step inb]. rewrite I. cbn [fmap list_fmap concat app]. rewrite J. simpl. by rewrite !app_nil_r.
  - cbn [converse_loop answer_all]. unfold bind, converse_turn, next_conn_fault. rewrite N. cbn [head default].
    cbn [conn_step inb]. rewrite I. rewrite fmap_cons. cbn [concat]. rewrite <- app_assoc, decode_frame by done.
    cbn [set_inb conn_step faults tail head default]. rewrite N. cbn [tail head default].
    destruct (answer r s) as [s1 a] eqn:A. destruct (ctx_Err s1) as [s2 stop] eqn:C.
    unfold bind. rewrite A, C. cbn [ret fst snd]. destruct stop; cbn [negb].
    + simpl. by rewrite !app_nil_r.
    + destruct (IH fuel (conn_step (reply_of a) (conn_step [] (set_inb (concat (frame_of <$> reqs) ++ junk)
        (conn_step [] c)))) s2) as [E1 E2]; [lia|done|simpl; by rewrite N|].
      unfold conn_step, set_inb in *. simpl in *. rewrite N in *. simpl in *. rewrite E1, E2.
      destruct (answer_all reqs s2) as [s3 out]. simpl. by rewrite !app_nil_r, app_assoc.
Qed.

End serve.

(** ** The client (client.go)

    [transmit] is the network: what it makes of a request's bytes, [None] when
    the deadline or the write fails, and otherwise what comes back in time. *)
Inductive ClientErr : Type :=
  | EBroken
  | EStatus (st : Status)
  | ETooLong
  | EDecode (e : WireErr).
#[global] Instance ClientErr_eq_dec : EqDecision ClientErr.
Proof. solve_decision. Defined.

Section client.
Context {W : Type} (transmit : list byte -> W -> W * option (list byte)).

Record Client : Type := mkClient {
  peer : W;
  buffered : list byte;
  cmax : Z;
  broken : bool;
}.

Definition fail {A} (c : Client) : Client * result ClientErr A :=
  ({| peer := peer c; buffered := buffered c; cmax := cmax c; broken := true |}, Err EBroken).

Definition exchangeOne (req : request) (c : Client) : Client * result ClientErr (list byte) :=
  if broken c then (c, Err EBroken)
  else
    match encode req with
    | Err _ => fail c
    | Ok frame =>
        let '(w, got) := transmit frame (peer c) in
        let put rest := {| peer := w; buffered := rest; cmax := cmax c; broken := false |} in
        match got with
        | None => fail (put (buffered c))
        | Some bytes =>
            let s := buffered c ++ bytes in
            match decodeReply (cmax c) s with
            | Err _ => fail (put s)
            | Ok (status, data, rest) =>
                if negb (status =? StatusOK) then (put rest, Err (EStatus status))
                else (put rest, Ok data)
            end
        end
    end.

Definition client_ReadRange (tenant object : string) (offset length : Z) (c : Client)
  : Client * result ClientErr (list byte) :=
  if cmax c <? length then (c, Err ETooLong)
  else exchangeOne {| Op := opReadRange; Tenant := tenant; ReqObject := object; After := "";
                      Offset := offset; Length := length |} c.

Definition client_SizeOf (tenant object : string) (c : Client) : Client * result ClientErr Z :=
  let '(c, r) := exchangeOne {| Op := opStat; Tenant := tenant; ReqObject := object; After := "";
                                Offset := 0; Length := 0 |} c in
  match r with
  | Err e => (c, Err e)
  | Ok body => if negb (zlen body =? 8) then fail c else (c, Ok (Uint64 body))
  end.

Definition client_List (tenant pre after : string) (limit : Z) (c : Client)
  : Client * result ClientErr (list Entry) :=
  let '(c, r) := exchangeOne {| Op := opList; Tenant := tenant; ReqObject := pre; After := after;
                                Offset := 0; Length := limit |} c in
  match r with
  | Err e => (c, Err e)
  | Ok body => (c, match decodeEntries body with Ok es => Ok es | Err e => Err (EDecode e) end)
  end.

End client.
Arguments Client W : clear implicits.

(** ** A client and a server over a connection that works *)

Section together.
Context {T D : Type} `{Tier T} `{Driver D}.
Abbreviation Srv := (Server T D).

(** The conversation is open until a turn ends it. *)
Definition serve_frame (frame : list byte) (w : Srv * bool) : (Srv * bool) * option (list byte) :=
  if w.2 then
    let '(s, (c, open)) := converse_turn {| inb := frame; outb := []; faults := [] |} w.1 in
    ((s, open), Some (outb c))
  else (w, Some []).

Definition connected (max : Z) (s : Srv) : Client (Srv * bool) :=
  {| peer := (s, true); buffered := []; cmax := max; broken := false |}.

(** What reaches a client of an answer. *)
Definition delivered_answer (max : Z) (r : result AnswerErr (list byte)) : result ClientErr (list byte) :=
  match r with
  | Ok data => if max <? zlen data then Err EBroken else Ok data
  | Err e => Err (EStatus (statusFor (Some e)))
  end.

Lemma statusFor_range e : 0 < statusFor (Some e) < 256.
Proof. by destruct e as [[|[]| | | | |]|]. Qed.

Lemma exchange_serves req max (s : Srv) : wire_request req -> 0 <= max <= MaxInt64 ->
  let '(s1, r) := answer req s in
  (forall data, r = Ok data -> zlen data <= MaxInt64) ->
  let '(c, r') := exchangeOne serve_frame req (connected max s) in
  r' = delivered_answer max r /\
  (peer c).1 = (ctx_Err s1).1 /\
  (r' <> Err EBroken -> broken c = false /\ buffered c = [] /\ (peer c).2 = negb (ctx_Err s1).2).
Proof.
  intros Wr Hm. destruct (answer req s) as [s1 r] eqn:A. intros Hd.
  unfold exchangeOne, connected. cbn [broken peer buffered cmax]. rewrite (encode_frame _ Wr).
  unfold serve_frame at 1. cbn [fst snd]. unfold converse_turn, next_conn_fault.
  cbn [faults head default conn_step inb].
  rewrite <- (app_nil_r (frame_of req)), (decode_frame _ _ Wr). cbn [set_inb conn_step faults tail head default].
  unfold bind. rewrite A. destruct (ctx_Err s1) as [s2 stop] eqn:C.
  cbn [ret fst snd conn_step outb set_inb app]. rewrite <- (app_nil_r (reply_of r)).
  destruct r as [data|e]; cbn [reply_of].
  - rewrite decodeReply_encodeReply by (done || lia || by apply Hd). unfold statusFor.
    change (StatusOK =? StatusOK) with true. cbv iota. cbn [delivered_answer].
    destruct (max <? zlen data); cbn; split_and!; auto; done.
  - pose proof (statusFor_range e) as R.
    rewrite decodeReply_encodeReply by (lia || (unfold MaxInt64, zlen; simpl; lia)).
    assert ((statusFor (Some e) =? StatusOK) = false) as -> by (apply Z.eqb_neq; unfold StatusOK; lia).
    change (zlen (@nil byte)) with 0. destruct (Z.ltb_spec max 0); [lia|].
    assert ((statusFor (Some e) =? StatusOK) = false) as -> by (apply Z.eqb_neq; unfold StatusOK; lia).
    cbn. auto.
Qed.
End together.

(** * Opening and closing conversations with a data server
    (internal/dataserver/client.go, socketReaders of cmd/forebay-bench/main.go)

    What becomes of each dial yet to come is part of the world; a connection that
    was made is open until it is closed. *)

(** [sk_opened] names the next connection. *)
Record sockets : Type := mkSockets {
  sk_opened : nat;
  sk_open : gset nat;
  sk_dials : list bool;
}.

Definition DefaultExchange : duration := 30 * Second.

Record ClientConfig : Type := mkClientConfig {
  MaxReply : Z;
  Exchange : duration;
}.

(** What a client is made of; what it does is above. *)
Record dialled : Type := mkDialled {
  conn : nat;
  dmax : Z;
  dexchange : duration;
}.

Inductive DialErr : Type :=
  | AcceptsNothing (max : Z)
  | NoWait (exchange : duration)
  | NotDialled.

(** [net.Dial] *)
Definition net_dial (s : sockets) : sockets * option nat :=
  match sk_dials s with
  | true :: rest => (mkSockets (S (sk_opened s)) ({[sk_opened s]} ∪ sk_open s) rest, Some (sk_opened s))
  | _ :: rest => (mkSockets (sk_opened s) (sk_open s) rest, None)
  | [] => (s, None)
  end.

Definition Dial (cfg : ClientConfig) (s : sockets) : sockets * result DialErr dialled :=
  if MaxReply cfg <=? 0 then (s, Err (AcceptsNothing (MaxReply cfg)))
  else if Exchange cfg <? 0 then (s, Err (NoWait (Exchange cfg)))
  else
    let exchange := if Exchange cfg =? 0 then DefaultExchange else Exchange cfg in
    let '(s, c) := net_dial s in
    match c with
    | None => (s, Err NotDialled)
    | Some c => (s, Ok (mkDialled c (MaxReply cfg) exchange))
    end.

Definition Close (c : dialled) (s : sockets) : sockets :=
  mkSockets (sk_opened s) (sk_open s ∖ {[conn c]}) (sk_dials s).
Definition close_all (cs : list dialled) (s : sockets) : sockets := fold_left (fun s c => Close c s) cs s.

(** The loop of [socketReaders], with the connections it has made. *)
Fixpoint dial_each (n : nat) (maxReply : Z) (made : list dialled) (s : sockets)
  : sockets * result DialErr (list dialled) :=
  match n with
  | O => (s, Ok made)
  | S n =>
      let '(s, c) := Dial (mkClientConfig maxReply 0) s in
      match c with
      | Err e => (close_all made s, Err e)
      | Ok c => dial_each n maxReply (made ++ [c]) s
      end
  end.
Definition socketReaders (n : nat) (maxReply : Z) (s : sockets) : sockets * result DialErr (list dialled) :=
  dial_each n maxReply [] s.

(** [tenantReader.ReadRange] *)
Definition tenant_ReadRange {W} (transmit : list byte -> W -> W * option (list byte)) (tenant object : string)
    (offset length : Z) (c : Client W) : Client W * result ClientErr (list byte) :=
  client_ReadRange transmit tenant object offset length c.

(** ** Connections are not left open *)

Definition numbered (s : sockets) : Prop := forall i, i ∈ sk_open s -> (i < sk_opened s)%nat.

Lemma close_all_open cs : forall s, sk_open (close_all cs s) = sk_open s ∖ list_to_set (conn <$> cs).
Proof.
  induction cs as [|c cs IH]; intros s; [simpl; set_solver|].
  change (close_all (c :: cs) s) with (close_all cs (Close c s)). rewrite IH. simpl. set_solver.
Qed.

Lemma Dial_spec cfg s s' r : numbered s -> Dial cfg s = (s', r) -> numbered s' /\
  match r with
  | Err _ => sk_open s' = sk_open s
  | Ok c => 0 < dmax c /\ dmax c = MaxReply cfg /\ 0 < dexchange c /\ conn c ∉ sk_open s /\ sk_open s' = {[conn c]} ∪ sk_open s
  end.
Proof.
  intros N. unfold Dial. destruct (Z.leb_spec (MaxReply cfg) 0); [by intros [= <- <-]|].
  destruct (Z.ltb_spec (Exchange cfg) 0); [by intros [= <- <-]|]. unfold net_dial.
  destruct (sk_dials s) as [|[] rest]; intros [= <- <-]; simpl; [done| |done]. split.
  - intros i. simpl. intros [->%elem_of_singleton|I%N]%elem_of_union; lia.
  - split_and!; try done.
    + destruct (Z.eqb_spec (Exchange cfg) 0); [done|lia].
    + intros I%N. lia.
Qed.

Lemma dial_each_spec n maxReply : forall made s s' r, numbered s ->
  NoDup (conn <$> made) -> list_to_set (conn <$> made) ⊆ sk_open s ->
  dial_each n maxReply made s = (s', r) ->
  match r with
  | Err _ => sk_open s' = sk_open s ∖ list_to_set (conn <$> made)
  | Ok cs => exists more, cs = made ++ more /\ length more = n /\ NoDup (conn <$> cs) /\
      list_to_set (conn <$> more) ## sk_open s /\ sk_open s' = list_to_set (conn <$> more) ∪ sk_open s /\
      Forall (fun c => dmax c = maxReply /\ 0 < dexchange c) more
  end.
Proof.
  induction n as [|n IH]; intros made s s' r N Nd Sub; simpl.
  { intros [= <- <-]. exists []. rewrite app_nil_r. simpl. split_and!; try done; set_solver. }
  destruct (Dial _ s) as [s1 [c|e]] eqn:D; apply Dial_spec in D as [N1 D]; [|done| |done].
  2: { intros [= <- <-]. by rewrite close_all_open, D. }
  destruct D as (_ & M & X & Fr & O). intros R.
  assert (conn c ∉ conn <$> made) as Nc.
  { intros I. apply Fr, Sub. by apply elem_of_list_to_set. }
  apply IH in R; [|done| |].
  2: { rewrite fmap_app. apply NoDup_app. split_and!; [done| |apply NoDup_singleton]. set_solver. }
  2: { rewrite fmap_app, list_to_set_app_L, O. set_solver. }
  destruct r as [cs|e].
  - destruct R as (more & -> & L & Nd' & Dj & O' & F). exists (c :: more). rewrite <- app_assoc in *. simpl in *.
    split_and!; try done; [lia|set_solver|set_solver|by constructor].
  - rewrite R, fmap_app, list_to_set_app_L, O. simpl. set_solver.
Qed.

(** Either a worker has a connection of its own, each with the bound asked for and a
    wait that ends, and closing them leaves open what was; or none was left open. *)
Theorem socketReaders_keep_nothing n maxReply s s' r : numbered s ->
  socketReaders n maxReply s = (s', r) ->
  match r with
  | Err _ => sk_open s' = sk_open s
  | Ok cs => length cs = n /\ NoDup (conn <$> cs) /\ Forall (fun c => dmax c = maxReply /\ 0 < dexchange c) cs /\
      sk_open (close_all cs s') = sk_open s
  end.
Proof.
  intros N R. apply dial_each_spec in R; [|done|constructor|set_solver]. destruct r as [cs|e].
  - destruct R as (more & -> & L & Nd & Dj & O & F). simpl in *. split_and!; try done.
    rewrite close_all_open, O. set_solver.
  - rewrite R. set_solver.
Qed.

(** A block that no reply can fit is refused before anything is dialled. *)
Lemma socketReaders_no_block n maxReply s : maxReply <= 0 ->
  socketReaders (S n) maxReply s = (s, Err (AcceptsNothing maxReply)).
Proof. intros M. unfold socketReaders. simpl. unfold Dial. simpl. by rewrite (proj2 (Z.leb_le _ _) M). Qed.

(** The third of three dials is lost: the two before it are closed. *)
Example third_dial_lost :
  let s := mkSockets 5 {[4%nat]} [true; true; false] in
  let '(s', r) := socketReaders 3 4096 s in
  (elements (sk_open s'), r) = ([4%nat], Err NotDialled) /\ sk_dials s' = [].
Proof. vm_compute. split; reflexivity. Qed.
