(* ===== verification/WireTheorems.v ===== *)
(** * WireTheorems: what crosses the wire is what was meant *)

From S2P Require Import Prelude Efficiency Prefetch Backend FastTier Tier FileDriver.
From S2P Require Import DataServer DataServerTheorems Wire.

Local Open Scope Z_scope.

(** requests and frames correspond one to one. A stream decodes to a request
    and a rest exactly when it is that request's frame followed by that rest,
    and the request is one the protocol has: so no two frames mean the same
    request, no frame is read two ways, and nothing of the next frame is eaten. *)
Theorem request_frames_exact s r rest :
  decodeRequest s = Ok (r, rest) <->
  wire_request r /\ exists frame, encode r = Ok frame /\ s = frame ++ rest.
Proof.
  split.
  - intros D. apply decode_frame_inv in D as [W ->]. split; [done|].
    exists (frame_of r). split; [by apply encode_frame|done].
  - intros (W & frame & E & ->). rewrite (encode_frame _ W) in E. injection E as <-.
    by apply decode_frame.
Qed.

(** a listing survives the wire: for entries whose names and sizes the
    format holds, what [decodeEntries] reads back is the listing, and the reply
    that carries it is delivered whole within the client's bound and refused
    beyond it, with what follows left in the stream. *)
Theorem listing_roundtrip es max rest :
  Forall wire_entry es -> 0 <= max <= MaxInt64 -> zlen (entries_frame es) <= MaxInt64 ->
  exists body, encodeEntries es = Ok body /\ decodeEntries body = Ok es /\
    decodeReply max (encodeReply StatusOK body ++ rest) =
      if max <? zlen body then Err ReplyTooLarge else Ok (StatusOK, body, rest).
Proof.
  intros W Hm Hl. exists (entries_frame es). split_and!.
  - by apply encodeEntries_frame.
  - by apply decodeEntries_frame.
  - rewrite decodeReply_encodeReply; [done|done|done|done].
Qed.

Lemma listing_roundtrip_witness :
  decodeReply 64 (encodeReply StatusOK (entries_frame [mkEntry "d" true 0; mkEntry "ab" false 7]) ++ [])
  = Ok (StatusOK, entries_frame [mkEntry "d" true 0; mkEntry "ab" false 7], []).
Proof.
  destruct (listing_roundtrip [mkEntry "d" true 0; mkEntry "ab" false 7] 64 []) as (body & E & _ & R).
  - repeat constructor; vm_compute; discriminate.
  - unfold MaxInt64. lia.
  - vm_compute. discriminate.
  - assert (body = entries_frame [mkEntry "d" true 0; mkEntry "ab" false 7]) as ->
      by (vm_compute in E |- *; congruence).
    rewrite R. reflexivity.
Defined.

(** a conversation answers each request once, in order, from the state the
    one before left, whatever way the frames arrive together; it stops at the
    first frame it cannot make sense of, and answers that with nothing. *)
Theorem converse_answers_in_order {T D} `{Tier T} `{Driver D} reqs junk e c (s : Server T D) :
  Forall wire_request reqs -> decodeRequest junk = Err e ->
  inb c = concat (frame_of <$> reqs) ++ junk -> faults c = [] ->
  (converse c s).1 = (answer_all reqs s).1 /\
  outb (converse c s).2 = outb c ++ (answer_all reqs s).2.
Proof.
  intros W J I F. apply (converse_loop_frames reqs junk e W J); [|done..].
  rewrite I, length_app. assert (length reqs <= length (concat (frame_of <$> reqs)))%nat as L.
  { clear. induction reqs as [|r reqs IH]; [done|]. rewrite fmap_cons. cbn [concat length].
    rewrite length_app. pose proof (length_frame_of r). lia. }
  lia.
Qed.

Definition wrequest (op : Z) (object : string) (offset length : Z) : request :=
  {| Op := op; Tenant := "t"; ReqObject := object; After := ""; Offset := offset; Length := length |}.

Lemma wrequest_wire op object offset length :
  op = opReadRange \/ op = opStat \/ op = opList -> strlen object <= maxName ->
  is_int64 offset -> is_int64 length -> wire_request (wrequest op object offset length).
Proof. intros. constructor; simpl; auto. split_and!; [done|done|done]. Qed.

(** A read, a size, and a frame of another protocol. *)
Lemma converse_answers_in_order_witness :
  exists s, wserver = Some s /\
    outb (converse {| inb := frame_of (wrequest opReadRange "d/c" 1 2) ++
                             frame_of (wrequest opStat "d/c" 0 0) ++ bytes_of "GET /";
                      outb := []; faults := [] |} s).2
    = encodeReply StatusOK (bytes_of "bc") ++ encodeReply StatusOK (PutUint64 3).
Proof.
  destruct wserver as [s|] eqn:E; [|discriminate]. exists s. split; [done|].
  pose proof (converse_answers_in_order [wrequest opReadRange "d/c" 1 2; wrequest opStat "d/c" 0 0]
    (bytes_of "GET /") WireEOF {| inb := frame_of (wrequest opReadRange "d/c" 1 2) ++
    frame_of (wrequest opStat "d/c" 0 0) ++ bytes_of "GET /"; outb := []; faults := [] |} s) as W.
  destruct W as [_ W].
  - apply Forall_cons_2; [|apply Forall_cons_2; [|by apply Forall_nil]]; apply wrequest_wire;
      vm_compute; (auto || discriminate || (split; discriminate)).
  - vm_compute. reflexivity.
  - cbn [inb fmap list_fmap concat]. by rewrite app_nil_r, <- app_assoc.
  - reflexivity.
  - rewrite W. unfold wserver in E. vm_compute in E. injection E as <-. vm_compute. reflexivity.
Defined.

(** ** The client and the server together *)

(** What a client makes of the server's own answer. *)
Definition as_seen {A} (r : result SrvErr A) : result ClientErr A :=
  match r with Ok a => Ok a | Err e => Err (EStatus (statusFor (Some (AServer e)))) end.

Section ends.
Context {T D : Type} `{Tier T} `{Driver D}.
Implicit Types s : Server T D.

Lemma ReadRange_length tenant object offset length s data :
  (ReadRange tenant object offset length s).2 = Ok data -> zlen data = length.
Proof.
  unfold ReadRange, bind, get, ret. cbv beta iota zeta.
  destruct (refusal tenant object offset length (maxRead s)) as [r|] eqn:R.
  - simpl. intros ->. unfold refusal in R. repeat (case_if; [try done|]); [|done].
    injection R as <-. by bool_to_prop.
  - destruct (Now s) as [s1 began], (inFlight 1 s1) as [s2 u].
    destruct (read_blocks _ _ _ _ _ _ _ s2) as [s3 r].
    destruct (inFlight (-1) s3) as [s4 u']. destruct (Since began s4) as [s5 took].
    destruct (answered took s5) as [s6 u'']. simpl. destruct r as [out|]; [|done].
    destruct (Z.eqb_spec (zlen out) length) as [E|]; [|done]. by intros [= <-].
Qed.
Lemma client_ReadRange_serves s max tenant object offset length :
  strlen tenant <= maxName -> strlen object <= maxName -> 8 <= max <= MaxInt64 ->
  length <= max -> is_int64 offset -> is_int64 length ->
  let '(c, r) := client_ReadRange serve_frame tenant object offset length (connected max s) in
  let '(s', r') := ReadRange tenant object offset length s in
  r = as_seen r' /\ broken c = false /\ (peer c).1 = (ctx_Err s').1.
Proof.
  intros Ht Ho Hm Hl Io Il. assert (strlen "" <= maxName) by done.
  unfold client_ReadRange. destruct (Z.ltb_spec (cmax (connected max s)) length) as [L|_]; [simpl in L; lia|].
  set (req := mkRequest _ _ _ _ _ _).
  assert (wire_request req) as Wr by (constructor; simpl; auto).
  pose proof (exchange_serves req max s Wr ltac:(lia)) as X. pose proof (ReadRange_length tenant object offset length s) as Len.
  unfold answer in X. simpl in X. unfold bind in X.
  destruct (ReadRange tenant object offset length s) as [s' r']. simpl in X, Len.
  destruct (exchangeOne serve_frame req (connected max s)) as [c r].
  destruct X as (-> & P & B). { intros data E. destruct r'; [|done]. injection E as ->. rewrite (Len _ eq_refl). lia. }
  assert (delivered_answer max (lift_err r') = as_seen r') as E.
  { destruct r' as [data|]; [|done]. simpl. rewrite (Len _ eq_refl). destruct (Z.ltb_spec max length); [lia|done]. }
  rewrite E in *. split_and!; auto. apply B. by destruct r'.
Qed.

Lemma client_SizeOf_serves s max tenant object :
  strlen tenant <= maxName -> strlen object <= maxName -> 8 <= max <= MaxInt64 ->
  (forall n, (SizeOf tenant object s).2 = Ok n -> is_int64 n) ->
  let '(c, r) := client_SizeOf serve_frame tenant object (connected max s) in
  let '(s', r') := SizeOf tenant object s in
  r = as_seen r' /\ broken c = false /\ (peer c).1 = (ctx_Err s').1.
Proof.
  intros Ht Ho Hm Hsize. assert (strlen "" <= maxName) by done. assert (is_int64 0) by done.
  unfold client_SizeOf. set (req := mkRequest _ _ _ _ _ _).
  assert (wire_request req) as Wr by (constructor; simpl; auto).
  pose proof (exchange_serves req max s Wr ltac:(lia)) as X.
  unfold answer in X. simpl in X. unfold bind in X.
  destruct (SizeOf tenant object s) as [s' r']. simpl in X, Hsize.
  destruct (exchangeOne serve_frame req (connected max s)) as [c r].
  destruct X as (-> & P & B). { intros data E. destruct r'; [|done]. injection E as <-. rewrite zlen_Put64. int64_lia. }
  destruct r' as [n|e]; cbn [delivered_answer as_seen] in *.
  + rewrite zlen_Put64 in *. destruct (Z.ltb_spec max 8); [lia|]. rewrite zlen_Put64, Uint64_Put by by apply Hsize.
    simpl. split_and!; auto. by apply B.
  + split_and!; auto. by apply B.
Qed.

Lemma client_List_serves s max tenant object after limit :
  strlen tenant <= maxName -> strlen object <= maxName -> 8 <= max <= MaxInt64 ->
  strlen after <= maxName -> is_int64 limit ->
  (forall es, (DataServer.List tenant object after limit s).2 = Ok es ->
     Forall wire_entry es /\ zlen (entries_frame es) <= max) ->
  let '(c, r) := client_List serve_frame tenant object after limit (connected max s) in
  let '(s', r') := DataServer.List tenant object after limit s in
  r = as_seen r' /\ broken c = false /\ (peer c).1 = (ctx_Err s').1.
Proof.
  intros Ht Ho Hm Ha Ii Hlist. assert (is_int64 0) by done.
  unfold client_List. set (req := mkRequest _ _ _ _ _ _).
  assert (wire_request req) as Wr by (constructor; simpl; auto).
  pose proof (exchange_serves req max s Wr ltac:(lia)) as X.
  unfold answer in X. simpl in X. unfold bind in X.
  destruct (DataServer.List tenant object after limit s) as [s' r']. simpl in X, Hlist.
  destruct (exchangeOne serve_frame req (connected max s)) as [c r].
  destruct r' as [es|e].
  + destruct (Hlist es eq_refl) as [We Le]. rewrite (encodeEntries_frame _ We) in X.
    destruct X as (-> & P & B). { intros data [= <-]. lia. }
    simpl in *. destruct (Z.ltb_spec max (zlen (entries_frame es))); [lia|].
    rewrite (decodeEntries_frame _ We). split_and!; auto. by apply B.
  + destruct X as (-> & P & B); [done|]. simpl in *. split_and!; auto. by apply B.
Qed.

End ends.

(** C31: a client that calls over the wire gets what the server would have
    answered in place: the same bytes, size or listing, and for an error the
    status that keeps a range the object does not have apart from a refusal and
    from a backend that failed. The server is left as the call itself leaves
    it, and the conversation is still usable. *)
Theorem client_sees_the_server {T D} `{Tier T} `{Driver D} (s : Server T D) max
    tenant object after offset length limit :
  strlen tenant <= maxName -> strlen object <= maxName -> strlen after <= maxName ->
  8 <= max <= MaxInt64 -> length <= max -> is_int64 offset -> is_int64 length -> is_int64 limit ->
  (forall n, (SizeOf tenant object s).2 = Ok n -> is_int64 n) ->
  (forall es, (DataServer.List tenant object after limit s).2 = Ok es ->
     Forall wire_entry es /\ zlen (entries_frame es) <= max) ->
  (let '(c, r) := client_ReadRange serve_frame tenant object offset length (connected max s) in
   let '(s', r') := ReadRange tenant object offset length s in
   r = as_seen r' /\ broken c = false /\ (peer c).1 = (ctx_Err s').1) /\
  (let '(c, r) := client_SizeOf serve_frame tenant object (connected max s) in
   let '(s', r') := SizeOf tenant object s in
   r = as_seen r' /\ broken c = false /\ (peer c).1 = (ctx_Err s').1) /\
  (let '(c, r) := client_List serve_frame tenant object after limit (connected max s) in
   let '(s', r') := DataServer.List tenant object after limit s in
   r = as_seen r' /\ broken c = false /\ (peer c).1 = (ctx_Err s').1).
Proof.
  intros. split_and!.
  - by apply client_ReadRange_serves.
  - by apply client_SizeOf_serves.
  - by apply client_List_serves.
Qed.

Lemma client_sees_the_server_witness :
  exists s, wserver = Some s /\
    let '(c, r) := client_ReadRange serve_frame "t" "d/c" 1 2 (connected 64 s) in
    let '(s', r') := ReadRange "t" "d/c" 1 2 s in
    r = as_seen r' /\ r = Ok (bytes_of "bc").
Proof.
  destruct wserver as [s|] eqn:E; [|discriminate]. exists s. split; [done|].
  unfold wserver in E. vm_compute in E. injection E as E.
  destruct (client_sees_the_server s 64 "t" "d/c" "" 1 2 9) as [W _].
  1-8: vm_compute; (discriminate || (split; discriminate)).
  - assert ((SizeOf "t" "d/c" s).2 = Ok 3) as -> by (rewrite <- E; vm_compute; reflexivity).
    intros n [= <-]. split; vm_compute; discriminate.
  - assert ((DataServer.List "t" "d/c" "" 9 s).2 = Ok []) as -> by (rewrite <- E; vm_compute; reflexivity).
    intros es [= <-]. split; [constructor|vm_compute; discriminate].
  - destruct (client_ReadRange serve_frame "t" "d/c" 1 2 (connected 64 s)) as [c r] eqn:C.
    destruct (ReadRange "t" "d/c" 1 2 s) as [s' r'] eqn:R. destruct W as [W _]. split; [exact W|].
    rewrite W. rewrite <- E in R. vm_compute in R. injection R as _ <-. reflexivity.
Defined.
