(* ===== verification/Accepting.v ===== *)
(** * Accepting: taking connections, and stopping (internal/dataserver/serve.go)

    [Serve] runs beside a watcher that closes the listener, the goroutine that
    fetches ahead, and a conversation and its own watcher for every connection. Each
    thing one of them does is an event; an order of events is a schedule. What is
    said in a conversation is Wire.v's; here it is the time between its start and
    its end. *)

From S2P Require Import Prelude.

Local Open Scope Z_scope.

Definition maxConnections : Z := 64.

(** The loop, until it stops: because it was told to, or because the listener broke. *)
Inductive accepting : Type :=
  | Accepts
  | Ends (broken : bool).

(** [live] is the conversations and whether each one's connection is still open;
    [slots] the tokens taken. *)
Record serving : Type := mkServing {
  loop : accepting;
  told : bool;
  listening : bool;
  live : gmap nat bool;
  slots : Z;
  ahead : bool;
  returned : option bool;
}.

(** [Serve], called: [prefetching] is whether predictions are fetched. *)
Definition serve (prefetching : bool) : serving := mkServing Accepts false true ∅ 0 prefetching None.

Inductive event : Type :=
  | Cancelled
  | ListenerClosed
  | Connects (id : nat)
  | AcceptFails
  | ConnClosed (id : nat)
  | ConverseEnds (id : nat)
  | AheadEnds
  | Returns.

Definition set_loop (l : accepting) (s : serving) : serving :=
  mkServing l (told s) (listening s) (live s) (slots s) (ahead s) (returned s).
Definition set_told (s : serving) : serving := mkServing (loop s) true (listening s) (live s) (slots s) (ahead s) (returned s).
Definition set_deaf (s : serving) : serving := mkServing (loop s) (told s) false (live s) (slots s) (ahead s) (returned s).
Definition set_live (m : gmap nat bool) (n : Z) (s : serving) : serving :=
  mkServing (loop s) (told s) (listening s) m n (ahead s) (returned s).

Definition running (s : serving) : bool := match loop s with Accepts => true | Ends _ => false end.
(** What [wg.Wait] waits for. *)
Definition busy (s : serving) : bool := negb (bool_decide (live s = ∅)) || ahead s.

(** What an event does where it can happen; [None] where it cannot. A connection past
    the last token is closed at once. The loop having ended cancels what it started,
    and lets the watcher close the listener. *)
Definition happens (e : event) (s : serving) : option serving :=
  match e with
  | Cancelled => Some (set_told s)
  | ListenerClosed => if told s && listening s then Some (set_deaf s) else None
  | Connects id =>
      if negb (running s && listening s) || bool_decide (is_Some (live s !! id)) then None
      else if slots s <? maxConnections then Some (set_live (<[id := true]> (live s)) (slots s + 1) s)
      else Some s
  | AcceptFails =>
      (* A listener fails when it was closed, and may at any time. *)
      if running s then Some (set_told (set_loop (Ends (negb (told s))) s)) else None
  | ConnClosed id =>
      match live s !! id with
      | Some true => if told s then Some (set_live (<[id := false]> (live s)) (slots s) s) else None
      | _ => None
      end
  | ConverseEnds id =>
      match live s !! id with
      | Some _ => Some (set_live (delete id (live s)) (slots s - 1) s)
      | None => None
      end
  | AheadEnds => if told s && ahead s then Some (mkServing (loop s) (told s) (listening s) (live s) (slots s) false (returned s)) else None
  | Returns =>
      match loop s, returned s with
      | Ends broken, None => if busy s then None
                             else Some (mkServing (loop s) (told s) (listening s) (live s) (slots s) (ahead s) (Some broken))
      | _, _ => None
      end
  end.

(** An event that could not happen is not in a schedule. *)
Fixpoint runs (es : list event) (s : serving) : option serving :=
  match es with
  | [] => Some s
  | e :: es => match happens e s with Some s => runs es s | None => None end
  end.

(** ** What holds throughout *)

Record sound (s : serving) : Prop := {
  sound_slots : slots s = Z.of_nat (size (live s)) /\ slots s <= maxConnections;
  sound_told : running s = false -> told s = true;
  sound_returned : forall b, returned s = Some b -> live s = ∅ /\ ahead s = false /\ loop s = Ends b;
}.

Lemma happens_sound e s s' : sound s -> happens e s = Some s' -> sound s'.
Proof.
  intros I. destruct (I) as [[Sl Mx] T R]. destruct e as [| |id| |id|id| |]; simpl.
  - intros [= <-]. by split; simpl.
  - destruct (_ && _); [|done]. intros [= <-]. by split; simpl.
  - destruct (running s && listening s) eqn:A; [|done]. cbn [negb orb]. apply andb_true_iff in A as [A _].
    case_bool_decide as L; [done|]. destruct (Z.ltb_spec (slots s) maxConnections); intros [= <-]; [|exact I].
    apply eq_None_not_Some in L. split; simpl; [|first [exact T|done]|].
    + rewrite map_size_insert_None by done. lia.
    + intros b E. destruct (R b E) as (_ & _ & Lp). unfold running in A. by rewrite Lp in A.
  - destruct (running s) eqn:A; [|done]. intros [= <-]. split; simpl; [done|try exact T; done|].
    intros b E. destruct (R b E) as (_ & _ & Lp). unfold running in A. by rewrite Lp in A.
  - destruct (live s !! id) as [[]|] eqn:L; [|done..]. destruct (told s) eqn:To; [|done]. intros [= <-]. split; simpl; [|first [exact T|done]|].
    + rewrite map_size_insert_Some; [done|]. by rewrite L.
    + intros b E. destruct (R b E) as (X & _). by rewrite X, lookup_empty in L.
  - destruct (live s !! id) as [o|] eqn:L; [|done]. intros [= <-]. split; simpl; [|first [exact T|done]|].
    + rewrite map_size_delete_Some by by rewrite L. assert (size (live s) <> 0%nat) as N; [|lia].
      intros X%map_size_empty_inv. by rewrite X, lookup_empty in L.
    + intros b E. destruct (R b E) as (X & _). by rewrite X, lookup_empty in L.
  - destruct (told s) eqn:To; [|done]. destruct (ahead s); [|done]. intros [= <-]. split; simpl; [done|try exact T; done|].
    intros b E. by destruct (R b E) as (? & [=] & _).
  - destruct (loop s) as [|broken] eqn:Lp; [done|]. destruct (returned s); [done|]. unfold busy.
    case_bool_decide as E; [|done]. cbn [negb orb]. destruct (ahead s) eqn:Ah; [done|]. intros [= <-]. split; simpl; [done| |].
    + intros _. apply T. unfold running. by rewrite Lp.
    + by intros b [= <-].
Qed.

Lemma runs_sound es : forall s s', sound s -> runs es s = Some s' -> sound s'.
Proof.
  induction es as [|e es IH]; intros s s' I; simpl; [by intros [= <-]|]. destruct (happens e s) as [s1|] eqn:E; [|done].
  apply IH. by eapply happens_sound.
Qed.
Lemma serve_sound p : sound (serve p).
Proof. split; [by split; [reflexivity|vm_compute; discriminate]|done|done]. Qed.

(** ** Stopping *)

(** What is left to do, once it has been told to stop. *)
Definition left_to_do (s : serving) : nat :=
  (if listening s then 1 else 0) + (if running s then 1 else 0) + (if ahead s then 1 else 0) +
  (match returned s with None => 1 | Some _ => 0 end) +
  2 * size (live s) - size (filter (fun c : nat * bool => c.2 = false) (live s)).

(** What the rest of the program does of itself: all but a caller's connecting and
    cancelling. *)
Definition own (e : event) : bool := match e with Connects _ | Cancelled => false | _ => true end.

Lemma closed_size (m : gmap nat bool) : (size (filter (fun c : nat * bool => c.2 = false) m) <= size m)%nat.
Proof. apply map_subseteq_size, map_filter_subseteq. Qed.

Lemma closing_size (m : gmap nat bool) id : m !! id = Some true ->
  size (filter (fun c : nat * bool => c.2 = false) (<[id := false]> m)) = S (size (filter (fun c : nat * bool => c.2 = false) m)).
Proof.
  intros L. rewrite map_filter_insert_True by done. apply map_size_insert_None.
  apply map_lookup_filter_None. right. intros x E. rewrite L in E. by injection E as <-.
Qed.
Lemma ending_size (m : gmap nat bool) id (o : bool) : m !! id = Some o ->
  (size (filter (fun c : nat * bool => c.2 = false) (delete id m)) + (if o then 0 else 1)%nat =
   size (filter (fun c : nat * bool => c.2 = false) m))%nat.
Proof.
  intros L. rewrite map_filter_delete. destruct o.
  - rewrite delete_id; [lia|]. apply map_lookup_filter_None. right. intros x E. rewrite L in E. by injection E as <-.
  - assert (filter (fun c : nat * bool => c.2 = false) m !! id = Some false) as Fl by by apply map_lookup_filter_Some.
    rewrite map_size_delete_Some by by rewrite Fl.
    assert (size (filter (fun c : nat * bool => c.2 = false) m) <> 0%nat); [|lia].
    intros X%map_size_empty_inv. by rewrite X, lookup_empty in Fl.
Qed.

(** Told to stop, everything it does of itself brings the end nearer, and until it has
    returned and its listener is closed there is always something it can do. *)
Lemma own_decreases e s s' : sound s -> own e = true -> told s = true -> happens e s = Some s' ->
  (left_to_do s' < left_to_do s)%nat /\ told s' = true.
Proof.
  intros I O T. pose proof (closed_size (live s)) as Cs. unfold left_to_do. destruct e as [| |id| |id|id| |]; simpl in *; try done.
  - rewrite T. destruct (listening s); [|done]. intros [= <-]. cbn. split; [|done]. unfold running. cbn. lia.
  - unfold running. destruct (loop s); [|done]. intros [= <-]. cbn. split; [lia|done].
  - destruct (live s !! id) as [[]|] eqn:L; [|done..]. rewrite T. intros [= <-]. cbn. split; [|done].
    rewrite closing_size, map_size_insert_Some by by rewrite ?L. unfold running. cbn.
    assert (size (filter (fun c : nat * bool => c.2 = false) (live s)) < size (live s))%nat; [|lia].
    pose proof (closed_size (<[id := false]> (live s))) as C2. rewrite closing_size, map_size_insert_Some in C2 by by rewrite ?L. lia.
  - destruct (live s !! id) as [o|] eqn:L; [|done]. intros [= <-]. cbn. split; [|done]. pose proof (ending_size _ _ _ L) as En.
    pose proof (closed_size (delete id (live s))) as C2. rewrite map_size_delete_Some in * by by rewrite L.
    assert (size (live s) <> 0%nat) by (intros X%map_size_empty_inv; by rewrite X, lookup_empty in L). unfold running. cbn.
    destruct o; lia.
  - rewrite T. destruct (ahead s); [|done]. intros [= <-]. cbn. split; [|done]. unfold running. cbn. lia.
  - destruct (loop s) as [|broken] eqn:Lp; [done|]. destruct (returned s); [done|]. destruct (busy s); [done|]. intros [= <-]. cbn.
    split; [|done]. unfold running. cbn. lia.
Qed.

Definition stopped (s : serving) : Prop := is_Some (returned s) /\ listening s = false.

Lemma own_enabled s : sound s -> told s = true -> stopped s \/ exists e s', own e = true /\ happens e s = Some s'.
Proof.
  intros I T. destruct (listening s) eqn:L.
  { right. exists ListenerClosed. simpl. rewrite T, L. by eexists. }
  destruct (loop s) as [|broken] eqn:Lp.
  { right. exists AcceptFails. simpl. unfold running. rewrite Lp. by eexists. }
  destruct (ahead s) eqn:A.
  { right. exists AheadEnds. simpl. rewrite T, A. by eexists. }
  destruct (decide (live s = ∅)) as [E|N].
  - destruct (returned s) as [b|] eqn:R; [left; by split; [eexists|]|]. right. exists Returns. simpl. unfold busy.
    rewrite Lp, R, A, bool_decide_true by done. by eexists.
  - right. apply map_choose in N as (id & o & Hid). exists (ConverseEnds id). simpl. rewrite Hid. by eexists.
Qed.

(** ** What it reports *)

(** Of a schedule: whether the listener failed before anybody told it to stop. *)
Definition decisive (e : event) : bool := match e with Cancelled | AcceptFails => true | _ => false end.
Fixpoint broke_first (es : list event) : bool :=
  match es with
  | [] | Cancelled :: _ => false
  | AcceptFails :: _ => true
  | _ :: es => broke_first es
  end.

Lemma broke_first_snoc es e : broke_first (es ++ [e]) = if existsb decisive es then broke_first es else broke_first [e].
Proof. induction es as [|x es IH]; [done|]. by destruct x; simpl. Qed.
Lemma runs_snoc es e : forall s, runs (es ++ [e]) s = match runs es s with Some s => happens e s | None => None end.
Proof.
  induction es as [|x es IH]; intros s; simpl; [by destruct (happens e s)|]. destruct (happens x s); [apply IH|done].
Qed.

(** What the loop remembers of its schedule. *)
Definition traced (es : list event) (s : serving) : Prop :=
  match loop s with
  | Accepts => told s = existsb decisive es /\ broke_first es = false
  | Ends b => existsb decisive es = true /\ b = broke_first es
  end.

Lemma traced_step es e s s' : traced es s -> happens e s = Some s' -> traced (es ++ [e]) s'.
Proof.
  unfold traced. rewrite broke_first_snoc, existsb_app, <- (orb_false_r (existsb decisive [e])). intros I H.
  assert (loop s' = loop s /\ told s' = told s || decisive e /\ e <> AcceptFails \/
    e = AcceptFails /\ loop s = Accepts /\ loop s' = Ends (negb (told s))) as [(-> & -> & N)|(-> & L & ->)].
  - destruct e; simpl in H; unfold running in H; repeat case_match; simplify_eq/=; rewrite ?orb_false_r, ?orb_true_r; auto.
  - destruct (loop s) as [|b]; destruct I as [I ->].
    + rewrite I. simpl. rewrite !orb_false_r. split; [done|]. destruct (existsb decisive es); [done|]. by destruct e.
    + rewrite I. by split.
  - rewrite L in I. destruct I as [-> ->]. rewrite orb_true_r. split; [done|]. by destruct (existsb decisive es).
Qed.

Lemma traced_runs p es : forall s, runs es (serve p) = Some s -> traced es s.
Proof.
  induction es as [|e es IH] using rev_ind; intros s; [by intros [= <-]|]. rewrite runs_snoc.
  destruct (runs es (serve p)) as [s1|]; [|done]. apply traced_step. by apply IH.
Qed.

(** C32: a server serves no more than its limit and always stops. However connections
    come and go, there are never more conversations than tokens, one token to each;
    when [Serve] returns no conversation and no fetch is left behind, and it reports
    a failure exactly when its listener broke before it was told to stop. And told
    to stop, from any state and with nobody connecting, whatever it does next in
    whatever order is done in a bounded number of steps, and it can only run out of
    them with [Serve] returned and its listener closed. *)
Theorem server_stops p es s : runs es (serve p) = Some s ->
  (slots s = Z.of_nat (size (live s)) /\ slots s <= maxConnections) /\
  (forall b, returned s = Some b -> live s = ∅ /\ ahead s = false /\ running s = false /\ b = broke_first es) /\
  (told s = true ->
    (forall fs s', Forall (fun e => own e = true) fs -> runs fs s = Some s' -> (length fs + left_to_do s' <= left_to_do s)%nat) /\
    (forall fs s', Forall (fun e => own e = true) fs -> runs fs s = Some s' ->
       (forall e, own e = true -> happens e s' = None) -> stopped s')).
Proof.
  intros R. assert (sound s) as I by (by eapply runs_sound; [apply serve_sound|]). split_and!; [apply I|apply I| |].
  { intros b E. destruct (sound_returned s I b E) as (? & ? & L). pose proof (traced_runs p es s R) as Tr. unfold traced, running in *.
    rewrite L in *. by destruct Tr. }
  intros T.
  assert (forall fs s0 s', sound s0 -> told s0 = true -> Forall (fun e => own e = true) fs -> runs fs s0 = Some s' ->
    (length fs + left_to_do s' <= left_to_do s0)%nat /\ sound s' /\ told s' = true) as G.
  { clear. induction fs as [|e fs IH]; intros s0 s' I T F; simpl; [intros [= <-]; split_and!; [lia|done..]|].
    apply Forall_cons in F as [O F]. destruct (happens e s0) as [s1|] eqn:E; [|done]. intros R.
    destruct (own_decreases e s0 s1 I O T E) as [D T1]. destruct (IH s1 s' (happens_sound e s0 s1 I E) T1 F R) as (Le & I' & T').
    split_and!; [lia|done..]. }
  split.
  - intros fs s' F Rs. by apply (G fs s s').
  - intros fs s' F Rs Stuck. destruct (G fs s s' I T F Rs) as (_ & I' & T'). destruct (own_enabled s' I' T') as [D|(e & s2 & O & E)]; [done|].
    by rewrite Stuck in E.
Qed.

(** Two callers, then a stop: the second's conversation is cut off and the first's
    had ended. *)
Definition wevents : list event := [Connects 1; Connects 2; ConverseEnds 1; Cancelled; ListenerClosed; AcceptFails]%nat.
Definition wstopping : list event := [ConnClosed 2; AheadEnds; ConverseEnds 2; Returns]%nat.
Lemma server_stops_witness : (exists s, runs [AcceptFails; AheadEnds; Returns; Cancelled] (serve true) = Some s /\ returned s = Some true) /\
  exists s s', runs wevents (serve true) = Some s /\ slots s = 1 /\ told s = true /\
  runs wstopping s = Some s' /\ (length wstopping + left_to_do s' <= left_to_do s)%nat /\ returned s' = Some false /\ live s' = ∅.
Proof.
  split.
  { destruct (runs [AcceptFails; AheadEnds; Returns; Cancelled] (serve true)) as [s|] eqn:E; [|vm_compute in E; discriminate].
    destruct (server_stops true _ s E) as (_ & Rt & _). exists s. split; [done|]. destruct (returned s) as [b|] eqn:Eb.
    - by destruct (Rt b eq_refl) as (_ & _ & _ & ->).
    - vm_compute in E. injection E as <-. vm_compute in Eb. discriminate Eb. }
  destruct (runs wevents (serve true)) as [s|] eqn:E; [|vm_compute in E; discriminate].
  destruct (server_stops true wevents s E) as (_ & _ & St).
  assert (exists s', runs wstopping s = Some s' /\ returned s' = Some false /\ live s' = ∅ /\ slots s = 1 /\ told s = true) as (s' & R & Rb & L & Sl & T).
  { vm_compute in E. injection E as <-. eexists. split_and!; vm_compute; reflexivity. }
  exists s, s'. split_and!; [done..| |done|done]. apply (proj1 (St T)); [|done]. by repeat constructor.
Defined.
