(* ===== verification/Agent.v ===== *)
(** * Agent: one node's capacity on disk (internal/agent/agent.go, extent.go,
    liveness.go)

    The agent's state is its lease manager, the borrowed directory (each name
    with the bytes reserved for it) and a log of what was done and told, in
    order. Each call into the operating system succeeds or fails as the next of
    [io] says; [fallocate] also refuses an empty extent. A path below the
    borrowed directory is its name there. *)

From S2P Require Import Prelude Float64 Pool Lease.

Local Open Scope Z_scope.

(** ** Names *)

Fixpoint has_suffix (suf s : string) : bool :=
  (s =? suf)%string || match s with EmptyString => false | String _ s => has_suffix suf s end.
Fixpoint trim_suffix (suf s : string) : string :=
  if (s =? suf)%string then "" else
  match s with EmptyString => EmptyString | String c s => String c (trim_suffix suf s) end.
Fixpoint contains (c : Ascii.ascii) (s : string) : bool :=
  match s with EmptyString => false | String a s => Ascii.eqb a c || contains c s end.

(** [filepath.Clean] of a name without a separator. *)
Definition clean_element (s : string) : string := if (s =? "")%string then "." else s.

Definition invalidSuffix : string := ".invalid".
Definition agentFilePrefix : string := ".forebay-".
Definition lockName : string := agentFilePrefix +:+ "node.lock".
Definition heartbeatName : string := agentFilePrefix +:+ "heartbeat".

Inductive AgentErr : Type :=
  | ErrLocked
  | ErrNoPoolDir
  | ErrNestedPools
  | ErrBadLeaseID
  | ErrNoExtent
  | ErrDeadlineMissed
  | ErrResidualData
  | ErrIO
  | ErrLease (e : LeaseErr)
  | ErrAllocateAndRelease (e : AgentErr) (r : LeaseErr)
  | ErrUnlink (failed : list string).

Definition validLeaseID (id : string) : option AgentErr :=
  if (id =? "")%string || (id =? ".")%string || (id =? "..")%string then Some ErrBadLeaseID
  else if String.prefix agentFilePrefix id then Some ErrBadLeaseID
  else if has_suffix invalidSuffix id then Some ErrBadLeaseID
  else if contains "/" id then Some ErrBadLeaseID
  else if negb (id =? clean_element id)%string then Some ErrBadLeaseID
  else None.

Definition ExtentPath (id : string) : result AgentErr string :=
  match validLeaseID id with Some e => Err e | None => Ok id end.

(** ** The layout

    An absolute path is its segments; [filepath.Rel] of two of them. *)
Fixpoint rel_segments (parent child : list string) : list string :=
  match parent, child with
  | p :: parent', c :: child' =>
      if (p =? c)%string then rel_segments parent' child'
      else replicate (length parent) ".." ++ child
  | _, _ => replicate (length parent) ".." ++ child
  end.
Fixpoint join_slash (l : list string) : string :=
  match l with
  | [] => "."
  | [s] => s
  | s :: l => s +:+ "/" +:+ join_slash l
  end.
Definition hasDotDotPrefix (rel : string) : bool := String.prefix ".." rel.
Definition within (parent child : list string) : bool :=
  let rel := join_slash (rel_segments parent child) in
  negb (rel =? "..")%string && negb (hasDotDotPrefix rel).

Record AgentConfig : Type := mkAgentConfig {
  BorrowedDir : option (list string);
  JournalDir : option (list string);
  CLease : Config;
}.

(** [Config.Validate]; an unset path is [None], and [filepath.Abs] succeeds. *)
Definition Validate (c : AgentConfig) : option AgentErr :=
  match BorrowedDir c, JournalDir c with
  | Some b, Some j =>
      if bool_decide (b = j) || within b j then Some ErrNestedPools
      else ErrLease <$> Quota_Validate (CQuota (CLease c))
  | _, _ => Some ErrNoPoolDir
  end.

(** ** State *)

Inductive event : Type :=
  | ToldReleasing (ids : list string)
  | ToldGranted (id path : string)
  | Created (name : string)
  | Renamed (name to : string)
  | Unlinked (name : string)
  | Freed (id : string).

Section agent.
Context {J : Type} `{Journal J}.

Record Agent : Type := mkAgent {
  config : AgentConfig;
  manager : Manager J;
  dir : gmap string Z;
  beat : option time;
  io : list bool;
  log : list event;
}.

Definition set_manager (m : Manager J) (a : Agent) : Agent :=
  {| config := config a; manager := m; dir := dir a; beat := beat a; io := io a; log := log a |}.
Definition set_dir (d : gmap string Z) (a : Agent) : Agent :=
  {| config := config a; manager := manager a; dir := d; beat := beat a; io := io a; log := log a |}.
Definition set_beat (t : time) (a : Agent) : Agent :=
  {| config := config a; manager := manager a; dir := dir a; beat := Some t; io := io a; log := log a |}.
Definition note (e : event) (a : Agent) : Agent :=
  {| config := config a; manager := manager a; dir := dir a; beat := beat a; io := io a;
     log := log a ++ [e] |}.

(** Whether the next call into the operating system succeeds. *)
Definition os (a : Agent) : bool := default true (head (io a)).
Definition called (a : Agent) : Agent :=
  {| config := config a; manager := manager a; dir := dir a; beat := beat a; io := tail (io a);
     log := log a |}.

(** [os.Remove] of a name. *)
Definition Remove (name : string) (a : Agent) : Agent * bool :=
  if os a && bool_decide (is_Some (dir a !! name))
  then (note (Unlinked name) (set_dir (delete name (dir a)) (called a)), true)
  else (called a, false).

(** ** Granting *)

(** [os.OpenFile] with [O_CREATE|O_EXCL]. *)
Definition OpenExcl (name : string) (a : Agent) : Agent * bool :=
  if os a && negb (bool_decide (is_Some (dir a !! name)))
  then (note (Created name) (set_dir (<[name := 0]> (dir a)) (called a)), true)
  else (called a, false).

(** [reserve] (reserve_linux.go): [fallocate] of an empty extent is EINVAL. *)
Definition reserve (name : string) (size : Z) (a : Agent) : Agent * bool :=
  if os a && (0 <? size) then (set_dir (<[name := size]> (dir a)) (called a), true)
  else (called a, false).

Definition allocate (id : string) (size : Z) (a : Agent) : Agent * option AgentErr :=
  match ExtentPath id with
  | Err e => (a, Some e)
  | Ok path =>
      let '(a, opened) := OpenExcl path a in
      if negb opened then (a, Some ErrIO)
      else
        let '(a, reserved) := reserve path size a in
        if negb reserved then
          let '(a, removed) := Remove path a in (a, Some ErrIO)
        else if negb (os a) then (called a, Some ErrIO)
        else (called a, None)
  end.

Definition granted (id : string) (a : Agent) : Agent :=
  match ExtentPath id with
  | Err _ => a
  | Ok path => note (ToldGranted id path) a
  end.

Definition Grant (l : Lease) (now : time) (a : Agent) : Agent * option AgentErr :=
  let '(m, e) := Accept l now (manager a) in
  let a := set_manager m a in
  match e with
  | Some e => (a, Some (ErrLease e))
  | None =>
      let '(a, e) := allocate (ID l) (Size l) a in
      match e with
      | Some e =>
          let '(m, (_, r)) := Lease.Release (ID l) (manager a) in
          let a := set_manager m a in
          match r with
          | Some r => (a, Some (ErrAllocateAndRelease e r))
          | None => (a, Some e)
          end
      | None => (granted (ID l) a, None)
      end
  end.

(** ** Releasing *)

Definition releasing (ids : list string) (a : Agent) : Agent :=
  match ids with [] => a | _ => note (ToldReleasing ids) a end.

(** The rename overwrites what an interrupted discard left under the name. *)
Definition discard (id : string) (a : Agent) : Agent * option AgentErr :=
  match ExtentPath id with
  | Err e => (a, Some e)
  | Ok path =>
      let invalid := path +:+ invalidSuffix in
      match dir a !! path with
      | None => (called a, Some (if os a then ErrNoExtent else ErrIO))
      | Some bytes =>
          if negb (os a) then (called a, Some ErrIO)
          else
            let a := note (Renamed path invalid)
                       (set_dir (<[invalid := bytes]> (delete path (dir a))) (called a)) in
            let '(a, removed) := Remove invalid a in
            (a, if removed then None else Some ErrIO)
      end
  end.

Definition Release (id : string) (a : Agent) : Agent * (Bytes * option AgentErr) :=
  let a := releasing [id] a in
  let '(a, e) := discard id a in
  match e with
  | Some e => (a, (0, Some e))
  | None =>
      let '(m, (size, e)) := Lease.Release id (manager a) in
      (note (Freed id) (set_manager m a), (size, ErrLease <$> e))
  end.

Record Reclamation : Type := mkReclamation {
  RResult : Result;
  Elapsed : duration;
  Deadline : duration;
  Overran : bool;
  Failed : list string;
}.

(** The extents of released leases, each discarded; what could not be. *)
Fixpoint discard_all (ids : list string) (a : Agent) (failed : list string) : Agent * list string :=
  match ids with
  | [] => (a, failed)
  | id :: ids =>
      let '(a, e) := discard id a in
      discard_all ids a (match e with
                         | None | Some ErrNoExtent => failed
                         | Some _ => failed ++ [id]
                         end)
  end.

(** [elapsed] is what the monotonic clock will say. *)
Definition ReclaimCapacity (need : Bytes) (now : time) (elapsed : duration) (a : Agent)
  : Agent * (Reclamation * option AgentErr) :=
  let '(m, res) := Reclaim need now (manager a) in
  let a := releasing (Dropped res) (set_manager m a) in
  let '(a, failed) := discard_all (Dropped res) a [] in
  let deadline := if Bounded res then ReclaimWithin (CLease (config a)) else 0 in
  let overran := (0 <? deadline) && (deadline <? elapsed) in
  (a, ({| RResult := res; Elapsed := elapsed; Deadline := deadline; Overran := overran;
          Failed := failed |},
       if 0 <? zlen failed then Some (ErrUnlink failed)
       else if overran then Some ErrDeadlineMissed else None)).

(** ** Liveness (liveness.go) *)

(** [tmp] is the name [os.CreateTemp] finds free. *)
Definition Heartbeat (now : time) (tmp : string) (a : Agent) : Agent * option AgentErr :=
  let drop a := (Remove tmp a).1 in
  if negb (os a) then (called a, Some ErrIO)
  else
    let a := set_dir (<[tmp := 0]> (dir a)) (called a) in
    if negb (os a) then (drop (called a), Some ErrIO)
    else
      let a := called a in
      if negb (os a) then (drop (called a), Some ErrIO)
      else
        let a := called a in
        if negb (os a) then (drop (called a), Some ErrIO)
        else (set_beat now (set_dir (<[heartbeatName := 0]> (delete tmp (dir a))) (called a)), None).

Inductive LiveErr : Type := ErrStalled | ErrUnreadable | ErrBadWindow.

(** [written] is [None] when the file is not there, [Some None] when it cannot
    be read as a time. *)
Definition CheckLiveness (written : option (option time)) (staleAfter : duration) (now : time)
  : option LiveErr :=
  if staleAfter <=? 0 then Some ErrBadWindow
  else match written with
       | None => Some ErrStalled
       | Some None => Some ErrUnreadable
       | Some (Some at_) => if staleAfter <? time_Sub now at_ then Some ErrStalled else None
       end.

(** ** Reconciliation *)

Record Reconciliation : Type := mkReconciliation {
  InvalidatedExtents : list string;
  Leftovers : list string;
  OrphanExtents : list string;
  LeasesWithoutExtents : list string;
}.
Definition no_Reconciliation : Reconciliation := mkReconciliation [] [] [] [].

Definition add_leftover (n : string) (r : Reconciliation) : Reconciliation :=
  {| InvalidatedExtents := InvalidatedExtents r; Leftovers := Leftovers r ++ [n];
     OrphanExtents := OrphanExtents r; LeasesWithoutExtents := LeasesWithoutExtents r |}.
Definition add_orphan (n : string) (r : Reconciliation) : Reconciliation :=
  {| InvalidatedExtents := InvalidatedExtents r; Leftovers := Leftovers r;
     OrphanExtents := OrphanExtents r ++ [n]; LeasesWithoutExtents := LeasesWithoutExtents r |}.
Definition add_missing (n : string) (r : Reconciliation) : Reconciliation :=
  {| InvalidatedExtents := InvalidatedExtents r; Leftovers := Leftovers r;
     OrphanExtents := OrphanExtents r; LeasesWithoutExtents := LeasesWithoutExtents r ++ [n] |}.

Definition invalidatedExtents (names : list string) : list string :=
  List.filter (has_suffix invalidSuffix) names.

(** The first loop: over the entries of the directory, in name order. *)
Fixpoint reap (names : list string) (live : gset string) (a : Agent) (onDisk : gset string)
    (r : Reconciliation) : Agent * (gset string * Reconciliation * option AgentErr) :=
  match names with
  | [] => (a, (onDisk, r, None))
  | n :: names =>
      if (n =? lockName)%string || (n =? heartbeatName)%string then reap names live a onDisk r
      else if String.prefix agentFilePrefix n then
        let '(a, removed) := Remove n a in
        if negb removed then (a, (onDisk, r, Some ErrIO))
        else reap names live a onDisk (add_leftover n r)
      else
        let onDisk := {[n]} ∪ onDisk in
        if bool_decide (n ∈ live) then reap names live a onDisk r
        else
          let '(a, removed) := Remove n a in
          if negb removed then (a, (onDisk, r, Some ErrIO))
          else reap names live a onDisk (if has_suffix invalidSuffix n then r else add_orphan n r)
  end.

(** The second: over the live leases with nothing on disk, in name order. *)
Fixpoint drop_missing (ids : list string) (interrupted : gset string) (a : Agent)
    (r : Reconciliation) : Agent * (Reconciliation * option AgentErr) :=
  match ids with
  | [] => (a, (r, None))
  | id :: ids =>
      let '(m, (_, e)) := Lease.Release id (manager a) in
      let a := set_manager m a in
      match e with
      | Some e => (a, (r, Some (ErrLease e)))
      | None => drop_missing ids interrupted a
                  (if bool_decide (id ∈ interrupted) then r else add_missing id r)
      end
  end.

Definition live_ids (a : Agent) : gset string := dom (leases (manager a)).

Definition reconcile (a : Agent) : Agent * (Reconciliation * option AgentErr) :=
  if negb (os a) then (called a, (no_Reconciliation, Some ErrIO))
  else
    let a := called a in
    let entries := sort_Strings (elements (dom (dir a))) in
    let invalid := invalidatedExtents entries in
    let r := {| InvalidatedExtents := invalid; Leftovers := []; OrphanExtents := [];
                LeasesWithoutExtents := [] |} in
    let interrupted := list_to_set (trim_suffix invalidSuffix <$> invalid) in
    let live := live_ids a in
    let '(a, (onDisk, r, e)) := reap entries live a ∅ r in
    match e with
    | Some e => (a, (r, Some e))
    | None => drop_missing (sort_Strings (elements (live ∖ onDisk))) interrupted a r
    end.

(** ** Starting (agent.go)

    [free] says whether the node lock is free, [verified] what the residual-data
    probe finds, and [a] holds the directory and the journal as the last run
    left them. *)
Record Opened : Type := mkOpened {
  ORec : Reconciliation;
  OExpired : list string;
  OUnfittable : list string;
  OJournalRecovered : option LeaseErr;
}.

(** Both directories made, and the lock file opened or created. *)
Definition open_lock (a : Agent) : Agent * bool :=
  if negb (os a) then (called a, false)
  else
    let a := called a in
    if negb (os a) then (called a, false)
    else
      let a := called a in
      if negb (os a) then (called a, false)
      else (set_dir (match dir a !! lockName with
                     | Some _ => dir a
                     | None => <[lockName := 0]> (dir a)
                     end) (called a), true).

Definition Open (acct : Accounting) (j : J) (now : time) (tmp : string) (free verified : bool)
    (a : Agent) : Agent * (Opened * option AgentErr) :=
  let nothing := {| ORec := no_Reconciliation; OExpired := []; OUnfittable := [];
                    OJournalRecovered := None |} in
  match Validate (config a) with
  | Some e => (a, (nothing, Some e))
  | None =>
      let '(a, opened) := open_lock a in
      if negb opened then (a, (nothing, Some ErrIO))
      else if negb free then (a, (nothing, Some ErrLocked))
      else
        let '(m, (restored, e)) := Restore now (WithJournal j (New acct (CLease (config a)))) in
        let a := set_manager m a in
        let r0 := {| ORec := no_Reconciliation; OExpired := Dropped restored;
                     OUnfittable := Unfittable restored; OJournalRecovered := None |} in
        match e with
        | Some (ErrJournal ErrCorrupt) | None =>
            let '(a, (r, e1)) := reconcile a in
            let out := {| ORec := r; OExpired := Dropped restored;
                          OUnfittable := Unfittable restored; OJournalRecovered := None |} in
            let '(a, e2) := Heartbeat now tmp a in
            match e2, e1 with
            | Some e, _ => (a, (out, Some e))
            | None, Some e => (a, (out, Some e))
            | None, None =>
                if negb verified then (a, (out, Some ErrResidualData))
                else (a, ({| ORec := r; OExpired := Dropped restored;
                             OUnfittable := Unfittable restored; OJournalRecovered := e |}, None))
            end
        | Some e => (a, (r0, Some (ErrLease e)))
        end
  end.

End agent.
Arguments Agent J : clear implicits.
