(* ===== verification/AgentTheorems.v ===== *)
(** * AgentTheorems: what the node says it lent is what is on disk *)

From S2P Require Import Prelude Float64 Pool Lease LeaseProofs Journal LeaseTheorems Agent.

Local Open Scope Z_scope.

(** ** Names *)

Lemma valid_not_special id : validLeaseID id = None ->
  id <> lockName /\ id <> heartbeatName /\ String.prefix agentFilePrefix id = false /\
  has_suffix invalidSuffix id = false.
Proof.
  unfold validLeaseID. destruct (_ || _ || _); [done|].
  destruct (String.prefix agentFilePrefix id) eqn:P; [done|].
  destruct (has_suffix invalidSuffix id) eqn:S; [done|]. intros _.
  split_and!; auto; intros ->; done.
Qed.

Lemma validLeaseID_err id e : validLeaseID id = Some e -> e = ErrBadLeaseID.
Proof. unfold validLeaseID. repeat (case_if; [by intros [= <-]|]). done. Qed.

Lemma append_length (s t : string) : String.length (s +:+ t) = (String.length s + String.length t)%nat.
Proof. induction s as [|c s IH]; [done|]. simpl. by rewrite IH. Qed.

Lemma has_suffix_app suf id : has_suffix suf (id +:+ suf) = true.
Proof.
  induction id as [|c id IH]; simpl.
  - destruct suf; simpl; [done|]. by rewrite Ascii.eqb_refl, String.eqb_refl.
  - by rewrite IH, orb_true_r.
Qed.

Lemma invalid_ne id : id +:+ invalidSuffix <> id.
Proof. intros E. apply (f_equal String.length) in E. rewrite append_length in E. simpl in E. lia. Qed.

Lemma prefix_app_inv p s t : String.prefix p s = true -> String.prefix p (s +:+ t) = true.
Proof.
  revert s. induction p as [|c p IH]; intros s; [by destruct (s +:+ t)|].
  destruct s as [|d s]; simpl; [done|]. destruct (ascii_dec c d); [apply IH|done].
Qed.

Lemma String_prefix_cons c p a s : String.prefix (String c p) (String a s) =
  if ascii_dec c a then String.prefix p s else false.
Proof. done. Qed.
Lemma append_cons a s t : String a s +:+ t = String a (s +:+ t).
Proof. done. Qed.

(** An extent being discarded is under no agent file's prefix. *)
Lemma prefix_of_invalid id : validLeaseID id = None ->
  String.prefix agentFilePrefix (id +:+ invalidSuffix) = false.
Proof.
  intros V. destruct (valid_not_special _ V) as (_ & _ & P & _). revert P. clear V.
  unfold agentFilePrefix, invalidSuffix.
  do 9 (destruct id as [|? id]; [by vm_compute|]; rewrite append_cons, !String_prefix_cons;
    match goal with |- context [ascii_dec ?x ?y] => destruct (ascii_dec x y) as [<-|]; [|done] end).
  by destruct id.
Qed.

Section agent.
Context {J : Type} `{Journal J}.
Implicit Types a : Agent J.

(** ** The manager's release, when it finds the lease *)

Lemma Release_held base id l (m : Manager J) : inv base m -> leases m !! id = Some l ->
  exists j e, Lease.Release id m = (set_journal j (drop_lease l m), (Size l, e)) /\ ID l = id /\
              (e = None \/ exists e', e = Some (ErrJournal e')).
Proof.
  intros I E. pose proof (inv_keyed _ _ I _ _ E) as K. simpl in K. subst id.
  unfold Lease.Release. rewrite E, (releaseLocked_Ok base) by done.
  destruct (persistLocked (drop_lease l m)) as [m' e] eqn:P.
  apply persistLocked_frame in P as [j ->]. exists j, (ErrJournal <$> e).
  split_and!; auto. destruct e; simpl; eauto.
Qed.

Lemma drop_grant l now (m : Manager J) : leases m !! ID l = None ->
  leases (drop_lease (set_GrantedAt now l) (grant l now m)) = leases m /\
  acct (drop_lease (set_GrantedAt now l) (grant l now m)) = acct m.
Proof.
  intros N. split; simpl.
  - by rewrite delete_insert_id.
  - unfold set_Borrowed. simpl. destruct (acct m). simpl. f_equal. lia.
Qed.

(** ** Extents *)

(** How the call after [k] more will go. *)
Definition answer (k : nat) a : bool := default true (io a !! k).

(** An extent is made when its name is valid and free, it has bytes, and creating,
    reserving and closing it all succeed. *)
Definition can_allocate (id : string) (size : Z) a : Prop :=
  validLeaseID id = None /\ dir a !! id = None /\ 0 < size /\
  answer 0 a = true /\ answer 1 a = true /\ answer 2 a = true.

(** What an allocation that failed leaves under a name that was free: nothing
    reserved, when reserving failed and then removing the file did; all of it, when
    only closing the file failed. *)
Definition left_behind (id : string) (size : Z) a (n : Z) : Prop :=
  validLeaseID id = None /\ dir a !! id = None /\ answer 0 a = true /\ answer 2 a = false /\
  (n = 0 /\ (answer 1 a = false \/ size <= 0) \/ n = size /\ 0 < size /\ answer 1 a = true).

(** What [allocate] comes to. *)
Inductive allocated (id : string) (size : Z) a : Agent J -> option AgentErr -> Prop :=
  | allocated_none a' e : dir a' = dir a -> manager a' = manager a -> config a' = config a ->
      ~ can_allocate id size a -> (forall n, ~ left_behind id size a n) -> allocated id size a a' (Some e)
  | allocated_partial a' n : left_behind id size a n ->
      dir a' = <[id := n]> (dir a) -> manager a' = manager a -> config a' = config a ->
      allocated id size a a' (Some ErrIO)
  | allocated_done a' : can_allocate id size a ->
      dir a' = <[id := size]> (dir a) -> manager a' = manager a -> config a' = config a ->
      log a' = log a ++ [Created id] -> io a' = tail (tail (tail (io a))) ->
      allocated id size a a' None.

Lemma os_false a : os a = false -> false ∈ io a.
Proof. unfold os. destruct (io a); simpl; [done|]. intros ->. left. Qed.
Lemma tail_in {A} (x : A) l : x ∈ tail l -> x ∈ l.
Proof. destruct l; simpl; [done|]. by right. Qed.
Create HintDb agent.
#[local] Hint Resolve os_false tail_in : agent.
Lemma os_answer a : os a = answer 0 a.
Proof. unfold os, answer. by destruct (io a). Qed.
Lemma answer_false k a : answer k a = false -> false ∈ io a.
Proof. unfold answer. destruct (io a !! k) eqn:E; simpl; [|done]. intros ->. by eapply list_elem_of_lookup_2. Qed.
Lemma answer_tail k (a b : Agent J) : io b = tail (io a) -> answer k b = answer (S k) a.
Proof. unfold answer. intros ->. by destruct (io a). Qed.

Lemma allocate_spec id size a a' e : allocate id size a = (a', e) -> allocated id size a a' e.
Proof.
  unfold allocate, ExtentPath. destruct (validLeaseID id) as [ve|] eqn:V.
  { intros [= <- <-]. constructor; auto; [intros (? & _)|intros n (? & _)]; congruence. }
  unfold OpenExcl. destruct (os a) eqn:O1; rewrite os_answer in O1; simpl.
  2: { intros [= <- <-]. constructor; auto; [intros (_ & _ & _ & ? & _)|intros n (_ & _ & ? & _)]; congruence. }
  case_bool_decide as D; simpl.
  { intros [= <- <-]. destruct D as [z D]. constructor; auto; [intros (_ & ? & _)|intros n (_ & ? & _)]; congruence. }
  apply eq_None_not_Some in D.
  unfold reserve. set (a1 := note _ _). assert (dir a1 = <[id := 0]> (dir a)) as Ed by done.
  assert (os a1 = answer 1 a) as -> by (rewrite os_answer; by apply answer_tail).
  set (a2 := called a1). assert (forall b : Agent J, io b = io a2 -> os b = answer 2 a) as O2.
  { intros b E. rewrite os_answer, (answer_tail 0 a1 b), (answer_tail 1 a a1); done. }
  destruct (answer 1 a && (0 <? size)) eqn:B; simpl.
  - apply andb_true_iff in B as [B Sz%Z.ltb_lt].
    assert (<[id := size]> (<[id := 0]> (dir a)) = <[id := size]> (dir a)) as Ei by apply insert_insert_eq.
    rewrite O2 by done. destruct (answer 2 a) eqn:O3; simpl; intros [= <- <-].
    + apply allocated_done; auto. by split_and!.
    + apply (allocated_partial _ _ _ _ size); simpl; auto. split_and!; auto.
  - assert (answer 1 a = false \/ size <= 0) as B'.
    { destruct (answer 1 a); [|by left]. right. by apply Z.ltb_ge in B. }
    unfold Remove. rewrite O2 by done. destruct (answer 2 a) eqn:O3; simpl.
    + rewrite bool_decide_true by (rewrite lookup_insert_eq; eauto). intros [= <- <-].
      constructor; auto; simpl; [by rewrite delete_insert_eq, delete_id| |].
      * intros (_ & _ & ? & _ & ? & _). destruct B'; [congruence|lia].
      * intros n (_ & _ & _ & ? & _). congruence.
    + intros [= <- <-]. apply (allocated_partial _ _ _ _ 0); simpl; auto. split_and!; auto.
Qed.

(** What [discard] comes to. *)
Inductive discarded (id : string) a : Agent J -> option AgentErr -> Prop :=
  | discarded_refused a' e : manager a' = manager a -> config a' = config a -> dir a' = dir a ->
      log a' = log a -> e = ErrNoExtent /\ dir a !! id = None \/ e = ErrIO /\ false ∈ io a \/
      e = ErrBadLeaseID /\ validLeaseID id <> None ->
      discarded id a a' (Some e)
  | discarded_half a' n : validLeaseID id = None -> dir a !! id = Some n -> false ∈ io a ->
      manager a' = manager a -> config a' = config a ->
      dir a' = <[id +:+ invalidSuffix := n]> (delete id (dir a)) ->
      discarded id a a' (Some ErrIO)
  | discarded_done a' : validLeaseID id = None -> is_Some (dir a !! id) -> manager a' = manager a -> config a' = config a ->
      dir a' = delete (id +:+ invalidSuffix) (delete id (dir a)) ->
      log a' = log a ++ [Renamed id (id +:+ invalidSuffix); Unlinked (id +:+ invalidSuffix)] ->
      io a' = tail (tail (io a)) -> discarded id a a' None.

Lemma discard_spec id a a' e : discard id a = (a', e) -> discarded id a a' e.
Proof.
  unfold discard, ExtentPath. destruct (validLeaseID id) as [ve|] eqn:V.
  { intros [= <- <-]. constructor; auto. right; right. split; [by eapply validLeaseID_err|by rewrite V]. }
  destruct (dir a !! id) as [n|] eqn:D.
  2: { intros [= <- <-]. destruct (os a) eqn:O1; constructor; auto with agent. }
  destruct (os a) eqn:O1; simpl; [|intros [= <- <-]; constructor; auto with agent].
  unfold Remove. set (a1 := note _ _). destruct (os a1) eqn:O2; simpl.
  - rewrite bool_decide_true by (rewrite lookup_insert_eq; eauto). intros [= <- <-].
    apply discarded_done; simpl; [done|by rewrite D|done|done|by rewrite delete_insert_eq| |done].
    by rewrite <- app_assoc.
  - intros [= <- <-]. eapply discarded_half; eauto.
    apply os_false in O2. simpl in O2. auto with agent.
Qed.

Lemma discard_frame id a : manager (discard id a).1 = manager a /\ beat (discard id a).1 = beat a.
Proof.
  unfold discard, Remove. destruct (ExtentPath id); [|done]. case_match; [|done].
  destruct (negb (os a)); [done|]. by destruct (_ && _).
Qed.

Lemma discard_all_frame ids : forall a failed,
  manager (discard_all ids a failed).1 = manager a /\ beat (discard_all ids a failed).1 = beat a.
Proof.
  induction ids as [|id ids IH]; intros a failed; [done|]. simpl.
  pose proof (discard_frame id a) as [M B]. destruct (discard id a) as [a' e]. simpl in *.
  destruct (IH a' (match e with None | Some ErrNoExtent => failed | Some _ => failed ++ [id] end)) as [M' B'].
  by rewrite M', B', M, B.
Qed.

(** A name no discard touches but the one that removes it. *)
Lemma discard_dir id k a : validLeaseID k = None -> dir a !! k = None -> dir (discard id a).1 !! k = None.
Proof.
  intros V N. destruct (discard id a) as [a' e] eqn:D. apply discard_spec in D.
  destruct (valid_not_special _ V) as (_ & _ & _ & S).
  assert (k <> id +:+ invalidSuffix) as Ne by (intros ->; by rewrite has_suffix_app in S).
  destruct D as [a' e _ _ Hd _ _|a' n _ _ _ _ _ Hd|a' _ _ _ _ Hd]; simpl; rewrite Hd.
  - done.
  - rewrite lookup_insert_ne by done. by apply lookup_delete_None; right.
  - apply lookup_delete_None. right. by apply lookup_delete_None; right.
Qed.

(** ** Fault-free runs

    [agree]: below the agent's own files, what is on disk is what is lent. *)
Definition agree a : Prop := forall id, String.prefix agentFilePrefix id = false ->
  dir a !! id = Size <$> leases (manager a) !! id.

Record ainv (base : Z) a : Prop := {
  ai_inv : inv base (manager a);
  ai_agree : agree a;
  ai_valid : forall id, is_Some (leases (manager a) !! id) -> validLeaseID id = None;
  ai_calm : Forall (fun b => b = true) (io a);
}.

Lemma calm_tail (l : list bool) : Forall (fun b => b = true) l -> Forall (fun b => b = true) (tail l).
Proof. by destruct 1. Qed.
Lemma calm_no_fault (l : list bool) : Forall (fun b => b = true) l -> ~ false ∈ l.
Proof. intros F H1. by apply (proj1 (Forall_forall _ _) F) in H1. Qed.
#[local] Hint Resolve calm_tail calm_no_fault : agent.

Inductive astep : Agent J -> Agent J -> Prop :=
  | astep_Grant l now a : is_int64 (Size l) -> is_int64 (Term l) -> astep a (Grant l now a).1
  | astep_Release id a : astep a (Release id a).1
  | astep_Reclaim need now elapsed a : is_int64 need -> astep a (ReclaimCapacity need now elapsed a).1
  | astep_Heartbeat now tmp a : String.prefix agentFilePrefix tmp = true -> astep a (Heartbeat now tmp a).1.

(** Without faults, an extent that is there goes with its discard, and nothing
    else does. *)
Lemma discard_there id a : validLeaseID id = None -> is_Some (dir a !! id) ->
  dir a !! (id +:+ invalidSuffix) = None -> Forall (fun b => b = true) (io a) ->
  exists a', discard id a = (a', None) /\ dir a' = delete id (dir a) /\ manager a' = manager a.
Proof.
  intros Vi [n Ad] Ni C. destruct (discard id a) as [a' e] eqn:D.
  apply discard_spec in D. destruct D as [a' e Hm Hc Hd Hl F|a' m _ _ F|a' _ _ Hm Hc Hd Hl Hi].
  - exfalso. destruct F as [[_ F]|[[_ F]|[_ F]]]; [congruence| |congruence]. by apply (calm_no_fault _ C).
  - by apply (calm_no_fault _ C) in F.
  - exists a'. split_and!; auto.
    rewrite Hd. apply delete_id. rewrite lookup_delete_ne; [done|]. intros X. by apply (invalid_ne id).
Qed.

(** A live lease has an extent that can go. *)
Lemma live_extent base id l a : ainv base a -> leases (manager a) !! id = Some l ->
  validLeaseID id = None /\ is_Some (dir a !! id) /\ dir a !! (id +:+ invalidSuffix) = None.
Proof.
  intros [I A V C] E. pose proof (V id ltac:(by rewrite E)) as Vi.
  destruct (valid_not_special _ Vi) as (_ & _ & P & _). split_and!; auto.
  - by rewrite (A id P), E.
  - rewrite (A _ (prefix_of_invalid _ Vi)).
    destruct (leases (manager a) !! (id +:+ invalidSuffix)) as [x|] eqn:X; [|done].
    pose proof (V _ ltac:(by rewrite X)) as Vx. destruct (valid_not_special _ Vx) as (_ & _ & _ & S).
    by rewrite has_suffix_app in S.
Qed.

(** An extent already gone is an error that touches nothing. *)
Lemma discard_absent id a : dir a !! id = None ->
  exists e, (discard id a).2 = Some e /\ dir (discard id a).1 = dir a /\ manager (discard id a).1 = manager a.
Proof.
  intros D. destruct (discard id a) as [a' e] eqn:E. apply discard_spec in E.
  destruct E as [a' e Hm Hc Hd Hl F|a' n _ F|a' _ [n F]]; [|congruence|congruence].
  simpl. eauto.
Qed.

Lemma Remove_calm P n a : Forall P (io a) -> Forall P (io (Remove n a).1).
Proof. unfold Remove. intros F. destruct (_ && _); simpl; by destruct F. Qed.
Lemma allocate_calm P id size a : Forall P (io a) -> Forall P (io (allocate id size a).1).
Proof.
  unfold allocate, OpenExcl, reserve. intros F. destruct (ExtentPath id); [|done].
  assert (forall l : list bool, Forall P l -> Forall P (tail l)) as Ft by (by destruct 1).
  destruct (_ && negb _); simpl; [|by apply Ft].
  destruct (_ && (0 <? size)); simpl.
  - destruct (negb (os _)); simpl; by do 3 apply Ft.
  - pose proof (Remove_calm P a0 (called (note (Created a0) (set_dir (<[a0:=0]> (dir a)) (called a))))) as R.
    destruct (Remove a0 _). simpl in *. apply R. by do 2 apply Ft.
Qed.

Lemma discard_calm P id a : Forall P (io a) -> Forall P (io (discard id a).1).
Proof.
  unfold discard. intros F. destruct (ExtentPath id) as [p|]; [|done].
  assert (forall l : list bool, Forall P l -> Forall P (tail l)) as Ft by (by destruct 1).
  destruct (dir a !! p); simpl; [|by apply Ft]. destruct (negb (os a)); simpl; [by apply Ft|].
  match goal with |- context [Remove ?n ?b] => pose proof (Remove_calm P n b) as R; destruct (Remove n b) end.
  apply R. by apply Ft.
Qed.

(** Accepting and taking back again leaves the leases and the accounting. *)
Lemma undo_Accept base l now j (m : Manager J) : leases m !! ID l = None ->
  inv base (set_journal j (grant l now (prune now m))) ->
  exists m' e, Lease.Release (ID l) (set_journal j (grant l now (prune now m))) = (m', (Size l, e)) /\
    inv base m' /\ leases m' = leases m /\ acct m' = acct m.
Proof.
  intros N I. destruct (prune_frame now m) as [rs Ep]. rewrite Ep in *.
  destruct (Release_held base (ID l) (set_GrantedAt now l) _ I) as (j' & e & -> & _ & _).
  { simpl. by rewrite lookup_insert_eq. }
  eexists _, e. split; [done|]. split.
  - apply set_journal_inv, drop_lease_inv; [done|]. simpl. by rewrite lookup_insert_eq.
  - exact (drop_grant l now (set_reclaims rs m) N).
Qed.

(** ** The accounting, whatever the disk answers *)

Lemma Grant_inv base l now a : inv base (manager a) -> is_int64 (Size l) -> is_int64 (Term l) ->
  inv base (manager (Grant l now a).1).
Proof.
  intros I Sz Tm. unfold Grant. destruct (Accept l now (manager a)) as [m e] eqn:Ac.
  pose proof (Accept_inv base l now (manager a) Sz Tm I) as I'. rewrite Ac in I'. simpl in I'.
  destruct (Accept_spec _ _ _ _ _ _ I Ac) as [j S]. destruct e as [e|]; [done|]. destruct S as (-> & N & _).
  destruct (allocate (ID l) (Size l) (set_manager _ a)) as [a' e] eqn:Al. apply allocate_spec in Al.
  destruct Al as [a' e Hd Hm|a' n Lb Hd Hm|a' Can Hd Hm]; simpl in *; rewrite ?Hm.
  1,2: destruct (undo_Accept base l now j (manager a) N I') as (m' & [e'|] & -> & I2 & _); exact I2.
  unfold granted. destruct (ExtentPath _); simpl; by rewrite Hm.
Qed.

(** A release that gives nothing back says so. *)
Lemma Release_outcome base id a : inv base (manager a) ->
  let '(a', (_, e)) := Release id a in
  inv base (manager a') /\
  (leases (manager a') = delete id (leases (manager a)) \/ leases (manager a') = leases (manager a) /\ e <> None).
Proof.
  intros I. unfold Release. simpl releasing. set (a0 := note _ a).
  pose proof (discard_frame id a0) as [M _]. destruct (discard id a0) as [a1 e]. simpl in M.
  destruct e as [e|]; [rewrite M; by auto|]. rewrite M. change (manager a0) with (manager a).
  destruct (leases (manager a) !! id) as [l|] eqn:E.
  - destruct (Release_held base id l (manager a) I E) as (j & e & -> & Ei & _). simpl. subst id. split; [|by left].
    by apply set_journal_inv, drop_lease_inv.
  - unfold Lease.Release. rewrite E. simpl. split; [done|]. by right.
Qed.

Lemma ainv_Grant base l now a : is_int64 (Size l) -> is_int64 (Term l) -> ainv base a ->
  ainv base (Grant l now a).1.
Proof.
  intros Sz Tm [I A V C]. unfold Grant. destruct (Accept l now (manager a)) as [m e] eqn:Ac.
  pose proof (Accept_inv base l now (manager a) Sz Tm I) as I'. rewrite Ac in I'. simpl in I'.
  destruct (Accept_spec _ _ _ _ _ _ I Ac) as [j S].
  destruct (prune_frame now (manager a)) as [rs Ep].
  destruct e as [e|].
  { subst m. constructor; simpl; auto; rewrite Ep; auto. }
  destruct S as (-> & N & _).
  pose proof (allocate_calm (fun b => b = true) (ID l) (Size l)
    (set_manager (set_journal j (grant l now (prune now (manager a)))) a) C) as C'.
  destruct (allocate (ID l) (Size l) (set_manager _ a)) as [a' e] eqn:Al. apply allocate_spec in Al.
  destruct Al as [a' e Hd Hm|a' n (_ & _ & _ & F & _)|a' (Vi & _) Hd Hm Hc Hl Hi]; simpl in *.
  - rewrite Hm. destruct (undo_Accept base l now j (manager a) N I') as (m' & e' & -> & I2 & El & Ea).
    assert (ainv base (set_manager m' a')) as Q.
    { constructor; simpl; auto; [|by rewrite El]. intros id P. simpl. rewrite Hd, El. by apply A. }
    destruct e'; exact Q.
  - apply answer_false in F. by apply (calm_no_fault _ C) in F.
  - unfold granted, ExtentPath. rewrite Vi. constructor; simpl; rewrite ?Hm; auto.
    + intros id P. simpl. rewrite Hd, Hm. simpl. rewrite Ep. simpl.
      destruct (decide (id = ID l)) as [->|Ne].
      * by rewrite !lookup_insert_eq.
      * rewrite !lookup_insert_ne by done. by apply A.
    + simpl. rewrite Ep. simpl. intros id.
      destruct (decide (id = ID l)) as [->|Ne]; [done|]. rewrite lookup_insert_ne by done. apply V.
Qed.

Lemma ainv_Release base id a : ainv base a -> ainv base (Release id a).1.
Proof.
  intros Ai. unfold Release. simpl releasing.
  assert (ainv base (note (ToldReleasing [id]) a)) as [I A V C] by by destruct Ai.
  set (a0 := note _ a) in *.
  destruct (leases (manager a0) !! id) as [l|] eqn:E.
  - destruct (live_extent base id l a0) as (Vi & Is & Ni); [done..|].
    pose proof (discard_calm _ id a0 C) as C'.
    destruct (discard_there id a0 Vi Is Ni C) as (a' & Ed & Hd & Hm). rewrite Ed in *. rewrite Hm. simpl in C'.
    destruct (Release_held base id l (manager a0) I E) as (j & e & -> & Ei & _). simpl.
    rewrite <- Ei in *. constructor; simpl; auto.
    + apply set_journal_inv. by apply drop_lease_inv.
    + intros k P. simpl. rewrite Hd. destruct (decide (k = ID l)) as [->|Ne].
      * by rewrite !lookup_delete_eq.
      * rewrite !lookup_delete_ne by done. by apply A.
    + intros k. destruct (decide (k = ID l)) as [->|Ne].
      * rewrite lookup_delete_eq. by intros [? ?].
      * rewrite lookup_delete_ne by done. apply V.
  - pose proof (discard_calm (fun b => b = true) id a0 C) as C'.
    destruct (discard id a0) as [a' e] eqn:D. apply discard_spec in D.
    destruct D as [a' e Hm Hc Hd Hl F|a' n _ _ F|a' Vi F Hm]; simpl in C'.
    + simpl. constructor; rewrite ?Hm; auto. intros k P. rewrite Hd, Hm. by apply A.
    + by apply (calm_no_fault _ C) in F.
    + destruct (valid_not_special _ Vi) as (_ & _ & P & _). rewrite (A id P), E in F. by destruct F.
Qed.

(** The leases a reclaim released, each with its extent. *)
Lemma discard_all_there ids : forall a failed, NoDup ids ->
  (forall id, id ∈ ids -> validLeaseID id = None /\ is_Some (dir a !! id) /\
                          dir a !! (id +:+ invalidSuffix) = None) ->
  Forall (fun b => b = true) (io a) ->
  exists a', discard_all ids a failed = (a', failed) /\ manager a' = manager a /\
    Forall (fun b => b = true) (io a') /\
    forall k, dir a' !! k = if bool_decide (k ∈ ids) then None else dir a !! k.
Proof.
  induction ids as [|id ids IH]; intros a failed N Th C; simpl.
  { exists a. split_and!; auto. }
  apply NoDup_cons in N as [Nid N]. destruct (Th id ltac:(left)) as (Vi & Is & Ni).
  pose proof (discard_calm _ id a C) as C'.
  destruct (discard_there id a Vi Is Ni C) as (a' & Ed & Hd & Hm). rewrite Ed in *. simpl in C'.
  destruct (IH a' failed N) as (a2 & -> & Hm2 & C2 & Hd2); [|done|].
  - intros k Hk. destruct (Th k ltac:(by right)) as (Vk & [n Ek] & Nk). split_and!; auto; rewrite Hd.
    + rewrite lookup_delete_ne by congruence. by rewrite Ek.
    + destruct (decide (k +:+ invalidSuffix = id)) as [->|Ne]; [apply lookup_delete_eq|by rewrite lookup_delete_ne].
  - exists a2. split_and!; [done|congruence|done|]. intros k. rewrite Hd2, Hd.
    destruct (decide (k = id)) as [->|Ne].
    + rewrite lookup_delete_eq, (bool_decide_true (id ∈ id :: ids)) by left. by case_bool_decide.
    + rewrite lookup_delete_ne by done.
      rewrite (bool_decide_ext (k ∈ ids) (k ∈ id :: ids)); [done|]. rewrite elem_of_cons. naive_solver.
Qed.

(** What a reclamation drops was held, and nothing else goes. *)
Lemma Reclaim_leases base need now (m : Manager J) : inv base m -> is_int64 need ->
  exists D, held m D /\ Dropped (Reclaim need now m).2 = ID <$> D /\
    forall id, leases (Reclaim need now m).1 !! id = if bool_decide (id ∈ ID <$> D) then None else leases m !! id.
Proof.
  intros I Hn. destruct (Reclaim need now m) as [m' r] eqn:R. simpl. destruct (Z_le_gt_dec need 0) as [N|N].
  - unfold Reclaim in R. rewrite (proj2 (Z.leb_le _ _) N) in R. injection R as <- <-.
    exists []. split_and!; auto. split; constructor.
  - destruct (Reclaim_spec base need now m m' r I Hn ltac:(lia) R) as ((j & rs & ->) & ED & _).
    eexists. split_and!; [|exact ED|].
    + by eapply reclaim_choice_held.
    + intros id. simpl. apply drop_leases_lookup.
Qed.

Lemma ainv_Reclaim base need now elapsed a : is_int64 need -> ainv base a ->
  ainv base (ReclaimCapacity need now elapsed a).1.
Proof.
  intros Hn Ai. pose proof Ai as [I A V C]. unfold ReclaimCapacity.
  pose proof (Reclaim_inv base need now (manager a) Hn I) as I'.
  destruct (Reclaim need now (manager a)) as [m r] eqn:R. simpl in I'.
  pose proof (Reclaim_leases base need now (manager a) I Hn) as X. rewrite R in X.
  destruct X as (D & Hd & ED & El). simpl in *.
  destruct Hd as [ND F].
  destruct (discard_all_there (Dropped r) (releasing (Dropped r) (set_manager m a)) []) as (a' & Ed & Hm & C' & Hd).
  - by rewrite ED.
  - intros id Hid. rewrite ED in Hid. apply list_elem_of_fmap in Hid as (l & -> & Hl).
    pose proof (proj1 (Forall_forall _ _) F l Hl) as E.
    destruct (live_extent base (ID l) l a Ai E) as (Vi & Is & Ni). by destruct (Dropped r).
  - by destruct (Dropped r).
  - rewrite Ed. simpl.
    assert (dir (releasing (Dropped r) (set_manager m a)) = dir a /\
            manager (releasing (Dropped r) (set_manager m a)) = m) as [Ed' Em] by by destruct (Dropped r).
    rewrite Ed', Em in *. constructor; rewrite ?Hm; auto.
    + intros id P. rewrite Hd, Hm, El, ED. case_bool_decide; [done|]. by apply A.
    + intros id. rewrite El. case_bool_decide; [by intros [? ?]|]. apply V.
Qed.

(** ** The heartbeat *)

Lemma Remove_frame n a : manager (Remove n a).1 = manager a /\ beat (Remove n a).1 = beat a.
Proof. unfold Remove. by destruct (_ && _). Qed.

Lemma Remove_dir n k a : dir a !! k = None -> dir (Remove n a).1 !! k = None.
Proof. unfold Remove. destruct (_ && _); simpl; [|done]. intros N. apply lookup_delete_None. by right. Qed.

(** The heartbeat says so only when it was published. *)
Lemma Heartbeat_spec now tmp a : let '(a', e) := Heartbeat now tmp a in
  manager a' = manager a /\ beat a' = (match e with None => Some now | Some _ => beat a end) /\
  forall k, k <> tmp -> k <> heartbeatName -> dir a !! k = None -> dir a' !! k = None.
Proof.
  unfold Heartbeat. destruct (os a); simpl; [|done].
  repeat match goal with |- context [negb ?b] => destruct b; simpl end;
    try match goal with |- context [Remove ?n ?b] =>
      pose proof (Remove_frame n b) as [-> ->]; simpl end;
    (split_and!; [done|done|]); intros k N1 N2 N;
    try apply Remove_dir; simpl; rewrite ?lookup_insert_ne, ?lookup_delete_ne by done;
    by rewrite ?lookup_insert_ne by done.
Qed.

Lemma Heartbeat_calm P now tmp a : Forall P (io a) -> Forall P (io (Heartbeat now tmp a).1).
Proof.
  intros F. assert (forall l : list bool, Forall P l -> Forall P (tail l)) as Ft by (by destruct 1).
  unfold Heartbeat. destruct (os a); simpl; [|by apply Ft].
  repeat match goal with |- context [negb ?b] => destruct b; simpl end;
    try apply Remove_calm; simpl; auto.
Qed.

Lemma Remove_other n k a : k <> n -> dir (Remove n a).1 !! k = dir a !! k.
Proof. intros N. unfold Remove. destruct (_ && _); simpl; [|done]. by apply lookup_delete_ne. Qed.

Lemma Heartbeat_other now tmp k a : k <> tmp -> k <> heartbeatName ->
  dir (Heartbeat now tmp a).1 !! k = dir a !! k.
Proof.
  intros N1 N2. unfold Heartbeat. destruct (os a); simpl; [|done].
  repeat match goal with |- context [negb ?b] => destruct b; simpl end;
    rewrite ?Remove_other by done; simpl; by rewrite ?lookup_insert_ne, ?lookup_delete_ne, ?lookup_insert_ne by done.
Qed.

Lemma ainv_Heartbeat base now tmp a : String.prefix agentFilePrefix tmp = true -> ainv base a ->
  ainv base (Heartbeat now tmp a).1.
Proof.
  intros P [I A V C]. pose proof (Heartbeat_spec now tmp a) as S.
  pose proof (Heartbeat_calm _ now tmp a C) as C'. pose proof (Heartbeat_other now tmp) as O.
  destruct (Heartbeat now tmp a) as [a' e] eqn:E. destruct S as (M & _ & _). simpl in *.
  constructor; simpl; rewrite ?M; auto.
  intros k Pk. rewrite M. specialize (O k a). rewrite E in O. simpl in O. rewrite O; [by apply A|congruence|by intros ->].
Qed.

Lemma astep_ainv base a a' : astep a a' -> ainv base a -> ainv base a'.
Proof. destruct 1; [by apply ainv_Grant|apply ainv_Release|by apply ainv_Reclaim|by apply ainv_Heartbeat]. Qed.

Lemma asteps_ainv base a a' : rtc astep a a' -> ainv base a -> ainv base a'.
Proof. induction 1; eauto using astep_ainv. Qed.

(** ** Whatever the disk refuses

    A discard that was interrupted leaves an extent under the name it was moved to;
    a lease whose discard failed is still backed by it. *)

Definition backed_by (id : string) (n : Z) (d : gmap string Z) : Prop :=
  d !! id = Some n \/ d !! id = None /\ d !! (id +:+ invalidSuffix) = Some n.
Definition backed a : Prop := forall id l, leases (manager a) !! id = Some l ->
  validLeaseID id = None /\ backed_by id (Size l) (dir a).

Lemma backed_by_same id n (d d' : gmap string Z) : d' !! id = d !! id ->
  d' !! (id +:+ invalidSuffix) = d !! (id +:+ invalidSuffix) -> backed_by id n d -> backed_by id n d'.
Proof. unfold backed_by. by intros -> ->. Qed.

Lemma not_invalid k : validLeaseID k = None -> forall id, k <> id +:+ invalidSuffix.
Proof. intros V id ->. destruct (valid_not_special _ V) as (_ & _ & _ & S). by rewrite has_suffix_app in S. Qed.

Lemma append_inj_l (s t u : string) : s +:+ u = t +:+ u -> s = t.
Proof.
  revert t. induction s as [|c s IH]; intros [|d t]; auto.
  - intros E. apply (f_equal String.length) in E. rewrite !append_length in E. simpl in E. lia.
  - intros E. apply (f_equal String.length) in E. rewrite !append_length in E. simpl in E. lia.
  - rewrite !append_cons. intros [= -> E]. f_equal. by apply IH.
Qed.

Lemma discard_other id k a : k <> id -> k <> id +:+ invalidSuffix -> dir (discard id a).1 !! k = dir a !! k.
Proof.
  intros N1 N2. destruct (discard id a) as [a' e] eqn:D. apply discard_spec in D.
  destruct D as [a' e _ _ Hd _ _|a' n _ _ _ _ _ Hd|a' _ _ _ _ Hd]; simpl; rewrite Hd;
    by rewrite ?lookup_insert_ne, ?lookup_delete_ne by done.
Qed.

Lemma discard_all_other ids k : forall a failed, k ∉ ids -> (forall id, k <> id +:+ invalidSuffix) ->
  dir (discard_all ids a failed).1 !! k = dir a !! k.
Proof.
  induction ids as [|id ids IH]; intros a failed N S; [done|]. simpl. apply not_elem_of_cons in N as [N1 N2].
  rewrite <- (discard_other id k a) by done. destruct (discard id a) as [a' e]. by apply IH.
Qed.

(** A discard keeps every other lease's bytes, and its own unless it succeeds. *)
Lemma discard_backed id k n a : validLeaseID k = None -> k <> id \/ (discard id a).2 <> None ->
  backed_by k n (dir a) -> backed_by k n (dir (discard id a).1).
Proof.
  intros Vk Or B. destruct (discard id a) as [a' e] eqn:D. apply discard_spec in D. simpl in *.
  pose proof (invalid_ne k) as Nk. pose proof (not_invalid _ Vk) as Ni.
  destruct D as [a' e _ _ Hd _ _|a' m Vi Ed _ _ _ Hd|a' Vi _ _ _ Hd _ _].
  - by rewrite Hd.
  - pose proof (not_invalid _ Vi) as Ni'. rewrite Hd. destruct (decide (k = id)) as [->|Ne].
    + right. rewrite lookup_insert_ne by done. rewrite lookup_delete_eq, lookup_insert_eq. split; [done|].
      destruct B as [B|[B _]]; congruence.
    + assert (k +:+ invalidSuffix <> id +:+ invalidSuffix) by (intros E; by apply append_inj_l in E).
      eapply backed_by_same; [| |exact B]; by rewrite lookup_insert_ne, lookup_delete_ne.
  - pose proof (not_invalid _ Vi) as Ni'. destruct Or as [Ne|]; [|done].
    assert (k +:+ invalidSuffix <> id +:+ invalidSuffix) by (intros E; by apply append_inj_l in E).
    rewrite Hd. eapply backed_by_same; [| |exact B]; by rewrite !lookup_delete_ne.
Qed.

Lemma discard_all_backed ids k n : forall a failed, validLeaseID k = None -> k ∉ ids ->
  backed_by k n (dir a) -> backed_by k n (dir (discard_all ids a failed).1).
Proof.
  induction ids as [|id ids IH]; intros a failed V N B; [done|]. simpl. apply not_elem_of_cons in N as [N1 N2].
  pose proof (discard_backed id k n a V (or_introl N1) B) as B'. destruct (discard id a) as [a' e]. by apply IH.
Qed.

Lemma Release_backed base id a : inv base (manager a) -> backed a -> backed (Release id a).1.
Proof.
  intros I B. unfold Release. simpl releasing. set (a0 := note _ a). assert (backed a0) as B0 by exact B.
  pose proof (discard_frame id a0) as [M _]. pose proof (fun k n => discard_backed id k n a0) as Db.
  destruct (discard id a0) as [a1 e]. simpl in M, Db.
  destruct e as [e|].
  { intros k l. simpl. rewrite M. intros E. destruct (B0 k l E) as [V Bk]. split; [done|]. apply Db; auto. }
  rewrite M. change (manager a0) with (manager a). destruct (leases (manager a) !! id) as [x|] eqn:X.
  - destruct (Release_held base id x (manager a) I X) as (j & e & -> & Ei & _). subst id.
    intros k l. simpl. intros [Ne E]%lookup_delete_Some. destruct (B0 k l E) as [V Bk]. auto.
  - unfold Lease.Release. rewrite X. intros k l. simpl. intros E. destruct (B0 k l E) as [V Bk]. split; [done|].
    apply Db; auto. left. congruence.
Qed.

Lemma Reclaim_backed base need now elapsed a : is_int64 need -> inv base (manager a) -> backed a ->
  backed (ReclaimCapacity need now elapsed a).1.
Proof.
  intros Hn I B. unfold ReclaimCapacity. pose proof (Reclaim_leases base need now (manager a) I Hn) as X.
  destruct (Reclaim need now (manager a)) as [m r]. destruct X as (D & _ & ED & El). simpl in *.
  set (a0 := releasing (Dropped r) (set_manager m a)).
  assert (manager a0 = m /\ dir a0 = dir a) as [M0 D0] by by (unfold a0; destruct (Dropped r)).
  pose proof (discard_all_frame (Dropped r) a0 []) as [Mf _].
  pose proof (fun k n => discard_all_backed (Dropped r) k n a0 []) as Db.
  destruct (discard_all (Dropped r) a0 []) as [a1 failed]. simpl in *. intros k l. rewrite Mf, M0, El.
  case_bool_decide as N; [done|]. intros E. destruct (B k l E) as [V Bk]. split; [done|]. apply Db; [done|by rewrite ED|by rewrite D0].
Qed.

Lemma Heartbeat_backed now tmp a : String.prefix agentFilePrefix tmp = true -> backed a -> backed (Heartbeat now tmp a).1.
Proof.
  intros P B. pose proof (Heartbeat_spec now tmp a) as S. pose proof (Heartbeat_other now tmp) as O.
  destruct (Heartbeat now tmp a) as [a' e] eqn:E. destruct S as (M & _ & _). simpl in *. intros k l. rewrite M. intros El.
  destruct (B k l El) as [V Bk]. split; [done|]. pose proof (prefix_of_invalid _ V) as Pi.
  destruct (valid_not_special _ V) as (_ & Nb & Pk & _). specialize (O). 
  eapply backed_by_same; [| |exact Bk].
  - specialize (O k a). rewrite E in O. apply O; congruence.
  - specialize (O (k +:+ invalidSuffix) a). rewrite E in O. apply O; [congruence|intros Eb; by rewrite Eb in Pi].
Qed.

(** ** Reconciliation *)

Lemma lock_prefix : String.prefix agentFilePrefix lockName = true.
Proof. done. Qed.
Lemma beat_prefix : String.prefix agentFilePrefix heartbeatName = true.
Proof. done. Qed.

Definition own (n : string) : bool := (n =? lockName)%string || (n =? heartbeatName)%string.
Definition keeps_name (live : gset string) (n : string) : bool :=
  own n || negb (String.prefix agentFilePrefix n) && bool_decide (n ∈ live).

Lemma Remove_Some n a a' : Remove n a = (a', true) ->
  dir a' = delete n (dir a) /\ manager a' = manager a /\ config a' = config a.
Proof. unfold Remove. destruct (_ && _); [|done]. by intros [= <-]. Qed.

(** What a pass over [names] leaves of the directory [d]. *)
Definition swept (names : list string) (live : gset string) (d d' : gmap string Z) : Prop :=
  forall n, d' !! n = if bool_decide (n ∈ names) && negb (keeps_name live n) then None else d !! n.

Lemma swept_rest n names live k (d : gmap string Z) : k <> n ->
  (if bool_decide (k ∈ n :: names) && negb (keeps_name live k) then None else d !! k) =
  (if bool_decide (k ∈ names) && negb (keeps_name live k) then None else d !! k).
Proof.
  intros Ne. rewrite (bool_decide_ext (k ∈ n :: names) (k ∈ names)); [done|].
  rewrite elem_of_cons. naive_solver.
Qed.

Lemma swept_kept n names live d d' : n ∉ names -> keeps_name live n = true ->
  swept names live d d' -> swept (n :: names) live d d'.
Proof.
  intros Nn K D k. rewrite D. destruct (decide (k = n)) as [->|Ne]; [|by rewrite swept_rest].
  rewrite K. simpl. by rewrite !andb_false_r.
Qed.

Lemma swept_removed n names live d d' : keeps_name live n = false ->
  swept names live (delete n d) d' -> swept (n :: names) live d d'.
Proof.
  intros K D k. rewrite D. destruct (decide (k = n)) as [->|Ne]; [|by rewrite swept_rest, lookup_delete_ne].
  rewrite K, lookup_delete_eq, (bool_decide_true (n ∈ n :: names)) by left. by case_bool_decide.
Qed.

(** The extents a pass over [names] has seen: those it had, and every name that is not the
    agent's own. *)
Definition counted (names : list string) (s s' : gset string) : Prop :=
  forall n, n ∈ s' <-> n ∈ s \/ n ∈ names /\ String.prefix agentFilePrefix n = false.

Lemma counted_own n names s s' : String.prefix agentFilePrefix n = true ->
  counted names s s' -> counted (n :: names) s s'.
Proof.
  intros P O k. rewrite (O k), elem_of_cons. split; [tauto|].
  intros [?|[[->|?] ?]]; [tauto|congruence|tauto].
Qed.

Lemma counted_extent n names s s' : String.prefix agentFilePrefix n = false ->
  counted names ({[n]} ∪ s) s' -> counted (n :: names) s s'.
Proof.
  intros P O k. rewrite (O k), elem_of_cons, elem_of_union, elem_of_singleton.
  split; [intros [[->|?]|?]; tauto|]. intros [?|[[->|?] ?]]; tauto.
Qed.

Lemma own_prefix n : own n = true -> String.prefix agentFilePrefix n = true.
Proof. intros [E|E]%orb_true_iff; by apply String.eqb_eq in E as ->. Qed.

Lemma reap_spec names live : forall a onDisk r a' onDisk' r', NoDup names ->
  reap names live a onDisk r = (a', (onDisk', r', None)) ->
  swept names live (dir a) (dir a') /\ manager a' = manager a /\ counted names onDisk onDisk' /\
  InvalidatedExtents r' = InvalidatedExtents r /\ LeasesWithoutExtents r' = LeasesWithoutExtents r /\
  OrphanExtents r' = OrphanExtents r ++ List.filter (fun n => negb (keeps_name live n) &&
    negb (String.prefix agentFilePrefix n) && negb (has_suffix invalidSuffix n)) names /\
  Leftovers r' = Leftovers r ++ List.filter (fun n => String.prefix agentFilePrefix n && negb (own n)) names.
Proof.
  induction names as [|n names IH]; intros a onDisk r a' onDisk' r' N; simpl.
  { intros [= <- <- <-]. split_and!; auto; [done|intros k; set_solver|by rewrite app_nil_r..]. }
  apply NoDup_cons in N as [Nn N]. fold (own n). destruct (own n) eqn:Own.
  { intros R. apply IH in R as (D & M & O & X & Y & Z & W); [|done].
    assert (keeps_name live n = true) as K by (unfold keeps_name; by rewrite Own).
    split_and!; auto using swept_kept, counted_own, own_prefix; [by rewrite Z, K|].
    rewrite W. simpl. by rewrite andb_false_r. }
  destruct (String.prefix agentFilePrefix n) eqn:P.
  { destruct (Remove n a) as [a1 []] eqn:Rm; [|done]. apply Remove_Some in Rm as (D1 & M1 & _).
    intros R. apply IH in R as (D & M & O & X & Y & Z & W); [|done]. rewrite D1 in D.
    assert (keeps_name live n = false) as K by (unfold keeps_name; by rewrite Own, P).
    split_and!; auto using swept_removed, counted_own; [congruence| |].
    - rewrite Z. simpl. by rewrite andb_false_r.
    - rewrite W. simpl. by rewrite <- app_assoc. }
  destruct (bool_decide (n ∈ live)) eqn:L.
  { intros R. apply IH in R as (D & M & O & X & Y & Z & W); [|done].
    assert (keeps_name live n = true) as K by (unfold keeps_name; by rewrite Own, P, L).
    split_and!; auto using swept_kept, counted_extent. by rewrite Z, K. }
  destruct (Remove n a) as [a1 []] eqn:Rm; [|done]. apply Remove_Some in Rm as (D1 & M1 & _).
  intros R. apply IH in R as (D & M & O & X & Y & Z & W); [|done]. rewrite D1 in D.
  assert (keeps_name live n = false) as K by (unfold keeps_name; by rewrite Own, P, L).
  split_and!; auto using swept_removed, counted_extent; [congruence|rewrite X|rewrite Y| |rewrite W];
    [by destruct (has_suffix _ n)..| |by destruct (has_suffix _ n)].
  rewrite Z, K. simpl. destruct (has_suffix invalidSuffix n); simpl; [done|]. by rewrite <- app_assoc.
Qed.

Lemma drop_missing_spec base ids interrupted : forall a r a' r', inv base (manager a) -> NoDup ids ->
  drop_missing ids interrupted a r = (a', (r', None)) ->
  inv base (manager a') /\ dir a' = dir a /\
  (forall id, leases (manager a') !! id = if bool_decide (id ∈ ids) then None else leases (manager a) !! id) /\
  OrphanExtents r' = OrphanExtents r /\ InvalidatedExtents r' = InvalidatedExtents r /\ Leftovers r' = Leftovers r /\
  LeasesWithoutExtents r' = LeasesWithoutExtents r ++ List.filter (fun id => negb (bool_decide (id ∈ interrupted))) ids.
Proof.
  induction ids as [|id ids IH]; intros a r a' r' I N; simpl.
  { intros [= <- <-]. split_and!; auto. by rewrite app_nil_r. }
  apply NoDup_cons in N as [Nn N]. destruct (leases (manager a) !! id) as [l|] eqn:E.
  2: { unfold Lease.Release. by rewrite E. }
  destruct (Release_held base id l (manager a) I E) as (j & e & -> & Ei & _).
  destruct e as [e|]; [done|]. intros R.
  apply IH in R as (I' & D & L & O & X & V & Y); [| |done].
  2: { simpl. rewrite <- Ei in E. apply set_journal_inv. by apply drop_lease_inv. }
  split_and!; auto.
  - intros k. rewrite L. simpl. rewrite Ei. destruct (decide (k = id)) as [->|Ne].
    + rewrite lookup_delete_eq, (bool_decide_true (id ∈ id :: ids)) by left. by destruct (bool_decide (id ∈ ids)).
    + rewrite lookup_delete_ne by done.
      rewrite (bool_decide_ext (k ∈ ids) (k ∈ id :: ids)); [done|]. rewrite elem_of_cons. tauto.
  - rewrite O. by case_bool_decide.
  - rewrite X. by case_bool_decide.
  - rewrite V. by case_bool_decide.
  - rewrite Y. case_bool_decide; simpl; [done|]. by rewrite <- app_assoc.
Qed.

Lemma trim_suffix_app suf n : has_suffix suf n = true -> n = trim_suffix suf n +:+ suf.
Proof.
  induction n as [|c n IH]; cbn [has_suffix trim_suffix].
  - by destruct suf.
  - destruct (String.eqb_spec (String c n) suf) as [<-|Ne]; [done|].
    intros S. rewrite (IH S) at 1. done.
Qed.

(** Which leases an interrupted discard explains. *)
Lemma interrupted_spec names id :
  id ∈ (list_to_set (trim_suffix invalidSuffix <$> invalidatedExtents names) : gset string) <->
  id +:+ invalidSuffix ∈ names.
Proof.
  rewrite elem_of_list_to_set, list_elem_of_fmap. unfold invalidatedExtents. split.
  - intros (n & -> & Hn). apply list_elem_of_In, List.filter_In in Hn as [Hn S].
    rewrite <- trim_suffix_app by done. by apply list_elem_of_In.
  - intros Hn. exists (id +:+ invalidSuffix). split.
    + apply (append_inj_l _ _ invalidSuffix). apply trim_suffix_app, has_suffix_app.
    + apply list_elem_of_In, List.filter_In. split; [by apply list_elem_of_In|apply has_suffix_app].
Qed.

Lemma elem_of_filterb {A} (f : A -> bool) l x : x ∈ List.filter f l <-> x ∈ l /\ f x = true.
Proof. by rewrite !list_elem_of_In, List.filter_In, <- list_elem_of_In. Qed.

Lemma NoDup_filterb {A} (f : A -> bool) l : NoDup l -> NoDup (List.filter f l).
Proof. rewrite !NoDup_ListNoDup. apply List.NoDup_filter. Qed.

Lemma elem_of_sorted (X : gset string) n : n ∈ sort_Strings (elements X) <-> n ∈ X.
Proof. by rewrite elem_of_sort_Strings, elem_of_elements. Qed.

Lemma NoDup_sorted (X : gset string) : NoDup (sort_Strings (elements X)).
Proof. rewrite sort_Strings_Permutation. apply NoDup_elements. Qed.

End agent.

(** ** Properties *)

(** Dropping the leases whose extents the pass did not see leaves those whose extents were listed. *)
Lemma kept_leases {J} `{Journal J} (a : Agent J) entries onDisk id :
  (forall n, n ∈ entries <-> is_Some (dir a !! n)) -> counted entries ∅ onDisk ->
  (if bool_decide (id ∈ sort_Strings (elements (live_ids a ∖ onDisk))) then None else leases (manager a) !! id) =
  if bool_decide (is_Some (dir a !! id)) && negb (String.prefix agentFilePrefix id)
  then leases (manager a) !! id else None.
Proof.
  intros En O. destruct (bool_decide (is_Some (dir a !! id)) && negb (String.prefix agentFilePrefix id)) eqn:B.
  - apply andb_true_iff in B as [B P]. apply bool_decide_eq_true in B. apply negb_true_iff in P.
    rewrite bool_decide_false; [done|]. rewrite elem_of_sorted, elem_of_difference, (O id). intros [_ N].
    apply N. right. split; [by apply En|done].
  - set (ids := sort_Strings _). destruct (decide (id ∈ ids)) as [B'|B']; [by rewrite bool_decide_true|].
    rewrite bool_decide_false by done. apply eq_None_not_Some. intros S. apply B'. unfold ids.
    unfold live_ids. rewrite elem_of_sorted, elem_of_difference, (O id), elem_of_dom, En. split; [done|].
    intros [N|[N P]]; [set_solver|]. rewrite bool_decide_true in B by done. by rewrite P in B.
Qed.

(** C5: a successful reconciliation makes the leases and the disk agree, from
    whatever a crash left of either. A file survives exactly when it is the
    agent's own or the extent of a live lease, unchanged; a lease survives
    exactly when its extent is there; so afterwards the extents on disk are
    those of the live leases, and the accounting still adds up. What is reported
    is what was there to correct, each thing once: as interrupted, every name a
    discard had begun on; as left over, the agent's own litter; as orphaned, the
    other extents no lease claimed; as a lease that lost its extent, one with
    neither an extent nor an interrupted discard. *)
Theorem reconcile_agrees {J} `{Journal J} base (a a' : Agent J) r :
  inv base (manager a) -> reconcile a = (a', (r, None)) ->
  (forall n, dir a' !! n = if keeps_name (live_ids a) n then dir a !! n else None) /\
  (forall id, leases (manager a') !! id =
     if bool_decide (is_Some (dir a !! id)) && negb (String.prefix agentFilePrefix id)
     then leases (manager a) !! id else None) /\
  (forall id, String.prefix agentFilePrefix id = false ->
     is_Some (dir a' !! id) <-> is_Some (leases (manager a') !! id)) /\
  inv base (manager a') /\
  (forall n, n ∈ InvalidatedExtents r <-> is_Some (dir a !! n) /\ has_suffix invalidSuffix n = true) /\
  (forall n, n ∈ Leftovers r <-> is_Some (dir a !! n) /\ String.prefix agentFilePrefix n = true /\
     n <> lockName /\ n <> heartbeatName) /\
  (forall n, n ∈ OrphanExtents r <-> is_Some (dir a !! n) /\ keeps_name (live_ids a) n = false /\
     String.prefix agentFilePrefix n = false /\ has_suffix invalidSuffix n = false) /\
  (forall id, id ∈ LeasesWithoutExtents r <->
     is_Some (leases (manager a) !! id) /\ leases (manager a') !! id = None /\
     dir a !! (id +:+ invalidSuffix) = None) /\
  NoDup (InvalidatedExtents r) /\ NoDup (Leftovers r) /\ NoDup (OrphanExtents r) /\ NoDup (LeasesWithoutExtents r).
Proof.
  intros I. unfold reconcile. destruct (negb (os a)); [done|].
  set (a0 := called a). set (entries := sort_Strings _).
  destruct (reap entries (live_ids a0) a0 ∅ _) as [a1 [[onDisk r1] [e|]]] eqn:Rp; [done|].
  apply reap_spec in Rp as (D & M & O & In & W & Or & Lf); [|apply NoDup_sorted].
  intros Dm. apply (drop_missing_spec base) in Dm as (I' & D' & L & Or' & In' & Lf' & W'); [|by rewrite M|apply NoDup_sorted].
  change (dir a0) with (dir a) in *. change (manager a0) with (manager a) in *.
  change (live_ids a0) with (live_ids a) in *. simpl in Or, W, In, Lf.
  assert (forall n, n ∈ entries <-> is_Some (dir a !! n)) as En.
  { intros n. unfold entries. by rewrite elem_of_sorted, elem_of_dom. }
  assert (forall n, n ∈ live_ids a <-> is_Some (leases (manager a) !! n)) as Ln.
  { intros n. unfold live_ids. by rewrite elem_of_dom. }
  assert (forall n, dir a' !! n = if keeps_name (live_ids a) n then dir a !! n else None) as Dn.
  { intros n. rewrite D', D. destruct (keeps_name (live_ids a) n); simpl; [by rewrite andb_false_r|].
    rewrite andb_true_r. case_bool_decide as B; [done|].
    apply eq_None_not_Some. intros S. by apply B, En. }
  assert (forall id, leases (manager a') !! id =
    if bool_decide (is_Some (dir a !! id)) && negb (String.prefix agentFilePrefix id)
    then leases (manager a) !! id else None) as Lid.
  { intros id. rewrite L, M. by apply (kept_leases a entries). }
  split_and!; auto.
  - intros id P. rewrite Dn, Lid, P. unfold keeps_name. rewrite P, andb_true_r. simpl.
    assert (own id = false) as -> by (destruct (own id) eqn:Ow; [apply own_prefix in Ow; congruence|done]).
    simpl. split.
    + case_bool_decide as B; [|by intros [? ?]]. intros S. rewrite bool_decide_true by done. by apply Ln.
    + case_bool_decide as B; [|by intros [? ?]]. intros S. rewrite bool_decide_true by (by apply Ln). done.
  - intros n. rewrite In', In. unfold invalidatedExtents. by rewrite elem_of_filterb, En.
  - intros n. rewrite Lf', Lf, elem_of_filterb, En, andb_true_iff, negb_true_iff. unfold own.
    rewrite orb_false_iff, !String.eqb_neq. tauto.
  - intros n. rewrite Or', Or. simpl. rewrite elem_of_filterb, En, !andb_true_iff, !negb_true_iff. tauto.
  - intros id. rewrite W', W. simpl. rewrite elem_of_filterb, elem_of_sorted, elem_of_difference, (O id).
    rewrite negb_true_iff, bool_decide_eq_false, interrupted_spec, !En, Ln, Lid.
    rewrite <- eq_None_not_Some.
    destruct (bool_decide (is_Some (dir a !! id)) && negb (String.prefix agentFilePrefix id)) eqn:B.
    + apply andb_true_iff in B as [B P]. apply bool_decide_eq_true in B. apply negb_true_iff in P.
      split; [intros [[S N] _]; exfalso; apply N; auto|]. intros (S & N & _). rewrite N in S. by destruct S.
    + split; [tauto|]. intros (S & _ & N). split_and!; auto. intros [N'|[N' P]]; [set_solver|].
      rewrite bool_decide_true in B by done. by rewrite P in B.
  - rewrite In', In. apply NoDup_filterb, NoDup_sorted.
  - rewrite Lf', Lf. apply NoDup_filterb, NoDup_sorted.
  - rewrite Or', Or. apply NoDup_filterb, NoDup_sorted.
  - rewrite W', W. apply NoDup_filterb, NoDup_sorted.
Qed.

(** A grant, by what the manager makes of it and what the disk answers. *)
Lemma Grant_exact {J} `{Journal J} base l now (a : Agent J) :
  inv base (manager a) -> is_int64 (Size l) -> is_int64 (Term l) ->
  let '(a', e) := Grant l now a in
  (e = None <-> (Accept l now (manager a)).2 = None /\ can_allocate (ID l) (Size l) a) /\
  match e with
  | None => leases (manager a) !! ID l = None /\
      leases (manager a') = <[ID l := set_GrantedAt now l]> (leases (manager a)) /\
      Borrowed (acct (manager a')) = Borrowed (acct (manager a)) + Size l /\
      dir a' = <[ID l := Size l]> (dir a) /\ log a' = log a ++ [Created (ID l); ToldGranted (ID l) (ID l)]
  | Some _ => leases (manager a') = leases (manager a) /\ acct (manager a') = acct (manager a) /\
      ((exists n, (Accept l now (manager a)).2 = None /\ left_behind (ID l) (Size l) a n /\ dir a' = <[ID l := n]> (dir a)) \/
       (forall n, (Accept l now (manager a)).2 = None -> ~ left_behind (ID l) (Size l) a n) /\ dir a' = dir a)
  end.
Proof.
  intros I Sz Tm. unfold Grant. destruct (Accept l now (manager a)) as [m e] eqn:Ac.
  pose proof (Accept_inv base l now (manager a) Sz Tm I) as I'. rewrite Ac in I'. simpl in I'.
  destruct (Accept_spec _ _ _ _ _ _ I Ac) as [j S].
  destruct (prune_frame now (manager a)) as [rs Ep].
  destruct e as [e|]; [subst m; simpl; rewrite Ep; simpl; split; [naive_solver|]; split_and!; [done..|right; split; [by intros n [=]|done]]|]. destruct S as (-> & N & _).
  destruct (allocate (ID l) (Size l) (set_manager _ a)) as [a' e] eqn:Al. apply allocate_spec in Al.
  destruct Al as [a' e Hd Hm Hc Nc Nl|a' n Lb Hd Hm|a' Can Hd Hm Hc Hl Hi]; simpl in *; rewrite ?Hm.
  - destruct (undo_Accept base l now j (manager a) N I') as (m' & [e'|] & -> & I2 & El & Ea);
      simpl; (split; [naive_solver|]); (split_and!; [done..|right; split; [intros n _; apply Nl|done]]).
  - assert (~ can_allocate (ID l) (Size l) a) as Nc.
    { destruct Lb as (_ & _ & _ & A2 & _). intros (_ & _ & _ & _ & _ & A2'). change (answer 2 a = false) in A2. congruence. }
    destruct (undo_Accept base l now j (manager a) N I') as (m' & [e'|] & -> & I2 & El & Ea);
      simpl; (split; [naive_solver|]); (split_and!; [done..|left; by exists n]).
  - unfold granted, ExtentPath. destruct Can as (Vi & Can). rewrite Vi. simpl. rewrite Hm, Hl, <- app_assoc. simpl. rewrite Ep. simpl.
    split; [|by split_and!]. split; [|done]. intros _. split; [done|]. by split.
Qed.

Lemma Grant_outcome {J} `{Journal J} base l now (a : Agent J) :
  inv base (manager a) -> is_int64 (Size l) -> is_int64 (Term l) ->
  let '(a', e) := Grant l now a in
  match e with
  | None => leases (manager a) !! ID l = None /\ dir a !! ID l = None /\
      leases (manager a') = <[ID l := set_GrantedAt now l]> (leases (manager a)) /\
      Borrowed (acct (manager a')) = Borrowed (acct (manager a)) + Size l /\
      dir a' = <[ID l := Size l]> (dir a) /\ 0 < Size l /\ validLeaseID (ID l) = None /\
      log a' = log a ++ [Created (ID l); ToldGranted (ID l) (ID l)]
  | Some _ => leases (manager a') = leases (manager a) /\ acct (manager a') = acct (manager a) /\
      (dir a' = dir a \/
       dir a !! ID l = None /\ false ∈ io a /\ validLeaseID (ID l) = None /\ leases (manager a) !! ID l = None /\
       exists n, (n = 0 \/ n = Size l) /\ dir a' = <[ID l := n]> (dir a))
  end.
Proof.
  intros I Sz Tm. pose proof (Grant_exact base l now a I Sz Tm) as G. destruct (Grant l now a) as [a' [e|]].
  - destruct G as (_ & El & Ea & G). split_and!; [done..|]. destruct G as [(n & Ac & Lb & Ed)|[_ ->]]; [|by left].
    right. destruct Lb as (V & N & _ & F & Hn). apply answer_false in F. split_and!; auto; [|exists n; naive_solver].
    destruct (Accept l now (manager a)) as [m e0] eqn:E. simpl in Ac. subst e0.
    by destruct (Accept_spec _ _ _ _ _ _ I E) as (j & _ & ? & _).
  - destruct G as ((G & _) & N & El & Eb & Ed & Lg). destruct (G eq_refl) as (_ & V & D & Sp & _). by split_and!.
Qed.

(** C6: a grant is all or nothing. It succeeds exactly when the manager accepts
    the lease, its name is a plain one nothing is under, it has bytes, and
    creating, reserving and closing its extent all succeed. Then there is a new
    extent of exactly its size under its own name, the lease is counted once, and
    its holder is told last. Otherwise the leases and the accounting are as they
    were, and so is the disk, but for two failures: reserving fails and so does
    removing the empty file, which stays; or only closing the file fails, and the
    whole of it stays. *)
Theorem Grant_all_or_nothing {J} `{Journal J} base l now (a : Agent J) :
  inv base (manager a) -> is_int64 (Size l) -> is_int64 (Term l) ->
  let '(a', e) := Grant l now a in
  (e = None <-> (Accept l now (manager a)).2 = None /\ can_allocate (ID l) (Size l) a) /\
  match e with
  | None => leases (manager a) !! ID l = None /\
      leases (manager a') = <[ID l := set_GrantedAt now l]> (leases (manager a)) /\
      Borrowed (acct (manager a')) = Borrowed (acct (manager a)) + Size l /\
      dir a' = <[ID l := Size l]> (dir a) /\ log a' = log a ++ [Created (ID l); ToldGranted (ID l) (ID l)]
  | Some _ => leases (manager a') = leases (manager a) /\ acct (manager a') = acct (manager a) /\
      ((exists n, (Accept l now (manager a)).2 = None /\ left_behind (ID l) (Size l) a n /\ dir a' = <[ID l := n]> (dir a)) \/
       (forall n, (Accept l now (manager a)).2 = None -> ~ left_behind (ID l) (Size l) a n) /\ dir a' = dir a)
  end.
Proof. apply Grant_exact. Qed.

(** releasing takes the extent first. When [Release] returns capacity the
    extent is gone, its holder was told before it went and the accounting was
    freed after, in that order; when it fails on the extent, the lease is still
    held and nothing of the accounting was freed. *)
Theorem Release_extent_first {J} `{Journal J} base id l (a : Agent J) :
  inv base (manager a) -> leases (manager a) !! id = Some l ->
  let '(a', (size, e)) := Release id a in
  match e with
  | None | Some (ErrLease _) => size = Size l /\ dir a' !! id = None /\
      leases (manager a') = delete id (leases (manager a)) /\
      Borrowed (acct (manager a')) = Borrowed (acct (manager a)) - Size l /\
      log a' = log a ++ [ToldReleasing [id]; Renamed id (id +:+ invalidSuffix);
                         Unlinked (id +:+ invalidSuffix); Freed id]
  | Some _ => size = 0 /\ manager a' = manager a
  end.
Proof.
  intros I E. unfold Release. simpl releasing. set (a0 := note _ a).
  destruct (discard id a0) as [a' e] eqn:D. apply discard_spec in D.
  destruct D as [a' e Hm Hc Hd Hl F|a' n Vi Nd F Hm Hc Hd|a' Vi Is Hm Hc Hd Hl Hi]; simpl in *.
  - destruct F as [[-> _]|[[-> _]|[-> _]]]; auto.
  - auto.
  - rewrite Hm. destruct (Release_held base id l (manager a) I E) as (j & e & -> & Ei & Er). simpl.
    assert (dir a' !! id = None).
    { rewrite Hd, lookup_delete_ne by apply invalid_ne. apply lookup_delete_eq. }
    rewrite Hl, <- !app_assoc. rewrite <- Ei in *. destruct Er as [->|[e' ->]]; simpl; auto 10.
Qed.

(** The extents on disk: every name but the agent's own files. *)
Definition extents (d : gmap string Z) : gmap string Z :=
  filter (fun e => String.prefix agentFilePrefix e.1 = false) d.

Lemma ainv_extents {J} `{Journal J} base (a : Agent J) : ainv base a -> extents (dir a) = Size <$> leases (manager a).
Proof.
  intros [I A V _]. apply map_eq. intros id. unfold extents. rewrite lookup_fmap.
  destruct (String.prefix agentFilePrefix id) eqn:P.
  - rewrite map_lookup_filter_None_2 by (right; intros ? ?; simpl; congruence).
    destruct (leases (manager a) !! id) as [l|] eqn:El; [|done].
    pose proof (V id ltac:(by rewrite El)) as Vi. apply valid_not_special in Vi as (_ & _ & P' & _). congruence.
  - rewrite <- (A id P). destruct (dir a !! id) as [n|] eqn:Ed.
    + by apply map_lookup_filter_Some_2.
    + apply map_lookup_filter_None_2. by left.
Qed.

Lemma Grant_backed {J} `{Journal J} base l now (a : Agent J) : inv base (manager a) -> is_int64 (Size l) -> is_int64 (Term l) ->
  backed a -> backed (Grant l now a).1.
Proof.
  intros I Sz Tm B. pose proof (Grant_outcome base l now a I Sz Tm) as G.
  destruct (Grant l now a) as [a' e]. simpl. assert (validLeaseID (ID l) = None -> forall n k x,
    leases (manager a) !! k = Some x -> dir a !! ID l = None -> k <> ID l -> backed_by k (Size x) (<[ID l := n]> (dir a))) as Other.
  { intros V n k x E N Ne. destruct (B k x E) as [Vk Bk]. eapply backed_by_same; [| |exact Bk]; rewrite lookup_insert_ne; try done.
    by apply not_invalid. }
  destruct e as [e|]; intros k x.
  - destruct G as (El & _ & G). rewrite El. intros E. destruct (B k x E) as [Vk Bk]. split; [done|].
    destruct G as [->|(N & _ & V & Nl & n & _ & ->)]; [done|]. apply Other; [done..|congruence].
  - destruct G as (Nl & N & El & _ & Ed & _ & V & _). rewrite El, Ed.
    intros [[<- <-]|[Ne E]]%lookup_insert_Some.
    + split; [done|]. left. apply lookup_insert_eq.
    + destruct (B k x E) as [Vk _]. split; [done|]. by apply Other.
Qed.

Lemma asteps_backed {J} `{Journal J} base (a a' : Agent J) : rtc astep a a' -> inv base (manager a) -> backed a ->
  inv base (manager a') /\ backed a'.
Proof.
  induction 1 as [|x y z S _ IH]; [done|]. intros I B. apply IH; destruct S as [l now a Sz Tm|id a|need now elapsed a Hn|now tmp a P].
  - by apply Grant_inv.
  - pose proof (Release_outcome base id a I) as R. by destruct (Release id a) as [? [? ?]], R.
  - unfold ReclaimCapacity. pose proof (Reclaim_inv base need now (manager a) Hn I) as R.
    destruct (Reclaim need now (manager a)) as [m r]. set (a0 := releasing _ _).
    assert (manager a0 = m) as M0 by by (unfold a0; destruct (Dropped r)).
    pose proof (discard_all_frame (Dropped r) a0 []) as [Mf _]. destruct (discard_all (Dropped r) a0 []). simpl in *. congruence.
  - pose proof (Heartbeat_spec now tmp a) as R. destruct (Heartbeat now tmp a). simpl. destruct R as (-> & _). done.
  - by eapply Grant_backed.
  - by eapply Release_backed.
  - by eapply Reclaim_backed.
  - by apply Heartbeat_backed.
Qed.

(** C7: what the node says it lent is on disk, whatever is granted, released and
    reclaimed in whatever order and whatever the disk refuses meanwhile: the
    accounting counts the live leases' sizes, and every live lease's bytes are
    there, in its own extent or, when a discard of it was cut short, under the name
    it had been moved to. While no call to the disk fails, the extents are exactly
    those of the live leases at their sizes, so the bytes reserved are the bytes the
    accounting counts as borrowed. *)
Theorem lending_matches_disk {J} `{Journal J} base (a a' : Agent J) :
  inv base (manager a) -> backed a -> rtc astep a a' ->
  Borrowed (acct (manager a')) = base + lent (leases (manager a')) /\
  (forall id l, leases (manager a') !! id = Some l ->
     dir a' !! id = Some (Size l) \/ dir a' !! id = None /\ dir a' !! (id +:+ invalidSuffix) = Some (Size l)) /\
  (agree a -> Forall (fun ok => ok = true) (io a) ->
     extents (dir a') = Size <$> leases (manager a') /\
     Borrowed (acct (manager a')) = base + Zsum (map_to_list (extents (dir a'))).*2).
Proof.
  intros I B S. destruct (asteps_backed base a a' S I B) as [I' B']. split_and!.
  - apply (inv_sum _ _ I').
  - intros id l E. apply (B' id l E).
  - intros Ag C. assert (ainv base a) as Ai by (constructor; auto; intros id [l E]; apply (B id l E)).
    pose proof (ainv_extents _ _ (asteps_ainv base _ _ S Ai)) as E. split; [exact E|].
    rewrite E, map_to_list_fmap, (inv_sum _ _ I'). unfold lent. f_equal. f_equal. by rewrite <- !list_fmap_compose.
Qed.

(** ** The layout *)

Lemma rel_segments_prefix b s : rel_segments b (b ++ s) = s.
Proof. induction b as [|x b IH]; simpl; [by destruct s|]. by rewrite String.eqb_refl. Qed.

Lemma join_dotdot n s : hasDotDotPrefix (join_slash (replicate (S n) ".." ++ s)) = true.
Proof. unfold hasDotDotPrefix. simpl. by destruct (replicate n ".." ++ s). Qed.

Lemma rel_segments_out b : forall j, ~ b `prefix_of` j ->
  exists n s, rel_segments b j = replicate (S n) ".." ++ s.
Proof.
  induction b as [|x b IH]; intros j N; [by destruct N; apply prefix_nil|].
  destruct j as [|y j]; [by exists (length b), []|]. simpl.
  destruct (String.eqb_spec x y) as [->|]; [|by exists (length b), (y :: j)].
  apply IH. intros P. apply N. by apply prefix_cons.
Qed.

Lemma join_slash_dotdot s l : hasDotDotPrefix (join_slash (s :: l)) = true ->
  contains "/" s = false -> hasDotDotPrefix s = true.
Proof.
  unfold hasDotDotPrefix. destruct l as [|t l]; [done|]. intros P _. revert P.
  cbn [join_slash]. destruct s as [|c [|d s]].
  - done.
  - rewrite append_cons, !String_prefix_cons. by destruct (ascii_dec "." c).
  - rewrite !append_cons, !String_prefix_cons. destruct (ascii_dec "." c); [|done]. destruct (ascii_dec "." d); [|done]. by destruct s.
Qed.

Lemma join_slash_dotdot_iff s l : contains "/" s = false ->
  hasDotDotPrefix (join_slash (s :: l)) = hasDotDotPrefix s.
Proof.
  intros C. destruct (hasDotDotPrefix s) eqn:E.
  - destruct l as [|t l]; [done|]. by apply prefix_app_inv.
  - destruct (hasDotDotPrefix (join_slash (s :: l))) eqn:E'; [|done].
    by rewrite (join_slash_dotdot s l) in E.
Qed.

Lemma within_dotdot b j : within b j = negb (hasDotDotPrefix (join_slash (rel_segments b j))).
Proof.
  unfold within. destruct (String.eqb_spec (join_slash (rel_segments b j)) "..") as [->|]; done.
Qed.

Lemma app_cons_ne {A} (b : list A) s l : b <> b ++ s :: l.
Proof. intros E. apply (f_equal (fun x => length x)) in E. rewrite length_app in E. simpl in E. lia. Qed.

(** startup refuses a journal kept where it reaps. A configuration passes
    exactly when the journal's directory is not under the borrowed one (and the
    quota makes sense), except that one whose first level below it begins with
    two dots is taken for a way out, and passes. *)
Theorem journal_layout_checked c b j :
  BorrowedDir c = Some b -> JournalDir c = Some j -> Forall (fun s => contains "/" s = false) j ->
  Validate c = None <->
  Quota_Validate (CQuota (CLease c)) = None /\
  (~ b `prefix_of` j \/ exists s l, j = b ++ s :: l /\ hasDotDotPrefix s = true).
Proof.
  intros Eb Ej Sl. unfold Validate. rewrite Eb, Ej.
  assert ((bool_decide (b = j) || within b j = false) <->
    (~ b `prefix_of` j \/ exists s l, j = b ++ s :: l /\ hasDotDotPrefix s = true)) as W.
  { rewrite within_dotdot. destruct (decide (b `prefix_of` j)) as [[s ->]|N].
    - rewrite rel_segments_prefix. destruct s as [|s l].
      + rewrite app_nil_r, bool_decide_true by done. simpl. split; [done|].
        intros [N|(s & l & E & _)]; [by destruct N|by apply app_cons_ne in E].
      + rewrite bool_decide_false, orb_false_l by apply app_cons_ne.
        apply Forall_app in Sl as [_ Sl]. apply Forall_cons in Sl as [Sl _].
        rewrite join_slash_dotdot_iff, negb_false_iff by done. split; [eauto 10|].
        intros [N|(s' & l' & E & D)]; [destruct N; by exists (s :: l)|].
        apply app_inv_head in E. by simplify_eq.
    - destruct (rel_segments_out b j N) as (n & s & ->). rewrite join_dotdot.
      rewrite bool_decide_false by (intros <-; by apply N). simpl. tauto. }
  destruct (bool_decide (b = j) || within b j).
  - split; [done|]. intros [_ Q]. by apply W in Q.
  - destruct (Quota_Validate _); simpl; split; try done; [by intros [? _]|].
    intros _. split; [done|]. by apply W.
Qed.

(** ** A node with two leases, for the witnesses *)

Definition wconf : AgentConfig :=
  {| BorrowedDir := Some ["pool"]; JournalDir := Some ["state"]; CLease := wit_cfg |}.
Definition wagent : Agent FileJournal :=
  {| config := wconf; manager := wit_m2; dir := <["a" := 200]> (<["b" := 300]> (<[lockName := 0]> ∅));
     beat := None; io := []; log := [] |}.
(** What a crash in the middle of a discard leaves, beside litter. *)
Definition wcrashed : Agent FileJournal :=
  set_dir (<["a.invalid" := 200]> (<["b" := 300]> (<["stray" := 7]> (<[lockName := 0]> ∅)))) wagent.

Lemma wagent_ainv : ainv 0 wagent.
Proof.
  assert (leases wit_m2 = <["a" := set_GrantedAt 1 (wit_lease "a" Opportunistic 200)]>
    (<["b" := set_GrantedAt 2 (wit_lease "b" Guaranteed 300)]> ∅)) as El by (vm_compute; reflexivity).
  constructor; [apply wit_inv| | |constructor].
  - intros id P. simpl. rewrite El. destruct (decide (id = "a")) as [->|N1]; [reflexivity|].
    destruct (decide (id = "b")) as [->|N2]; [reflexivity|].
    assert (lockName <> id) by (intros <-; vm_compute in P; discriminate P).
    repeat rewrite lookup_insert_ne by congruence. by rewrite !lookup_empty.
  - simpl. rewrite El. intros id. destruct (decide (id = "a")) as [->|N1]; [intros _; reflexivity|].
    destruct (decide (id = "b")) as [->|N2]; [intros _; reflexivity|].
    rewrite !lookup_insert_ne by congruence. rewrite lookup_empty. by intros [? ?].
Qed.

Lemma reconcile_agrees_witness :
  (reconcile wcrashed).2 = ({| InvalidatedExtents := ["a.invalid"]; Leftovers := [];
    OrphanExtents := ["stray"]; LeasesWithoutExtents := [] |}, None) /\
  forall id, String.prefix agentFilePrefix id = false ->
    is_Some (dir (reconcile wcrashed).1 !! id) <-> is_Some (leases (manager (reconcile wcrashed).1) !! id).
Proof.
  assert ((reconcile wcrashed).2 = ({| InvalidatedExtents := ["a.invalid"]; Leftovers := [];
    OrphanExtents := ["stray"]; LeasesWithoutExtents := [] |}, None)) as E by (vm_compute; reflexivity).
  split; [exact E|]. destruct (reconcile wcrashed) as [a' p] eqn:R. simpl in E. subst p.
  exact (proj1 (proj2 (proj2 (reconcile_agrees 0 wcrashed a' _ wit_inv R)))).
Defined.

(** Granted; refused for its name; and with an empty file left when reserving and
    removing both fail. *)
Definition wfaults (l : list bool) : Agent FileJournal :=
  {| config := config wagent; manager := manager wagent; dir := dir wagent; beat := beat wagent; io := l; log := log wagent |}.
Lemma Grant_all_or_nothing_witness :
  dir (Grant (wit_lease "c" Elastic 50) 3 wagent).1 = <["c" := 50]> (dir wagent) /\
  leases (manager (Grant (wit_lease "a/b" Elastic 50) 3 wagent).1) = leases (manager wagent) /\
  dir (Grant (wit_lease "c" Elastic 50) 3 (wfaults [true; false; false])).1 = <["c" := 0]> (dir wagent).
Proof.
  split_and!.
  - pose proof (Grant_all_or_nothing 0 (wit_lease "c" Elastic 50) 3 wagent wit_inv
      ltac:(simpl; int64_lia) ltac:(simpl; int64_lia)) as W.
    destruct (Grant (wit_lease "c" Elastic 50) 3 wagent) as [a' e] eqn:G.
    assert (e = None) as -> by (vm_compute in G; congruence).
    exact (proj1 (proj2 (proj2 (proj2 (proj2 W))))).
  - pose proof (Grant_all_or_nothing 0 (wit_lease "a/b" Elastic 50) 3 wagent wit_inv
      ltac:(simpl; int64_lia) ltac:(simpl; int64_lia)) as W.
    destruct (Grant (wit_lease "a/b" Elastic 50) 3 wagent) as [a' e] eqn:G.
    assert (e = Some ErrBadLeaseID) as -> by (vm_compute in G; congruence).
    exact (proj1 (proj2 W)).
  - pose proof (Grant_all_or_nothing 0 (wit_lease "c" Elastic 50) 3 (wfaults [true; false; false]) wit_inv
      ltac:(simpl; int64_lia) ltac:(simpl; int64_lia)) as W.
    destruct (Grant (wit_lease "c" Elastic 50) 3 (wfaults _)) as [a' e] eqn:G.
    assert (e = Some ErrIO) as -> by (vm_compute in G; congruence).
    cbn [fst]. destruct W as (_ & _ & _ & [(n & _ & (_ & _ & _ & _ & [[-> _]|(_ & _ & X)]) & ->)|[N _]]).
    + reflexivity.
    + vm_compute in X. discriminate X.
    + exfalso. apply (N 0); [vm_compute; reflexivity|]. split_and!; [vm_compute; reflexivity..|]. left. split; [reflexivity|]. left. reflexivity.
Defined.

Lemma Release_extent_first_witness :
  let '(a', (size, e)) := Release "a" wagent in
  size = 200 /\ dir a' !! "a" = None /\ Borrowed (acct (manager a')) = 300.
Proof.
  pose proof (Release_extent_first 0 "a" (set_GrantedAt 1 (wit_lease "a" Opportunistic 200)) wagent
    wit_inv ltac:(vm_compute; reflexivity)) as W.
  destruct (Release "a" wagent) as [a' [size e]] eqn:R.
  assert (e = None) as -> by (vm_compute in R; congruence).
  destruct W as (-> & W1 & _ & W2 & _). split_and!; [reflexivity|exact W1|].
  rewrite W2. reflexivity.
Defined.

Lemma wagent_backed : backed wagent.
Proof.
  intros id l E. pose proof (live_extent 0 id l wagent wagent_ainv E) as (V & _ & _). split; [done|]. left.
  rewrite (ai_agree _ _ wagent_ainv id) by by apply valid_not_special. by rewrite E.
Qed.

(** A release whose unlink fails: the lease is kept, and its bytes are under the
    name they were moved to; one that does not: the bytes are gone from both. *)
Lemma lending_matches_disk_witness :
  dir (Release "a" (wfaults [true; false])).1 !! "a.invalid" = Some 200 /\
  Borrowed (acct (manager (Release "a" wagent).1)) =
  0 + Zsum (map_to_list (extents (dir (Release "a" wagent).1))).*2.
Proof.
  split.
  - pose proof (lending_matches_disk 0 (wfaults [true; false]) (Release "a" (wfaults [true; false])).1 wit_inv wagent_backed
      ltac:(apply rtc_once; apply astep_Release)) as (_ & D & _).
    destruct (D "a" (set_GrantedAt 1 (wit_lease "a" Opportunistic 200)) ltac:(vm_compute; reflexivity)) as [E|[_ E]]; [|exact E].
    vm_compute in E. discriminate E.
  - apply (lending_matches_disk 0 wagent (Release "a" wagent).1); [apply wit_inv|apply wagent_backed| |apply wagent_ainv|apply Forall_nil_2].
    apply rtc_once. apply astep_Release.
Defined.

(** The journal in [/pool/..x] is under [/pool] and passes. *)
Lemma journal_layout_checked_witness :
  Validate {| BorrowedDir := Some ["pool"]; JournalDir := Some ["pool"; "..x"]; CLease := wit_cfg |} = None /\
  Validate {| BorrowedDir := Some ["pool"]; JournalDir := Some ["pool"; "x"]; CLease := wit_cfg |} <> None.
Proof.
  split; [|discriminate].
  apply (journal_layout_checked _ ["pool"] ["pool"; "..x"]); [reflexivity|reflexivity| |].
  - apply Forall_cons_2; [reflexivity|apply Forall_cons_2; [reflexivity|by apply Forall_nil]].
  - split; [reflexivity|]. right. exists "..x", []. split; reflexivity.
Defined.
