(* ===== verification/ProtoWire.v ===== *)
(** * ProtoWire: the protocol buffer encoding (internal/protowire/protowire.go)

    Varints, tags and fields, and the loop every message type is read by. A
    [[]byte] is a list of bytes; a slice of the message is a copy of it, since
    nothing here writes to one after decoding. A Go [int] is an [int64]. *)

From S2P Require Import Prelude GoStrings.

Local Open Scope Z_scope.

Definition WireVarint : Z := 0.
Definition WireFixed64 : Z := 1.
Definition WireBytes : Z := 2.
Definition WireFixed32 : Z := 5.

(** Each with what the code adds to its text. [NoFuel] is no error of the code:
    it is what a loop of this model would return were its fuel not enough, and
    [walk_unroll] says it always is. *)
Inductive ProtoErr : Type :=
  | ErrTruncated (detail : string)
  | ErrWireType (detail : string)
  | ErrFieldNumber (number : Z)
  | NoFuel.

#[global] Instance ProtoErr_eq_dec : EqDecision ProtoErr.
Proof. solve_decision. Defined.

Definition ProtoErr_Error (e : ProtoErr) : string :=
  match e with
  | ErrTruncated d => "protowire: the message ended inside a field: " +:+ d
  | ErrWireType d => "protowire: unknown wire type: " +:+ d
  | ErrFieldNumber n => "protowire: field number must be positive, got " +:+ FormatInt n
  | NoFuel => ""
  end.

(** ** Encoding *)

(** [for v >= 0x80]: a [uint64] takes at most nine turns ([appendUvarint_unroll]). *)
Fixpoint appendUvarint_loop (fuel : nat) (b : list byte) (v : Z) : list byte :=
  match fuel with
  | O => b ++ [byte_of v]
  | S fuel =>
      if 128 <=? v
      then appendUvarint_loop fuel (b ++ [byte_of (Z.lor (v mod 256) 128)]) (Z.shiftr v 7)
      else b ++ [byte_of v]
  end.
Definition appendUvarint (b : list byte) (v : Z) : list byte := appendUvarint_loop 9 b v.

Definition appendTag (b : list byte) (field wire : Z) : list byte :=
  appendUvarint b (Z.lor (wrapU64 (Z.shiftl (wrapU64 field) 3)) (wrapU64 wire)).

Definition AppendVarint (b : list byte) (field v : Z) : list byte :=
  appendUvarint (appendTag b field WireVarint) v.

Definition AppendBool (b : list byte) (field : Z) (v : bool) : list byte :=
  AppendVarint b field (if v then 1 else 0).

Definition AppendMessage (b : list byte) (field : Z) (msg : list byte) : list byte :=
  appendUvarint (appendTag b field WireBytes) (wrapU64 (zlen msg)) ++ msg.

Definition AppendString (b : list byte) (field : Z) (s : string) : list byte :=
  AppendMessage b field (bytes_of s).

(** [m[k]] of a key that is not there is the zero value. *)
Fixpoint AppendStringMap (b : list byte) (field : Z) (keys : list string) (m : gmap string string)
  : list byte :=
  match keys with
  | [] => b
  | k :: keys =>
      let e := AppendString [] 1 k in
      let e := AppendString e 2 (default ""%string (m !! k)) in
      AppendStringMap (AppendMessage b field e) field keys m
  end.

(** ** Decoding *)

Record Field : Type := mkField {
  Number : Z;
  Wire : Z;
  Varint : Z;
  FieldBytes : list byte;
}.

Definition Text (f : Field) : string := string_of (FieldBytes f).
Definition Bool (f : Field) : bool := negb (Varint f =? 0).
Definition Int64 (f : Field) : Z := wrap64 (Varint f).

(** The loop of [uvarint], at index [i] with [v] read so far. *)
Fixpoint uvarint_from (i v : Z) (b : list byte) : result ProtoErr (Z * list byte) :=
  match b with
  | [] => Err (ErrTruncated "a varint ran to the end")
  | c :: rest =>
      let c := of_byte c in
      if (i =? 9) && (1 <? c) then Err (ErrTruncated "a varint wider than 64 bits")
      else
        let v := Z.lor v (wrapU64 (Z.shiftl (Z.land c 127) (7 * i))) in
        if c <? 128 then Ok (v, rest) else uvarint_from (i + 1) v rest
  end.
Definition uvarint (b : list byte) : result ProtoErr (Z * list byte) := uvarint_from 0 0 b.

(** [for i := n-1; i >= 0; i-- { v = v<<8 | uint64(rest[i]) }] *)
Definition fixed (n : nat) (rest : list byte) : Z :=
  fold_left (fun v c => Z.lor (wrapU64 (Z.shiftl v 8)) (of_byte c)) (rev (take n rest)) 0.

Definition Next (b : list byte) : result ProtoErr (Field * list byte) :=
  let? (tag, rest) := uvarint b in
  let number := wrap64 (Z.shiftr tag 3) in
  let wire := Z.land tag 7 in
  if number <=? 0 then Err (ErrFieldNumber number)
  else if wire =? WireVarint then
    let? (v, rest) := uvarint rest in Ok (mkField number wire v [], rest)
  else if wire =? WireBytes then
    let? (n, rest) := uvarint rest in
    if zlen rest <? n then
      Err (ErrTruncated ("a field of " +:+ FormatUint n +:+ " bytes with " +:+ FormatInt (zlen rest) +:+ " left"))
    else Ok (mkField number wire 0 (ztake n rest), zdrop n rest)
  else if wire =? WireFixed64 then
    if zlen rest <? 8 then
      Err (ErrTruncated ("a fixed64 with " +:+ FormatInt (zlen rest) +:+ " bytes left"))
    else Ok (mkField number wire (fixed 8 rest) [], zdrop 8 rest)
  else if wire =? WireFixed32 then
    if zlen rest <? 4 then
      Err (ErrTruncated ("a fixed32 with " +:+ FormatInt (zlen rest) +:+ " bytes left"))
    else Ok (mkField number wire (fixed 4 rest) [], zdrop 4 rest)
  else Err (ErrWireType (FormatInt wire +:+ " in field " +:+ FormatInt number)).

(** The loop every message type is read by:
    [for len(b) > 0 { f, rest, err := Next(b); ...; b = rest }], whose body
    turns what was read so far and the field into what is read now. *)
Section walk.
Context {A : Type} (step : Field -> A -> result ProtoErr A).

Fixpoint walk_loop (fuel : nat) (b : list byte) (r : A) : result ProtoErr A :=
  match b with
  | [] => Ok r
  | _ :: _ =>
      match fuel with
      | O => Err NoFuel
      | S fuel =>
          let? (f, rest) := Next b in
          let? r := step f r in
          walk_loop fuel rest r
      end
  end.
Definition walk (b : list byte) (r : A) : result ProtoErr A := walk_loop (length b) b r.
End walk.

Definition StringMap (m : gmap string string) (entry : list byte)
  : result ProtoErr (gmap string string) :=
  let? (k, v) := walk (fun f '(k, v) =>
      Ok (if (Number f =? 1) && (Wire f =? WireBytes) then (Text f, v)
          else if (Number f =? 2) && (Wire f =? WireBytes) then (k, Text f)
          else (k, v))) entry (""%string, ""%string) in
  Ok (<[k := v]> m).

(** ** Bits *)

Lemma lor_shiftl v x k : 0 <= k -> 0 <= v < 2 ^ k -> Z.lor v (Z.shiftl x k) = v + x * 2 ^ k.
Proof.
  intros K R. rewrite <- Z.shiftl_mul_pow2, <- Z.add_lor_land by done.
  assert (Z.land v (Z.shiftl x k) = 0) as ->; [|lia].
  apply Z.bits_inj'. intros i I. rewrite Z.land_spec, Z.bits_0.
  destruct (decide (i < k)) as [L|G].
  - rewrite (Z.shiftl_spec_low x k i L). apply andb_false_r.
  - rewrite <- (Z.mod_small v (2 ^ k)), Z.mod_pow2_bits_high by lia. done.
Qed.

(** The low seven bits, and the continuation bit above them. *)
Lemma land_127 v : Z.land v 127 = v mod 128.
Proof. exact (Z.land_ones v 7 ltac:(lia)). Qed.

Lemma land_7 v : Z.land v 7 = v mod 8.
Proof. exact (Z.land_ones v 3 ltac:(lia)). Qed.

Lemma byte_continues v : of_byte (byte_of (Z.lor (v mod 256) 128)) = v mod 128 + 128.
Proof.
  rewrite of_byte_of. pose proof (Z.mod_pos_bound v 128). pose proof (Z.mod_pos_bound v 256).
  assert (Z.lor (v mod 256) 128 = v mod 128 + 128) as E; [|rewrite E; apply Z.mod_small; lia].
  replace (v mod 256) with (Z.lor (v mod 128) (Z.shiftl ((v / 128) mod 2) 7)).
  - rewrite <- Z.lor_assoc. change 128 with (Z.shiftl 1 7) at 3. rewrite <- Z.shiftl_lor.
    rewrite lor_shiftl by lia.
    assert (Z.lor ((v / 128) mod 2) 1 = 1) as ->; [|lia].
    pose proof (Z.mod_pos_bound (v / 128) 2).
    assert ((v / 128) mod 2 = 0 \/ (v / 128) mod 2 = 1) as [->| ->] by lia; done.
  - rewrite lor_shiftl by lia. change 256 with (128 * 2). rewrite Z.rem_mul_r by lia. lia.
Qed.

(** ** Varints

    What a varint's bytes say: seven bits each, least significant first. *)
Fixpoint base128 (b : list byte) : Z :=
  match b with
  | [] => 0
  | c :: b => of_byte c mod 128 + 128 * base128 b
  end.

(** A varint: bytes with the continuation bit, then one without it, and no more
    than the ten a [uint64] needs. *)
Definition varint_bytes (b : list byte) : Prop := exists ds c, b = ds ++ [c] /\
  Forall (fun d => 128 <= of_byte d) ds /\ of_byte c < 128 /\ (length ds <= 9)%nat.

Lemma base128_nonneg b : 0 <= base128 b.
Proof. induction b as [|c b IH]; simpl; [done|]. pose proof (Z.mod_pos_bound (of_byte c) 128). lia. Qed.

Lemma pow7_step i : 0 <= i -> 2 ^ (7 * (i + 1)) = 128 * 2 ^ (7 * i).
Proof. intros. replace (7 * (i + 1)) with (7 + 7 * i) by lia. by rewrite Z.pow_add_r by lia. Qed.

(** One byte of the loop adds its seven bits above those read so far. *)
Lemma uvarint_add i v c : 0 <= i <= 9 -> 0 <= v < 2 ^ (7 * i) -> 0 <= c < 256 ->
  (i =? 9) && (1 <? c) = false ->
  Z.lor v (wrapU64 (Z.shiftl (Z.land c 127) (7 * i))) = v + c mod 128 * 2 ^ (7 * i).
Proof.
  intros I V C T. rewrite land_127. pose proof (Z.mod_pos_bound c 128).
  rewrite wrapU64_id; [apply lor_shiftl; lia|]. unfold is_uint64.
  rewrite Z.shiftl_mul_pow2 by lia. split; [nia|].
  destruct (decide (i = 9)) as [->|N].
  - simpl in T. apply Z.ltb_ge in T. rewrite Z.mod_small by lia.
    change (2 ^ (7 * 9)) with 9223372036854775808. lia.
  - assert (2 ^ (7 * i) <= 2 ^ (7 * 8)) by (apply Z.pow_le_mono_r; lia).
    change (2 ^ (7 * 8)) with 72057594037927936 in *. nia.
Qed.

Lemma uvarint_fits i v c : 0 <= i <= 9 -> 0 <= v < 2 ^ (7 * i) -> 0 <= c < 128 ->
  (i =? 9) && (1 <? c) = false -> v + c * 2 ^ (7 * i) < 2 ^ 64.
Proof.
  intros I V C [T|T]%andb_false_iff; change (2 ^ 64) with 18446744073709551616.
  - apply Z.eqb_neq in T. assert (2 ^ (7 * i) <= 2 ^ (7 * 8)) by (apply Z.pow_le_mono_r; lia).
    change (2 ^ (7 * 8)) with 72057594037927936 in *. nia.
  - apply Z.ltb_ge in T. assert (2 ^ (7 * i) <= 2 ^ (7 * 9)) by (apply Z.pow_le_mono_r; lia).
    change (2 ^ (7 * 9)) with 9223372036854775808 in *. nia.
Qed.

Lemma uvarint_from_spec b : forall i v v' rest, 0 <= i <= 9 -> 0 <= v < 2 ^ (7 * i) ->
  uvarint_from i v b = Ok (v', rest) <->
  exists ds c, b = ds ++ c :: rest /\ Forall (fun d => 128 <= of_byte d) ds /\ of_byte c < 128 /\
    zlen ds + i <= 9 /\ v' = v + 2 ^ (7 * i) * base128 (ds ++ [c]) /\ v' < 2 ^ 64.
Proof.
  induction b as [|c b IH]; intros i v v' rest I V.
  { simpl. split; [done|]. intros (ds & c & E & _). by destruct ds. }
  pose proof (of_byte_range c) as C. pose proof (Z.mod_pos_bound (of_byte c) 128).
  simpl uvarint_from. destruct ((i =? 9) && (1 <? of_byte c)) eqn:T.
  - split; [done|]. intros (ds & d & E & Fd & D & L & Ev & B).
    apply andb_prop in T as [T1%Z.eqb_eq T2%Z.ltb_lt]. subst i.
    destruct ds as [|? ds]; [|unfold zlen in L; simpl in L; lia].
    injection E as -> ->. simpl in Ev. rewrite Z.mod_small in Ev by lia.
    change (2 ^ (7 * 9)) with 9223372036854775808 in Ev.
    change (2 ^ 64) with 18446744073709551616 in B. lia.
  - rewrite (uvarint_add i v _ I V C T). destruct (of_byte c <? 128) eqn:E.
    + apply Z.ltb_lt in E. split.
      * intros [= <- <-]. exists [], c. rewrite Z.mod_small by lia. simpl. rewrite Z.mod_small by lia.
        split_and!; [done|constructor|done|unfold zlen; simpl; lia|lia|apply uvarint_fits; done || lia].
      * intros (ds & d & Eb & Fd & D & L & Ev & B). destruct ds as [|d' ds].
        -- injection Eb as -> ->. do 2 f_equal. subst v'. simpl. rewrite !Z.mod_small by lia. lia.
        -- injection Eb as -> ->. apply Forall_cons in Fd as [? _]. lia.
    + apply Z.ltb_ge in E. assert (i <> 9 -> 0 <= i + 1 <= 9) as I' by lia.
      assert (i <> 9) as Ni.
      { intros ->. simpl in T. apply Z.ltb_ge in T. lia. }
      rewrite IH by (rewrite ?pow7_step by lia; nia || lia). rewrite pow7_step by lia. split.
      * intros (ds & d & -> & Fd & D & L & -> & B). exists (c :: ds), d.
        split_and!; [done|by constructor|done|rewrite zlen_cons; lia|simpl; nia|done].
      * intros (ds & d & Eb & Fd & D & L & -> & B). destruct ds as [|d' ds].
        { injection Eb as -> ->. lia. }
        injection Eb as <- ->. apply Forall_cons in Fd as [? Fd]. rewrite zlen_cons in L.
        exists ds, d. split_and!; [done..|lia|simpl; nia|done].
Qed.

(** a varint is read for exactly what its bytes say. [uvarint] answers when
    and only when the message starts with a varint of at most ten bytes whose
    value fits in 64 bits, the value is the one those bytes spell, seven bits
    each, with none lost, and what is left starts right after its last byte. *)
Theorem uvarint_reads_base128 b v rest :
  uvarint b = Ok (v, rest) <->
  exists ds, varint_bytes ds /\ b = ds ++ rest /\ v = base128 ds /\ is_uint64 v.
Proof.
  unfold uvarint. rewrite uvarint_from_spec by lia. unfold varint_bytes, is_uint64.
  change (2 ^ 64) with 18446744073709551616. split.
  - intros (ds & c & -> & Fd & C & L & -> & B). exists (ds ++ [c]). pose proof (base128_nonneg (ds ++ [c])).
    rewrite <- app_assoc. unfold zlen in L. split_and!; [|done|lia..].
    exists ds, c. split_and!; [done..|lia].
  - intros (? & (ds & c & -> & Fd & C & L) & -> & -> & B). exists ds, c. rewrite <- app_assoc.
    unfold zlen. split_and!; [done..|lia|lia|lia].
Qed.

(** ** Encoding a varint *)

Lemma appendUvarint_loop_app fuel : forall b v,
  appendUvarint_loop fuel b v = b ++ appendUvarint_loop fuel [] v.
Proof.
  induction fuel as [|fuel IH]; intros b v; simpl; [done|]. case_if; [|done].
  rewrite IH, (IH [_]). by rewrite <- app_assoc.
Qed.

Lemma appendUvarint_app b v : appendUvarint b v = b ++ appendUvarint [] v.
Proof. apply appendUvarint_loop_app. Qed.

(** The loop writes a varint of the value, in [fuel + 1] bytes or fewer. *)
Lemma appendUvarint_loop_spec fuel : forall v, 0 <= v < 2 ^ (7 * (Z.of_nat fuel + 1)) ->
  exists ds c, appendUvarint_loop fuel [] v = ds ++ [c] /\
    Forall (fun d => 128 <= of_byte d) ds /\ of_byte c < 128 /\ (length ds <= fuel)%nat /\
    base128 (ds ++ [c]) = v.
Proof.
  assert (forall v, 0 <= v < 128 -> of_byte (byte_of v) = v) as B.
  { intros v V. rewrite of_byte_of. apply Z.mod_small. lia. }
  induction fuel as [|fuel IH]; intros v V; simpl.
  - change (2 ^ _) with 128 in V. exists [], (byte_of v). simpl. rewrite B by lia.
    rewrite Z.mod_small by lia. split_and!; [done|constructor|lia..].
  - case_if; bool_to_prop.
    + rewrite appendUvarint_loop_app. rewrite (Z.shiftr_div_pow2 v 7) by lia. change (2 ^ 7) with 128.
      destruct (IH (v / 128)) as (ds & c & -> & Fd & C & L & Ev).
      { split; [apply Z.div_pos; lia|]. apply Z.div_lt_upper_bound; [lia|].
        rewrite <- pow7_step by lia. rewrite Nat2Z.inj_succ in V. apply V. }
      eexists (_ :: ds), c. split_and!; [reflexivity|constructor; [|exact Fd]|exact C|simpl; lia|].
      * rewrite byte_continues. pose proof (Z.mod_pos_bound v 128). lia.
      * simpl. rewrite byte_continues, Ev. change (v mod 128 + 128) with (v mod 128 + 1 * 128).
        rewrite Z.mod_add, Z.mod_mod by lia. pose proof (Z.div_mod v 128). lia.
    + exists [], (byte_of v). simpl. rewrite B by lia.
      rewrite Z.mod_small by lia. split_and!; [done|constructor|lia..].
Qed.

Lemma appendUvarint_varint v : is_uint64 v ->
  varint_bytes (appendUvarint [] v) /\ base128 (appendUvarint [] v) = v.
Proof.
  intros [V0 V1]. destruct (appendUvarint_loop_spec 9 v) as (ds & c & E & Fd & C & L & Ev).
  { split; [done|]. change (2 ^ _) with 1180591620717411303424. lia. }
  unfold appendUvarint. rewrite E. split; [|done]. by exists ds, c.
Qed.

(** The equation of the code's loop, which the fuel does not show in. *)
Lemma appendUvarint_unroll b v : is_uint64 v ->
  appendUvarint b v =
  if 128 <=? v then appendUvarint (b ++ [byte_of (Z.lor (v mod 256) 128)]) (Z.shiftr v 7)
  else b ++ [byte_of v].
Proof.
  intros [V0 V1].
  assert (forall n v b, 0 <= v < 2 ^ (7 * (Z.of_nat n + 1)) ->
    appendUvarint_loop n b v = appendUvarint_loop (S n) b v) as Enough.
  { clear. induction n as [|n IH]; intros v b V.
    - change (2 ^ _) with 128 in V. simpl. by rewrite (proj2 (Z.leb_gt 128 v)) by lia.
    - change (appendUvarint_loop (S (S n)) b v) with
        (if 128 <=? v then appendUvarint_loop (S n) (b ++ [byte_of (Z.lor (v mod 256) 128)]) (Z.shiftr v 7)
         else b ++ [byte_of v]). simpl appendUvarint_loop at 1. case_if; [|done]. apply IH.
      rewrite Z.shiftr_div_pow2 by lia. split; [apply Z.div_pos; lia|]. apply Z.div_lt_upper_bound; [lia|].
      change (2 ^ 7) with 128. rewrite <- pow7_step by lia. rewrite Nat2Z.inj_succ in V. apply V. }
  change (appendUvarint b v) with
    (if 128 <=? v then appendUvarint_loop 8 (b ++ [byte_of (Z.lor (v mod 256) 128)]) (Z.shiftr v 7)
     else b ++ [byte_of v]). destruct (128 <=? v) eqn:E; [|done]. apply Enough. rewrite Z.shiftr_div_pow2 by lia.
  change (2 ^ 7) with 128. change (2 ^ _) with 9223372036854775808.
  split; [apply Z.div_pos; lia|apply Z.div_lt_upper_bound; lia].
Qed.

Lemma uvarint_append v rest : is_uint64 v -> uvarint (appendUvarint [] v ++ rest) = Ok (v, rest).
Proof.
  intros V. destruct (appendUvarint_varint v V) as [(ds & c & Ea & Fd & C & L) E].
  unfold uvarint. apply uvarint_from_spec; [lia..|]. rewrite Ea in *. exists ds, c. rewrite <- app_assoc.
  destruct V. unfold zlen. split_and!; [done..|lia|lia|lia].
Qed.

(** ** Fields *)

(** A field number of which a tag can be made. *)
Definition number_ok (n : Z) : Prop := 0 < n < 2305843009213693952.

Lemma tag_bits n w : number_ok n -> 0 <= w < 8 ->
  Z.lor (wrapU64 (Z.shiftl (wrapU64 n) 3)) (wrapU64 w) = n * 8 + w.
Proof.
  unfold number_ok. intros N W. rewrite !wrapU64_id; [|unfold is_uint64; lia..|].
  - rewrite Z.lor_comm, lor_shiftl by lia. lia.
  - rewrite wrapU64_id by (unfold is_uint64; lia). rewrite Z.shiftl_mul_pow2 by lia. unfold is_uint64. lia.
Qed.

Lemma appendTag_app b n w : appendTag b n w = b ++ appendTag [] n w.
Proof. apply appendUvarint_app. Qed.

Lemma AppendVarint_app b n v : AppendVarint b n v = b ++ AppendVarint [] n v.
Proof. unfold AppendVarint. by rewrite appendTag_app, appendUvarint_app, (appendUvarint_app (appendTag [] _ _)), app_assoc. Qed.

Lemma AppendMessage_app b n m : AppendMessage b n m = b ++ AppendMessage [] n m.
Proof.
  unfold AppendMessage. by rewrite appendTag_app, appendUvarint_app, (appendUvarint_app (appendTag [] _ _)), !app_assoc.
Qed.

Lemma AppendString_app b n s : AppendString b n s = b ++ AppendString [] n s.
Proof. apply AppendMessage_app. Qed.

Lemma uvarint_tag n w rest : number_ok n -> 0 <= w < 8 ->
  uvarint (appendTag [] n w ++ rest) = Ok (n * 8 + w, rest).
Proof.
  intros N W. unfold appendTag. rewrite tag_bits by done. apply uvarint_append.
  unfold number_ok, is_uint64 in *. lia.
Qed.

Lemma tag_number n w : number_ok n -> 0 <= w < 8 -> wrap64 (Z.shiftr (n * 8 + w) 3) = n.
Proof.
  unfold number_ok. intros N W. rewrite Z.shiftr_div_pow2 by lia. change (2 ^ 3) with 8.
  rewrite Z.div_add_l, Z.div_small, Z.add_0_r by lia. int64_lia.
Qed.

Lemma tag_wire n w : 0 <= w < 8 -> Z.land (n * 8 + w) 7 = w.
Proof. intros W. rewrite land_7, Z.add_comm, Z.mod_add by lia. apply Z.mod_small. lia. Qed.

Lemma Next_AppendVarint n v rest : number_ok n -> is_uint64 v ->
  Next (AppendVarint [] n v ++ rest) = Ok (mkField n WireVarint v [], rest).
Proof.
  intros N V. unfold Next, AppendVarint. rewrite appendUvarint_app, <- app_assoc.
  rewrite uvarint_tag by (done || unfold WireVarint; lia). simpl.
  rewrite tag_number, tag_wire by (done || unfold WireVarint; lia).
  unfold number_ok in N. rewrite (proj2 (Z.leb_gt n 0)) by lia. by rewrite uvarint_append.
Qed.

Lemma Next_AppendMessage n m rest : number_ok n -> is_uint64 (zlen m) ->
  Next (AppendMessage [] n m ++ rest) = Ok (mkField n WireBytes 0 m, rest).
Proof.
  intros N V. unfold Next, AppendMessage. rewrite appendUvarint_app, <- !app_assoc.
  rewrite uvarint_tag by (done || unfold WireBytes; lia). simpl.
  rewrite tag_number, tag_wire by (done || unfold WireBytes; lia).
  unfold number_ok in N. rewrite (proj2 (Z.leb_gt n 0)) by lia. simpl.
  rewrite (wrapU64_id (zlen m)), uvarint_append by done. simpl.
  rewrite zlen_app. pose proof (zlen_nonneg rest). rewrite (proj2 (Z.ltb_ge _ _)) by lia.
  unfold ztake, zdrop, zlen. by rewrite Nat2Z.id, take_app_length, drop_app_length.
Qed.

Lemma string_bytes s : string_of (bytes_of s) = s.
Proof. apply string_of_list_ascii_of_string. Qed.

Lemma Next_AppendString n s rest : number_ok n -> is_uint64 (strlen s) ->
  Next (AppendString [] n s ++ rest) = Ok (mkField n WireBytes 0 (bytes_of s), rest).
Proof. apply Next_AppendMessage. Qed.

(** ** What [Next] does to the message *)

Lemma uvarint_split b v rest : uvarint b = Ok (v, rest) ->
  is_uint64 v /\ exists p, p <> [] /\ b = p ++ rest /\ forall y, uvarint (p ++ y) = Ok (v, y).
Proof.
  intros U. assert (forall y, exists p, p <> [] /\ b = p ++ rest /\ uvarint (p ++ y) = Ok (v, y) /\ is_uint64 v) as P.
  { intros y. unfold uvarint in *. rewrite uvarint_from_spec in U by lia.
    destruct U as (ds & c & -> & Fd & C & L & -> & B). exists (ds ++ [c]).
    split_and!; [by destruct ds|by rewrite <- app_assoc| |].
    - apply uvarint_from_spec; [lia..|]. exists ds, c. by rewrite <- app_assoc.
    - pose proof (base128_nonneg (ds ++ [c])). split; [lia|].
      change (2 ^ 64) with 18446744073709551616 in B. lia. }
  split; [by destruct (P []) as (? & _ & _ & _ & ?)|].
  destruct (P []) as (p & Np & Ep & _). exists p. split_and!; [done..|]. intros y.
  destruct (P y) as (p' & _ & Ep' & U' & _). rewrite Ep in Ep'. by apply app_inv_tail in Ep' as <-.
Qed.

Lemma fixed_app n p y : length p = n -> fixed n (p ++ y) = fixed n p.
Proof. intros <-. unfold fixed. by rewrite take_app_length, firstn_all. Qed.

Lemma zsplit {A} n (l : list A) : 0 <= n -> n <= zlen l ->
  zlen (ztake n l) = n /\ l = ztake n l ++ zdrop n l.
Proof.
  unfold zlen, ztake, zdrop. intros N L. rewrite length_take, take_drop. split; [lia|done].
Qed.

Lemma ztake_app {A} n (p y : list A) : zlen p = n -> ztake n (p ++ y) = p /\ zdrop n (p ++ y) = y.
Proof.
  unfold zlen, ztake, zdrop. intros <-. by rewrite Nat2Z.id, take_app_length, drop_app_length.
Qed.

Lemma shift_in_byte v c : 0 <= c < 256 ->
  Z.lor (wrapU64 (Z.shiftl v 8)) c = c + (v mod 72057594037927936) * 256.
Proof.
  intros C. rewrite Z.lor_comm, <- (lor_shiftl c _ 8) by lia. f_equal.
  unfold wrapU64. rewrite !Z.shiftl_mul_pow2 by lia. change (2 ^ 8) with 256.
  change 18446744073709551616 with (72057594037927936 * 256). apply Z.mul_mod_distr_r; lia.
Qed.

Lemma fixed_range n b : is_uint64 (fixed n b).
Proof.
  unfold fixed. generalize (rev (take n b)). intros l. assert (is_uint64 0) as I by (unfold is_uint64; lia).
  revert I. generalize 0. induction l as [|c l IH]; intros v I; [done|]. apply IH.
  pose proof (of_byte_range c). rewrite shift_in_byte by done.
  pose proof (Z.mod_pos_bound v 72057594037927936). unfold is_uint64 in *. lia.
Qed.

(** What a decoded field may hold. *)
Record field_ok (f : Field) : Prop := {
  fo_number : number_ok (Number f);
  fo_wire : Wire f ∈ [WireVarint; WireFixed64; WireBytes; WireFixed32];
  fo_varint : is_uint64 (Varint f);
  fo_one : if Wire f =? WireBytes then Varint f = 0 else FieldBytes f = [];
}.

Lemma tag_ok tag : is_uint64 tag -> (wrap64 (Z.shiftr tag 3) <=? 0) = false ->
  number_ok (wrap64 (Z.shiftr tag 3)).
Proof.
  unfold is_uint64, number_ok. intros T G%Z.leb_gt.
  assert (0 <= Z.shiftr tag 3 < 2305843009213693952) as B.
  { rewrite Z.shiftr_div_pow2 by lia. change (2 ^ 3) with 8.
    split; [apply Z.div_pos; lia|apply Z.div_lt_upper_bound; lia]. }
  rewrite wrap64_id in *; unfold is_int64, MinInt64, MaxInt64; lia.
Qed.

(** A fixed-width number of [n] bytes, after whatever the tag was. *)
Lemma fixed_split (e : list byte -> ProtoErr) (n : nat) (b1 p rest : list byte) (f : Z -> Field)
    (f' : Field) :
  (if zlen b1 <? Z.of_nat n then Err (e b1) else Ok (f (fixed n b1), zdrop (Z.of_nat n) b1))
    = Ok (E := ProtoErr) (f', rest) ->
  f' = f (fixed n b1) /\ exists q, p ++ b1 = (p ++ q) ++ rest /\
    forall y, (if zlen (q ++ y) <? Z.of_nat n then Err (e (q ++ y))
               else Ok (f (fixed n (q ++ y)), zdrop (Z.of_nat n) (q ++ y)))
              = Ok (f', y).
Proof.
  case_if; [done|]. intros [= <- <-]. split; [done|]. bool_to_prop.
  destruct (zsplit (Z.of_nat n) b1 ltac:(lia) ltac:(lia)) as [L E].
  exists (ztake (Z.of_nat n) b1). split; [by rewrite <- app_assoc, <- E|]. intros y.
  rewrite zlen_app. pose proof (zlen_nonneg y). rewrite (proj2 (Z.ltb_ge _ _)) by lia.
  rewrite (proj2 (ztake_app (Z.of_nat n) _ y L)). unfold zlen in L. apply Nat2Z.inj in L.
  rewrite fixed_app by done. rewrite E at 2. by rewrite fixed_app.
Qed.

(** [Next] takes a whole field off the front, whatever comes after it. *)
Lemma Next_split b f rest : Next b = Ok (f, rest) ->
  field_ok f /\ exists p, p <> [] /\ b = p ++ rest /\ forall y, Next (p ++ y) = Ok (f, y).
Proof.
  unfold Next. destruct (uvarint b) as [[tag b1]|] eqn:U; [|done]. cbn [bind_result].
  apply uvarint_split in U as (T & p & Np & -> & P).
  destruct (_ <=? 0) eqn:G; [done|]. pose proof (tag_ok tag T G) as N.
  assert (forall q : list byte, p ++ q <> []) as Npq by (intros q; by destruct p).
  destruct (Z.land tag 7 =? WireVarint) eqn:W0; [|destruct (Z.land tag 7 =? WireBytes) eqn:W2;
    [|destruct (Z.land tag 7 =? WireFixed64) eqn:W1; [|destruct (Z.land tag 7 =? WireFixed32) eqn:W5; [|done]]]].
  - destruct (uvarint b1) as [[v r]|] eqn:V; [|done]. intros [= <- <-].
    apply uvarint_split in V as (Iv & q & Nq & -> & Q). split.
    + apply Z.eqb_eq in W0. split; simpl; rewrite ?W0; [done|set_solver|done|done].
    + exists (p ++ q). split_and!; [done|by rewrite app_assoc|]. intros y. rewrite <- app_assoc, P. cbn [bind_result].
      rewrite G, W0. by rewrite Q.
  - destruct (uvarint b1) as [[n r]|] eqn:V; [|done]. cbn [bind_result]. destruct (zlen r <? n) eqn:L; [done|]. intros [= <- <-].
    apply uvarint_split in V as (Iv & q & Nq & -> & Q). apply Z.ltb_ge in L. unfold is_uint64 in Iv.
    destruct (zsplit n r ltac:(lia) ltac:(lia)) as [Ln Er]. split.
    + apply Z.eqb_eq in W2. split; simpl; rewrite ?W2; [done|set_solver|done|done].
    + exists (p ++ q ++ ztake n r). split_and!; [done|by rewrite <- !app_assoc, <- Er|].
      intros y. rewrite <- !app_assoc, P. cbn [bind_result]. rewrite G, W0, W2, Q. cbn [bind_result].
      destruct (ztake_app n (ztake n r) y Ln) as [-> ->]. rewrite zlen_app. pose proof (zlen_nonneg y).
      by rewrite (proj2 (Z.ltb_ge _ _)) by lia.
  - intros E. apply (fixed_split (fun b => ErrTruncated (_ +:+ FormatInt (zlen b) +:+ _)) 8 b1 p rest (fun v => mkField _ _ v [])) in E as (-> & q & E & Q). split.
    + apply Z.eqb_eq in W1. split; simpl; rewrite ?W1; [done|set_solver|apply fixed_range|done].
    + exists (p ++ q). split_and!; [done..|]. intros y. rewrite <- app_assoc, P. cbn [bind_result].
      rewrite G, W0, W2, W1. apply Q.
  - intros E. apply (fixed_split (fun b => ErrTruncated (_ +:+ FormatInt (zlen b) +:+ _)) 4 b1 p rest (fun v => mkField _ _ v [])) in E as (-> & q & E & Q). split.
    + apply Z.eqb_eq in W5. split; simpl; rewrite ?W5; [done|set_solver|apply fixed_range|done].
    + exists (p ++ q). split_and!; [done..|]. intros y. rewrite <- app_assoc, P. cbn [bind_result].
      rewrite G, W0, W2, W1, W5. apply Q.
Qed.

Lemma Next_shrinks b f rest : Next b = Ok (f, rest) -> (length rest < length b)%nat.
Proof.
  intros E. apply Next_split in E as (_ & p & Np & -> & _). rewrite length_app.
  destruct p; [done|simpl; lia].
Qed.

Lemma uvarint_no_fuel b : uvarint b <> Err NoFuel.
Proof.
  unfold uvarint. generalize 0 at 1. generalize 0.
  induction b as [|c b IH]; intros v i; simpl; repeat case_if; congruence || apply IH.
Qed.

Lemma Next_no_fuel b : Next b <> Err NoFuel.
Proof.
  unfold Next. pose proof (uvarint_no_fuel b) as U. destruct (uvarint b) as [[tag b1]|]; [|simpl; congruence].
  cbn [bind_result]. pose proof (uvarint_no_fuel b1) as U1.
  destruct (uvarint b1) as [[v b2]|]; cbn [bind_result]; repeat case_if; simpl; congruence.
Qed.

(** ** Walking a message *)

Section walks.
Context {A : Type} (step : Field -> A -> result ProtoErr A).

Lemma walk_loop_enough n : forall b r, (length b <= n)%nat -> walk_loop step n b r = walk step b r.
Proof.
  unfold walk. induction n as [n IH] using lt_wf_ind. intros [|c b] r L; [by destruct n|].
  destruct n as [|n]; [simpl in L; lia|]. cbn [walk_loop length].
  destruct (Next (c :: b)) as [[f rest]|] eqn:E; [|done]. cbn [bind_result].
  apply Next_shrinks in E. simpl in L, E. destruct (step f r) as [r'|]; [|done]. simpl.
  transitivity (walk_loop step (length rest) rest r'); [apply IH; lia|symmetry; apply IH; lia].
Qed.

(** The equation of the code's loop: no message runs out of the model's fuel. *)
Lemma walk_unroll b r :
  walk step b r =
  match b with
  | [] => Ok r
  | _ :: _ =>
      let? (f, rest) := Next b in
      let? r := step f r in
      walk step rest r
  end.
Proof.
  destruct b as [|c b]; [done|]. unfold walk at 1. cbn [walk_loop length].
  destruct (Next (c :: b)) as [[f rest]|] eqn:E; [|done]. cbn [bind_result].
  apply Next_shrinks in E. destruct (step f r); [|done]. apply walk_loop_enough. simpl in E. lia.
Qed.

Lemma walk_nil r : walk step [] r = Ok r.
Proof. reflexivity. Qed.

Lemma walk_Next b f rest r : Next b = Ok (f, rest) ->
  walk step b r = bind_result (step f r) (walk step rest).
Proof. intros E. rewrite walk_unroll, E. by destruct b. Qed.

Lemma walk_error b e r : b <> [] -> Next b = Err e -> walk step b r = Err e.
Proof. intros N E. rewrite walk_unroll, E. by destruct b. Qed.

Lemma walk_no_fuel b r : (forall f r, step f r <> Err NoFuel) -> walk step b r <> Err NoFuel.
Proof.
  intros S. revert r. induction b as [b IH] using (induction_ltof1 _ (@length byte)). intros r.
  rewrite walk_unroll. destruct b as [|c b]; [done|].
  pose proof (Next_no_fuel (c :: b)). destruct (Next (c :: b)) as [[f rest]|] eqn:E; [|simpl; congruence].
  cbn [bind_result]. pose proof (S f r). destruct (step f r); [|simpl; congruence].
  apply IH. unfold ltof. by apply Next_shrinks in E.
Qed.

Lemma walk_AppendVarint n v rest r : number_ok n -> is_uint64 v ->
  walk step (AppendVarint [] n v ++ rest) r =
  bind_result (step (mkField n WireVarint v []) r) (walk step rest).
Proof. intros. by apply walk_Next, Next_AppendVarint. Qed.

Lemma walk_AppendMessage n m rest r : number_ok n -> is_uint64 (zlen m) ->
  walk step (AppendMessage [] n m ++ rest) r =
  bind_result (step (mkField n WireBytes 0 m) r) (walk step rest).
Proof. intros. by apply walk_Next, Next_AppendMessage. Qed.

Lemma walk_AppendString n s rest r : number_ok n -> is_uint64 (strlen s) ->
  walk step (AppendString [] n s ++ rest) r =
  bind_result (step (mkField n WireBytes 0 (bytes_of s)) r) (walk step rest).
Proof. intros. by apply walk_Next, Next_AppendString. Qed.
End walks.

(** The fields of a message, when it is made of whole ones. *)
Definition fields (b : list byte) : result ProtoErr (list Field) :=
  walk (fun f fs => Ok (fs ++ [f])) b [].

Fixpoint steps {A} (step : Field -> A -> result ProtoErr A) (fs : list Field) (r : A)
  : result ProtoErr A :=
  match fs with
  | [] => Ok r
  | f :: fs => let? r := step f r in steps step fs r
  end.

Lemma walk_fields_acc b fs0 fs :
  walk (fun f fs => Ok (fs ++ [f])) b fs0 = Ok fs ->
  exists new, fs = fs0 ++ new /\ forall A (step : Field -> A -> result ProtoErr A) y r,
    walk step (b ++ y) r = bind_result (steps step new r) (walk step y).
Proof.
  revert fs0. induction b as [b IH] using (induction_ltof1 _ (@length byte)). intros fs0.
  rewrite walk_unroll. destruct b as [|c b]; [intros [= <-]; exists []; by rewrite app_nil_r|].
  destruct (Next (c :: b)) as [[f rest]|] eqn:E; [|done]. cbn [bind_result]. intros W.
  pose proof (Next_shrinks _ _ _ E) as Sh. apply IH in W as (new & -> & W); [|done].
  exists (f :: new). split; [by rewrite <- app_assoc|]. intros A step y r.
  apply Next_split in E as (_ & p & Np & Ep & P). rewrite Ep, <- app_assoc.
  rewrite (walk_Next step _ _ _ r (P (rest ++ y))). simpl. destruct (step f r) as [r'|]; [|done].
  apply W.
Qed.

(** Collecting fields only ever adds to the ones collected. *)
Lemma walk_collect b : forall fs0, walk (fun f fs => Ok (fs ++ [f])) b fs0 =
  (let? gs := fields b in Ok (fs0 ++ gs)).
Proof.
  unfold fields. induction b as [b IH] using (induction_ltof1 _ (@length byte)). intros fs0.
  rewrite !walk_unroll. destruct b as [|c b]; [simpl; by rewrite app_nil_r|].
  destruct (Next (c :: b)) as [[f rest]|] eqn:E; [|done]. cbn [bind_result].
  apply Next_shrinks in E. rewrite (IH rest) by done. rewrite (IH rest E ([] ++ [f])).
  destruct (walk _ rest []); [|done]. simpl. by rewrite <- app_assoc.
Qed.

Lemma fields_ok_all b fs : fields b = Ok fs -> Forall field_ok fs.
Proof.
  revert fs. induction b as [b IH] using (induction_ltof1 _ (@length byte)). intros fs.
  unfold fields. rewrite walk_unroll. destruct b as [|c b]; [intros [= <-]; constructor|].
  destruct (Next (c :: b)) as [[f rest]|] eqn:E; [|done]. cbn [bind_result]. rewrite walk_collect.
  destruct (fields rest) as [gs|] eqn:G; [|done]. intros [= <-]. constructor.
  - by apply Next_split in E as [? _].
  - apply (IH rest); [|done]. by apply Next_shrinks in E.
Qed.

(** A message made of whole fields is read field by field, whatever follows. *)
Lemma walk_fields b fs {A} (step : Field -> A -> result ProtoErr A) y r :
  fields b = Ok fs -> walk step (b ++ y) r = bind_result (steps step fs r) (walk step y).
Proof. intros (new & -> & W)%walk_fields_acc. apply W. Qed.

(** ** Sizes

    A slice's length is an [int], and what is inside a message is no longer
    than the message. *)
Definition sized (b : list byte) : Prop := is_int64 (zlen b).

Lemma sized_app b c : sized (b ++ c) <-> zlen b + zlen c <= MaxInt64.
Proof.
  unfold sized, is_int64, MinInt64. rewrite zlen_app. pose proof (zlen_nonneg b). pose proof (zlen_nonneg c). lia.
Qed.

Lemma sized_app_inv b c : sized (b ++ c) -> sized b /\ sized c.
Proof.
  rewrite sized_app. unfold sized, is_int64, MinInt64.
  pose proof (zlen_nonneg b). pose proof (zlen_nonneg c). lia.
Qed.

Lemma sized_uint64 b : sized b -> is_uint64 (zlen b).
Proof.
  unfold sized, is_int64, is_uint64, MaxInt64. pose proof (zlen_nonneg b). lia.
Qed.

Lemma sized_AppendMessage b n m : sized (AppendMessage b n m) -> sized b /\ sized m.
Proof.
  rewrite AppendMessage_app. intros [Sb Sm]%sized_app_inv. split; [done|].
  unfold AppendMessage in Sm. by apply sized_app_inv in Sm as [_ ?].
Qed.

Lemma sized_AppendString b n s : sized (AppendString b n s) -> sized b /\ is_uint64 (strlen s).
Proof. intros [Sb Ss]%sized_AppendMessage. split; [done|]. by apply sized_uint64. Qed.

Lemma sized_AppendVarint b n v : sized (AppendVarint b n v) -> sized b.
Proof. rewrite AppendVarint_app. by intros [? _]%sized_app_inv. Qed.

(** ** Maps *)

(** One entry of a map, as [AppendStringMap] writes it. *)
Definition map_entry (k v : string) : list byte := AppendString (AppendString [] 1 k) 2 v.

Lemma AppendStringMap_app b n keys m :
  AppendStringMap b n keys m =
  b ++ concat ((fun k => AppendMessage [] n (map_entry k (default ""%string (m !! k)))) <$> keys).
Proof.
  revert b. induction keys as [|k keys IH]; intros b; simpl; [by rewrite app_nil_r|].
  by rewrite IH, AppendMessage_app, <- app_assoc.
Qed.

Lemma AppendStringMap_split b n keys m :
  AppendStringMap b n keys m = b ++ AppendStringMap [] n keys m.
Proof. by rewrite AppendStringMap_app, (AppendStringMap_app []). Qed.

Lemma StringMap_entry m k v : sized (map_entry k v) -> StringMap m (map_entry k v) = Ok (<[k := v]> m).
Proof.
  unfold map_entry. intros [[_ K]%sized_AppendString V]%sized_AppendString.
  unfold StringMap. rewrite AppendString_app, <- (app_nil_r (AppendString [] 2 v)).
  rewrite walk_AppendString by (done || unfold number_ok; lia). cbn [bind_result].
  rewrite walk_AppendString by (done || unfold number_ok; lia). cbn [bind_result].
  unfold Text. cbn -[insert]. by rewrite !string_bytes.
Qed.

Lemma filter_keys_nil (m : gmap string string) :
  filter (fun kv => kv.1 ∈ ([] : list string)) m = ∅.
Proof.
  apply map_eq. intros i. rewrite map_lookup_filter, lookup_empty. by destruct (m !! i).
Qed.

Lemma filter_keys_cons k keys (m acc : gmap string string) v : m !! k = Some v ->
  filter (fun kv => kv.1 ∈ k :: keys) m ∪ acc = filter (fun kv => kv.1 ∈ keys) m ∪ <[k := v]> acc.
Proof.
  intros Ev. apply map_eq. intros i. rewrite !lookup_union, !map_lookup_filter.
  destruct (decide (i = k)) as [->|Ni].
  - rewrite Ev, lookup_insert_eq. simpl. rewrite (option_guard_True (k ∈ k :: keys)) by set_solver.
    destruct (decide (k ∈ keys)); [rewrite option_guard_True by done|rewrite option_guard_False by done];
      simpl; by destruct (acc !! k).
  - rewrite lookup_insert_ne by done. destruct (m !! i) eqn:Ei; [|done]. simpl.
    destruct (decide (i ∈ keys)); [rewrite !option_guard_True by set_solver|rewrite !option_guard_False by set_solver];
      done.
Qed.

(** The entries of an encoded map are read back into the map it came from, by
    any reader that hands each entry of field [n] to [StringMap]. *)
Section maps.
Context {A : Type} (step : Field -> A -> result ProtoErr A) (n : Z).
Context (get : A -> gmap string string) (set : gmap string string -> A -> A).
Hypothesis n_ok : number_ok n.
Hypothesis step_n : forall e r,
  step (mkField n WireBytes 0 e) r = let? m := StringMap (get r) e in Ok (set m r).
Hypothesis get_set : forall m r, get (set m r) = m.
Hypothesis set_set : forall m m' r, set m (set m' r) = set m r.
Hypothesis set_get : forall r, set (get r) r = r.

Lemma walk_AppendStringMap keys m rest : forall r,
  (forall k, k ∈ keys -> is_Some (m !! k)) -> sized (AppendStringMap [] n keys m) ->
  walk step (AppendStringMap [] n keys m ++ rest) r =
  walk step rest (set (filter (fun kv => kv.1 ∈ keys) m ∪ get r) r).
Proof.
  induction keys as [|k keys IH]; intros r In Sz.
  { rewrite filter_keys_nil, (left_id_L ∅ (∪)), set_get. done. }
  destruct (In k ltac:(set_solver)) as [v Ev].
  assert (AppendStringMap [] n (k :: keys) m
    = AppendMessage [] n (map_entry k v) ++ AppendStringMap [] n keys m) as E.
  { rewrite !AppendStringMap_app. simpl. by rewrite Ev. }
  rewrite E in *. apply sized_app_inv in Sz as [[_ Sk]%sized_AppendMessage Sz].
  rewrite <- app_assoc, walk_AppendMessage; [|done|by apply sized_uint64]. rewrite step_n, StringMap_entry by done.
  cbn [bind_result]. rewrite IH by (done || set_solver). rewrite set_set, get_set. by rewrite (filter_keys_cons k keys m _ v).
Qed.
End maps.

(** a message is a sequence of well-typed fields, and one message after
    another is read as the fields of the first and then those of the second. A
    field has a number from 1 up to 2^61-1, a wire type this package knows, a
    value that fits a [uint64], and content only when its wire type says so. *)
Theorem messages_well_typed b fs :
  fields b = Ok fs ->
  Forall field_ok fs /\ forall y, fields (b ++ y) = (let? gs := fields y in Ok (fs ++ gs)).
Proof.
  intros F. split; [by apply fields_ok_all in F|]. intros y.
  assert (forall fs l, steps (fun f fs => Ok (E := ProtoErr) (fs ++ [f])) fs l = Ok (l ++ fs)) as S.
  { clear. induction fs as [|f fs IH]; intros l; simpl; [by rewrite app_nil_r|]. by rewrite IH, <- app_assoc. }
  unfold fields at 1. rewrite (walk_fields b fs _ y [] F), S. cbn [bind_result]. apply walk_collect.
Qed.

Lemma messages_well_typed_witness :
  let b := AppendString (AppendVarint [] 1 300) 2 "abc" in
  fields (b ++ AppendBool [] 3 true) =
    Ok [mkField 1 WireVarint 300 []; mkField 2 WireBytes 0 (bytes_of "abc"); mkField 3 WireVarint 1 []].
Proof.
  cbv zeta. rewrite (proj2 (messages_well_typed (AppendString (AppendVarint [] 1 300) 2 "abc")
    [mkField 1 WireVarint 300 []; mkField 2 WireBytes 0 (bytes_of "abc")] ltac:(vm_compute; reflexivity))).
  vm_compute. reflexivity.
Defined.
