(* ===== verification/CsiMessage.v ===== *)
(** * CsiMessage: the messages of the Container Storage Interface
    (internal/csi/message.go)

    Each decoder is the walk of ProtoWire with the code's switch on the field's
    number as its body; each encoder appends the code's fields in its order. *)

From S2P Require Import Prelude GoStrings ProtoWire.

Local Open Scope Z_scope.

Definition Name : string := "csi.forebay.io".
Definition serviceController : Z := 1.
Definition rpcCreateDeleteVolume : Z := 1.
Definition accessMultiNodeReaderOnly : Z := 3.

(** ** Capabilities *)

Record MountCapability : Type := mkMountCapability { FSType : string; Flags : list string }.

Record VolumeCapability : Type := mkVolumeCapability {
  Mount : option MountCapability;
  Block : bool;
  AccessMode : Z;
}.

#[global] Instance MountCapability_eq_dec : EqDecision MountCapability.
Proof. solve_decision. Defined.
#[global] Instance VolumeCapability_eq_dec : EqDecision VolumeCapability.
Proof. solve_decision. Defined.

Definition no_Mount : MountCapability := {| FSType := ""; Flags := [] |}.
Definition no_Capability : VolumeCapability := {| Mount := None; Block := false; AccessMode := 0 |}.

(** The body of the inner loop over a mount. *)
Definition mount_step (g : Field) (m : MountCapability) : result ProtoErr MountCapability :=
  Ok (if Number g =? 1 then {| FSType := Text g; Flags := Flags m |}
      else if Number g =? 2 then {| FSType := FSType m; Flags := Flags m ++ [Text g] |}
      else m).

(** The body of the inner loop over an access mode. *)
Definition mode_step (g : Field) (c : VolumeCapability) : result ProtoErr VolumeCapability :=
  Ok (if Number g =? 1 then {| Mount := Mount c; Block := Block c; AccessMode := Int64 g |} else c).

Definition capability_step (f : Field) (c : VolumeCapability) : result ProtoErr VolumeCapability :=
  if Number f =? 1 then Ok {| Mount := Mount c; Block := true; AccessMode := AccessMode c |}
  else if Number f =? 2 then
    let? m := walk mount_step (FieldBytes f) no_Mount in
    Ok {| Mount := Some m; Block := Block c; AccessMode := AccessMode c |}
  else if Number f =? 3 then walk mode_step (FieldBytes f) c
  else Ok c.

Definition decodeVolumeCapability (b : list byte) : result ProtoErr VolumeCapability :=
  walk capability_step b no_Capability.

Definition encode_mount (m : MountCapability) : list byte :=
  let b := if negb (FSType m =? "")%string then AppendString [] 1 (FSType m) else [] in
  fold_left (fun b fl => AppendString b 2 fl) (Flags m) b.

Definition encodeVolumeCapability (c : VolumeCapability) : list byte :=
  let out := if Block c then AppendMessage [] 1 [] else [] in
  let out := match Mount c with Some m => AppendMessage out 2 (encode_mount m) | None => out end in
  AppendMessage out 3 (AppendVarint [] 1 (wrapU64 (AccessMode c))).

(** ** Creating a volume *)

Record CreateVolumeRequest : Type := mkCreateVolumeRequest {
  CreateName : string;
  CreateCapabilities : list VolumeCapability;
  Parameters : gmap string string;
}.

Definition create_step (f : Field) (r : CreateVolumeRequest) : result ProtoErr CreateVolumeRequest :=
  if Number f =? 1 then
    Ok {| CreateName := Text f; CreateCapabilities := CreateCapabilities r; Parameters := Parameters r |}
  else if Number f =? 3 then
    let? c := decodeVolumeCapability (FieldBytes f) in
    Ok {| CreateName := CreateName r; CreateCapabilities := CreateCapabilities r ++ [c];
          Parameters := Parameters r |}
  else if Number f =? 4 then
    let? m := StringMap (Parameters r) (FieldBytes f) in
    Ok {| CreateName := CreateName r; CreateCapabilities := CreateCapabilities r; Parameters := m |}
  else Ok r.

Definition DecodeCreateVolume (b : list byte) : result ProtoErr CreateVolumeRequest :=
  walk create_step b {| CreateName := ""; CreateCapabilities := []; Parameters := ∅ |}.

Record Volume : Type := mkVolume { VID : string; VBytes : Z; VContext : gmap string string }.

(** [for k := range m] in whatever order, then sorted. *)
Definition sortedKeys (m : gmap string string) : list string := sort_Strings (map_to_list m).*1.

Definition encode_volume (v : Volume) : list byte :=
  let vol := if 0 <? VBytes v then AppendVarint [] 1 (wrapU64 (VBytes v)) else [] in
  let vol := AppendString vol 2 (VID v) in
  AppendStringMap vol 3 (sortedKeys (VContext v)) (VContext v).

Definition EncodeCreateVolume (v : Volume) : list byte := AppendMessage [] 1 (encode_volume v).

(** ** The other requests *)

Definition delete_step (f : Field) (id : string) : result ProtoErr string :=
  Ok (if Number f =? 1 then Text f else id).

(** [DeleteVolumeRequest] is its volume id. *)
Definition DecodeDeleteVolume (b : list byte) : result ProtoErr string := walk delete_step b ""%string.

Record ValidateRequest : Type := mkValidateRequest {
  ValidateID : string;
  ValidateCapabilities : list VolumeCapability;
  ValidateContext : gmap string string;
}.

Definition validate_step (f : Field) (r : ValidateRequest) : result ProtoErr ValidateRequest :=
  if Number f =? 1 then
    Ok {| ValidateID := Text f; ValidateCapabilities := ValidateCapabilities r;
          ValidateContext := ValidateContext r |}
  else if Number f =? 2 then
    let? m := StringMap (ValidateContext r) (FieldBytes f) in
    Ok {| ValidateID := ValidateID r; ValidateCapabilities := ValidateCapabilities r;
          ValidateContext := m |}
  else if Number f =? 3 then
    let? c := decodeVolumeCapability (FieldBytes f) in
    Ok {| ValidateID := ValidateID r; ValidateCapabilities := ValidateCapabilities r ++ [c];
          ValidateContext := ValidateContext r |}
  else Ok r.

Definition DecodeValidate (b : list byte) : result ProtoErr ValidateRequest :=
  walk validate_step b {| ValidateID := ""; ValidateCapabilities := []; ValidateContext := ∅ |}.

Definition EncodeValidate (confirmed : bool) (caps : list VolumeCapability) (why : string) : list byte :=
  let out := if confirmed
    then AppendMessage [] 1 (fold_left (fun c vc => AppendMessage c 2 (encodeVolumeCapability vc)) caps [])
    else [] in
  if negb (why =? "")%string then AppendString out 2 why else out.

Record NodePublishRequest : Type := mkNodePublishRequest {
  PublishID : string;
  PublishTarget : string;
  PublishCapability : option VolumeCapability;
  ReadOnly : bool;
  PublishContext : gmap string string;
}.

Definition publish_step (f : Field) (r : NodePublishRequest) : result ProtoErr NodePublishRequest :=
  let '(mkNodePublishRequest id target cap ro ctx) := r in
  if Number f =? 1 then Ok (mkNodePublishRequest (Text f) target cap ro ctx)
  else if Number f =? 4 then Ok (mkNodePublishRequest id (Text f) cap ro ctx)
  else if Number f =? 5 then
    let? c := decodeVolumeCapability (FieldBytes f) in
    Ok (mkNodePublishRequest id target (Some c) ro ctx)
  else if Number f =? 6 then Ok (mkNodePublishRequest id target cap (Bool f) ctx)
  else if Number f =? 8 then
    let? m := StringMap ctx (FieldBytes f) in
    Ok (mkNodePublishRequest id target cap ro m)
  else Ok r.

Definition DecodeNodePublish (b : list byte) : result ProtoErr NodePublishRequest :=
  walk publish_step b (mkNodePublishRequest "" "" None false ∅).

Record NodeUnpublishRequest : Type := mkNodeUnpublishRequest {
  UnpublishID : string;
  UnpublishTarget : string;
}.

Definition unpublish_step (f : Field) (r : NodeUnpublishRequest)
  : result ProtoErr NodeUnpublishRequest :=
  Ok (if Number f =? 1 then {| UnpublishID := Text f; UnpublishTarget := UnpublishTarget r |}
      else if Number f =? 2 then {| UnpublishID := UnpublishID r; UnpublishTarget := Text f |}
      else r).

Definition DecodeNodeUnpublish (b : list byte) : result ProtoErr NodeUnpublishRequest :=
  walk unpublish_step b {| UnpublishID := ""; UnpublishTarget := "" |}.

(** ** The fixed replies *)

Definition EncodePluginInfo (name version : string) : list byte :=
  let out := AppendString [] 1 name in
  if negb (version =? "")%string then AppendString out 2 version else out.

Definition EncodePluginCapabilities : list byte :=
  AppendMessage [] 1 (AppendMessage [] 1 (AppendVarint [] 1 serviceController)).

Definition EncodeProbe (ready : bool) : list byte := AppendMessage [] 1 (AppendBool [] 1 ready).

Definition EncodeControllerCapabilities : list byte :=
  AppendMessage [] 1 (AppendMessage [] 1 (AppendVarint [] 1 rpcCreateDeleteVolume)).

Definition EncodeNodeInfo (nodeID : string) (maxVolumes : Z) : list byte :=
  let out := AppendString [] 1 nodeID in
  if 0 <? maxVolumes then AppendVarint out 2 (wrapU64 maxVolumes) else out.

Definition EncodeNodeCapabilities : list byte := [].

Definition describe (c : VolumeCapability) : string :=
  if Block c then "a block device"
  else match Mount c with
       | Some m =>
           if negb (FSType m =? "")%string
           then "a " +:+ FSType m +:+ " filesystem with access mode " +:+ FormatInt (AccessMode c)
           else "a filesystem with access mode " +:+ FormatInt (AccessMode c)
       | None => "a filesystem with access mode " +:+ FormatInt (AccessMode c)
       end.

(** ** Reading back what is written *)

#[local] Arguments mount_step !g m /.
#[local] Arguments mode_step !g c /.
#[local] Arguments capability_step !f c /.

Ltac solve_number := unfold number_ok; lia.
Ltac run_step :=
  cbn [bind_result mount_step mode_step capability_step Number Wire FieldBytes Z.eqb Pos.eqb].
Ltac walk_one :=
  first [rewrite walk_AppendString by (solve_number || assumption)
        |rewrite walk_AppendMessage by (solve_number || assumption)
        |rewrite walk_AppendVarint by (solve_number || assumption)]; run_step.

Lemma Text_mk n s : Text (mkField n WireBytes 0 (bytes_of s)) = s.
Proof. apply string_bytes. Qed.

Lemma append_flags flags : forall b,
  fold_left (fun b fl => AppendString b 2 fl) flags b = b ++ concat (AppendString [] 2 <$> flags).
Proof.
  induction flags as [|fl flags IH]; intros b; simpl; [by rewrite app_nil_r|].
  by rewrite IH, AppendString_app, <- app_assoc.
Qed.

Lemma walk_flags flags rest : forall m, sized (concat (AppendString [] 2 <$> flags)) ->
  walk mount_step (concat (AppendString [] 2 <$> flags) ++ rest) m =
  walk mount_step rest {| FSType := FSType m; Flags := Flags m ++ flags |}.
Proof.
  induction flags as [|fl flags IH]; intros m Sz; simpl; [rewrite app_nil_r; by destruct m|].
  simpl in Sz. apply sized_app_inv in Sz as [[_ F]%sized_AppendString Sz].
  rewrite <- app_assoc. walk_one.
  rewrite Text_mk, IH by done. simpl. by rewrite <- app_assoc.
Qed.

Lemma encode_mount_app m : encode_mount m =
  (if negb (FSType m =? "")%string then AppendString [] 1 (FSType m) else [])
  ++ concat (AppendString [] 2 <$> Flags m).
Proof. apply append_flags. Qed.

Lemma decode_mount m : sized (encode_mount m) -> walk mount_step (encode_mount m) no_Mount = Ok m.
Proof.
  rewrite encode_mount_app. intros [St Sf]%sized_app_inv.
  assert (walk mount_step (concat (AppendString [] 2 <$> Flags m) ++ []) {| FSType := FSType m; Flags := [] |} = Ok m) as W.
  { rewrite walk_flags by done. by destruct m. }
  rewrite app_nil_r in W. destruct (FSType m =? "")%string eqn:E; simpl.
  - apply String.eqb_eq in E. by rewrite E in W.
  - simpl in St. apply sized_AppendString in St as [_ St]. walk_one. by rewrite Text_mk.
Qed.

Lemma Int64_wrapU64 n z : is_int64 z -> Int64 (mkField n WireVarint (wrapU64 z) []) = z.
Proof. intros I. unfold Int64. simpl. by rewrite wrap64_wrapU64, wrap64_id. Qed.

Lemma encodeVolumeCapability_app c : encodeVolumeCapability c =
  (if Block c then AppendMessage [] 1 [] else []) ++
  (match Mount c with Some m => AppendMessage [] 2 (encode_mount m) | None => [] end) ++
  AppendMessage [] 3 (AppendVarint [] 1 (wrapU64 (AccessMode c))).
Proof.
  unfold encodeVolumeCapability. destruct (Mount c); rewrite AppendMessage_app; [|done].
  by rewrite AppendMessage_app, <- app_assoc.
Qed.

Lemma decode_encode_capability c : is_int64 (AccessMode c) -> sized (encodeVolumeCapability c) ->
  decodeVolumeCapability (encodeVolumeCapability c) = Ok c.
Proof.
  intros I Sz. rewrite encodeVolumeCapability_app in *. apply sized_app_inv in Sz as [_ Sz].
  apply sized_app_inv in Sz as [Sm [_ Sa]%sized_AppendMessage]. apply sized_uint64 in Sa.
  assert (forall c0, Mount c0 = Mount c -> Block c0 = Block c ->
    walk capability_step (AppendMessage [] 3 (AppendVarint [] 1 (wrapU64 (AccessMode c))) ++ []) c0 = Ok c) as WA.
  { intros c0 Em Eb. walk_one.
    pose proof (wrapU64_range (AccessMode c)). rewrite <- (app_nil_r (AppendVarint _ _ _)). walk_one.
    rewrite Int64_wrapU64 by done. rewrite walk_nil.
    run_step. rewrite walk_nil. destruct c, c0; simpl in *; congruence. }
  assert (forall c0, Mount c0 = None -> Block c0 = Block c ->
    walk capability_step ((match Mount c with Some m => AppendMessage [] 2 (encode_mount m) | None => [] end) ++
      AppendMessage [] 3 (AppendVarint [] 1 (wrapU64 (AccessMode c))) ++ []) c0 = Ok c) as WM.
  { intros c0 En Eb. destruct (Mount c) as [m|] eqn:Em; [|by apply WA]. apply sized_AppendMessage in Sm as [_ Sm].
    rewrite walk_AppendMessage by (solve_number || by apply sized_uint64). run_step.
    rewrite decode_mount by done. by apply WA. }
  unfold decodeVolumeCapability. rewrite app_nil_r in WM. destruct (Block c) eqn:Eb; [|by apply WM].
  rewrite walk_AppendMessage by (solve_number || by vm_compute). by apply WM.
Qed.

(** What a CreateVolumeResponse says, by the interface's own schema: a message
    with the volume at 1, which has its capacity at 1, its id at 2 and its
    context at 3. The reading side is the orchestrator's. *)
Definition volume_step (f : Field) (v : Volume) : result ProtoErr Volume :=
  if Number f =? 1 then Ok {| VID := VID v; VBytes := Int64 f; VContext := VContext v |}
  else if Number f =? 2 then Ok {| VID := Text f; VBytes := VBytes v; VContext := VContext v |}
  else if Number f =? 3 then
    let? m := StringMap (VContext v) (FieldBytes f) in
    Ok {| VID := VID v; VBytes := VBytes v; VContext := m |}
  else Ok v.
Definition no_Volume : Volume := {| VID := ""; VBytes := 0; VContext := ∅ |}.
Definition reply_step (f : Field) (v : Volume) : result ProtoErr Volume :=
  if Number f =? 1 then walk volume_step (FieldBytes f) no_Volume else Ok v.
Definition read_volume (b : list byte) : result ProtoErr Volume := walk reply_step b no_Volume.

Lemma elem_of_sortedKeys m k : k ∈ sortedKeys m <-> is_Some (m !! k).
Proof.
  unfold sortedKeys. rewrite elem_of_sort_Strings. rewrite list_elem_of_fmap. split.
  - intros ([k' v] & -> & H). apply elem_of_map_to_list in H. by exists v.
  - intros [v H]. exists (k, v). split; [done|]. by apply elem_of_map_to_list.
Qed.

Lemma filter_sortedKeys m : filter (fun kv => kv.1 ∈ sortedKeys m) m = m.
Proof.
  apply map_eq. intros i. rewrite map_lookup_filter. destruct (m !! i) eqn:E; [|done]. simpl.
  rewrite option_guard_True; [done|]. apply elem_of_sortedKeys. by exists s.
Qed.

Lemma walk_volume_context v r rest : sized (AppendStringMap [] 3 (sortedKeys (VContext v)) (VContext v)) ->
  VContext r = ∅ ->
  walk volume_step (AppendStringMap [] 3 (sortedKeys (VContext v)) (VContext v) ++ rest) r =
  walk volume_step rest {| VID := VID r; VBytes := VBytes r; VContext := VContext v |}.
Proof.
  intros Sz E.
  rewrite (walk_AppendStringMap volume_step 3 VContext
             (fun m r => {| VID := VID r; VBytes := VBytes r; VContext := m |})).
  - by rewrite filter_sortedKeys, E, (right_id_L ∅ (∪)).
  - solve_number.
  - done.
  - done.
  - done.
  - intros r'. by destruct r'.
  - intros k. apply elem_of_sortedKeys.
  - done.
Qed.

Lemma read_EncodeCreateVolume v : is_int64 (VBytes v) -> 0 <= VBytes v -> sized (EncodeCreateVolume v) ->
  read_volume (EncodeCreateVolume v) = Ok v.
Proof.
  intros I Nn [_ Sz]%sized_AppendMessage. unfold read_volume, EncodeCreateVolume.
  rewrite <- (app_nil_r (AppendMessage _ _ _)), walk_AppendMessage by (solve_number || by apply sized_uint64).
  change (reply_step (mkField 1 WireBytes 0 ?b) no_Volume) with (walk volume_step b no_Volume).
  unfold encode_volume in *. rewrite AppendStringMap_split in *.
  apply sized_app_inv in Sz as [[Sb Sid]%sized_AppendString Sm].
  rewrite AppendString_app, <- app_assoc.
  rewrite <- (app_nil_r (AppendStringMap _ _ _ _)).
  assert (forall r, VContext r = ∅ ->
    walk volume_step (AppendString [] 2 (VID v) ++ AppendStringMap [] 3 (sortedKeys (VContext v)) (VContext v) ++ []) r =
    Ok {| VID := VID v; VBytes := VBytes r; VContext := VContext v |}) as W.
  { intros r E. rewrite walk_AppendString by (solve_number || done).
    change (volume_step (mkField 2 ?w ?n ?b) ?r) with
      (Ok (E := ProtoErr) {| VID := Text (mkField 2 w n b); VBytes := VBytes r; VContext := VContext r |}).
    cbn [bind_result]. rewrite Text_mk, walk_volume_context by done. by rewrite walk_nil. }
  destruct (0 <? VBytes v) eqn:P.
  - rewrite walk_AppendVarint by (solve_number || apply wrapU64_range).
    change (volume_step (mkField 1 ?w ?n ?b) ?r) with
      (Ok (E := ProtoErr) {| VID := VID r; VBytes := Int64 (mkField 1 w n b); VContext := VContext r |}).
    cbn [bind_result]. rewrite W by done. cbn [bind_result]. rewrite walk_nil. simpl VBytes.
    rewrite Int64_wrapU64 by done. by destruct v.
  - apply Z.ltb_ge in P. simpl app. rewrite W by done. cbn [bind_result]. rewrite walk_nil. simpl VBytes.
    replace 0 with (VBytes v) by lia. by destruct v.
Qed.
