(* ===== verification/GrpcWire.v ===== *)
(** * GrpcWire: unary calls over HTTP/2
    (internal/grpcwire/status.go, server.go, client.go)

    The standard library's HTTP/2 is between the two halves: a request is its
    method, headers, path and body; a response is a plain one, with a status
    and a text, or a gRPC one, with a body and the two trailers. Handlers keep
    their state in [S]. A body ends where its bytes do. *)

From S2P Require Import Prelude GoStrings.

Local Open Scope Z_scope.

(** ** Statuses (status.go) *)

Abbreviation Code := Z (only parsing).
Definition OK : Code := 0.
Definition Canceled : Code := 1.
Definition Unknown : Code := 2.
Definition InvalidArgument : Code := 3.
Definition DeadlineExceeded : Code := 4.
Definition NotFound : Code := 5.
Definition ResourceExhausted : Code := 8.
Definition FailedPrecondition : Code := 9.
Definition Unimplemented : Code := 12.
Definition Internal : Code := 13.
Definition Unavailable : Code := 14.

Definition Code_String (c : Code) : string :=
  if c =? OK then "OK"
  else if c =? Canceled then "Canceled"
  else if c =? Unknown then "Unknown"
  else if c =? InvalidArgument then "InvalidArgument"
  else if c =? ResourceExhausted then "ResourceExhausted"
  else if c =? DeadlineExceeded then "DeadlineExceeded"
  else if c =? NotFound then "NotFound"
  else if c =? FailedPrecondition then "FailedPrecondition"
  else if c =? Unimplemented then "Unimplemented"
  else if c =? Internal then "Internal"
  else if c =? Unavailable then "Unavailable"
  else "Code(" +:+ FormatUint c +:+ ")".

(** An error: a [*Status], or another error with its text. *)
Inductive Error : Type :=
  | Status (code : Code) (message : string)
  | Plain (text : string).
#[global] Instance Error_eq_dec : EqDecision Error.
Proof. solve_decision. Defined.

Definition Error_Error (e : Error) : string :=
  match e with
  | Status c m => "rpc " +:+ Code_String c +:+ ": " +:+ m
  | Plain t => t
  end.

Definition CodeOf (e : option Error) : Code :=
  match e with
  | None => OK
  | Some (Status c _) => c
  | Some (Plain _) => Unknown
  end.

(** ** Messages in a trailer *)

Definition hex_digit (d : Z) : byte := byte_of (if d <? 10 then 48 + d else 55 + d).
Definition hex_value (c : byte) : option Z :=
  let z := of_byte c in
  if (48 <=? z) && (z <=? 57) then Some (z - 48)
  else if (65 <=? z) && (z <=? 70) then Some (z - 55)
  else if (97 <=? z) && (z <=? 102) then Some (z - 87)
  else None.

Definition escaped (c : byte) : bool :=
  (of_byte c <? 0x20) || (0x7E <? of_byte c) || Ascii.eqb c "%".

Fixpoint encode_bytes (b : list byte) : list byte :=
  match b with
  | [] => []
  | c :: b =>
      if escaped c
      then "%"%char :: hex_digit (of_byte c / 16) :: hex_digit (of_byte c mod 16) :: encode_bytes b
      else c :: encode_bytes b
  end.
Definition encodeMessage (s : string) : string := string_of (encode_bytes (bytes_of s)).

Fixpoint decode_bytes (b : list byte) : list byte :=
  match b with
  | [] => []
  | c :: b' =>
      match b' with
      | h :: l :: rest =>
          match Ascii.eqb c "%", hex_value h, hex_value l with
          | true, Some h, Some l => byte_of (16 * h + l) :: decode_bytes rest
          | _, _, _ => c :: decode_bytes b'
          end
      | _ => c :: decode_bytes b'
      end
  end.
Definition decodeMessage (s : string) : string :=
  if negb (has_byte "%" s) then s else string_of (decode_bytes (bytes_of s)).

(** ** Frames (server.go) *)

Definition maxMessage : Z := 4194304.

Definition frame (msg : list byte) : list byte := byte_of 0 :: PutUint32 (zlen msg) ++ msg.

(** The message, and what the stream still holds. *)
Definition readMessage (b : list byte) : result Error (list byte) :=
  if zlen b <? 5 then
    match b with
    | [] => Err (Status InvalidArgument "the stream carried no message")
    | _ => Err (Status InvalidArgument "reading the message header: unexpected EOF")
    end
  else if negb (be_value (slice 0 1 b) =? 0) then
    Err (Status Unimplemented "compressed messages are not accepted")
  else
    let n := be_value (slice 1 5 b) in
    if maxMessage <? n then
      Err (Status ResourceExhausted
        ("a message of " +:+ FormatUint n +:+ " bytes, over the " +:+ FormatInt maxMessage +:+ " limit"))
    else if zlen b <? 5 + n then
      Err (Status InvalidArgument
        ("the message ended after fewer than the " +:+ FormatUint n +:+ " bytes it declared"))
    else Ok (slice 5 (5 + n) b).

(** [grpc-timeout]: a number and the letter of its unit; the product wraps. *)
Definition timeout_unit (c : byte) : option duration :=
  if Ascii.eqb c "H" then Some Hour
  else if Ascii.eqb c "M" then Some Minute
  else if Ascii.eqb c "S" then Some Second
  else if Ascii.eqb c "m" then Some Millisecond
  else if Ascii.eqb c "u" then Some Microsecond
  else if Ascii.eqb c "n" then Some Nanosecond
  else None.
Definition timeout (v : string) : option duration :=
  let b := bytes_of v in
  if zlen b <? 2 then None
  else
    match ParseInt (string_of (slice 0 (zlen b - 1) b)) with
    | (_, Some _) => None
    | (n, None) =>
        if n <? 0 then None
        else match last b with
             | None => None
             | Some c => (fun unit => n *! unit) <$> timeout_unit c
             end
    end.

(** ** The server (server.go) *)

Record HttpRequest : Type := mkHttpRequest {
  Method : string;
  ContentType : string;
  URLPath : string;
  GrpcTimeout : string;
  Body : list byte;
}.

Inductive HttpResponse : Type :=
  | PlainResponse (status : Z) (text : string)
  | GrpcResponse (body : list byte) (grpc_status grpc_message : string).

Definition StatusMethodNotAllowed : Z := 405.
Definition StatusUnsupportedMediaType : Z := 415.

(** [http.Error] ends the text with a newline. *)
Definition http_Error (text : string) (code : Z) : HttpResponse :=
  PlainResponse code (text +:+ string_of [byte_of 10]).

(** The outcome, in the trailers. *)
Definition finish (body : list byte) (e : option Error) : HttpResponse :=
  let status := FormatUint (CodeOf e) in
  match e with
  | None => GrpcResponse body status ""
  | Some (Status _ m) => GrpcResponse body status (encodeMessage m)
  | Some (Plain t) => GrpcResponse body status (encodeMessage t)
  end.

Section server.
Context {S : Type}.

(** A handler, under the deadline the caller set, if it set one. *)
Definition Handler : Type := option duration -> list byte -> S -> S * result Error (list byte).
Definition Server : Type := gmap string Handler.

Fixpoint count_slashes (s : string) : Z :=
  match s with
  | EmptyString => 0
  | String c s => (if Ascii.eqb c "/" then 1 else 0) + count_slashes s
  end.

(** [None] is a panic. *)
Definition Register (fullMethod : string) (h : option Handler) (s : Server) : option Server :=
  if negb (String.prefix "/" fullMethod) || negb (count_slashes fullMethod =? 2) then None
  else match h with
       | None => None
       | Some h =>
           match s !! fullMethod with
           | Some _ => None
           | None => Some (<[fullMethod := h]> s)
           end
       end.

(** [wrote] is how writing the reply ends: [None] when all of it went out,
    otherwise the bytes that did and the error. *)
Definition serveHTTP (srv : Server) (wrote : option (Z * string)) (r : HttpRequest) (s : S)
  : S * HttpResponse :=
  if negb (Method r =? "POST")%string then (s, http_Error "grpc requires POST" StatusMethodNotAllowed)
  else if negb (String.prefix "application/grpc" (ContentType r)) then
    (s, http_Error ("not a grpc content type: " +:+ ContentType r) StatusUnsupportedMediaType)
  else match srv !! URLPath r with
       | None =>
           (s, finish [] (Some (Status Unimplemented (URLPath r +:+ " is not served by this driver"))))
       | Some h =>
           match readMessage (Body r) with
           | Err e => (s, finish [] (Some e))
           | Ok req =>
               let '(s, resp) := h (timeout (GrpcTimeout r)) req s in
               match resp with
               | Err e => (s, finish [] (Some e))
               | Ok resp =>
                   match wrote with
                   | None => (s, finish (frame resp) None)
                   | Some (n, why) =>
                       (s, finish (ztake n (frame resp))
                             (Some (Status Internal ("writing the reply: " +:+ why))))
                   end
               end
           end
       end.
End server.
Arguments Handler S : clear implicits.
Arguments Server S : clear implicits.

(** ** The client (client.go) *)

Definition client_status `{Quoting} (grpc_status grpc_message : string) : option Error :=
  if (grpc_status =? "")%string then Some (Status Internal "the reply carried no grpc-status")
  else match ParseUint MaxUint32 (bytes_of grpc_status) with
       | (_, Some _) => Some (Status Internal ("unreadable grpc-status " +:+ quote grpc_status))
       | (code, None) =>
           if code =? OK then None else Some (Status code (decodeMessage grpc_message))
       end.

Definition call_request (fullMethod : string) (remaining : option duration) (req : list byte) : HttpRequest :=
  {| Method := "POST"; ContentType := "application/grpc+proto"; URLPath := fullMethod;
     GrpcTimeout := match remaining with
                    | Some d => if 0 <? d then FormatInt (d / Microsecond) +:+ "u" else ""
                    | None => ""
                    end;
     Body := frame req |}.

(** What [Call] returns of the transport's answer; [remaining] is the time to the
    caller's deadline. *)
Definition call_reply `{Quoting} (fullMethod : string) (resp : result string HttpResponse)
  : result Error (list byte) :=
  match resp with
  | Err why => Err (Status Unavailable ("calling " +:+ fullMethod +:+ ": " +:+ why))
  | Ok (PlainResponse code text) =>
      Err (Status Unavailable (fullMethod +:+ " answered HTTP " +:+ FormatInt code +:+ ": "
                               +:+ TrimSpace (string_of (ztake 1024 (bytes_of text)))))
  | Ok (GrpcResponse body grpc_status grpc_message) =>
      match client_status grpc_status grpc_message with
      | Some e => Err e
      | None => readMessage body
      end
  end.

Definition Call `{Quoting} {S} (do_ : HttpRequest -> S -> S * result string HttpResponse)
    (fullMethod : string) (remaining : option duration) (req : list byte) (s : S)
  : S * result Error (list byte) :=
  let '(s, resp) := do_ (call_request fullMethod remaining req) s in
  (s, call_reply fullMethod resp).

(** * What a call over GrpcWire carries across *)

(** ** Messages survive the trailer *)

Lemma hex_value_digit d : 0 <= d < 16 -> hex_value (hex_digit d) = Some d.
Proof.
  intros D. assert (Forall (fun d => hex_value (hex_digit d) = Some d) (seqZ 0 16)) as F.
  { apply (bool_decide_eq_true_1 _). vm_compute. reflexivity. }
  rewrite Forall_forall in F. apply F, elem_of_seqZ. lia.
Qed.

Lemma decode_bytes_other c b : Ascii.eqb c "%" = false -> decode_bytes (c :: b) = c :: decode_bytes b.
Proof. intros N. simpl. destruct b as [|h [|l rest]]; [done..|]. by rewrite N. Qed.

Lemma decode_encode_bytes b : decode_bytes (encode_bytes b) = b.
Proof.
  induction b as [|c b IH]; [done|]. cbn [encode_bytes]. destruct (escaped c) eqn:E.
  - pose proof (of_byte_range c). pose proof (Z.mod_pos_bound (of_byte c) 16).
    assert (0 <= of_byte c / 16 < 16) by (split; [apply Z.div_pos; lia|apply Z.div_lt_upper_bound; lia]).
    cbn [decode_bytes]. rewrite Ascii.eqb_refl, !hex_value_digit, IH by lia. f_equal.
    rewrite <- Z.div_mod by lia. apply byte_of_byte.
  - rewrite decode_bytes_other, IH; [done|]. unfold escaped in E. by apply orb_false_elim in E as [_ ?].
Qed.

Lemma decode_no_percent b : has_byte "%" (string_of b) = false -> decode_bytes b = b.
Proof.
  induction b as [|c b IH]; [done|]. cbn [string_of has_byte]. intros [N H]%orb_false_elim.
  by rewrite decode_bytes_other, IH.
Qed.

Lemma decode_encode_message s : decodeMessage (encodeMessage s) = s.
Proof.
  unfold decodeMessage, encodeMessage. destruct (has_byte _ _) eqn:H; simpl.
  - autorewrite with go. rewrite decode_encode_bytes. by autorewrite with go.
  - rewrite <- (decode_no_percent _ H), decode_encode_bytes. by autorewrite with go.
Qed.

(** ** Frames *)

Lemma readMessage_frame m : zlen m < 4294967296 ->
  readMessage (frame m) =
  if maxMessage <? zlen m then
    Err (Status ResourceExhausted
      ("a message of " +:+ FormatUint (zlen m) +:+ " bytes, over the " +:+ FormatInt maxMessage +:+ " limit"))
  else Ok m.
Proof.
  intros L. pose proof (zlen_nonneg m). unfold readMessage, frame.
  assert (zlen (byte_of 0 :: PutUint32 (zlen m) ++ m) = 5 + zlen m) as E.
  { autorewrite with go. lia. }
  rewrite E, (proj2 (Z.ltb_ge _ _)) by lia.
  assert (forall l : list byte, slice 5 (5 + zlen m) (byte_of 0 :: PutUint32 (zlen m) ++ l) = slice 0 (zlen m) l) as S5.
  { intros l. unfold slice. replace (5 + zlen m - 5) with (zlen m - 0) by lia. reflexivity. }
  assert (slice 1 5 (byte_of 0 :: PutUint32 (zlen m) ++ m) = PutUint32 (zlen m)) as S1 by reflexivity.
  change (be_value (slice 0 1 _)) with 0. rewrite Z.eqb_refl. cbn [negb].
  rewrite S1, be_value_be. change (256 ^ Z.of_nat 4) with 4294967296. rewrite Z.mod_small by lia.
  destruct (maxMessage <? zlen m); [done|]. rewrite (proj2 (Z.ltb_ge _ _)) by lia.
  by rewrite S5, slice_all.
Qed.

(** ** Deadlines *)

Lemma FormatInt_nonempty n : 0 <= n -> 1 <= zlen (bytes_of (FormatInt n)).
Proof.
  intros N. unfold FormatInt, FormatUint. rewrite (proj2 (Z.ltb_ge _ _)) by lia.
  rewrite list_ascii_of_string_of_list_ascii. destruct (digits_head 19 n []) as (d & r & _ & ->).
  rewrite zlen_cons. pose proof (zlen_nonneg r). lia.
Qed.

(** A count of a unit is read as so many of the unit, reduced to 64 bits. *)
Lemma timeout_count n c unit : 0 <= n <= MaxInt64 -> timeout_unit c = Some unit ->
  timeout (FormatInt n +:+ String c EmptyString) = Some (n *! unit).
Proof.
  intros N U. unfold timeout. rewrite bytes_of_app. cbn [bytes_of]. pose proof (FormatInt_nonempty n ltac:(lia)).
  rewrite zlen_app. change (zlen [c]) with 1. rewrite (proj2 (Z.ltb_ge _ _)) by lia.
  assert (slice 0 (zlen (bytes_of (FormatInt n)) + 1 - 1) (bytes_of (FormatInt n) ++ [c]) = bytes_of (FormatInt n)) as ->.
  { unfold slice, ztake, zdrop. rewrite drop_0. unfold zlen.
    replace (Z.to_nat _) with (length (bytes_of (FormatInt n))) by lia. by rewrite take_app_length. }
  rewrite string_of_list_ascii_of_string, ParseInt_FormatInt by (unfold is_int64, MinInt64; lia).
  rewrite (proj2 (Z.ltb_ge _ _)), last_snoc, U by lia. done.
Qed.

(** The largest count of hours the protocol allows, eight digits of them, wraps
    into a deadline long past. *)
Example timeout_wraps : timeout "99999999H" = Some (-8934885074191032320).
Proof. vm_compute. reflexivity. Qed.

(** ** Calls *)

Section calls.
Context `{Quoting} {S : Type}.

(** A transport that delivers, with the server at its other end. *)
Definition over (srv : Server S) (r : HttpRequest) (s : S) : S * result string HttpResponse :=
  let '(s, resp) := serveHTTP srv None r s in (s, Ok resp).

Definition is_code (c : Z) : Prop := 0 <= c <= MaxUint32.

Definition code_ok (e : Error) : Prop := match e with Status c _ => is_code c | Plain _ => True end.

Lemma bytes_FormatUint n : bytes_of (FormatUint n) = digits 19 n [].
Proof. unfold FormatUint. apply list_ascii_of_string_of_list_ascii. Qed.

Lemma FormatUint_not_empty n : (FormatUint n =? "")%string = false.
Proof.
  apply String.eqb_neq. intros E. destruct (digits_head 19 n []) as (d & r & _ & D).
  rewrite <- bytes_FormatUint, E in D. discriminate.
Qed.

Lemma client_status_finish c m : is_code c -> client_status (FormatUint c) m =
  if c =? OK then None else Some (Status c (decodeMessage m)).
Proof.
  intros C. unfold client_status. rewrite FormatUint_not_empty, bytes_FormatUint.
  unfold is_code, MaxUint32 in C. by rewrite ParseUint_digits by (unfold MaxUint32, MaxUint64; lia).
Qed.

(** What the caller is told of an error: a status as it is, except that one with
    the code of success is a reply with no message; any other as unknown. *)
Definition told (e : Error) : Error :=
  match e with
  | Status c m => if c =? OK then Status InvalidArgument "the stream carried no message" else Status c m
  | Plain t => Status Unknown t
  end.

Lemma call_reply_error m e : code_ok e -> call_reply m (Ok (finish [] (Some e))) = Err (told e).
Proof.
  intros C. destruct e as [c t|t]; cbn [finish call_reply CodeOf]; rewrite client_status_finish;
    try done; cbn [told].
  - rewrite decode_encode_message. by case_if.
  - by rewrite decode_encode_message.
Qed.

Lemma call_reply_ok m resp : zlen resp < 4294967296 ->
  call_reply m (Ok (finish (frame resp) None)) = readMessage (frame resp).
Proof. intros L. cbn [finish call_reply CodeOf]. by rewrite client_status_finish. Qed.

(** The deadline a handler sees: the caller's, to the microsecond below. *)
Definition deadline_seen (remaining : option duration) : option duration :=
  match remaining with
  | Some d => if 0 <? d then Some (d / Microsecond * Microsecond) else None
  | None => None
  end.

Lemma timeout_request m remaining req :
  (forall d, remaining = Some d -> is_int64 d) ->
  timeout (GrpcTimeout (call_request m remaining req)) = deadline_seen remaining.
Proof.
  intros I. destruct remaining as [d|]; [|done]. simpl. destruct (0 <? d) eqn:P; [|done].
  apply Z.ltb_lt in P. specialize (I d eq_refl). unfold is_int64, Microsecond in *.
  pose proof (Z.div_pos d 1000). pose proof (Z.mul_div_le d 1000).
  rewrite (timeout_count _ _ 1000) by (done || lia). f_equal. apply wrap64_id.
  unfold is_int64, MinInt64. lia.
Qed.

Definition outcome_ok (r : result Error (list byte)) : Prop :=
  match r with Ok resp => zlen resp < 4294967296 | Err e => code_ok e end.

(** A reply as its caller gets it, which refuses one over the limit. *)
Definition delivered (resp : list byte) : result Error (list byte) :=
  if maxMessage <? zlen resp then
    Err (Status ResourceExhausted
      ("a message of " +:+ FormatUint (zlen resp) +:+ " bytes, over the " +:+ FormatInt maxMessage +:+ " limit"))
  else Ok resp.

(** a call reaches its handler and the outcome reaches the caller. Over a
    transport that delivers, [Call] runs the method's handler once, on exactly
    the caller's bytes and under the caller's deadline cut to the microsecond,
    and returns the reply byte for byte, or the status with its message, whatever
    is in it, or an error that is no status as unknown. A method nobody serves is
    unimplemented and a request over the limit is refused, both without running
    anything; a reply over the limit is refused on the caller's side. *)
Theorem call_reaches_handler (srv : Server S) m remaining req s :
  (forall d, remaining = Some d -> is_int64 d) -> zlen req < 4294967296 ->
  (forall h d q s0, srv !! m = Some h -> outcome_ok (h d q s0).2) ->
  Call (over srv) m remaining req s =
  match srv !! m with
  | None => (s, Err (Status Unimplemented (m +:+ " is not served by this driver")))
  | Some h =>
      match delivered req with
      | Err e => (s, Err e)
      | Ok req =>
          let '(s, r) := h (deadline_seen remaining) req s in
          (s, match r with Ok resp => delivered resp | Err e => Err (told e) end)
      end
  end.
Proof.
  intros Id Lr Oh. unfold Call, over, serveHTTP. cbn [Method ContentType URLPath Body call_request].
  change (negb ("POST" =? "POST")%string) with false.
  change (negb (String.prefix "application/grpc" "application/grpc+proto")) with false. cbv iota.
  destruct (srv !! m) as [h|]; [|cbv beta; by rewrite call_reply_error].
  rewrite readMessage_frame by done. fold (delivered req).
  assert (forall e, delivered req = Err e -> call_reply m (Ok (finish [] (Some e))) = Err e) as De.
  { unfold delivered. intros e. case_if; [|done]. intros [= <-]. by rewrite call_reply_error. }
  destruct (delivered req) as [q|e] eqn:D; [|by rewrite De].
  rewrite timeout_request by done. pose proof (Oh h (deadline_seen remaining) q s eq_refl) as O.
  destruct (h _ q s) as [s' r]. simpl in O. destruct r as [resp|e].
  - rewrite call_reply_ok, readMessage_frame by done. done.
  - by rewrite call_reply_error.
Qed.
End calls.

(** A server of one method that echoes what is short, and fails on an empty message. *)
Definition wecho : Handler nat := fun d req n =>
  (S n, match req with [] => Err (Plain ("100%" +:+ string_of [byte_of 10])) | _ => Ok (ztake 8 req) end).
Lemma wecho_outcome d q n : outcome_ok (wecho d q n).2.
Proof.
  destruct q as [|c q]; [done|]. unfold wecho, outcome_ok, ztake, zlen. cbn [snd]. rewrite length_take. lia.
Qed.
Definition wquote : Quoting := fun s => s.

Lemma call_reaches_handler_witness :
  let srv := {[ "/a.B/C"%string := wecho ]} : Server nat in
  Call (H := wquote) (over srv) "/a.B/C" (Some 2500) (bytes_of "hi") 0%nat = (1%nat, Ok (bytes_of "hi")) /\
  Call (H := wquote) (over srv) "/a.B/C" None [] 1%nat
    = (2%nat, Err (Status Unknown ("100%" +:+ string_of [byte_of 10]))).
Proof.
  cbv zeta. split.
  - etransitivity.
    + apply (call_reaches_handler (H := wquote) {[ "/a.B/C"%string := wecho ]} "/a.B/C" (Some 2500) (bytes_of "hi") 0%nat).
      * intros d [= <-]. vm_compute. split; discriminate.
      * reflexivity.
      * intros h d q s0 E. change (Some wecho = Some h) in E. injection E as <-. apply wecho_outcome.
    + vm_compute. reflexivity.
  - etransitivity.
    + apply (call_reaches_handler (H := wquote) {[ "/a.B/C"%string := wecho ]} "/a.B/C" None [] 1%nat).
      * discriminate.
      * reflexivity.
      * intros h d q s0 E. change (Some wecho = Some h) in E. injection E as <-. apply wecho_outcome.
    + vm_compute. reflexivity.
Defined.
