(* ===== verification/CsiDriver.v ===== *)
(** * CsiDriver: the storage interface's methods
    (internal/csi/driver.go, registration.go)

    What the driver calls, to resolve, to mount and to tell, acts on a state [S]
    it does not look at; CsiNode supplies a node's. A [context.Context] is its
    deadline. *)

From S2P Require Import Prelude GoStrings ProtoWire CsiMessage GrpcWire.

Local Open Scope Z_scope.

Definition MethodGetPluginInfo : string := "/csi.v1.Identity/GetPluginInfo".
Definition MethodGetPluginCapabilities : string := "/csi.v1.Identity/GetPluginCapabilities".
Definition MethodProbe : string := "/csi.v1.Identity/Probe".
Definition MethodControllerGetCapabilities : string := "/csi.v1.Controller/ControllerGetCapabilities".
Definition MethodCreateVolume : string := "/csi.v1.Controller/CreateVolume".
Definition MethodDeleteVolume : string := "/csi.v1.Controller/DeleteVolume".
Definition MethodValidateVolumeCapabilities : string := "/csi.v1.Controller/ValidateVolumeCapabilities".
Definition MethodNodeGetInfo : string := "/csi.v1.Node/NodeGetInfo".
Definition MethodNodeGetCapabilities : string := "/csi.v1.Node/NodeGetCapabilities".
Definition MethodNodePublishVolume : string := "/csi.v1.Node/NodePublishVolume".
Definition MethodNodeUnpublishVolume : string := "/csi.v1.Node/NodeUnpublishVolume".

Section driver.
Context `{Quoting} {S : Type}.
Abbreviation context := (option duration) (only parsing).

Definition Resolver : Type :=
  context -> string -> string -> S -> S * result Error (string * Z).

Record Mounter : Type := mkMounter {
  MMount : context -> string -> string -> list string -> S -> S * option Error;
  MUnmount : context -> string -> S -> S * option Error;
}.

Record Observer : Type := mkObserver {
  Published : string -> Z -> S -> S;
  Unpublished : string -> S -> S;
}.

Record CsiConfig : Type := mkCsiConfig {
  NodeID : string;
  Version : string;
  Access : string;
  Export : string;
  MountFlags : list string;
  CResolver : option Resolver;
  CMounter : option Mounter;
  CObserver : option Observer;
}.

Definition is_some {A} (o : option A) : bool := match o with Some _ => true | None => false end.

(** [New]; a driver is its configuration. *)
Definition New (cfg : CsiConfig) : result string CsiConfig :=
  if (NodeID cfg =? "")%string && is_some (CMounter cfg) then
    Err "csi: a node plugin needs the name of its node"
  else if is_some (CMounter cfg) && (Access cfg =? "")%string then
    Err "csi: a node plugin needs the address of the access layer"
  else if is_some (CMounter cfg) && (Export cfg =? "")%string then
    Err "csi: a node plugin needs the export the access layer publishes"
  else Ok cfg.

(** ** What is asked for *)

Definition unreadable (e : ProtoErr) : Error :=
  Status InvalidArgument ("unreadable request: " +:+ ProtoErr_Error e).

Fixpoint acceptable (caps : list VolumeCapability) : option Error :=
  match caps with
  | [] => None
  | c :: caps =>
      if Block c then
        Some (Status InvalidArgument
          ("this driver serves a filesystem and was asked for " +:+ describe c))
      else if negb (AccessMode c =? accessMultiNodeReaderOnly) then
        Some (Status InvalidArgument
          ("a dataset is immutable and is served read-only to many readers, and this asked for "
           +:+ describe c))
      else acceptable caps
  end.

Definition datasetFrom (params : gmap string string) : result Error (string * string) :=
  let v := TrimSpace (default ""%string (params !! "dataset"%string)) in
  if (v =? "")%string then
    Err (Status InvalidArgument "the storage class does not say which dataset it hands out, so set its dataset parameter to namespace/name")
  else
    let '(ns, n, found) := Cut "/" v in
    if negb found || (ns =? "")%string || (n =? "")%string then
      Err (Status InvalidArgument ("a dataset is named namespace/name, got " +:+ quote v))
    else Ok (ns, n).

Definition source (d : CsiConfig) (object : string) : result Error string :=
  let refuse := Err (Status InvalidArgument
    ("the object " +:+ quote object +:+ " does not name a dataset inside the export")) in
  if (object =? "")%string then refuse
  else if existsb (fun s => (s =? "")%string || (s =? ".")%string || (s =? "..")%string) (Split "/" object)
  then refuse
  else Ok (Access d +:+ ":" +:+ join_rooted (Export d) object).

(** ** The identity and controller halves *)

Definition getPluginInfo (d : CsiConfig) : Handler S := fun _ _ s =>
  (s, Ok (EncodePluginInfo Name (Version d))).
Definition getPluginCapabilities : Handler S := fun _ _ s => (s, Ok EncodePluginCapabilities).
Definition probe : Handler S := fun _ _ s => (s, Ok (EncodeProbe true)).
Definition controllerGetCapabilities : Handler S := fun _ _ s => (s, Ok EncodeControllerCapabilities).

(** The volume a resolved dataset is. *)
Definition resolved_volume (namespace name object : string) (bytes : Z) : Volume :=
  {| VID := namespace +:+ "/" +:+ name;
     VBytes := bytes;
     VContext := <["object" := object]> (<["dataset" := namespace +:+ "/" +:+ name]>
                   {["bytes" := FormatInt bytes]})%string |}.

(** [resolve] is the driver's resolver: the method is only registered with one. *)
Definition createVolume (resolve : Resolver) : Handler S := fun ctx req s =>
  match DecodeCreateVolume req with
  | Err e => (s, Err (unreadable e))
  | Ok r =>
      if (CreateName r =? "")%string then (s, Err (Status InvalidArgument "a volume needs a name"))
      else if zlen (CreateCapabilities r) =? 0 then
        (s, Err (Status InvalidArgument "a volume needs at least one capability"))
      else match acceptable (CreateCapabilities r) with
           | Some e => (s, Err e)
           | None =>
               match datasetFrom (Parameters r) with
               | Err e => (s, Err e)
               | Ok (namespace, name) =>
                   let '(s, o) := resolve ctx namespace name s in
                   match o with
                   | Err e => (s, Err e)
                   | Ok (object, bytes) =>
                       (s, Ok (EncodeCreateVolume (resolved_volume namespace name object bytes)))
                   end
               end
           end
  end.

Definition deleteVolume : Handler S := fun _ req s =>
  match DecodeDeleteVolume req with
  | Err e => (s, Err (unreadable e))
  | Ok id =>
      if (id =? "")%string then (s, Err (Status InvalidArgument "a delete needs a volume id"))
      else (s, Ok [])
  end.

Definition validate : Handler S := fun _ req s =>
  match DecodeValidate req with
  | Err e => (s, Err (unreadable e))
  | Ok r =>
      if (ValidateID r =? "")%string then
        (s, Err (Status InvalidArgument "a validation needs a volume id"))
      else if zlen (ValidateCapabilities r) =? 0 then
        (s, Err (Status InvalidArgument "a validation needs at least one capability"))
      else match acceptable (ValidateCapabilities r) with
           | Some e => (s, Ok (EncodeValidate false [] (Error_Error e)))
           | None => (s, Ok (EncodeValidate true (ValidateCapabilities r) ""))
           end
  end.

(** ** The node half *)

Definition nodeGetInfo (d : CsiConfig) : Handler S := fun _ _ s => (s, Ok (EncodeNodeInfo (NodeID d) 0)).
Definition nodeGetCapabilities : Handler S := fun _ _ s => (s, Ok EncodeNodeCapabilities).

(** The value of a number that cannot be read is used all the same. *)
Definition observe (d : CsiConfig) (volumeID : string) (ctx : gmap string string) (s : S) : S :=
  match CObserver d with
  | None => s
  | Some o =>
      let bytes := (ParseInt (default ""%string (ctx !! "bytes"%string))).1 in
      Published o volumeID (if bytes <? 0 then 0 else bytes) s
  end.

Definition forget (d : CsiConfig) (volumeID : string) (s : S) : S :=
  match CObserver d with None => s | Some o => Unpublished o volumeID s end.

Definition nodePublish (d : CsiConfig) (m : Mounter) : Handler S := fun ctx req s =>
  match DecodeNodePublish req with
  | Err e => (s, Err (unreadable e))
  | Ok r =>
      if (PublishID r =? "")%string then (s, Err (Status InvalidArgument "a publish needs a volume id"))
      else if (PublishTarget r =? "")%string then
        (s, Err (Status InvalidArgument "a publish needs a target path"))
      else match PublishCapability r with
           | None => (s, Err (Status InvalidArgument "a publish needs a volume capability"))
           | Some c =>
               match acceptable [c] with
               | Some e => (s, Err e)
               | None =>
                   let object := default ""%string (PublishContext r !! "object"%string) in
                   if (object =? "")%string then
                     (s, Err (Status InvalidArgument ("the volume context does not say which object backs "
                        +:+ PublishID r +:+ ", which the controller sets when it resolves the dataset")))
                   else match source d object with
                        | Err e => (s, Err e)
                        | Ok src =>
                            let '(s, e) := MMount m ctx src (PublishTarget r) (MountFlags d) s in
                            match e with
                            | Some e => (s, Err (Status Internal ("mounting " +:+ src +:+ " at "
                                           +:+ PublishTarget r +:+ ": " +:+ Error_Error e)))
                            | None => (observe d (PublishID r) (PublishContext r) s, Ok [])
                            end
                        end
               end
           end
  end.

Definition nodeUnpublish (d : CsiConfig) (m : Mounter) : Handler S := fun ctx req s =>
  match DecodeNodeUnpublish req with
  | Err e => (s, Err (unreadable e))
  | Ok r =>
      if (UnpublishID r =? "")%string then
        (s, Err (Status InvalidArgument "an unpublish needs a volume id"))
      else if (UnpublishTarget r =? "")%string then
        (s, Err (Status InvalidArgument "an unpublish needs a target path"))
      else
        let '(s, e) := MUnmount m ctx (UnpublishTarget r) s in
        match e with
        | Some e => (s, Err (Status Internal ("unmounting " +:+ UnpublishTarget r +:+ ": " +:+ Error_Error e)))
        | None => (forget d (UnpublishID r) s, Ok [])
        end
  end.

(** ** Registration *)

(** The methods of a driver, in the order they are registered. *)
Definition methods (d : CsiConfig) : list (string * Handler S) :=
  [(MethodGetPluginInfo, getPluginInfo d);
   (MethodGetPluginCapabilities, getPluginCapabilities);
   (MethodProbe, probe)] ++
  match CResolver d with
  | None => []
  | Some r => [(MethodControllerGetCapabilities, controllerGetCapabilities);
               (MethodCreateVolume, createVolume r);
               (MethodDeleteVolume, deleteVolume);
               (MethodValidateVolumeCapabilities, validate)]
  end ++
  match CMounter d with
  | None => []
  | Some m => [(MethodNodeGetInfo, nodeGetInfo d);
               (MethodNodeGetCapabilities, nodeGetCapabilities);
               (MethodNodePublishVolume, nodePublish d m);
               (MethodNodeUnpublishVolume, nodeUnpublish d m)]
  end.

(** Registering each in turn; [None] is a panic. *)
Fixpoint register_all (ms : list (string * Handler S)) (srv : Server S) : option (Server S) :=
  match ms with
  | [] => Some srv
  | (name, h) :: ms =>
      match GrpcWire.Register name (Some h) srv with
      | None => None
      | Some srv => register_all ms srv
      end
  end.
Definition Register (d : CsiConfig) (srv : Server S) : option (Server S) := register_all (methods d) srv.

End driver.
Arguments Resolver S : clear implicits.
Arguments Mounter S : clear implicits.
Arguments Observer S : clear implicits.
Arguments CsiConfig S : clear implicits.

(** ** The kubelet's registration (registration.go) *)

Definition MethodGetInfo : string := "/pluginregistration.Registration/GetInfo".
Definition MethodNotifyRegistrationStatus : string := "/pluginregistration.Registration/NotifyRegistrationStatus".
Definition pluginTypeCSI : string := "CSIPlugin".
Definition csiVersion : string := "1.0.0".

Section registration.
Context {S : Type}.

Definition getInfo (endpoint : string) : Handler S := fun _ _ s =>
  let out := AppendString [] 1 pluginTypeCSI in
  let out := AppendString out 2 Name in
  let out := AppendString out 3 endpoint in
  (s, Ok (AppendString out 4 csiVersion)).

Definition notify_step (f : Field) (v : bool * string) : result ProtoErr (bool * string) :=
  Ok (if Number f =? 1 then (Bool f, v.2) else if Number f =? 2 then (v.1, Text f) else v).

Definition notify (onStatus : option (bool -> string -> S -> S)) : Handler S := fun _ req s =>
  match walk notify_step req (false, ""%string) with
  | Err e => (s, Err (Status InvalidArgument ("unreadable status: " +:+ ProtoErr_Error e)))
  | Ok (registered, why) =>
      (match onStatus with Some f => f registered why s | None => s end, Ok [])
  end.

Definition Registration_Register (endpoint : string) (onStatus : option (bool -> string -> S -> S))
    (srv : Server S) : option (Server S) :=
  register_all [(MethodGetInfo, getInfo endpoint); (MethodNotifyRegistrationStatus, notify onStatus)] srv.

Definition RegistrationStatus (registered : bool) (why : string) : string :=
  if registered then "the kubelet registered " +:+ Name
  else if (why =? "")%string then "the kubelet refused " +:+ Name +:+ " and said nothing about why"
  else "the kubelet refused " +:+ Name +:+ ": " +:+ why.
End registration.
