(* ===== verification/CsiNode.v ===== *)
(** * CsiNode: a node's mounts, its volumes and the cluster's datasets
    (internal/csi/mount.go, resolve.go, internal/volumes/volumes.go)

    A node is what its kernel has mounted, newest first, the directories made
    for mount points and the volumes its agent was told of. Each call into the
    operating system fails or not as the next of [faults] says; the mount table
    is read as the text the kernel writes. *)

From S2P Require Import Prelude GoStrings MountTable ProtoWire CsiMessage GrpcWire CsiDriver.

Local Open Scope Z_scope.

(** ** The mount table (mount.go) *)

Definition octal (c : byte) : option Z :=
  let z := of_byte c in if (z <? 48) || (55 <? z) then None else Some (z - 48).

(** [unescape], past its first check: at a backslash with three bytes after it. *)
Fixpoint unescape_bytes (b : list byte) : list byte :=
  match b with
  | [] => []
  | c :: b' =>
      match b' with
      | x :: y :: z :: rest =>
          match Ascii.eqb c "\", octal x, octal y, octal z with
          | true, Some x, Some y, Some z => byte_of ((x * 8 + y) * 8 + z) :: unescape_bytes rest
          | _, _, _, _ => c :: unescape_bytes b'
          end
      | _ => c :: unescape_bytes b'
      end
  end.
Definition unescape (s : string) : string :=
  if negb (has_byte "\" s) then s else string_of (unescape_bytes (bytes_of s)).

Definition inMountinfo (table : string) (target : string) : bool :=
  existsb (fun line =>
    match nth_error (Fields line) 4 with
    | Some f => (unescape f =? target)%string
    | None => false
    end) (Split newline table).

(** ** The node *)

(** Where a path a call names leads on the node: made absolute, dots, doubled
    slashes and symbolic links followed. Nothing moves a link meanwhile. *)
Class Resolves : Type := realpath : string -> string.

(** A mount, at the place its target led to. *)
Record mount_entry : Type := mkMountEntry {
  MSource : string;
  MTarget : string;
  MOptions : string;
}.

(** How a call into the operating system ends. *)
Inductive os_fault : Type := OsOk | OsFails (why : string).

Record Node : Type := mkNode {
  mounts : list mount_entry;
  dirs : gset string;
  os_faults : list os_fault;
  byID : gmap string Z;
}.

Definition set_mounts (l : list mount_entry) (n : Node) : Node :=
  {| mounts := l; dirs := dirs n; os_faults := os_faults n; byID := byID n |}.
Definition set_dirs (d : gset string) (n : Node) : Node :=
  {| mounts := mounts n; dirs := d; os_faults := os_faults n; byID := byID n |}.
Definition set_byID (m : gmap string Z) (n : Node) : Node :=
  {| mounts := mounts n; dirs := dirs n; os_faults := os_faults n; byID := m |}.

Definition next_os (n : Node) : Node * os_fault :=
  ({| mounts := mounts n; dirs := dirs n; os_faults := tail (os_faults n); byID := byID n |},
   default OsOk (head (os_faults n))).

(** A line of /proc/self/mountinfo: the mount point is its fifth field. *)
Definition mountinfo_line (m : mount_entry) : string :=
  "36 35 0:42 / " +:+ escape (MTarget m) +:+ " ro,relatime shared:1 - nfs4 "
  +:+ escape (MSource m) +:+ " ro" +:+ string_of [newline].
Definition mountinfo (n : Node) : string := foldr (fun m s => mountinfo_line m +:+ s) ""%string (mounts n).

Definition mounted (target : string) (n : Node) : Node * result Error bool :=
  let '(n, f) := next_os n in
  match f with
  | OsFails why => (n, Err (Plain ("reading the mount table: " +:+ why)))
  | OsOk => (n, Ok (inMountinfo (mountinfo n) target))
  end.

Fixpoint remove_newest (target : string) (l : list mount_entry) : list mount_entry :=
  match l with
  | [] => []
  | m :: l => if (MTarget m =? target)%string then l else m :: remove_newest target l
  end.

(** [mount -t nfs4 -o opts source target] and [umount target], which takes the
    newest mount there, each where its target leads; a command that fails says
    why. *)
Section calls.
Context `{Resolves}.

Definition exec_mount (opts src target : string) (n : Node) : Node * option string :=
  let '(n, f) := next_os n in
  match f with
  | OsFails why => (n, Some why)
  | OsOk => (set_mounts ({| MSource := src; MTarget := realpath target; MOptions := opts |} :: mounts n) n, None)
  end.
Definition exec_umount (target : string) (n : Node) : Node * option string :=
  let '(n, f) := next_os n in
  match f with
  | OsFails why => (n, Some why)
  | OsOk => (set_mounts (remove_newest (realpath target) (mounts n)) n, None)
  end.

Definition MkdirAll (target : string) (n : Node) : Node * option string :=
  let '(n, f) := next_os n in
  match f with
  | OsFails why => (n, Some why)
  | OsOk => (set_dirs ({[realpath target]} ∪ dirs n) n, None)
  end.
(** [os.Remove]: a directory something is mounted on is busy. *)
Definition removeIfEmpty (target : string) (n : Node) : Node :=
  let '(n, f) := next_os n in
  match f with
  | OsFails _ => n
  | OsOk => if bool_decide (realpath target ∈ MTarget <$> mounts n) then n
            else set_dirs (dirs n ∖ {[realpath target]}) n
  end.

(** ** Mounting (mount.go): the context only bounds the command's time. *)

Definition NFS_Mount (_ : option duration) (src target : string) (flags : list string) (n : Node)
  : Node * option Error :=
  let '(n, already) := mounted target n in
  match already with
  | Err e => (n, Some e)
  | Ok true => (n, None)
  | Ok false =>
      let '(n, e) := MkdirAll target n in
      match e with
      | Some why => (n, Some (Plain ("making the mount point: " +:+ why)))
      | None =>
          let '(n, e) := exec_mount (Join "," ("ro"%string :: flags)) src target n in
          (n, Plain <$> e)
      end
  end.

Definition NFS_Unmount (_ : option duration) (target : string) (n : Node) : Node * option Error :=
  let '(n, already) := mounted target n in
  match already with
  | Err e => (n, Some e)
  | Ok false => (removeIfEmpty target n, None)
  | Ok true =>
      let '(n, e) := exec_umount target n in
      match e with
      | Some why => (n, Some (Plain why))
      | None => (removeIfEmpty target n, None)
      end
  end.

Definition NFS : Mounter Node := {| MMount := NFS_Mount; MUnmount := NFS_Unmount |}.
End calls.

(** ** The volumes asked for (volumes.go) *)

Definition Registry_Published (id : string) (bytes : Z) (n : Node) : Node :=
  if (id =? "")%string then n
  else set_byID (<[id := if bytes <? 0 then 0 else bytes]> (byID n)) n.
Definition Registry_Unpublished (id : string) (n : Node) : Node := set_byID (delete id (byID n)) n.

Definition Registry : Observer Node :=
  {| Published := Registry_Published; Unpublished := Registry_Unpublished |}.

(** The sum of the sizes, saturating, in whatever order the map is walked. *)
Fixpoint requested_sum (sizes : list Z) (bytes : Z) : Z :=
  match sizes with
  | [] => bytes
  | b :: sizes => if MaxInt64 - b <? bytes then MaxInt64 else requested_sum sizes (bytes + b)
  end.
Definition Requested (n : Node) : Z * Z :=
  (zlen (map_to_list (byID n)), requested_sum (map_to_list (byID n)).*2 0).

Definition volumes_Observe (headroom available : Z) (n : Node) : Z :=
  headroom -! (available -! (Requested n).2).

(** ** The cluster's datasets (resolve.go)

    [get] is the Kubernetes client's answer for a name, and [None] that nothing
    has it. *)
Record DatasetStatus : Type := mkDatasetStatus { Present : bool; StatusBytes : Z; Reason : string }.
Record Dataset : Type := mkDataset { SpecObject : string; DStatus : option DatasetStatus }.

Definition because (reason : string) : string :=
  if (reason =? "")%string then "" else ": " +:+ reason.

Definition Datasets_Resolve `{Quoting} {S}
    (get : option duration -> string -> string -> S -> S * result string (option Dataset))
  : Resolver S := fun ctx namespace name s =>
  let '(s, r) := get ctx namespace name s in
  (s, match r with
      | Ok None => Err (Status NotFound ("no dataset " +:+ namespace +:+ "/" +:+ name))
      | Err why => Err (Status Unavailable ("reading dataset " +:+ namespace +:+ "/" +:+ name +:+ ": " +:+ why))
      | Ok (Some ds) =>
          if (SpecObject ds =? "")%string then
            Err (Status FailedPrecondition ("dataset " +:+ namespace +:+ "/" +:+ name +:+ " names no object in the store"))
          else match DStatus ds with
               | None => Err (Status Unavailable ("dataset " +:+ namespace +:+ "/" +:+ name +:+ " has not been reconciled yet"))
               | Some st =>
                   if negb (Present st) then
                     Err (Status FailedPrecondition ("dataset " +:+ namespace +:+ "/" +:+ name
                       +:+ " is declared but its object " +:+ quote (SpecObject ds)
                       +:+ " is not in the store" +:+ because (Reason st)))
                   else Ok (SpecObject ds, StatusBytes st)
               end
      end).

(** * The mount table read back, and what mounting keeps *)

(** ** Escapes *)

Lemma octal_digit d : 0 <= d < 8 -> octal (byte_of (48 + d)) = Some d.
Proof.
  intros D. unfold octal. rewrite of_byte_of, Z.mod_small by lia.
  rewrite (proj2 (Z.ltb_ge _ _)), (proj2 (Z.ltb_ge _ _)) by lia. simpl. f_equal. lia.
Qed.

Lemma unescape_other c b : Ascii.eqb c "\" = false -> unescape_bytes (c :: b) = c :: unescape_bytes b.
Proof. intros N. simpl. destruct b as [|x [|y [|z rest]]]; [done..|]. by rewrite N. Qed.

Lemma unescape_escape_bytes b : unescape_bytes (escape_bytes b) = b.
Proof.
  induction b as [|c b IH]; [done|]. cbn [escape_bytes]. destruct (kernel_escapes c) eqn:E.
  - pose proof (of_byte_range c). pose proof (Z.mod_pos_bound (of_byte c) 8).
    pose proof (Z.mod_pos_bound (of_byte c / 8) 8).
    assert (0 <= of_byte c / 64 < 4) by (split; [apply Z.div_pos; lia|apply Z.div_lt_upper_bound; lia]).
    cbn [unescape_bytes]. rewrite Ascii.eqb_refl, !octal_digit, IH by lia. f_equal.
    rewrite <- (byte_of_byte c) at 4. f_equal.
    pose proof (Z.div_mod (of_byte c) 8). pose proof (Z.div_mod (of_byte c / 8) 8).
    rewrite Z.div_div in * by lia. change (8 * 8) with 64 in *. lia.
  - rewrite unescape_other, IH; [done|]. apply Ascii.eqb_neq. intros ->. discriminate.
Qed.

Lemma unescape_no_backslash b : has_byte "\" (string_of b) = false -> unescape_bytes b = b.
Proof.
  induction b as [|c b IH]; [done|]. cbn [string_of has_byte]. intros [N H]%orb_false_elim.
  by rewrite unescape_other, IH.
Qed.

(** Whatever a path holds, the kernel's escaping of it is undone. *)
Lemma unescape_escape s : unescape (escape s) = s.
Proof.
  unfold unescape, escape. destruct (has_byte _ _) eqn:H; simpl.
  - rewrite list_ascii_of_string_of_list_ascii, unescape_escape_bytes. apply string_bytes.
  - rewrite <- (unescape_no_backslash _ H), unescape_escape_bytes. apply string_bytes.
Qed.

(** ** The table *)

(** A line of the table without its end. *)
Definition mountinfo_body (m : mount_entry) : string :=
  foldr (fun w s => w +:+ " " +:+ s)
    ("ro,relatime shared:1 - nfs4 " +:+ escape (MSource m) +:+ " ro")
    ["36"; "35"; "0:42"; "/"; escape (MTarget m)].

Lemma mountinfo_line_body m s : mountinfo_line m +:+ s = mountinfo_body m +:+ String newline s.
Proof. unfold mountinfo_line, mountinfo_body. cbn [foldr]. by rewrite !string_app_assoc. Qed.

Lemma body_no_newline m : has_byte newline (mountinfo_body m) = false.
Proof. unfold mountinfo_body. simpl. by rewrite !has_byte_app, !escape_no_newline. Qed.

Lemma body_target m : tabled (MTarget m) = true ->
  nth_error (Fields (mountinfo_body m)) 4 = Some (escape (MTarget m)).
Proof.
  intros [Ne Ns]%andb_prop.
  assert (bytes_of (escape (MTarget m)) = escape_bytes (bytes_of (MTarget m))) as B
    by apply list_ascii_of_string_of_list_ascii.
  destruct (Fields_words ["36"; "35"; "0:42"; "/"; escape (MTarget m)]
    ("ro,relatime shared:1 - nfs4 " +:+ escape (MSource m) +:+ " ro")) as [fuel E].
  - repeat constructor; try (vm_compute; reflexivity); try discriminate; [by rewrite B|].
    intros Z. rewrite Z in B. destruct (MTarget m) as [|c s]; [discriminate|].
    cbn [bytes_of escape_bytes] in B. by destruct (kernel_escapes c).
  - unfold mountinfo_body. by rewrite E.
Qed.

(** The table says of a path what the node has mounted there. *)
Lemma inMountinfo_mounts n target : Forall (fun m => tabled (MTarget m) = true) (mounts n) ->
  inMountinfo (mountinfo n) target = existsb (fun m => (MTarget m =? target)%string) (mounts n).
Proof.
  unfold inMountinfo, mountinfo. induction 1 as [|m l T F IH]; [done|]. cbn [foldr existsb].
  rewrite mountinfo_line_body, Split_app. rewrite (Split_no_byte _ _ (body_no_newline m)).
  cbn [app existsb]. rewrite (body_target m T), unescape_escape. by rewrite IH.
Qed.

(** ** What mounting and unmounting do *)

Lemma next_os_spec n : exists fs f, next_os n =
  ({| mounts := mounts n; dirs := dirs n; os_faults := fs; byID := byID n |}, f).
Proof. by eexists _, _. Qed.

(** The next call into the operating system: its ways to end. *)
Ltac os_step :=
  match goal with
  | |- context [next_os ?n] => destruct (next_os_spec n) as (? & [|?why] & ->)
  end.

Lemma next_os_quiet n : os_faults n = [] -> next_os n = (n, OsOk).
Proof. intros E. unfold next_os. rewrite E. destruct n. simpl in *. by rewrite E. Qed.

Lemma mount_at target (l : list mount_entry) :
  existsb (fun m => (MTarget m =? target)%string) l = true <-> target ∈ MTarget <$> l.
Proof.
  rewrite existsb_exists, list_elem_of_fmap. setoid_rewrite String.eqb_eq.
  setoid_rewrite <- list_elem_of_In. naive_solver.
Qed.

(** A node whose mounts are told apart in its table, none over another. *)
Record node_ok (n : Node) : Prop := {
  no_tabled : Forall (fun m => tabled (MTarget m) = true) (mounts n);
  no_once : NoDup (MTarget <$> mounts n);
}.

Lemma mounted_spec target n : node_ok n ->
  let '(n', r) := mounted target n in
  mounts n' = mounts n /\ dirs n' = dirs n /\
  (r = Ok true -> target ∈ MTarget <$> mounts n) /\ (r = Ok false -> target ∉ MTarget <$> mounts n).
Proof.
  intros [T _]. unfold mounted. destruct (next_os_spec n) as (fs & f & ->). destruct f as [|why]; [|done].
  unfold mountinfo. cbn [mounts]. pose proof (inMountinfo_mounts n target T) as I. unfold mountinfo in I.
  rewrite I. rewrite <- mount_at. split_and!; [done..| |]; intros [= ->]; done.
Qed.

Lemma mounted_quiet target n : node_ok n -> os_faults n = [] ->
  mounted target n = (n, Ok (bool_decide (target ∈ MTarget <$> mounts n))).
Proof.
  intros [T _] Q. unfold mounted. rewrite next_os_quiet, inMountinfo_mounts by done. do 2 f_equal.
  apply eq_bool_prop_intro. rewrite bool_decide_spec, <- mount_at. by rewrite Is_true_true.
Qed.

(** What mounting changes: nothing, or one mount is added, where the target leads,
    and the target was not found in the table. *)
Lemma NFS_Mount_cases `{Resolves} ctx src target flags n :
  let '(n', e) := NFS_Mount ctx src target flags n in
  mounts n' = mounts n \/
  inMountinfo (mountinfo n) target = false /\
  mounts n' = {| MSource := src; MTarget := realpath target; MOptions := Join "," ("ro"%string :: flags) |} :: mounts n.
Proof.
  unfold NFS_Mount, mounted. os_step; [|by left]. change (mountinfo _) with (mountinfo n).
  destruct (inMountinfo (mountinfo n) target); [by left|]. unfold MkdirAll. os_step; [|by left].
  unfold exec_mount. os_step; [|by left]. by right.
Qed.

(** Where a target leads to itself, what is added is where there was none. *)
Lemma NFS_Mount_spec `{Resolves} ctx src target flags n : node_ok n -> realpath target = target ->
  let '(n', e) := NFS_Mount ctx src target flags n in
  mounts n' = mounts n \/
  target ∉ MTarget <$> mounts n /\
  mounts n' = {| MSource := src; MTarget := target; MOptions := Join "," ("ro"%string :: flags) |} :: mounts n.
Proof.
  intros [T _] R. pose proof (NFS_Mount_cases ctx src target flags n) as C.
  destruct (NFS_Mount _ _ _ _ n) as [n' e]. destruct C as [?|[N E]]; [by left|right].
  rewrite inMountinfo_mounts in N by done. rewrite R in E. split; [|done]. rewrite <- mount_at, N. done.
Qed.

Lemma remove_newest_sublist target l : sublist (remove_newest target l) l.
Proof. induction l as [|m l IH]; simpl; [constructor|]. case_if; by constructor. Qed.

Lemma NFS_Unmount_spec `{Resolves} ctx target n :
  let '(n', e) := NFS_Unmount ctx target n in mounts n' = mounts n \/ mounts n' = remove_newest (realpath target) (mounts n).
Proof.
  unfold NFS_Unmount, mounted. os_step; [|by left].
  assert (forall n0, mounts (removeIfEmpty target n0) = mounts n0) as R.
  { intros n0. unfold removeIfEmpty. os_step; [by case_bool_decide|done]. }
  destruct (inMountinfo _ _); [|left; by rewrite R].
  unfold exec_umount. os_step; [|by left].
  right. by rewrite R.
Qed.

Lemma node_ok_sublist n n' : node_ok n -> sublist (mounts n') (mounts n) -> node_ok n'.
Proof.
  intros [T O] S. split.
  - rewrite Forall_forall in *. intros m Hm. apply T. by eapply elem_of_sublist.
  - apply (sublist_NoDup _ (MTarget <$> mounts n)); [done|]. by apply fmap_sublist.
Qed.

Lemma remove_newest_once target l : NoDup (MTarget <$> l) ->
  remove_newest target l = List.filter (fun m => negb (MTarget m =? target)%string) l.
Proof.
  induction l as [|m l IH]; [done|]. cbn [fmap list_fmap]. intros [Nm N]%NoDup_cons. simpl.
  destruct (MTarget m =? target)%string eqn:E; simpl; [|by rewrite IH].
  apply String.eqb_eq in E. subst target. symmetry. clear IH N. induction l as [|x l IH]; [done|]. simpl in *.
  apply not_elem_of_cons in Nm as [Nx Nm]. rewrite (proj2 (String.eqb_neq _ _)) by done. simpl. by rewrite IH.
Qed.

(** A target is looked for in the table as it was given: one that leads elsewhere is
    not found there, and each publish mounts over the last. *)
Example other_name_stacks :
  let node : Node := {| mounts := []; dirs := ∅; os_faults := []; byID := ∅ |} in
  let R : Resolves := fun s => if (s =? "/pods/a/")%string then "/pods/a"%string else s in
  let mount n := (NFS_Mount (H := R) None "10.0.0.1:/export/v" "/pods/a/" [] n).1 in
  MTarget <$> mounts (mount (mount node)) = ["/pods/a"; "/pods/a"]%string.
Proof. vm_compute. reflexivity. Qed.

(** ** The total of the volumes *)

(** The total does not depend on the order the map is walked in: it is the sum,
    or the largest int64 when the sum is larger. *)
Lemma requested_sum_spec l : forall acc, Forall (fun b => 0 <= b) l -> 0 <= acc <= MaxInt64 ->
  requested_sum l acc = Z.min MaxInt64 (acc + Zsum l).
Proof.
  induction l as [|b l IH]; intros acc F A; [simpl; lia|]. apply Forall_cons in F as [B F]. simpl.
  pose proof (Zsum_nonneg l F). destruct (Z.ltb_spec (MaxInt64 - b) acc); [lia|].
  rewrite IH by (done || lia). lia.
Qed.

(** A saturated total wraps as soon as less is available than must stay free. *)
Example volumes_Observe_wraps :
  volumes_Observe 10 5 {| mounts := []; dirs := ∅; os_faults := [];
                          byID := {[ "a"%string := MaxInt64; "b"%string := 1 ]} |} = -9223372036854775804.
Proof. vm_compute. reflexivity. Qed.
