(* ===== verification/Residency.v ===== *)
(** * Residency: what a node advertises of a dataset (internal/residency/residency.go)

    How much of a dataset a node holds, as one of three levels with hysteresis,
    under a label key that a hash bounds. *)

From S2P Require Import Prelude Float64.

Local Open Scope Z_scope.

Abbreviation Level := Z (only parsing).
Definition None_ : Level := 0.
Definition Some_ : Level := 1.
Definition Most : Level := 2.

Definition rise_Some : float64 := f64_lit 25 100.
Definition rise_Most : float64 := f64_lit 75 100.
Definition fall_Some : float64 := f64_lit 20 100.
Definition fall_Most : float64 := f64_lit 70 100.

Definition Level_String (l : Level) : string :=
  if l =? Some_ then "some" else if l =? Most then "most" else "".

Definition Next (current : Level) (fraction : float64) : Level :=
  if f64_leb rise_Most fraction then Most
  else if f64_leb rise_Some fraction then
    if (current =? Most) && f64_leb fall_Most fraction then Most else Some_
  else if f64_leb fall_Some fraction then
    if Some_ <=? current then current else None_
  else None_.

(** ** Keys *)

Definition prefix : string := "forebay.io/".

(** [hash/fnv], 64-bit FNV-1a, as [New64a] and [Write] compute it. *)
Definition fnv_offset : Z := 14695981039346656037.
Definition fnv_prime : Z := 1099511628211.
Definition fnv_write (h : Z) (data : list byte) : Z :=
  fold_left (fun h b => wrapU64 (Z.lxor h (of_byte b) * fnv_prime)) data h.

(** [%016x] of a [uint64]. *)
Definition hex_digit (d : Z) : byte := if d <? 10 then byte_of (48 + d) else byte_of (87 + d).
Fixpoint hex (n : nat) (z : Z) : list byte :=
  match n with
  | O => []
  | S n => hex n (z / 16) ++ [hex_digit (z mod 16)]
  end.

Definition hash_of (tenant dataset : string) : Z :=
  let h := fnv_write fnv_offset (bytes_of tenant) in
  let h := fnv_write h [byte_of 0] in
  fnv_write h (bytes_of dataset).

Definition Key (tenant dataset : string) : string :=
  prefix +:+ "resident-" +:+ string_of (hex 16 (hash_of tenant dataset)).
Definition RackKey (tenant dataset : string) : string := Key tenant dataset +:+ "-rack".

(** ** Fractions *)

Inductive FractionErr : Type :=
  | ErrTotal (total : Z)
  | ErrResident (resident : Z)
  | ErrMoreThanTotal (resident total : Z).

Definition Fraction (resident total : Z) : result FractionErr float64 :=
  if total <=? 0 then Err (ErrTotal total)
  else if resident <? 0 then Err (ErrResident resident)
  else if total <? resident then Err (ErrMoreThanTotal resident total)
  else Ok (f64_div (f64_of_Z resident) (f64_of_Z total)).

(** ** The tracker *)

Abbreviation Tracker := (gmap string Z) (only parsing).
Definition NewTracker : Tracker := ∅.

Definition Update (key : string) (fraction : float64) (t : Tracker) : Tracker * Level :=
  let next := Next (default None_ (t !! key)) fraction in
  if next =? None_ then (delete key t, None_) else (<[key := next]> t, next).

Definition Forget (key : string) (t : Tracker) : Tracker := delete key t.
Definition Levels (t : Tracker) : gmap string Level := t.

Example Key_ex : Key "team" "corpus" = "forebay.io/resident-3a8bf7129f64ae08".
Proof. vm_compute. reflexivity. Qed.

(** ** What is published *)

Definition level (l : Level) : Prop := l = None_ \/ l = Some_ \/ l = Most.

Lemma Next_level c f : level c -> level (Next c f).
Proof.
  intros L. unfold Next. repeat case_match; unfold level; auto.
Qed.

(** Seen again, the same fraction moves nothing: the level is rewritten only when
    the residency changes. *)
Theorem Next_settles c f : level c -> Next (Next c f) f = Next c f.
Proof.
  unfold Next. destruct (f64_leb rise_Most f), (f64_leb rise_Some f), (f64_leb fall_Some f), (f64_leb fall_Most f);
    by intros [-> | [-> | ->]].
Qed.

(** Between the lines for [some] a node keeps what it published, and that may be
    [most]: it advertises more of a dataset at 0.22 than at 0.5. *)
Theorem Next_keeps_most :
  Next Most (f64_lit 22 100) = Most /\ Next Most (f64_lit 50 100) = Some_ /\
  f64_ltb (f64_lit 22 100) (f64_lit 50 100) = true.
Proof. vm_compute. split_and!; reflexivity. Qed.

Inductive change : Type :=
  | Observed (key : string) (fraction : float64)
  | Forgotten (key : string).
Definition track (c : change) (t : Tracker) : Tracker :=
  match c with Observed k f => (Update k f t).1 | Forgotten k => Forget k t end.

(** One key's level, from its own history alone. *)
Definition history (k : string) (l : Level) (c : change) : Level :=
  match c with
  | Observed k' f => if (k' =? k)%string then Next l f else l
  | Forgotten k' => if (k' =? k)%string then None_ else l
  end.

(** The tracker holds, for every key, the level its own observations lead to, and
    no entry for a key at none. *)
Theorem tracker_per_key cs : forall k,
  fold_left (fun t c => track c t) cs NewTracker !! k =
  (let l := fold_left (history k) cs None_ in if l =? None_ then None else Some l).
Proof.
  induction cs as [|c cs IH] using rev_ind; intros k; [done|]. rewrite !fold_left_app. cbn [fold_left].
  set (t := fold_left _ cs _) in *. cbv zeta in *.
  assert (default None_ (t !! k) = fold_left (history k) cs None_) as D.
  { rewrite IH. destruct (Z.eqb_spec (fold_left (history k) cs None_) None_); [by symmetry|done]. }
  destruct c as [k' f|k']; simpl.
  - destruct (String.eqb_spec k' k) as [->|N].
    + unfold Update. rewrite D. destruct (Next _ f =? None_); simpl; [apply lookup_delete_eq|apply lookup_insert_eq].
    + unfold Update. destruct (Next _ f =? None_); simpl; [rewrite lookup_delete_ne by done|rewrite lookup_insert_ne by done]; apply IH.
  - unfold Forget. destruct (String.eqb_spec k' k) as [->|N]; [by rewrite lookup_delete_eq|].
    rewrite lookup_delete_ne by done. apply IH.
Qed.

Lemma length_hex n : forall z, length (hex n z) = n.
Proof. induction n as [|n IH]; intros z; [done|]. simpl. rewrite length_app, IH. simpl. lia. Qed.

(** A label key's name is at most 63 bytes, whatever the names. *)
Theorem Key_fits tenant dataset :
  strlen (Key tenant dataset) = strlen prefix + 25 /\ strlen (RackKey tenant dataset) = strlen prefix + 30.
Proof.
  assert (forall a b, strlen (a +:+ b) = strlen a + strlen b) as App.
  { intros a b. unfold strlen, zlen. rewrite bytes_of_app, length_app. lia. }
  unfold RackKey, Key. rewrite !App. unfold strlen at 3 5, zlen.
  rewrite !list_ascii_of_string_of_list_ascii, !length_hex. split; reflexivity.
Qed.
