(* ===== verification/GoPath.v ===== *)
(** * GoPath: path and path/filepath, as the code uses them

    The parts of the packages that work on any path; what works on a rooted one
    only is in GoStrings. On the systems the code runs on the two packages agree. *)

From S2P Require Import Prelude GoStrings.
From S2P Require GrpcWire Residency.

(** [path.Clean]: of a rooted path dot-dot above the root vanishes, of a relative
    one it stays. *)
Definition clean_rel_step (out : list string) (s : string) : list string :=
  if (s =? "")%string || (s =? ".")%string then out
  else if (s =? "..")%string then
    match last out with
    | Some t => if (t =? "..")%string then out ++ [s] else removelast out
    | None => out ++ [s]
    end
  else out ++ [s].
Definition rooted (s : string) : bool := String.prefix "/" s.
Definition Clean (s : string) : string :=
  if (s =? "")%string then "."
  else if rooted s then clean_rooted s
  else match fold_left clean_rel_step (Split "/" s) [] with
       | [] => "."
       | l => Join "/" l
       end.

(** [path.Join]: empty elements are left out. *)
Definition path_Join (l : list string) : string :=
  match List.filter (fun s => negb (s =? "")%string) l with
  | [] => ""
  | l => Clean (Join "/" l)
  end.

(** [path.Dir]: all but the last element. *)
Fixpoint up_to_slash (b : list byte) : list byte :=
  match b with [] => [] | c :: r => if Ascii.eqb c "/" then b else up_to_slash r end.
Definition Dir (s : string) : string := Clean (string_of (rev (up_to_slash (rev (bytes_of s))))).

(** [path.Base]: the last element. *)
Definition Base (s : string) : string :=
  if (s =? "")%string then "."
  else match last (List.filter (fun x => negb (x =? "")%string) (Split "/" s)) with
       | None => "/"
       | Some x => x
       end.

(** [strings.HasPrefix], [strings.TrimPrefix], [strings.CutPrefix] *)
Fixpoint CutPrefix (p s : string) : option string :=
  match p, s with
  | EmptyString, _ => Some s
  | String c p, String d s => if Ascii.eqb c d then CutPrefix p s else None
  | String _ _, EmptyString => None
  end.
Definition HasPrefix (p s : string) : bool := match CutPrefix p s with Some _ => true | None => false end.
Definition TrimPrefix (p s : string) : string := default s (CutPrefix p s).

(** [strings.Contains] *)
Fixpoint Contains (sub s : string) : bool :=
  HasPrefix sub s || match s with EmptyString => false | String _ s => Contains sub s end.

Lemma CutPrefix_Some p : forall s r, CutPrefix p s = Some r <-> s = p +:+ r.
Proof.
  induction p as [|c p IH]; intros s r; simpl; [naive_solver|]. destruct s as [|d s]; [by split|].
  destruct (Ascii.eqb_spec c d) as [->|N].
  - rewrite IH. split; [by intros ->|]. intros E. by injection E.
  - split; [done|]. intros E. injection E as E _. congruence.
Qed.

Lemma HasPrefix_iff p s : HasPrefix p s = true <-> exists r, s = p +:+ r.
Proof.
  unfold HasPrefix. setoid_rewrite <- CutPrefix_Some. destruct (CutPrefix p s); [by split; eauto|].
  split; [done|]. by intros [? ?].
Qed.

(** [strings.Cut] *)
Lemma Cut_spec c s a r b : Cut c s = (a, r, b) -> has_byte c a = false /\
  if b then s = a +:+ String c r else s = a /\ has_byte c s = false.
Proof.
  revert a r b. induction s as [|x s IH]; intros a r b; simpl; [by intros [= <- <- <-]|].
  destruct (Ascii.eqb_spec x c) as [->|N].
  - by intros [= <- <- <-].
  - destruct (Cut c s) as [[a' r'] b'] eqn:E. intros [= <- <- <-]. destruct (IH _ _ _ eq_refl) as [Ha Hs]. simpl.
    rewrite (proj2 (Ascii.eqb_neq _ _) N). simpl. split; [done|]. destruct b'; [by rewrite Hs|]. destruct Hs as [<- Hs]. by split.
Qed.
Lemma Cut_found c a r : has_byte c a = false -> Cut c (a +:+ String c r) = (a, r, true).
Proof.
  induction a as [|x a IH]; simpl; [by rewrite Ascii.eqb_refl|]. rewrite orb_false_iff. intros [N Ha]. rewrite N. by rewrite IH.
Qed.
Lemma Cut_none c a : has_byte c a = false -> Cut c a = (a, EmptyString, false).
Proof. induction a as [|x a IH]; simpl; [done|]. rewrite orb_false_iff. intros [N Ha]. rewrite N. by rewrite IH. Qed.

Example Clean_ex : Clean "/a/./b/../c//" = "/a/c" /\ Clean "../a/.." = ".." /\ Clean "a/.." = "." /\ Clean "/.." = "/".
Proof. vm_compute. split_and!; reflexivity. Qed.
Example path_Join_ex : path_Join ["/data"; "x"; "y/../z"] = "/data/x/z" /\ path_Join [""; ""] = "" /\
  Base "/a/b/" = "b" /\ Base "../../bus/nvidia" = "nvidia" /\ Base "/" = "/" /\
  Dir "/a/b" = "/a" /\ Dir "leases" = "." /\ Dir "/a" = "/" /\ Dir "a/b/" = "a/b".
Proof. vm_compute. split_and!; reflexivity. Qed.

(** * What the code uses of [net/url], [encoding/hex] and [time.Format]

    Escaping a query and encoding its values in order of their names, lower case,
    hexadecimal, and the time stamp of a signed request. *)

Local Open Scope Z_scope.

(** [hex.EncodeToString] *)
Definition hex_of (l : list byte) : string :=
  string_of (concat ((fun c => [Residency.hex_digit (of_byte c / 16); Residency.hex_digit (of_byte c mod 16)]) <$> l)).

(** A byte percent-encoded, in upper case. *)
Definition percent (c : byte) : list byte := ["%"%char; GrpcWire.hex_digit (of_byte c / 16); GrpcWire.hex_digit (of_byte c mod 16)].

Definition alphanumeric (c : byte) : bool :=
  let z := of_byte c in (97 <=? z) && (z <=? 122) || (65 <=? z) && (z <=? 90) || (48 <=? z) && (z <=? 57).
Definition unreserved (c : byte) : bool := alphanumeric c || has_byte c "-_.~".

(** [url.QueryEscape] *)
Definition QueryEscape (s : string) : string :=
  string_of (concat ((fun c => if unreserved c then [c] else if Ascii.eqb c " " then ["+"%char] else percent c) <$> bytes_of s)).

(** [Values.Encode], of one value a name, given in the order of the names. *)
Definition Encode (q : list (string * string)) : string :=
  Join "&" ((fun kv => QueryEscape kv.1 +:+ "=" +:+ QueryEscape kv.2) <$> q).

(** [strings.ToLower], on ASCII *)
Definition lower_byte (c : byte) : byte := let z := of_byte c in if (65 <=? z) && (z <=? 90) then byte_of (z + 32) else c.
Definition ToLower (s : string) : string := string_of (lower_byte <$> bytes_of s).

(** [strings.HasSuffix], [strings.TrimSuffix] *)
Definition HasSuffix (suffix s : string) : bool :=
  match strip_prefix (rev (bytes_of suffix)) (rev (bytes_of s)) with Some _ => true | None => false end.
Definition TrimSuffix (suffix s : string) : string :=
  match strip_prefix (rev (bytes_of suffix)) (rev (bytes_of s)) with
  | Some r => string_of (rev r)
  | None => s
  end.

(** The day of a date, from the days since 1970-01-01: year, month and day. *)
Definition civil (days : Z) : Z * Z * Z :=
  let z := days + 719468 in
  let era := z / 146097 in
  let doe := z mod 146097 in
  let yoe := (doe - doe / 1460 + doe / 36524 - doe / 146096) / 365 in
  let doy := doe - (365 * yoe + yoe / 4 - yoe / 100) in
  let mp := (5 * doy + 2) / 153 in
  let d := doy - (153 * mp + 2) / 5 + 1 in
  let m := if mp <? 10 then mp + 3 else mp - 9 in
  ((yoe + era * 400 + (if m <=? 2 then 1 else 0)), m, d).

(** [n] in [width] digits at least, for a year of four digits. *)
Fixpoint pad (width : nat) (n : Z) : list byte :=
  match width with
  | O => []
  | S w => pad w (n / 10) ++ [byte_of (48 + n mod 10)]
  end.

(** [t.UTC().Format("20060102T150405Z")] *)
Definition timestamp (t : time) : string :=
  let s := t / Second in
  let '(y, m, d) := civil (s / 86400) in
  let r := s mod 86400 in
  string_of (pad 4 y ++ pad 2 m ++ pad 2 d ++ ["T"%char] ++ pad 2 (r / 3600) ++ pad 2 (r / 60 mod 60) ++ pad 2 (r mod 60) ++ ["Z"%char]).

Example timestamp_ex :
  timestamp 0 = "19700101T000000Z"%string /\ timestamp (1369353600 * Second) = "20130524T000000Z"%string /\
  timestamp (1709251199 * Second + 5) = "20240229T235959Z"%string.
Proof. vm_compute. split_and!; reflexivity. Qed.

Example Encode_ex : Encode [("prefix", "a b/~"); ("x", "é")]%string = "prefix=a+b%2F~&x=%C3%A9"%string.
Proof. vm_compute. reflexivity. Qed.
