(* ===== verification/CsiTheorems.v ===== *)
(** * CsiTheorems: what holds of the storage interface, end to end *)

From S2P Require Import Prelude GoStrings GoPath MountTable ProtoWire CsiMessage GrpcWire CsiDriver CsiNode.
From S2P Require FileDriver.

Local Open Scope Z_scope.

(** ** Decoding always returns *)

Lemma bind_no_fuel {A B} (m : result ProtoErr A) (k : A -> result ProtoErr B) :
  m <> Err NoFuel -> (forall a, k a <> Err NoFuel) -> bind_result m k <> Err NoFuel.
Proof. destruct m; simpl; [auto|congruence]. Qed.

Lemma StringMap_no_fuel m b : StringMap m b <> Err NoFuel.
Proof.
  unfold StringMap. apply bind_no_fuel; [|intros []; discriminate].
  apply walk_no_fuel. intros f []. discriminate.
Qed.

Lemma decodeVolumeCapability_no_fuel b : decodeVolumeCapability b <> Err NoFuel.
Proof.
  apply walk_no_fuel. intros f c. unfold capability_step. repeat case_if; try discriminate.
  - apply bind_no_fuel; [|discriminate]. by apply walk_no_fuel.
  - by apply walk_no_fuel.
Qed.
Create HintDb csi.
#[local] Hint Resolve StringMap_no_fuel decodeVolumeCapability_no_fuel : csi.

(** Each decoder's loop ends by itself, whatever bytes it is given. *)
Ltac loop_ends :=
  apply walk_no_fuel; intros ? r; try destruct r;
  unfold create_step, delete_step, validate_step, publish_step, unpublish_step; repeat case_if;
  first [discriminate | apply bind_no_fuel; [auto with csi|intros; discriminate]].

(** C36: every decoder answers every message. Whatever bytes arrive, no loop over
    a message's fields, nested ones included, goes on for more turns than the
    message has bytes; each decoder returns a request, or one of the three
    errors of the encoding. *)
Theorem decoding_terminates b :
  DecodeCreateVolume b <> Err NoFuel /\ DecodeDeleteVolume b <> Err NoFuel /\
  DecodeValidate b <> Err NoFuel /\ DecodeNodePublish b <> Err NoFuel /\
  DecodeNodeUnpublish b <> Err NoFuel /\ decodeVolumeCapability b <> Err NoFuel.
Proof.
  split_and!; [..|apply decodeVolumeCapability_no_fuel]; loop_ends.
Qed.

(** ** The address a node mounts from *)

Lemma bad_segments_plain l :
  existsb (fun s => (s =? "")%string || (s =? ".")%string || (s =? "..")%string) l = false <->
  forallb plain_segment l = true.
Proof.
  induction l as [|s l IH]; simpl; [done|]. unfold plain_segment at 1.
  rewrite orb_false_iff, andb_true_iff, IH, negb_true_iff. done.
Qed.

(** Where an object is, below the access layer's export. *)
Definition address (access export : string) (segments : list string) : string :=
  access +:+ ":/" +:+ Join "/" (clean_segments export ++ segments).

(** An object is mounted from where it is exactly when its key is one the
    directory store would read: the two rules are one. *)
Lemma source_spec `{Quoting} {S} (d : CsiConfig S) object : Export d <> ""%string ->
  match FileDriver.path object with
  | Some segs => source d object = Ok (address (Access d) (Export d) segs)
  | None => exists m, source d object = Err (Status InvalidArgument m)
  end.
Proof.
  intros Ne. unfold source, FileDriver.path. destruct (object =? "")%string; [by eexists|].
  unfold FileDriver.bad_segment. destruct (existsb _ _) eqn:E; [by eexists|].
  apply bad_segments_plain in E. by rewrite join_rooted_plain.
Qed.

Lemma path_segments object segs : FileDriver.path object = Some segs ->
  segs <> [] /\ Forall (fun s => plain_segment s = true /\ has_byte "/" s = false) segs.
Proof.
  unfold FileDriver.path. destruct (object =? "")%string; [done|].
  unfold FileDriver.bad_segment. destruct (existsb _ _) eqn:E; [done|]. intros [= <-].
  split; [apply Split_not_nil|]. apply bad_segments_plain in E. rewrite forallb_forall in E.
  pose proof (Split_segments "/" object) as F. rewrite Forall_forall in *. intros s Hs.
  split; [apply E; by apply list_elem_of_In in Hs|by apply F].
Qed.

(** ** From a claim to its mount *)

(** Observing a resolved volume tells its size. *)
Lemma observe_resolved `{Quoting} (d : CsiConfig Node) ns name object bytes n :
  CObserver d = Some Registry -> is_int64 bytes ->
  observe d (VID (resolved_volume ns name object bytes)) (VContext (resolved_volume ns name object bytes)) n
  = Registry_Published (ns +:+ "/" +:+ name) (Z.max 0 bytes) n.
Proof.
  intros Eo I. unfold observe. rewrite Eo. cbn [VContext VID resolved_volume].
  rewrite lookup_insert_ne, lookup_insert_ne, lookup_singleton_eq by done. simpl.
  rewrite ParseInt_FormatInt by done. simpl. unfold Registry_Published. case_if; [done|].
  repeat f_equal. repeat case_if; bool_to_prop; lia.
Qed.

(** A publish that asks for what it may, as far as the mount. *)
Lemma nodePublish_mounts `{Quoting} {S} (d : CsiConfig S) m ctx req p c object s :
  DecodeNodePublish req = Ok p -> PublishID p <> ""%string -> PublishTarget p <> ""%string ->
  PublishCapability p = Some c -> acceptable [c] = None ->
  PublishContext p !! "object"%string = Some object ->
  match source d object with
  | Err _ => exists msg, nodePublish d m ctx req s = (s, Err (Status InvalidArgument msg))
  | Ok src =>
      let '(s', e) := MMount m ctx src (PublishTarget p) (MountFlags d) s in
      (e = None -> nodePublish d m ctx req s = (observe d (PublishID p) (PublishContext p) s', Ok [])) /\
      (forall err, e = Some err -> exists msg, nodePublish d m ctx req s = (s', Err (Status Internal msg)))
  end.
Proof.
  intros D I%String.eqb_neq T%String.eqb_neq Ec Ac Eo. unfold nodePublish.
  rewrite D, I, T, Ec, Ac, Eo. cbn [default id]. unfold source.
  destruct (object =? "")%string; [eexists; reflexivity|]. destruct (existsb _ _); [eexists; reflexivity|].
  destruct (MMount _ _ _ _ _ s) as [s' [e|]]; split; try done; intros err [= <-]; by eexists.
Qed.

(** C20: what a claim names is what its pods mount. When the controller answers a
    CreateVolume, it has resolved the dataset the storage class names, and its
    reply reads back as that dataset's volume. A publish carrying that volume
    mounts the dataset's object, read from under the export, at the target asked
    for, and on success tells the node its size; one whose object the store
    itself would not read is refused with nothing mounted. *)
Theorem claim_mounts_its_dataset `{Quoting} `{Resolves} {S} (d : CsiConfig Node) (resolve : Resolver S)
    ctx req s0 s1 reply :
  CObserver d = Some Registry -> Export d <> ""%string ->
  createVolume resolve ctx req s0 = (s1, Ok reply) ->
  exists r ns name object bytes, let v := resolved_volume ns name object bytes in
    DecodeCreateVolume req = Ok r /\ acceptable (CreateCapabilities r) = None /\
    datasetFrom (Parameters r) = Ok (ns, name) /\
    resolve ctx ns name s0 = (s1, Ok (object, bytes)) /\
    (is_int64 bytes -> 0 <= bytes -> sized reply -> read_volume reply = Ok v) /\
    forall preq p ctx' n, DecodeNodePublish preq = Ok p -> PublishID p = VID v ->
      PublishContext p = VContext v -> PublishTarget p <> ""%string ->
      (exists c, PublishCapability p = Some c /\ acceptable [c] = None) -> is_int64 bytes ->
      match FileDriver.path object with
      | Some segs =>
          let '(n', e) := NFS_Mount ctx' (address (Access d) (Export d) segs) (PublishTarget p)
                            (MountFlags d) n in
          (e = None -> nodePublish d NFS ctx' preq n
                       = (Registry_Published (VID v) (Z.max 0 bytes) n', Ok [])) /\
          (forall err, e = Some err -> exists m, nodePublish d NFS ctx' preq n = (n', Err (Status Internal m)))
      | None => exists m, nodePublish d NFS ctx' preq n = (n, Err (Status InvalidArgument m))
      end.
Proof.
  intros Eo Ne C. unfold createVolume in C. destruct (DecodeCreateVolume req) as [r|] eqn:D; [|done].
  destruct (CreateName r =? "")%string; [done|]. destruct (zlen _ =? 0); [done|].
  destruct (acceptable _) eqn:A; [done|]. destruct (datasetFrom _) as [[ns name]|] eqn:F; [|done].
  destruct (resolve ctx ns name s0) as [s' [[object bytes]|]] eqn:R; [|done]. 
  remember (EncodeCreateVolume _) as rep eqn:Er in C. injection C as -> ->.
  exists r, ns, name, object, bytes. cbv zeta. split_and!; [done..| |].
  { rewrite Er. intros I P Sz. by apply read_EncodeCreateVolume. }
  intros preq p ctx' n Dp Ei Ec Nt (c & Ep & Ac) I.
  assert (PublishID p <> ""%string) as Ni by (rewrite Ei; cbn; by destruct ns).
  assert (PublishContext p !! "object"%string = Some object) as Eob by (rewrite Ec; apply lookup_insert_eq).
  pose proof (nodePublish_mounts d NFS ctx' preq p c object n Dp Ni Nt Ep Ac Eob) as P.
  pose proof (source_spec d object Ne) as Src. destruct (FileDriver.path object) as [segs|].
  - rewrite Src in P. cbn [MMount NFS] in P. destruct (NFS_Mount _ _ _ _ n) as [n' e].
    by rewrite Ei, Ec, observe_resolved in P.
  - destruct Src as [m Src]. by rewrite Src in P.
Qed.

(** ** Everything a node has mounted *)

Section node.
Context `{Quoting} `{Resolves} (d : CsiConfig Node).
Hypothesis export_set : Export d <> ""%string.
Hypothesis observer_set : CObserver d = Some Registry.

(** Mounted by this driver: an object's directory under the export, with the
    read-only option first. *)
Definition served (m : mount_entry) : Prop :=
  exists object segs, FileDriver.path object = Some segs /\
    MSource m = address (Access d) (Export d) segs /\
    MOptions m = Join "," ("ro"%string :: MountFlags d).

(** A node serves requests, of any bytes, one after another, publishing at the
    targets of [T]; [os_fails] is the operating system failing differently from here
    on. *)
Inductive node_step (T : string -> Prop) : Node -> Node -> Prop :=
  | ns_publish n ctx req :
      (forall p, DecodeNodePublish req = Ok p -> PublishTarget p <> ""%string -> T (PublishTarget p)) ->
      node_step T n (nodePublish d NFS ctx req n).1
  | ns_unpublish n ctx req : node_step T n (nodeUnpublish d NFS ctx req n).1
  | ns_os_fails n fs :
      node_step T n {| mounts := mounts n; dirs := dirs n; os_faults := fs; byID := byID n |}.

(** A target the mount table has under the name it is asked for by: it leads to
    itself, and keeps to one field. *)
Definition as_tabled (target : string) : Prop := tabled target = true /\ realpath target = target.

(** What a node has mounted: what it may, where it was asked to; and nothing over
    another, so long as every target is tabled as it is given. *)
Definition placed (T : string -> Prop) (m : mount_entry) : Prop := exists t, T t /\ MTarget m = realpath t.
Definition node_inv (T : string -> Prop) (n : Node) : Prop :=
  Forall served (mounts n) /\ Forall (placed T) (mounts n) /\ ((forall t, T t -> as_tabled t) -> node_ok n).

Lemma observe_mounts id c n : mounts (observe d id c n) = mounts n.
Proof. unfold observe. rewrite observer_set. simpl. unfold Registry_Published. by case_if. Qed.

Lemma forget_mounts id n : mounts (forget d id n) = mounts n.
Proof. unfold forget. by rewrite observer_set. Qed.

Lemma node_inv_sublist T n n' : sublist (mounts n') (mounts n) -> node_inv T n -> node_inv T n'.
Proof.
  intros S (F & P & O). split_and!; [..|intros A; eapply node_ok_sublist; eauto];
    rewrite Forall_forall in *; intros m Hm; [apply F|apply P]; by eapply elem_of_sublist.
Qed.
Lemma node_inv_mounts T n n' : mounts n' = mounts n -> node_inv T n -> node_inv T n'.
Proof. intros E. apply node_inv_sublist. by rewrite E. Qed.

Lemma NFS_Mount_inv (T : string -> Prop) ctx object segs target n : FileDriver.path object = Some segs ->
  T target -> node_inv T n ->
  node_inv T (NFS_Mount ctx (address (Access d) (Export d) segs) target (MountFlags d) n).1.
Proof.
  intros P Tt I. pose proof (NFS_Mount_cases ctx (address (Access d) (Export d) segs) target (MountFlags d) n) as C.
  pose proof (NFS_Mount_spec ctx (address (Access d) (Export d) segs) target (MountFlags d) n) as M.
  destruct (NFS_Mount _ _ _ _ n) as [n' e]. simpl. destruct C as [E|[_ E]]; [by apply (node_inv_mounts T n)|].
  destruct I as (F & Pl & O). split_and!.
  - rewrite E. constructor; [by exists object, segs|done].
  - rewrite E. constructor; [by exists target|done].
  - intros A. destruct (A target Tt) as [Tb R]. specialize (O A). destruct (M O R) as [E'|[N E']].
    { apply (node_ok_sublist n); [done|by rewrite E']. }
    destruct O as [It Io]. split; rewrite E'; [by constructor|cbn; by constructor].
Qed.

Lemma node_step_inv T n n' : node_inv T n -> node_step T n n' -> node_inv T n'.
Proof.
  intros I S. revert I. destruct S as [n0 ctx req Ts|n0 ctx req|n0 fs]; intros I; [| |by apply (node_inv_mounts T n0)].
  - unfold nodePublish. destruct (DecodeNodePublish req) as [p|]; [|done].
    destruct (PublishID p =? "")%string; [done|]. destruct (PublishTarget p =? "")%string eqn:Et; [done|].
    apply String.eqb_neq in Et. destruct (PublishCapability p); [|done]. destruct (acceptable _); [done|].
    destruct (default _ _ =? "")%string; [done|].
    pose proof (source_spec d (default ""%string (PublishContext p !! "object"%string)) export_set) as S.
    destruct (FileDriver.path _) as [segs|] eqn:P; [rewrite S|destruct S as [m ->]; done].
    pose proof (NFS_Mount_inv T ctx _ _ _ _ P (Ts p eq_refl Et) I) as M. cbn [MMount NFS].
    destruct (NFS_Mount _ _ _ _ n0) as [n' [e|]]; [done|]. simpl in *.
    apply (node_inv_mounts T n'); [apply observe_mounts|done].
  - unfold nodeUnpublish. destruct (DecodeNodeUnpublish req) as [p|]; [|done].
    destruct (UnpublishID p =? "")%string; [done|]. destruct (UnpublishTarget p =? "")%string; [done|].
    pose proof (NFS_Unmount_spec ctx (UnpublishTarget p) n0) as U. cbn [MUnmount NFS].
    assert (forall n', mounts n' = mounts n0 \/ mounts n' = remove_newest (realpath (UnpublishTarget p)) (mounts n0) ->
      node_inv T n') as K.
    { intros n' [E|E]; apply (node_inv_sublist T n0); try done; rewrite E; [done|apply remove_newest_sublist]. }
    destruct (NFS_Unmount _ _ n0) as [n' [e|]]; [by apply K|]. simpl.
    apply K. by rewrite forget_mounts.
Qed.

(** C21: whatever a node is asked, it mounts only what it may. From a node with
    nothing of its own mounted, after any publishes and unpublishes in any order,
    repeated or malformed, and whatever of the operating system fails on the way,
    each mount is of an object's own directory below the export, whose key the
    directory store would read too, with the read-only option applied first, and
    where the target of a publish leads. Where every target is the name the mount
    table has its place by, leading to itself and holding no white space but what
    the kernel escapes, no mount is stacked on another; a target that is not is
    looked for in vain, and mounted again ([other_name_stacks]). *)
Theorem mounts_stay_confined T n n' : mounts n = [] -> rtc (node_step T) n n' ->
  Forall served (mounts n') /\ Forall (placed T) (mounts n') /\
  ((forall t, T t -> as_tabled t) -> NoDup (MTarget <$> mounts n')).
Proof.
  intros E R. assert (node_inv T n) as I.
  { unfold node_inv. rewrite E. split_and!; [constructor..|]. intros _. split; rewrite E; constructor. }
  clear E. induction R as [n|n n1 n2 S R IH].
  - destruct I as (F & P & O). split_and!; [done..|]. intros A. by destruct (O A).
  - apply IH. by apply (node_step_inv T n).
Qed.
End node.

(** a publish heard twice mounts once, and an unpublish leaves nothing. With
    the operating system answering, mounting at a target puts one mount there or
    finds one already there; asking again, even for another source, changes
    nothing; unmounting takes exactly that mount and its directory away, and
    asking again reports no error and changes nothing. *)
Theorem mount_settles `{Resolves} ctx src src' target flags n :
  node_ok n -> os_faults n = [] -> as_tabled target ->
  exists n1 n2,
    NFS_Mount ctx src target flags n = (n1, None) /\
    mounts n1 = (if bool_decide (target ∈ MTarget <$> mounts n) then mounts n else
      {| MSource := src; MTarget := target; MOptions := Join "," ("ro"%string :: flags) |} :: mounts n) /\
    NFS_Mount ctx src' target flags n1 = (n1, None) /\
    NFS_Unmount ctx target n1 = (n2, None) /\
    mounts n2 = List.filter (fun m => negb (MTarget m =? target)%string) (mounts n) /\
    target ∉ dirs n2 /\
    NFS_Unmount ctx target n2 = (n2, None).
Proof.
  intros I Q [T R].
  assert (exists n1, NFS_Mount ctx src target flags n = (n1, None) /\ os_faults n1 = [] /\
    target ∈ MTarget <$> mounts n1 /\ node_ok n1 /\
    mounts n1 = (if bool_decide (target ∈ MTarget <$> mounts n) then mounts n else
      {| MSource := src; MTarget := target; MOptions := Join "," ("ro"%string :: flags) |} :: mounts n))
    as (n1 & E1 & Q1 & In1 & I1 & M1).
  { unfold NFS_Mount. rewrite mounted_quiet by done. case_bool_decide as B; [by exists n|].
    unfold MkdirAll. rewrite next_os_quiet by done. unfold exec_mount. rewrite next_os_quiet, R by done.
    eexists. split_and!; [reflexivity|done|by left| |done]. destruct I as [It Io].
    split; [by constructor|]. by constructor. }
  assert (NFS_Mount ctx src' target flags n1 = (n1, None)) as E1'.
  { unfold NFS_Mount. by rewrite mounted_quiet, bool_decide_true by done. }
  set (n2 := set_dirs (dirs n1 ∖ {[target]}) (set_mounts (remove_newest target (mounts n1)) n1)).
  assert (mounts n2 = List.filter (fun m => negb (MTarget m =? target)%string) (mounts n)) as M2.
  { destruct I as [_ Io], I1 as [_ Io1]. simpl. rewrite remove_newest_once, M1 by done.
    case_bool_decide; [done|]. simpl. by rewrite String.eqb_refl. }
  assert (target ∉ MTarget <$> mounts n2) as Out.
  { rewrite M2, list_elem_of_fmap. intros (m & -> & [_ Hm]%list_elem_of_In%filter_In).
    by rewrite String.eqb_refl in Hm. }
  assert (NFS_Unmount ctx target n1 = (n2, None)) as E2.
  { unfold NFS_Unmount. rewrite mounted_quiet, bool_decide_true by done. unfold exec_umount.
    rewrite next_os_quiet by done. unfold removeIfEmpty. rewrite next_os_quiet by done. rewrite R.
    by rewrite bool_decide_false by exact Out. }
  exists n1, n2. split_and!; [done..|set_solver|].
  assert (node_ok n2) as I2 by (apply (node_ok_sublist n1); [done|apply remove_newest_sublist]).
  unfold NFS_Unmount. rewrite mounted_quiet, bool_decide_false by done.
  unfold removeIfEmpty. rewrite next_os_quiet, R, bool_decide_false by done. f_equal. unfold n2, set_dirs. cbn.
  by replace (dirs n1 ∖ {[target]} ∖ {[target]}) with (dirs n1 ∖ {[target]}) by set_solver.
Qed.

(** ** Witnesses

    Over a node with no symbolic links, at its root. *)

Definition wresolves : Resolves := Clean.
#[local] Existing Instance wresolves.

Definition wdriver : CsiConfig Node :=
  {| NodeID := "n1"; Version := "1"; Access := "10.0.0.1"; Export := "/export"; MountFlags := ["nconnect=4"];
     CResolver := None; CMounter := Some NFS; CObserver := Some Registry |}.
Definition wnode : Node := {| mounts := []; dirs := ∅; os_faults := []; byID := ∅ |}.
Definition wcap : VolumeCapability := {| Mount := Some no_Mount; Block := false; AccessMode := 3 |}.

(** The class hands out one dataset, and the cluster has it. *)
Definition wcreate : list byte :=
  AppendStringMap (AppendMessage (AppendString [] 1 "pvc-1") 3 (encodeVolumeCapability wcap)) 4
    ["dataset"] {[ "dataset" := " team/imagenet " ]}%string.
Definition wresolve : Resolver nat := fun _ _ _ s => (s, Ok ("team/v1"%string, 42)).
Definition wpublish (target : string) : list byte :=
  let v := resolved_volume "team" "imagenet" "team/v1" 42 in
  AppendStringMap (AppendMessage (AppendString (AppendString [] 1 (VID v)) 4 target) 5 (encodeVolumeCapability wcap))
    8 (sortedKeys (VContext v)) (VContext v).
Definition wmount (target : string) : mount_entry :=
  {| MSource := "10.0.0.1:/export/team/v1"; MTarget := target; MOptions := "ro,nconnect=4" |}.

Definition wvolume : Volume := resolved_volume "team" "imagenet" "team/v1" 42.
Definition wreq (target : string) : NodePublishRequest :=
  {| PublishID := "team/imagenet"; PublishTarget := target; PublishCapability := Some wcap; ReadOnly := false;
     PublishContext := VContext wvolume |}.

Lemma claim_mounts_its_dataset_witness :
  createVolume (H := GrpcWire.wquote) wresolve None wcreate 0%nat = (0%nat, Ok (EncodeCreateVolume wvolume)) /\
  read_volume (EncodeCreateVolume wvolume) = Ok wvolume /\
  (nodePublish (H := GrpcWire.wquote) wdriver NFS None (wpublish "/pods/a b") wnode).2 = Ok [].
Proof.
  assert (createVolume (H := GrpcWire.wquote) wresolve None wcreate 0%nat
    = (0%nat, Ok (EncodeCreateVolume wvolume))) as C by (vm_compute; reflexivity).
  split; [exact C|].
  destruct (claim_mounts_its_dataset (H := GrpcWire.wquote) wdriver wresolve None wcreate 0%nat 0%nat _
    eq_refl ltac:(discriminate) C) as (r & ns & name & object & bytes & D & _ & F & R & V & P).
  vm_compute in D. injection D as <-. vm_compute in F. injection F as <- <-. injection R as <- <-.
  split; [apply V; unfold sized, is_int64; vm_compute; (split; discriminate) || discriminate|].
  assert (DecodeNodePublish (wpublish "/pods/a b") = Ok (wreq "/pods/a b")) as Dp by (vm_compute; reflexivity).
  pose proof (P _ _ None wnode Dp eq_refl eq_refl ltac:(discriminate) (ex_intro _ wcap (conj eq_refl eq_refl))
    ltac:(vm_compute; split; discriminate)) as W.
  vm_compute in W. vm_compute. exact (f_equal snd (proj1 W eq_refl)).
Defined.

Lemma mounts_stay_confined_witness :
  let n := (nodePublish (H := GrpcWire.wquote) wdriver NFS None (wpublish "/pods/a b") wnode).1 in
  mounts n = [wmount "/pods/a b"] /\ Forall (served wdriver) (mounts n) /\ NoDup (MTarget <$> mounts n).
Proof.
  split; [vm_compute; reflexivity|].
  destruct (mounts_stay_confined (H := GrpcWire.wquote) wdriver ltac:(discriminate) eq_refl (fun t => t = "/pods/a b"%string)
    wnode (nodePublish (H := GrpcWire.wquote) wdriver NFS None (wpublish "/pods/a b") wnode).1 eq_refl) as (F & _ & N).
  - apply rtc_once, ns_publish. intros p D _.
    assert (DecodeNodePublish (wpublish "/pods/a b") = Ok (wreq "/pods/a b")) as Dp by (vm_compute; reflexivity).
    rewrite Dp in D. by injection D as <-.
  - split; [exact F|]. apply N. intros t ->. by split; vm_compute.
Defined.

Lemma mount_settles_witness :
  exists n1, NFS_Mount None "10.0.0.1:/export/team/v1" "/pods/a b" ["nconnect=4"] wnode = (n1, None) /\
  mounts n1 = [wmount "/pods/a b"] /\
  NFS_Mount None "10.0.0.1:/export/other" "/pods/a b" ["nconnect=4"] n1 = (n1, None).
Proof.
  destruct (mount_settles None "10.0.0.1:/export/team/v1" "10.0.0.1:/export/other" "/pods/a b" ["nconnect=4"] wnode)
    as (n1 & n2 & E & M & E' & _); [split; constructor|reflexivity|split; vm_compute; reflexivity|].
  exists n1. split_and!; [exact E|exact M|exact E'].
Defined.
