(* ===== verification/Pressure.v ===== *)
(** * Pressure: the watch that takes capacity back (internal/agent/pressure.go)

    One pass measures free space, asks every source how much compute wants,
    reclaims the worst of it and records that the agent is making progress. What
    the filesystem, a source or a clock will answer is an argument. The agent's
    [rate] field is a state of its own here, since only the watch touches it. *)

From S2P Require Import Prelude Float64 Pool Lease Agent LeaseProofs Journal LeaseTheorems AgentTheorems.

Local Open Scope Z_scope.

Record Pressure : Type := mkPressure {
  PSource : string;
  Need : Bytes;
}.

(** The loop of [Shortfall], and the call. *)
Fixpoint worst_of (worst : Pressure) (observed : list Pressure) : Pressure :=
  match observed with
  | [] => worst
  | o :: observed => worst_of (if Need worst <? Need o then o else worst) observed
  end.
Definition Shortfall (observed : list Pressure) : Pressure := worst_of (mkPressure "none" 0) observed.

Record WatchConfig : Type := mkWatchConfig {
  Headroom : Bytes;
  HeadroomFor : duration;
  MinHeadroom : Bytes;
  Interval : duration;
}.

Inductive WatchErr : Type :=
  | ErrNoHeadroom
  | ErrTwoFloors
  | ErrNoMinimum
  | ErrInterval
  | ErrNoReport
  | ErrMeasure
  | ErrAgent (e : AgentErr).

Definition WatchConfig_Validate (c : WatchConfig) : option WatchErr :=
  if (Headroom c <=? 0) && (HeadroomFor c <=? 0) then Some ErrNoHeadroom
  else if (0 <? Headroom c) && (0 <? HeadroomFor c) then Some ErrTwoFloors
  else if (0 <? HeadroomFor c) && (MinHeadroom c <=? 0) then Some ErrNoMinimum
  else if Interval c <=? 0 then Some ErrInterval
  else None.

(** ** What a workload consumes *)

Record rateEstimator : Type := mkRate {
  rfree : Bytes;
  rborrowed : Bytes;
  rat : time;
  have : bool;
}.
Definition no_rate : rateEstimator := mkRate 0 0 0 false.

(** [Duration.Seconds]. *)
Definition Seconds (d : duration) : float64 :=
  f64_add (f64_of_Z (Z.quot d Second)) (f64_div (f64_of_Z (Z.rem d Second)) (f64_of_Z Second)).

Definition f64_zero : float64 := f64_of_Z 0.

(** [rateEstimator.observe]: the rate, and whether there is one. *)
Definition observe_rate (free borrowed : Bytes) (now : time) (r : rateEstimator)
  : rateEstimator * (float64 * bool) :=
  let r' := mkRate free borrowed now true in
  if negb (have r) then (r', (f64_zero, false))
  else
    let elapsed := Seconds (time_Sub now (rat r)) in
    if f64_leb elapsed f64_zero then (r', (f64_zero, false))
    else
      let took := f64_add (f64_of_Z (rfree r -! free)) (f64_of_Z (rborrowed r -! borrowed)) in
      let took := if f64_ltb took f64_zero then f64_zero else took in
      (r', (f64_div took elapsed, true)).

Definition target (c : WatchConfig) (rate : float64) (known : bool) : Bytes :=
  if 0 <? Headroom c then Headroom c
  else if negb known then MinHeadroom c
  else
    let want := int64_of_f64 (f64_mul rate (Seconds (HeadroomFor c))) in
    if MinHeadroom c <? want then want else MinHeadroom c.

(** ** Sources *)

(** [Partial] is an error that comes with a need worth acting on. *)
Inductive SourceErr : Type :=
  | Partial (msg : string)
  | Unread (msg : string).
Definition SourceErr_Error (e : SourceErr) : string := match e with Partial m | Unread m => m end.

(** A source is given how long it has, if it is bounded. *)
Record Source : Type := mkSource {
  Name : string;
  Observe : option duration -> WatchConfig -> Bytes -> Bytes * option SourceErr;
}.

Definition minObserve : duration := Second.

Definition observe (s : Source) (cfg : WatchConfig) (available : Bytes) : Bytes * option SourceErr :=
  if Interval cfg <=? 0 then Observe s None cfg available
  else
    let bound := Z.quot (Interval cfg) 2 in
    let bound := if bound <? minObserve then minObserve else bound in
    Observe s (Some bound) cfg available.

(** The loop over the sources: what was observed, and who could not be read. *)
Fixpoint observe_all (sources : list Source) (cfg : WatchConfig) (available : Bytes)
    (observed : list Pressure) (degraded : list string) : list Pressure * list string :=
  match sources with
  | [] => (observed, degraded)
  | s :: sources =>
      let '(need, e) := observe s cfg available in
      let seen := observed ++ [mkPressure (Name s) need] in
      match e with
      | None => observe_all sources cfg available seen degraded
      | Some e =>
          let degraded := degraded ++ [Name s +:+ ": " +:+ SourceErr_Error e] in
          match e with
          | Partial _ => observe_all sources cfg available seen degraded
          | Unread _ => observe_all sources cfg available observed degraded
          end
      end
  end.

(** ** One pass *)

Record Tick : Type := mkTick {
  TObserved : Pressure;
  TReclaimed : Bytes;
  Degraded : list string;
  TShortfall : Bytes;
  Target : Bytes;
  Rate : float64;
  TElapsed : duration;
  TBounded : bool;
}.
Definition no_Tick : Tick := mkTick (mkPressure "" 0) 0 [] 0 0 f64_zero 0 false.

Section watch.
Context {J : Type} `{Journal J}.
Implicit Types a : Agent J.

(** What the world answers during one pass: free space, the reclaim's monotonic
    clock, and the name a temporary file gets. *)
Record pass : Type := mkPass {
  free : option Bytes;
  at_ : time;
  took : duration;
  tmp : string;
}.

Definition Step (cfg : WatchConfig) (p : pass) (sources : list Source) (r : rateEstimator) a
  : rateEstimator * Agent J * (Tick * option WatchErr) :=
  match free p with
  | None => (r, a, (no_Tick, Some ErrMeasure))
  | Some available =>
      let '(r, (rate, known)) := observe_rate available (Borrowed (acct (manager a))) (at_ p) r in
      let floor := target cfg rate known in
      let effective := {| Headroom := floor; HeadroomFor := HeadroomFor cfg;
                          MinHeadroom := MinHeadroom cfg; Interval := Interval cfg |} in
      let '(observed, degraded) :=
        observe_all sources effective available [mkPressure "free space" (floor -! available)] [] in
      let worst := Shortfall observed in
      let t reclaimed short elapsed bounded := mkTick worst reclaimed degraded short floor rate elapsed bounded in
      let beat t a := let '(a, e) := Heartbeat (at_ p) (tmp p) a in (r, a, (t, ErrAgent <$> e)) in
      if 0 <? Need worst then
        let '(a, (rec, e)) := ReclaimCapacity (Need worst) (at_ p) (took p) a in
        let t := t (Reclaimed (RResult rec)) (Lease.Shortfall (RResult rec)) (Elapsed rec) (Bounded (RResult rec)) in
        match e with
        | None | Some ErrDeadlineMissed => beat t a
        | Some e => (r, a, (t, Some (ErrAgent e)))
        end
      else beat (t 0 0 0 false) a
  end.

(** [Watch], until its context is done after the last of [passes]; what it
    reported, in order. It reports a pass that failed and goes on. *)
Fixpoint watch_loop (cfg : WatchConfig) (sources : list Source) (passes : list pass)
    (r : rateEstimator) a (reports : list (Tick * option WatchErr))
  : rateEstimator * Agent J * list (Tick * option WatchErr) :=
  match passes with
  | [] => (r, a, reports)
  | p :: passes =>
      let '(r, a, report) := Step cfg p sources r a in
      watch_loop cfg sources passes r a (reports ++ [report])
  end.

Definition Watch (cfg : WatchConfig) (report : bool) (sources : list Source) (first : pass)
    (passes : list pass) (r : rateEstimator) a
  : rateEstimator * Agent J * (list (Tick * option WatchErr) * option WatchErr) :=
  match WatchConfig_Validate cfg with
  | Some e => (r, a, ([], Some e))
  | None =>
      if negb report then (r, a, ([], Some ErrNoReport))
      else
        let '(r, a, reports) := watch_loop cfg sources (first :: passes) r a [] in
        (r, a, (reports, None))
  end.
End watch.

(** * What a pass of the watch gives back *)

(** ** The worst of what was observed *)

Lemma worst_of_spec os : forall w, worst_of w os ∈ w :: os /\
  forall o, o ∈ w :: os -> Need o <= Need (worst_of w os).
Proof.
  induction os as [|o os IH]; intros w; simpl.
  - split; [by left|]. by intros o ->%list_elem_of_singleton.
  - destruct (IH (if Need w <? Need o then o else w)) as [E B]. split.
    + destruct (Need w <? Need o); set_solver.
    + intros p Hp. pose proof (B _ ltac:(by left)) as T.
      destruct (Z.ltb_spec (Need w) (Need o)); apply elem_of_cons in Hp as [->|[->|Hp]%elem_of_cons];
        try lia; apply B; set_solver.
Qed.

(** What a source contributes, when it could be read at least in part. *)
Definition contributed (cfg : WatchConfig) (available : Bytes) (s : Source) : option Pressure :=
  match observe s cfg available with
  | (_, Some (Unread _)) => None
  | (need, _) => Some (mkPressure (Name s) need)
  end.
Definition missed (cfg : WatchConfig) (available : Bytes) (s : Source) : option string :=
  (fun e => Name s +:+ ": " +:+ SourceErr_Error e) <$> (observe s cfg available).2.

Lemma observe_all_spec ss cfg available : forall seen gone,
  observe_all ss cfg available seen gone =
  (seen ++ omap (contributed cfg available) ss, gone ++ omap (missed cfg available) ss).
Proof.
  induction ss as [|s ss IH]; intros seen gone; cbn [observe_all].
  { simpl. by rewrite !app_nil_r. }
  cbn [omap list_omap]. unfold contributed at 1, missed at 1.
  destruct (observe s cfg available) as [need [[m|m]|]]; simpl; by rewrite IH, <- ?app_assoc.
Qed.

(** Every source answers with a [pool.Bytes]. *)
Definition typed (s : Source) : Prop := forall d cfg available, is_int64 (Observe s d cfg available).1.

Lemma contributed_int64 cfg available ss o : Forall typed ss ->
  o ∈ omap (contributed cfg available) ss -> is_int64 (Need o).
Proof.
  intros T (s & Hs & E)%list_elem_of_omap. rewrite Forall_forall in T. specialize (T s Hs).
  unfold contributed, observe in E. case_if; destruct (Observe _ _ _ _) as [n [[]|]] eqn:O;
    simplify_eq/=; match goal with H : Observe s ?d ?c ?v = _ |- _ => specialize (T d c v); by rewrite H in T end.
Qed.

Section watch.
Context {J : Type} `{Journal J}.
Implicit Types a : Agent J.

(** ** What a reclaim does to the node *)

Lemma discard_gone id a : (discard id a).2 = None \/ (discard id a).2 = Some ErrNoExtent ->
  dir (discard id a).1 !! id = None.
Proof.
  destruct (discard id a) as [a' e] eqn:D. apply discard_spec in D. simpl.
  destruct D as [a' e _ _ Hd _ F|a' n _ _ _ _ _ Hd|a' _ _ _ _ Hd]; intros X.
  - destruct F as [[-> F]|[[-> _]|[-> _]]]; [|by destruct X..]. by rewrite Hd.
  - by destruct X.
  - rewrite Hd. apply lookup_delete_None. right. apply lookup_delete_eq.
Qed.

Lemma discard_all_keeps_gone ids k : forall a failed, validLeaseID k = None -> dir a !! k = None ->
  dir (discard_all ids a failed).1 !! k = None.
Proof.
  induction ids as [|id ids IH]; intros a failed V N; [done|]. simpl.
  pose proof (discard_dir id k a V N) as D. destruct (discard id a) as [a' e]. by apply IH.
Qed.

Lemma discard_all_failed ids : forall a failed, failed `prefix_of` (discard_all ids a failed).2.
Proof.
  induction ids as [|id ids IH]; intros a failed; [done|]. simpl. destruct (discard id a) as [a' e].
  etransitivity; [|apply IH]. destruct e as [[]|]; first [done | by eexists].
Qed.

Lemma discard_all_gone ids : forall a, (discard_all ids a []).2 = [] ->
  forall id, id ∈ ids -> validLeaseID id = None -> dir (discard_all ids a []).1 !! id = None.
Proof.
  induction ids as [|i ids IH]; intros a F id Hid V; [by apply not_elem_of_nil in Hid|]. simpl in *.
  pose proof (discard_gone i a) as G. destruct (discard i a) as [a' e]. simpl in *.
  assert (e = None \/ e = Some ErrNoExtent) as X.
  { destruct e as [[]|]; auto; exfalso;
      match type of F with (discard_all _ _ ?l).2 = [] => pose proof (discard_all_failed ids a' l) as P end;
      rewrite F in P; by apply prefix_nil_inv in P. }
  assert ((match e with None | Some ErrNoExtent => [] | Some _ => [i] end) = []) as Ef by by destruct X as [-> | ->].
  rewrite Ef in *. apply elem_of_cons in Hid as [->|Hid]; [|by apply IH].
  apply discard_all_keeps_gone; auto.
Qed.

(** What a reclaim asked for [need] does, whatever the disk answers. *)
Lemma ReclaimCapacity_spec base need now elapsed a : inv base (manager a) -> is_int64 need -> 0 < need ->
  (forall id, is_Some (leases (manager a) !! id) -> validLeaseID id = None) ->
  let '(a', (rec, e)) := ReclaimCapacity need now elapsed a in
  Borrowed (acct (manager a')) = Borrowed (acct (manager a)) - Reclaimed (RResult rec) /\
  Lease.Shortfall (RResult rec) = Z.max 0 (need - Reclaimed (RResult rec)) /\
  (forall id l, leases (manager a') !! id = Some l -> leases (manager a) !! id = Some l /\
     Expired l now = false /\ (0 < Lease.Shortfall (RResult rec) -> Class l = Guaranteed)) /\
  (forall id l, leases (manager a) !! id = Some l -> leases (manager a') !! id = None ->
     Class l <> Guaranteed \/ Expired l now = true) /\
  beat a' = beat a /\
  (match e with None | Some ErrDeadlineMissed =>
     forall id, is_Some (leases (manager a) !! id) -> leases (manager a') !! id = None -> dir a' !! id = None
   | _ => True end).
Proof.
  intros I Hn N V. unfold ReclaimCapacity. destruct (Reclaim need now (manager a)) as [m r] eqn:R.
  destruct (Reclaim_spec base need now (manager a) m r I Hn N R) as ((j & rs & Em) & D & S & F & _).
  set (a0 := releasing (Dropped r) (set_manager m a)).
  assert (manager a0 = m /\ beat a0 = beat a /\ dir a0 = dir a) as (M0 & B0 & D0) by by (unfold a0; destruct (Dropped r)).
  pose proof (discard_all_frame (Dropped r) a0 []) as [M B].
  pose proof (discard_all_gone (Dropped r) a0) as G.
  destruct (discard_all (Dropped r) a0 []) as [a' failed]. simpl in *. rewrite M, B, M0, B0.
  pose proof (fun id => drop_leases_lookup (reclaim_choice need now (manager a)) (manager a) id) as Lk.
  assert (forall id, leases m !! id = leases (drop_leases (reclaim_choice need now (manager a)) (manager a)) !! id) as El
    by by intros id; rewrite Em.
  split_and!.
  - rewrite Em, S. apply drop_leases_Borrowed.
  - by rewrite F, S.
  - intros id l E. rewrite El in E. split_and!.
    + rewrite Lk in E. by case_bool_decide.
    + by apply (reclaim_keeps base) in E as (_ & _ & ? & _).
    + intros Sh. rewrite F in Sh. revert E. apply (reclaim_short base); [done|lia].
  - intros id l E N'. rewrite El, Lk in N'. case_bool_decide as Hid; [|congruence].
    apply list_elem_of_fmap in Hid as (k & -> & Hk).
    pose proof (reclaim_choice_held base need now (manager a) I) as [_ Hd]. rewrite Forall_forall in Hd.
    rewrite (Hd k Hk) in E. injection E as <-. destruct (Expired k now) eqn:X; [by right|left].
    apply (reclaim_running base) in Hk; auto. by apply ladder_elem in Hk as [_ ?].
  - done.
  - assert (failed = [] -> forall id, is_Some (leases (manager a) !! id) -> leases m !! id = None -> dir a' !! id = None) as K.
    { intros Ef id Is N'. apply (G Ef); [|by apply V]. rewrite D. rewrite El, Lk in N'.
      case_bool_decide; [done|]. by rewrite N' in Is; destruct Is. }
    destruct failed as [|f fs]; [|done]. simpl. destruct (_ && _); by apply K.
Qed.
End watch.

(** ** The watch's pass *)

(** The floor a pass settles on, in place of the configured one. *)
Definition with_floor (floor : Bytes) (cfg : WatchConfig) : WatchConfig :=
  mkWatchConfig floor (HeadroomFor cfg) (MinHeadroom cfg) (Interval cfg).

(** All that a pass takes into account. *)
Definition considered (cfg : WatchConfig) (sources : list Source) (floor available : Bytes) : list Pressure :=
  mkPressure "none" 0 :: mkPressure "free space" (floor -! available) ::
  omap (contributed (with_floor floor cfg) available) sources.

(** C9: a pass gives compute back the worst shortfall anybody saw, or everything
    that may be taken. It acts on the largest need among free space against the
    floor and each source that could be read, even in part, and names the ones
    it lost; it takes that much, and falls short only when nothing but running
    guaranteed leases is left; it takes no running guarantee; and when it says it
    made progress, what was taken is off the disk. *)
Theorem pass_gives_back {J} `{Journal J} base cfg p sources r (a : Agent J) :
  inv base (manager a) -> (forall id, is_Some (leases (manager a) !! id) -> validLeaseID id = None) ->
  Forall typed sources -> String.prefix agentFilePrefix (tmp p) = true ->
  let '(r', a', (t, e)) := Step cfg p sources r a in
  match free p with
  | None => r' = r /\ a' = a /\ t = no_Tick /\ e = Some ErrMeasure
  | Some available =>
      let os := considered cfg sources (Target t) available in
      TObserved t ∈ os /\ (forall o, o ∈ os -> Need o <= Need (TObserved t)) /\
      Degraded t = omap (missed (with_floor (Target t) cfg) available) sources /\
      Borrowed (acct (manager a')) = Borrowed (acct (manager a)) - TReclaimed t /\
      TShortfall t = Z.max 0 (Need (TObserved t) - TReclaimed t) /\
      (forall id l, leases (manager a') !! id = Some l -> leases (manager a) !! id = Some l /\
         (0 < TShortfall t -> Class l = Guaranteed /\ Expired l (at_ p) = false)) /\
      (forall id l, leases (manager a) !! id = Some l -> leases (manager a') !! id = None ->
         0 < Need (TObserved t) /\ (Class l <> Guaranteed \/ Expired l (at_ p) = true)) /\
      beat a' = (match e with None => Some (at_ p) | Some _ => beat a end) /\
      (e = None -> forall id, is_Some (leases (manager a) !! id) -> leases (manager a') !! id = None ->
         dir a' !! id = None)
  end.
Proof.
  intros I V T P. unfold Step. destruct (free p) as [available|]; [|done].
  destruct (observe_rate _ _ _ _) as [r1 [rate known]]. set (floor := target cfg rate known).
  change {| Headroom := floor; HeadroomFor := _; MinHeadroom := _; Interval := _ |} with (with_floor floor cfg).
  rewrite observe_all_spec. simpl app.
  set (os := mkPressure "free space" _ :: _).
  destruct (worst_of_spec os (mkPressure "none" 0)) as [Ew Bw].
  change (worst_of _ os) with (Shortfall os) in *. set (w := Shortfall os) in *.
  assert (is_int64 (Need w)) as Hw.
  { apply elem_of_cons in Ew as [->|[->|Ew]%elem_of_cons]; [done|apply wrap64_range|by eapply contributed_int64]. }
  assert (forall id, is_Some (leases (manager a) !! id) -> id <> tmp p /\ id <> heartbeatName) as Ne.
  { intros id Is. destruct (valid_not_special _ (V id Is)) as (_ & Nh & Np & _). split; [|done]. intros ->. congruence. }
  destruct (Z.ltb_spec 0 (Need w)) as [Pos|Npos].
  - pose proof (ReclaimCapacity_spec base (Need w) (at_ p) (took p) a I Hw Pos V) as RC.
    destruct (ReclaimCapacity _ _ _ a) as [a1 [rec e]]. destruct RC as (Rb & Rs & Rk & Rt & Rbt & Rd).
    assert (forall id l, leases (manager a1) !! id = Some l -> leases (manager a) !! id = Some l /\
      (0 < Lease.Shortfall (RResult rec) -> Class l = Guaranteed /\ Expired l (at_ p) = false)) as Rk'
      by (intros id l E; destruct (Rk id l E) as (? & ? & ?); auto).
    pose proof (Heartbeat_spec (at_ p) (tmp p) a1) as Hb.
    destruct (Heartbeat (at_ p) (tmp p) a1) as [a2 eb]. destruct Hb as (Hm & Hbt & Hd).
    destruct e as [[]|]; simpl; rewrite ?Hm, ?Hbt, ?Rbt;
      (split_and!; [exact Ew|exact Bw|done|exact Rb|exact Rs|exact Rk'
        |intros; split; [done|by eapply Rt]|by destruct eb|]); try done;
      intros _ id Is N'; apply Hd; try apply Ne; auto.
  - pose proof (Heartbeat_spec (at_ p) (tmp p) a) as Hb.
    destruct (Heartbeat (at_ p) (tmp p) a) as [a2 eb]. destruct Hb as (Hm & Hbt & Hd).
    simpl. rewrite Hm, Hbt. split_and!; try done; [lia|lia| |by destruct eb|].
    + intros id l E N'. congruence.
    + intros _ id [l E] N'. congruence.
Qed.

(** ** The floor *)

Lemma binary_round_sign m e : binary_round 53 1024 true m e = SFopp (binary_round 53 1024 false m e).
Proof.
  unfold binary_round. destruct (shl_align _ _ _) as [mz ez]. unfold binary_round_aux.
  destruct (shr_fexp 53 1024 (Zpos mz) ez loc_Exact) as [m1 e1].
  destruct (shr_fexp 53 1024 _ e1 loc_Exact) as [m2 e2]. destruct (shr_m m2); simpl; try done. by case_match.
Qed.

Lemma SFopp_SFopp x : SFopp (SFopp x) = x.
Proof. destruct x; simpl; by rewrite ?negb_involutive. Qed.

Lemma f64_of_Z_opp n : n <> 0 -> f64_of_Z (- n) = SFopp (f64_of_Z n).
Proof.
  intros N. unfold f64_of_Z, binary_normalize.
  destruct n as [|p|p]; [done| |]; simpl; rewrite binary_round_sign; by rewrite ?SFopp_SFopp.
Qed.

(** Zero of either sign, or not a number: what no floor is made of. *)
Definition nought (x : float64) : Prop := x = S754_nan \/ exists s, x = S754_zero s.

Lemma f64_add_opp x : nought (f64_add x (SFopp x)).
Proof.
  unfold f64_add, SFadd, nought. destruct x as [s|s| |s m e]; [destruct s; simpl; by eauto..| |].
  { by left. }
  right. exists false. cbn [SFopp]. rewrite Z.min_id.
  assert (forall k, cond_Zopp s (Z.pos k) + cond_Zopp (negb s) (Z.pos k) = 0) as -> by (intros k; destruct s; simpl; lia).
  done.
Qed.

Lemma nought_div x y : nought x -> nought (f64_div x y).
Proof. intros [->|[s ->]]; unfold nought; simpl; [by auto|]. destruct y; simpl; eauto. Qed.
Lemma nought_mul x y : nought x -> nought (f64_mul x y).
Proof. intros [->|[s ->]]; unfold nought; simpl; [by auto|]. destruct y; simpl; eauto. Qed.
Lemma nought_int64 x : nought x -> int64_of_f64 x <= 0.
Proof. by intros [->|[s ->]]. Qed.

(** Bytes that moved from what is lent to what is free, or back, are no
    consumption. *)
Lemma own_moves_nought d : nought (f64_add (f64_of_Z d) (f64_of_Z (- d))).
Proof.
  destruct (decide (d = 0)) as [->|N]; [right; by exists false|].
  rewrite f64_of_Z_opp by done. apply f64_add_opp.
Qed.

(** the floor is what was configured, and the agent's own reclaims do not
    move it. A watch that validates keeps a positive floor on every pass, at least
    its minimum, whatever free space, the clock and the lending did; a fixed floor
    is kept as it is; and when free space moved exactly by what the agent lent or
    took back, a floor configured as a duration is its minimum. *)
Theorem floor_kept cfg r free borrowed now :
  WatchConfig_Validate cfg = None ->
  let '(r', (rate, known)) := observe_rate free borrowed now r in
  let floor := target cfg rate known in
  r' = mkRate free borrowed now true /\ 0 < floor /\
  (0 < Headroom cfg -> floor = Headroom cfg) /\
  (Headroom cfg <= 0 -> MinHeadroom cfg <= floor) /\
  (Headroom cfg <= 0 -> 0 <= free <= MaxInt64 -> 0 <= rfree r <= MaxInt64 ->
   rfree r - free = borrowed - rborrowed r -> floor = MinHeadroom cfg).
Proof.
  intros V. unfold WatchConfig_Validate in V.
  assert (0 < Headroom cfg \/ Headroom cfg <= 0 /\ 0 < HeadroomFor cfg /\ 0 < MinHeadroom cfg) as C.
  { repeat case_match; bool_to_prop; try done; lia. }
  clear V. destruct (observe_rate _ _ _ _) as [r' [rate known]] eqn:R. cbv zeta.
  assert (Headroom cfg <= 0 -> rfree r - free = borrowed - rborrowed r -> 0 <= free <= MaxInt64 -> 0 <= rfree r <= MaxInt64 ->
    known = true -> nought rate) as Nought.
  { intros _ E F F' ->. unfold observe_rate in R. destruct (have r); [|done]. simpl in R. case_match; [done|].
    injection R as _ <-. apply nought_div. case_match; [right; by exists false|].
    replace (rborrowed r - borrowed) with (- (rfree r - free)) by lia.
    rewrite !wrap64_id by int64_lia. apply own_moves_nought. }
  assert (r' = mkRate free borrowed now true) as ->.
  { unfold observe_rate in R. repeat case_match; by simplify_eq. }
  split; [done|]. unfold target. destruct (Z.ltb_spec 0 (Headroom cfg)) as [P|P].
  { split_and!; try done; lia. }
  destruct known; simpl; [|split_and!; intros; lia].
  case_match eqn:W; bool_to_prop; split_and!; intros; try lia.
  pose proof (nought_int64 _ (nought_mul rate (Seconds (HeadroomFor cfg)) (Nought P ltac:(done) ltac:(done) ltac:(done) eq_refl))). lia.
Qed.

(** ** The watch *)

Section loop.
Context {J : Type} `{Journal J}.

Lemma astep_eq (a a' b : Agent J) : astep a b -> b = a' -> rtc astep a a'.
Proof. intros S <-. by apply rtc_once. Qed.

(** A pass is made of the agent's own operations. *)
Lemma Step_asteps cfg p sources r (a : Agent J) : Forall typed sources ->
  String.prefix agentFilePrefix (tmp p) = true -> rtc astep a (Step cfg p sources r a).1.2.
Proof.
  intros T P. unfold Step. destruct (free p) as [available|]; [|done].
  destruct (observe_rate _ _ _ _) as [r1 [rate known]]. rewrite observe_all_spec. simpl app.
  set (os := mkPressure "free space" _ :: _).
  destruct (worst_of_spec os (mkPressure "none" 0)) as [Ew _]. change (worst_of _ os) with (Shortfall os) in *.
  assert (is_int64 (Need (Shortfall os))) as Hw.
  { apply elem_of_cons in Ew as [->|[->|Ew]%elem_of_cons]; [done|apply wrap64_range|by eapply contributed_int64]. }
  assert (forall b, rtc astep b (Heartbeat (at_ p) (tmp p) b).1) as Hb by (intros b; by apply rtc_once, astep_Heartbeat).
  case_match.
  - pose proof (astep_Reclaim (Need (Shortfall os)) (at_ p) (took p) a Hw) as S.
    destruct (ReclaimCapacity _ _ _ a) as [a1 [rec e]]. simpl in S.
    specialize (Hb a1). destruct (Heartbeat (at_ p) (tmp p) a1) as [a2 eb]. simpl in Hb.
    destruct e as [[]|]; simpl; try (by apply rtc_once); by eapply rtc_l.
  - specialize (Hb a). by destruct (Heartbeat (at_ p) (tmp p) a).
Qed.

Lemma watch_loop_spec cfg sources ps : Forall typed sources ->
  Forall (fun p => String.prefix agentFilePrefix (tmp p) = true) ps ->
  forall r (a : Agent J) reports, exists more,
    (watch_loop cfg sources ps r a reports).2 = reports ++ more /\ length more = length ps /\
    rtc astep a (watch_loop cfg sources ps r a reports).1.2.
Proof.
  intros T. induction 1 as [|p ps P _ IH]; intros r a reports.
  { exists []. by rewrite app_nil_r. }
  cbn [watch_loop]. pose proof (Step_asteps cfg p sources r a T P) as S.
  destruct (Step cfg p sources r a) as [[r1 a1] report]. simpl in S.
  destruct (IH r1 a1 (reports ++ [report])) as (more & -> & L & S').
  exists (report :: more). rewrite <- app_assoc. simpl. split_and!; [done|congruence|by etransitivity].
Qed.

(** A watch that starts reports every pass, the failed ones too, and leaves the
    node's directory and its accounting in agreement throughout. *)
Theorem watch_goes_on base cfg sources p ps r (a : Agent J) : WatchConfig_Validate cfg = None ->
  ainv base a -> Forall typed sources ->
  Forall (fun p => String.prefix agentFilePrefix (tmp p) = true) (p :: ps) ->
  let '(_, a', (reports, e)) := Watch cfg true sources p ps r a in
  e = None /\ length reports = S (length ps) /\ ainv base a'.
Proof.
  intros V I T P. unfold Watch. rewrite V. simpl negb. cbv iota.
  destruct (watch_loop_spec cfg sources (p :: ps) T P r a []) as (more & E & L & S).
  destruct (watch_loop cfg sources (p :: ps) r a []) as [[r' a'] reports]. simpl in *. subst reports.
  split_and!; [done|done|]. by eapply asteps_ainv.
Qed.
End loop.

(** ** A node under pressure, for the witnesses *)

Definition wsource : Source := mkSource "pods" (fun _ _ _ => (150, Some (Partial "one pod unread"))).
Definition wblind : Source := mkSource "slurm" (fun _ _ _ => (999, Some (Unread "unreachable"))).
Definition wwatch : WatchConfig := mkWatchConfig 100 0 0 Second.
Definition wpass : pass := mkPass (Some 80) 3 0 ".forebay-heartbeat-1".

Lemma pass_gives_back_witness :
  let '(_, a', (t, e)) := Step wwatch wpass [wsource; wblind] no_rate wagent in
  e = None /\ TObserved t = mkPressure "pods" 150 /\ TReclaimed t = 200 /\ TShortfall t = 0 /\
  Degraded t = ["pods: one pod unread"; "slurm: unreachable"] /\
  Borrowed (acct (manager a')) = 500 - 200 /\ dir a' !! "a" = None /\ beat a' = Some 3.
Proof.
  pose proof (pass_gives_back 0 wwatch wpass [wsource; wblind] no_rate wagent (ai_inv _ _ wagent_ainv)
    (ai_valid _ _ wagent_ainv) ltac:(repeat apply Forall_cons_2; try apply Forall_nil_2; intros ? ? ?; simpl; int64_lia)
    ltac:(reflexivity)) as W.
  assert (exists r a' t, Step wwatch wpass [wsource; wblind] no_rate wagent = (r, a', (t, None)) /\
    TObserved t = mkPressure "pods" 150 /\ TReclaimed t = 200 /\ TShortfall t = 0 /\
    leases (manager a') !! "a" = None /\ Degraded t = ["pods: one pod unread"; "slurm: unreachable"]) as (r & a' & t & E & Eo & Er & Es & Ea & Ed).
  { do 3 eexists. split; [vm_compute; reflexivity|]. split_and!; vm_compute; reflexivity. }
  rewrite E in *. simpl free in W. cbv iota beta in W. destruct W as (_ & _ & _ & Wb & _ & _ & _ & Wt & Wd).
  split_and!; [reflexivity|exact Eo|exact Er|exact Es|exact Ed| | |exact Wt].
  - rewrite Wb, Er. reflexivity.
  - apply (Wd eq_refl); [|exact Ea]. vm_compute. by eexists.
Defined.

Definition wduration : WatchConfig := mkWatchConfig 0 (2 * Second) 64 Second.

(** A workload that wrote 500 bytes in a second, 300 of them over a reclaim. *)
Lemma floor_kept_witness :
  let '(_, (rate, known)) := observe_rate 700 200 (2 * Second) (mkRate 900 500 Second true) in
  known = true /\ target wduration rate known = 1000 /\ 0 < target wduration rate known.
Proof.
  pose proof (floor_kept wduration (mkRate 900 500 Second true) 700 200 (2 * Second) ltac:(reflexivity)) as W.
  destruct (observe_rate _ _ _ _) as [r' [rate known]] eqn:E. vm_compute in E. injection E as <- <- <-.
  split_and!; [reflexivity|vm_compute; reflexivity|]. destruct W as (_ & W & _). exact W.
Defined.
