(* ===== verification/Quantity.v ===== *)
(** * Quantity: reading a Kubernetes quantity (internal/kubelet/quantity.go)

    A quantity is a decimal, an exponent and a suffix. [math/big]'s rationals are
    the standard library's [Q], kept in lowest terms by [Qred]. *)

From Stdlib Require Import QArith.QArith QArith.Qround.
From S2P Require Import Prelude GoStrings.

Local Open Scope Z_scope.

Definition maxExponent : Z := 64.
Definition maxQuantityLen : Z := 64.

(** The suffixes, longest first, each with its multiplier [num * 10 ^ exp]. *)
Definition suffixes : list (list byte * (Z * Z)) :=
  (fun '(s, m) => (bytes_of s, m)) <$>
  [("Ki", (2 ^ 10, 0)); ("Mi", (2 ^ 20, 0)); ("Gi", (2 ^ 30, 0));
   ("Ti", (2 ^ 40, 0)); ("Pi", (2 ^ 50, 0)); ("Ei", (2 ^ 60, 0));
   ("n", (1, -9)); ("u", (1, -6)); ("m", (1, -3));
   ("k", (1, 3)); ("M", (1, 6)); ("G", (1, 9));
   ("T", (1, 12)); ("P", (1, 15)); ("E", (1, 18))]%string.

Inductive QuantityErr : Type :=
  | ErrEmpty
  | ErrTooLong (n : Z)
  | ErrNoNumber (whole : string)
  | ErrExponent (whole : string)
  | ErrExponentSize (whole : string)
  | ErrNotNumber (whole : string)
  | ErrNegative (whole : string)
  | ErrDoesNotFit (whole : string).

(** [strings.CutSuffix] *)
Definition cut_suffix (suf b : list byte) : option (list byte) :=
  (@rev byte) <$> strip_prefix (rev suf) (rev b).

(** The loop over the suffixes, which stops at the first that fits. *)
Fixpoint take_suffix (table : list (list byte * (Z * Z))) (number : list byte) : list byte * (Z * Z) :=
  match table with
  | [] => (number, (1, 0))
  | (suf, m) :: table =>
      match cut_suffix suf number with
      | Some rest => (rest, m)
      | None => take_suffix table number
      end
  end.

(** [strings.IndexAny(number, "eE")]: what is before, and what is after. *)
Definition is_e (c : byte) : bool := Ascii.eqb c "e" || Ascii.eqb c "E".
Fixpoint split_at_e (b : list byte) : list byte * option (list byte) :=
  match b with
  | [] => ([], None)
  | c :: b => if is_e c then ([], Some b) else let '(m, e) := split_at_e b in (c :: m, e)
  end.

Definition mantissa_byte (c : byte) : bool :=
  match digit_of c with
  | Some _ => true
  | None => Ascii.eqb c "." || Ascii.eqb c "+" || Ascii.eqb c "-"
  end.

Definition split (number : list byte) (whole : string) : result QuantityErr (list byte * Z) :=
  let '(mantissa, e) := split_at_e number in
  let? exp :=
    match e with
    | None => Ok 0
    | Some digits =>
        match ParseInt (string_of digits) with
        | (_, Some _) => Err (ErrExponent whole)
        | (exp, None) =>
            if (maxExponent <? exp) || (exp <? - maxExponent) then Err (ErrExponentSize whole) else Ok exp
        end
    end in
  if negb (forallb mantissa_byte mantissa) then Err (ErrNotNumber whole)
  else match mantissa with
       | [] => Err (ErrNotNumber whole)
       | _ => Ok (mantissa, exp)
       end.

(** [Rat.SetString] of what [split] lets through: a sign, and digits around at
    most one point. [frac] counts the digits behind the point, once it was read. *)
Fixpoint scan (b : list byte) (m : Z) (frac : option nat) (count : nat) : option (Z * nat) :=
  match b with
  | [] => match count with O => None | S _ => Some (m, default 0%nat frac) end
  | c :: b =>
      match digit_of c with
      | Some d => scan b (m * 10 + d) (S <$> frac) (S count)
      | None => match frac with
                | None => if Ascii.eqb c "." then scan b m (Some 0%nat) count else None
                | Some _ => None
                end
      end
  end.
Definition SetString (b : list byte) : option Q :=
  let '(neg, b) := match b with
                   | c :: b => if Ascii.eqb c "-" then (true, b)
                               else if Ascii.eqb c "+" then (false, b)
                               else (false, c :: b)
                   | [] => (false, [])
                   end in
  (fun '(m, f) => Qred ((if neg : bool then - m else m) # Z.to_pos (10 ^ Z.of_nat f))) <$> scan b 0 None 0.

Definition pow10 (n : Z) : Z := if n <=? 0 then 1 else 10 ^ n.

Definition ceilBytes (r : Q) (whole : string) : result QuantityErr Z :=
  let q := Z.quot (Qnum r) (Zpos (Qden r)) in
  let rem := Z.rem (Qnum r) (Zpos (Qden r)) in
  let q := if 0 <? rem then q + 1 else q in
  if bool_decide (is_int64 q) then Ok q else Err (ErrDoesNotFit whole).

Definition ParseQuantity (s : string) : result QuantityErr Z :=
  let whole := TrimSpace s in
  if (whole =? "")%string then Err ErrEmpty
  else if maxQuantityLen <? strlen whole then Err (ErrTooLong (strlen whole))
  else
    let '(number, (num, exp)) := take_suffix suffixes (bytes_of whole) in
    match number with
    | [] => Err (ErrNoNumber whole)
    | _ =>
        let? (mantissa, dexp) := split number whole in
        match SetString mantissa with
        | None => Err (ErrNotNumber whole)
        | Some r =>
            if Qnum r <? 0 then Err (ErrNegative whole)
            else
              let exp := exp + dexp in
              let r := Qred (r * inject_Z num) in
              let r := Qred (r * (pow10 exp # Z.to_pos (pow10 (- exp)))) in
              ceilBytes r whole
        end
    end.

Definition addSaturating (a b : Z) : Z := if MaxInt64 -! a <? b then MaxInt64 else a +! b.

Example quantity_examples :
  ParseQuantity "1500m" = Ok 2 /\ ParseQuantity " 1e3 " = Ok 1000 /\
  ParseQuantity "1073636966400m" = Ok 1073636967 /\ ParseQuantity "1E" = Ok (10 ^ 18) /\
  ParseQuantity "1Ei" = Ok (2 ^ 60) /\ ParseQuantity "1e64" = Err (ErrDoesNotFit "1e64") /\
  ParseQuantity "1/3" = Err (ErrNotNumber "1/3") /\ ParseQuantity "-1" = Err (ErrNegative "-1").
Proof. vm_compute. split_and!; reflexivity. Qed.

(** ** What a quantity denotes *)

Definition digit (d : Z) : Prop := 0 <= d < 10.
Definition digit_bytes (ds : list Z) : list byte := (fun d => byte_of (48 + d)) <$> ds.
Definition digits_value (ds : list Z) : Z := fold_left (fun n d => n * 10 + d) ds 0.

(** Digits around a point, signed. *)
Inductive decimal : list byte -> Q -> Prop :=
  | decimal_intro sign ip fp point : sign ∈ [bytes_of ""; bytes_of "+"; bytes_of "-"] ->
      Forall digit ip -> Forall digit fp -> ip ++ fp <> [] ->
      point = bytes_of "." \/ point = [] /\ fp = [] ->
      decimal (sign ++ digit_bytes ip ++ point ++ digit_bytes fp)
        ((if decide (sign = bytes_of "-") then - digits_value (ip ++ fp) else digits_value (ip ++ fp))
         # Z.to_pos (10 ^ zlen fp)).

Inductive exponent : list byte -> Z -> Prop :=
  | exponent_none : exponent [] 0
  | exponent_some c b e : is_e c = true -> ParseInt (string_of b) = (e, None) ->
      - maxExponent <= e <= maxExponent -> exponent (c :: b) e.

Inductive suffix : list byte -> Z -> Z -> Prop :=
  | suffix_none : suffix [] 1 0
  | suffix_some s num exp : (s, (num, exp)) ∈ suffixes -> suffix s num exp.

(** Ten to a power of either sign. *)
Definition ten_to (e : Z) : Q := Qpower 10 e.

Inductive denotes : list byte -> Q -> Prop :=
  | denotes_intro m v x e s num exp : decimal m v -> exponent x e -> suffix s num exp ->
      denotes (m ++ x ++ s) (v * inject_Z num * ten_to (exp + e)).
