(* ===== verification/QuantityTheorems.v ===== *)
(** * QuantityTheorems: a quantity is read for what it denotes, rounded up *)

From Stdlib Require Import QArith.QArith QArith.Qround QArith.Qpower.
From S2P Require Import Prelude GoStrings Quantity.

Local Open Scope Z_scope.

(** ** Suffixes *)

Lemma cut_suffix_Some s b r : cut_suffix s b = Some r <-> b = r ++ s.
Proof.
  unfold cut_suffix. rewrite fmap_Some. setoid_rewrite strip_prefix_Some. split.
  - intros (x & E & ->). by rewrite <- (rev_involutive b), E, rev_app_distr, rev_involutive.
  - intros ->. exists (rev r). by rewrite rev_app_distr, rev_involutive.
Qed.

Lemma take_suffix_sound table b r num exp : take_suffix table b = (r, (num, exp)) ->
  r = b /\ num = 1 /\ exp = 0 \/ exists s, (s, (num, exp)) ∈ table /\ b = r ++ s.
Proof.
  induction table as [|[s m] table IH]; simpl; [intros [= <- <- <-]; by left|].
  destruct (cut_suffix s b) eqn:C.
  - intros [= <- <-]. right. exists s. split; [by left|]. by apply cut_suffix_Some.
  - intros T. destruct (IH T) as [?|(s' & ? & ?)]; [by left|]. right. exists s'. split; [by right|done].
Qed.

Lemma cut_suffix_None s b : (forall r, b <> r ++ s) -> cut_suffix s b = None.
Proof. intros N. destruct (cut_suffix s b) as [r|] eqn:E; [|done]. apply cut_suffix_Some in E. by destruct (N r). Qed.

(** What ends a number: a digit, or a point. *)
Definition ends_number (c : byte) : Prop := is_Some (digit_of c) \/ c = "."%char.

Lemma ends_number_cases c : ends_number c -> c ∈ bytes_of "0123456789.".
Proof.
  intros E. apply (bool_decide_unpack _). revert E. destruct c as [[] [] [] [] [] [] [] []];
    first [intros _; vm_compute; reflexivity | intros [[? E]|E]; vm_compute in E; discriminate].
Qed.

Lemma take_suffix_complete r c s num exp : ends_number c -> suffix s num exp ->
  take_suffix suffixes ((r ++ [c]) ++ s) = (r ++ [c], (num, exp)).
Proof.
  intros C%ends_number_cases S.
  assert (forall p : list byte * (Z * Z), p ∈ ([], (1, 0)) :: suffixes ->
    take_suffix suffixes ((r ++ [c]) ++ p.1) = (r ++ [c], p.2)) as K.
  { unfold take_suffix, cut_suffix, suffixes. rewrite <- Forall_forall.
    assert (forall l, rev ((r ++ [c]) ++ l) = rev l ++ c :: rev r) as R by (intros l; by rewrite !rev_app_distr).
    apply list_elem_of_In in C. simpl in C.
    repeat (apply Forall_cons_2; [simpl; rewrite R; destruct_or! C; subst c; simpl; by rewrite ?rev_involutive, ?app_nil_r|]).
    apply Forall_nil_2. }
  destruct S as [|s num exp S]; [apply (K ([], (1, 0))); by left|apply (K (s, (num, exp))); by right].
Qed.

(** ** Decimals *)

Lemma digit_of_Some c d : digit_of c = Some d <-> c = byte_of (48 + d) /\ digit d.
Proof.
  split.
  - unfold digit_of, digit. destruct ((48 <=? of_byte c) && (of_byte c <=? 57)) eqn:B; [|done].
    bool_to_prop. intros [= <-]. split; [|lia].
    by rewrite Zplus_minus, byte_of_byte.
  - intros [-> D]. by apply digit_of_digit.
Qed.

Lemma digits_value_app l d : digits_value (l ++ [d]) = digits_value l * 10 + d.
Proof. unfold digits_value. by rewrite fold_left_app. Qed.

Lemma digits_value_nonneg l : Forall digit l -> 0 <= digits_value l.
Proof.
  induction l as [|d l IH] using rev_ind; intros F; [done|]. apply Forall_app in F as [F [D _]%Forall_cons].
  rewrite digits_value_app. unfold digit in D. specialize (IH F). lia.
Qed.

(** Behind the point there are only digits. *)
Lemma scan_frac b : forall m k n v f,
  scan b m (Some k) n = Some (v, f) <-> exists fp, b = digit_bytes fp /\ Forall digit fp /\
    v = fold_left (fun n d => n * 10 + d) fp m /\ f = (k + length fp)%nat /\ (n + length fp <> 0)%nat.
Proof.
  induction b as [|c b IH]; intros m k n v f; cbn [scan].
  - split.
    + destruct n; [done|]. intros [= <- <-]. exists []. simpl. repeat split; auto; lia.
    + intros ([|d fp] & E & _ & -> & -> & N); [|done]. simpl in *. destruct n; [lia|]. by rewrite Nat.add_0_r.
  - destruct (digit_of c) as [d|] eqn:D.
    + apply digit_of_Some in D as [-> D]. simpl. rewrite IH. split.
      * intros (fp & -> & F & -> & -> & N). exists (d :: fp). simpl. repeat split; auto; lia.
      * intros ([|d' fp] & E & F & -> & -> & N); [done|]. simpl in E. injection E as E ->.
        apply Forall_cons in F as [D' F].
        assert (d' = d) as ->.
        { apply (f_equal digit_of) in E. rewrite !digit_of_digit in E by done. by injection E. }
        exists fp. simpl. repeat split; auto; lia.
    + split; [done|]. intros ([|d fp] & E & F & _); [done|]. simpl in E. injection E as -> _.
      apply Forall_cons in F as [D' _]. by rewrite digit_of_digit in D.
Qed.

Lemma scan_point b m n v f :
  scan b m None n = Some (v, f) <-> exists ip fp point, b = digit_bytes ip ++ point ++ digit_bytes fp /\
    Forall digit ip /\ Forall digit fp /\ v = fold_left (fun n d => n * 10 + d) (ip ++ fp) m /\ f = length fp /\
    (n + length (ip ++ fp) <> 0)%nat /\ (point = bytes_of "." \/ point = [] /\ fp = []).
Proof.
  revert m n. induction b as [|c b IH]; intros m n; cbn [scan].
  - split.
    + destruct n; [done|]. intros [= <- <-]. exists [], [], []. simpl. repeat split; auto; lia.
    + intros (ip & fp & pt & E & _ & _ & -> & -> & N & P). apply eq_sym, app_eq_nil in E as [E1 [E2 E3]%app_eq_nil].
      apply fmap_nil_inv in E1 as ->. apply fmap_nil_inv in E3 as ->. simpl in *. destruct n; [lia|done].
  - destruct (digit_of c) as [d|] eqn:D.
    + apply digit_of_Some in D as [-> D]. simpl. rewrite IH. split.
      * intros (ip & fp & pt & -> & Fi & Ff & -> & -> & N & P). exists (d :: ip), fp, pt. simpl.
        repeat split; auto; lia.
      * intros ([|d' ip] & fp & pt & E & Fi & Ff & -> & -> & N & P).
        { destruct P as [->|[-> ->]]; [|done]. simpl in E. injection E as E _.
          apply (f_equal digit_of) in E. by rewrite digit_of_digit in E. }
        simpl in E. injection E as E ->. apply Forall_cons in Fi as [D' Fi].
        assert (d' = d) as ->.
        { apply (f_equal digit_of) in E. rewrite !digit_of_digit in E by done. by injection E. }
        exists ip, fp, pt. simpl. repeat split; auto; lia.
    + assert (forall d ip t, c :: b = digit_bytes (d :: ip) ++ t -> Forall digit (d :: ip) -> False) as No.
      { intros d ip t E [D' _]%Forall_cons. simpl in E. injection E as -> _. by rewrite digit_of_digit in D. }
      destruct (Ascii.eqb_spec c ".") as [->|Nc].
      * rewrite scan_frac. split.
        -- intros (fp & -> & F & -> & -> & N). exists [], fp, (bytes_of "."). simpl. repeat split; auto.
        -- intros ([|d ip] & fp & pt & E & Fi & Ff & -> & -> & N & P); [|by apply No in E].
           destruct P as [->|[-> ->]]; [|done]. simpl in E. injection E as ->. exists fp. simpl in *. repeat split; auto.
      * split; [done|]. intros ([|d ip] & fp & pt & E & Fi & Ff & _ & _ & _ & P); [|by apply No in E].
        destruct P as [->|[-> ->]]; [|done]. simpl in E. congruence.
Qed.

Lemma SetString_decimal b q : SetString b = Some q <-> exists v, decimal b v /\ q = Qred v.
Proof.
  assert (forall (neg : bool) sign b, sign ∈ [bytes_of ""; bytes_of "+"; bytes_of "-"] ->
    bool_decide (sign = bytes_of "-") = neg ->
    (fun '(m, f) => Qred ((if neg then - m else m) # Z.to_pos (10 ^ Z.of_nat f))) <$> scan b 0 None 0 = Some q ->
    exists v, decimal (sign ++ b) v /\ q = Qred v) as Sound.
  { intros neg sign x Hs Hn. rewrite fmap_Some. intros ([m f] & Sc & ->).
    apply scan_point in Sc as (ip & fp & pt & -> & Fi & Ff & -> & -> & N & P).
    eexists. split; [apply decimal_intro; auto; intros E; rewrite E in N; simpl in N; lia|].
    destruct (decide (sign = bytes_of "-")) as [E|E]; [rewrite bool_decide_true in Hn by done|rewrite bool_decide_false in Hn by done];
      by rewrite <- Hn. }
  split.
  - unfold SetString. destruct b as [|c b]; [done|].
    destruct (Ascii.eqb_spec c "-") as [->|Nm]; [by apply (Sound true (bytes_of "-") b ltac:(set_solver) eq_refl)|].
    destruct (Ascii.eqb_spec c "+") as [->|Np]; [by apply (Sound false (bytes_of "+") b ltac:(set_solver) eq_refl)|].
    by apply (Sound false [] (c :: b) ltac:(set_solver) eq_refl).
  - intros (v & D & ->). destruct D as [sign ip fp pt Hs Fi Ff N P].
    assert (scan (digit_bytes ip ++ pt ++ digit_bytes fp) 0 None 0 = Some (digits_value (ip ++ fp), length fp)) as Sc.
    { apply scan_point. exists ip, fp, pt. repeat split; auto. by destruct (ip ++ fp). }
    assert (forall c t, digit_bytes ip ++ pt ++ digit_bytes fp = c :: t -> c <> "-"%char /\ c <> "+"%char) as Hd.
    { intros c t E. destruct ip as [|d ip]; simpl in E.
      - destruct P as [->|[-> ->]]; [|done]. simpl in E. by injection E as <- _.
      - injection E as <- _. apply Forall_cons in Fi as [D _]. by apply digit_not_sign. }
    rewrite !elem_of_cons, elem_of_nil in Hs. unfold SetString.
    destruct Hs as [->|[->|[->|[]]]]; [|simpl; by rewrite Sc..].
    destruct (digit_bytes ip ++ pt ++ digit_bytes fp) as [|c t] eqn:E; [done|].
    destruct (Hd c t eq_refl) as [Nm%Ascii.eqb_neq Np%Ascii.eqb_neq]. simpl. by rewrite Nm, Np, Sc.
Qed.

Lemma mantissa_byte_digit d : digit d -> mantissa_byte (byte_of (48 + d)) = true.
Proof. intros D. unfold mantissa_byte. by rewrite digit_of_digit. Qed.

Lemma digit_bytes_mantissa ds : Forall digit ds -> forallb mantissa_byte (digit_bytes ds) = true.
Proof. induction 1; [done|]. simpl. by rewrite mantissa_byte_digit. Qed.

Lemma decimal_mantissa m v : decimal m v -> forallb mantissa_byte m = true.
Proof.
  destruct 1 as [sign ip fp pt Hs Fi Ff _ P]. rewrite !forallb_app, !digit_bytes_mantissa by done.
  rewrite andb_true_r. rewrite !elem_of_cons, elem_of_nil in Hs.
  destruct Hs as [->|[->|[->|[]]]], P as [->|[-> _]]; done.
Qed.

Lemma digit_bytes_ends ds : Forall digit ds -> ds <> [] -> exists r c, digit_bytes ds = r ++ [c] /\ ends_number c.
Proof.
  destruct ds as [|d ds _] using rev_ind; [done|]. intros [_ [D _]%Forall_cons]%Forall_app _.
  exists (digit_bytes ds), (byte_of (48 + d)). unfold digit_bytes. rewrite fmap_app. split; [done|].
  left. rewrite digit_of_digit by done. by eexists.
Qed.

Lemma decimal_ends m v : decimal m v -> exists r c, m = r ++ [c] /\ ends_number c.
Proof.
  destruct 1 as [sign ip fp pt Hs Fi Ff N P].
  destruct (decide (fp = [])) as [->|Nf].
  - rewrite !app_nil_r in *. destruct P as [->|[-> _]].
    + exists (sign ++ digit_bytes ip), "."%char. rewrite <- app_assoc. split; [done|]. by right.
    + destruct (digit_bytes_ends ip Fi N) as (r & c & -> & E). exists (sign ++ r), c.
      simpl. by rewrite app_nil_r, app_assoc.
  - destruct (digit_bytes_ends fp Ff Nf) as (r & c & -> & E). exists (sign ++ digit_bytes ip ++ pt ++ r), c.
    by rewrite <- !app_assoc.
Qed.

(** ** Exponents *)

Lemma parse_digits_all max b : forall n v, parse_digits max n b = (v, None) -> Forall (fun c => is_Some (digit_of c)) b.
Proof.
  induction b as [|c b IH]; intros n v; [constructor|]. cbn [parse_digits].
  destruct (digit_of c) eqn:D; [|done]. case_match; [done|]. intros P. constructor; [by eexists|by eapply IH].
Qed.

Lemma parse_digits_range max b : forall n v, parse_digits max n b = (v, Some ErrRange) -> v = max.
Proof.
  induction b as [|c b IH]; intros n v; [done|]. cbn [parse_digits].
  destruct (digit_of c); [|done]. case_match; [by intros [= <-]|]. apply IH.
Qed.

Lemma ParseInt_ends b e : ParseInt (string_of b) = (e, None) -> exists r c, b = r ++ [c] /\ ends_number c.
Proof.
  assert (forall b v, ParseUint MaxUint64 b = (v, None) -> exists r c, b = r ++ [c] /\ is_Some (digit_of c)) as U.
  { intros x v. unfold ParseUint. destruct x as [|c x]; [done|]. intros P%parse_digits_all.
    destruct x as [|d r _] using rev_ind.
    - exists [], c. by apply Forall_cons in P as [? _].
    - exists (c :: r), d. apply Forall_cons in P as [_ [_ [? _]%Forall_cons]%Forall_app]. done. }
  assert (forall (neg : bool) b v, (match ParseUint MaxUint64 b with
    | (_, Some ErrSyntax) => (0, Some ErrSyntax)
    | (un, _) => if negb neg && (MaxInt64 <? un) then (MaxInt64, Some ErrRange)
        else if neg && (MaxInt64 + 1 <? un) then (MinInt64, Some ErrRange) else (if neg then - un else un, None) end)
    = (v : Z, None) -> exists r c, b = r ++ [c] /\ is_Some (digit_of c)) as V.
  { intros neg x v. pose proof (U x) as Ux. destruct (ParseUint MaxUint64 x) as [un [[]|]] eqn:P; [done| |by eauto].
    destruct x as [|c x]; [done|]. apply parse_digits_range in P as ->. by destruct neg. }
  unfold ParseInt. rewrite list_ascii_of_string_of_list_ascii.
  destruct b as [|c b]; [done|].
  destruct (Ascii.eqb c "-"); [|destruct (Ascii.eqb c "+")]; intros (r & d & E & D)%V;
    [exists (c :: r), d|exists (c :: r), d|exists r, d]; rewrite E; split; try done; by left.
Qed.

Lemma exponent_ends x e : exponent x e -> x = [] \/ exists r c, x = r ++ [c] /\ ends_number c.
Proof.
  destruct 1 as [|c b e _ P _]; [by left|right]. apply ParseInt_ends in P as (r & d & -> & E).
  by exists (c :: r), d.
Qed.

Lemma mantissa_not_e c : mantissa_byte c = true -> is_e c = false.
Proof. destruct c as [[] [] [] [] [] [] [] []]; vm_compute; congruence. Qed.

Lemma split_at_e_spec m x : forallb mantissa_byte m = true ->
  (x = [] \/ exists c b, x = c :: b /\ is_e c = true) ->
  split_at_e (m ++ x) = (m, match x with [] => None | _ :: b => Some b end).
Proof.
  intros M X. induction m as [|d m IH]; simpl in *.
  - destruct X as [->|(c & b & -> & E)]; [done|]. simpl. by rewrite E.
  - apply andb_true_iff in M as [D M]. by rewrite (mantissa_not_e d D), IH.
Qed.

Lemma split_at_e_inv b m o : split_at_e b = (m, o) ->
  match o with None => b = m | Some d => exists c, b = m ++ c :: d /\ is_e c = true end.
Proof.
  revert m. induction b as [|c b IH]; intros m; simpl; [by intros [= <- <-]|]. destruct (is_e c) eqn:E.
  - intros [= <- <-]. by exists c.
  - destruct (split_at_e b) as [m' o'] eqn:S. intros [= <- <-]. specialize (IH m' eq_refl).
    destruct o'; [|by subst]. destruct IH as (d & -> & Ed). by exists d.
Qed.

Lemma split_Ok number whole m e : split number whole = Ok (m, e) <->
  exists x, number = m ++ x /\ exponent x e /\ forallb mantissa_byte m = true /\ m <> [].
Proof.
  assert (forall e, exponent (@nil byte) e <-> e = 0) as Nil.
  { intros e'. split; [by inversion 1|intros ->; constructor]. }
  unfold split. split.
  - destruct (split_at_e number) as [m' o] eqn:S. apply split_at_e_inv in S. intros Hs.
    apply bind_result_Ok in Hs as (e' & He & Hm). destruct (forallb mantissa_byte m') eqn:M; [|done].
    simpl in Hm. destruct m' as [|c m']; [done|]. injection Hm as <- <-.
    destruct o as [d|]; [destruct S as (k & -> & K)|subst number; injection He as <-].
    + exists (k :: d). repeat split; auto. destruct (ParseInt (string_of d)) as [v [?|]] eqn:P; [done|].
      destruct (_ || _) eqn:B; [done|]. injection He as <-. bool_to_prop. constructor; auto; lia.
    + exists []. rewrite app_nil_r. repeat split; auto. constructor.
  - intros (x & -> & X & M & N). rewrite split_at_e_spec; [|done|destruct X; eauto].
    destruct X as [|c b e C P B]; [|rewrite P, (proj2 (Z.ltb_ge _ _)), (proj2 (Z.ltb_ge _ _)) by lia];
      simpl; rewrite M; by destruct m.
Qed.

(** ** Rounding up *)

Lemma ceilBytes_Ok r whole n : 0 <= Qnum r ->
  ceilBytes r whole = Ok n <-> Qceiling r = n /\ n <= MaxInt64.
Proof.
  intros N. unfold ceilBytes. rewrite Z.quot_div_nonneg, Z.rem_mod_nonneg by lia.
  destruct r as [a d]. unfold Qceiling, Qfloor. simpl in *.
  pose proof (Z.mod_pos_bound a (Zpos d)). pose proof (Z.div_mod a (Zpos d)).
  assert ((if 0 <? a mod Zpos d then a / Zpos d + 1 else a / Zpos d) = - (- a / Zpos d)) as ->.
  { destruct (Z.ltb_spec 0 (a mod Zpos d)).
    - rewrite Z.div_opp_l_nz by lia. lia.
    - rewrite Z.div_opp_l_z by lia. lia. }
  assert (0 <= - (- a / Zpos d)).
  { assert (- a / Zpos d <= 0); [|lia]. apply Z.div_le_upper_bound; lia. }
  case_bool_decide as B; unfold is_int64, MinInt64 in B.
  - split; [intros [= <-]; lia|]. by intros [-> _].
  - split; [done|]. lia.
Qed.

Lemma ten_to_pow10 e : (pow10 e # Z.to_pos (pow10 (- e)) == ten_to e)%Q.
Proof.
  unfold pow10, ten_to. destruct (Z.leb_spec e 0), (Z.leb_spec (- e) 0); try lia.
  - assert (e = 0) as -> by lia. done.
  - rewrite <- (Z.opp_involutive e) at 2. rewrite Qpower_opp.
    change (10 # 1)%Q with (inject_Z 10). rewrite <- Zpower_Qpower by lia.
    pose proof (Z.pow_pos_nonneg 10 (- e)). unfold Qeq, Qinv, inject_Z. destruct (10 ^ - e) as [|p|p]; simpl; lia.
  - change (10 # 1)%Q with (inject_Z 10). rewrite <- Zpower_Qpower by lia. done.
Qed.

Lemma Qnum_sign q : Qnum q < 0 <-> (q < 0)%Q.
Proof. unfold Qlt. simpl. lia. Qed.

Lemma ten_to_pos e : (0 < ten_to e)%Q.
Proof. by apply Qpower_0_lt. Qed.

Lemma suffix_pos s num exp : suffix s num exp -> 0 < num.
Proof.
  destruct 1 as [|s num exp S]; [lia|].
  assert (Forall (fun p : list byte * (Z * Z) => 0 < p.2.1) suffixes) as F by (repeat constructor; done).
  rewrite Forall_forall in F. by apply F in S.
Qed.

(** The code's arithmetic, in lowest terms at every turn, is the exact value. *)
Definition computed (v : Q) (num e : Z) : Q :=
  Qred (Qred (Qred v * inject_Z num) * (pow10 e # Z.to_pos (pow10 (- e)))).

Lemma computed_exact v num e : (computed v num e == v * inject_Z num * ten_to e)%Q.
Proof. unfold computed. by rewrite !Qred_correct, ten_to_pow10. Qed.

Lemma value_nonneg v num e : 0 < num -> (0 <= v)%Q <-> (0 <= v * inject_Z num * ten_to e)%Q.
Proof.
  intros N. pose proof (ten_to_pos e) as T. assert (0 < inject_Z num)%Q as N' by (unfold Qlt; simpl; lia).
  assert (0 < inject_Z num * ten_to e)%Q as P by by apply Qmult_lt_0_compat.
  rewrite <- Qmult_assoc. split; intros L.
  - apply Qmult_le_0_compat; [done|]. by apply Qlt_le_weak.
  - apply (Qmult_le_r 0 v _ P). by rewrite Qmult_0_l.
Qed.

Lemma computed_Ok v num e whole n : 0 < num -> (0 <= v)%Q ->
  ceilBytes (computed v num e) whole = Ok n <->
  Qceiling (v * inject_Z num * ten_to e) = n /\ n <= MaxInt64.
Proof.
  intros N V. rewrite ceilBytes_Ok, computed_exact; [done|].
  apply (value_nonneg v num e N) in V. rewrite <- computed_exact in V. unfold Qle in V. simpl in V. lia.
Qed.

Lemma Qred_nonneg v : (Qnum (Qred v) <? 0) = false <-> (0 <= v)%Q.
Proof.
  rewrite Z.ltb_ge. rewrite <- (Qred_correct v) at 2. unfold Qle. simpl. lia.
Qed.

(** a quantity is read for exactly what it denotes, rounded up. What is read is
    a decimal with digits around at most one point, an exponent of at most 64
    either way and a suffix, in at most 64 characters; its value is the decimal
    times ten to the exponent times the suffix, as a rational; and the number of
    bytes is that value's ceiling, when it is not negative and fits. Anything else
    is refused. *)
Theorem ParseQuantity_exact s n : ParseQuantity s = Ok n <->
  strlen (TrimSpace s) <= maxQuantityLen /\
  exists v, denotes (bytes_of (TrimSpace s)) v /\ (0 <= v)%Q /\ n = Qceiling v /\ n <= MaxInt64.
Proof.
  unfold ParseQuantity. set (whole := TrimSpace s). split.
  - destruct (whole =? "")%string; [done|]. destruct (Z.ltb_spec maxQuantityLen (strlen whole)); [done|].
    destruct (take_suffix suffixes (bytes_of whole)) as [number [num exp]] eqn:T.
    destruct number as [|c number]; [done|]. intros P. apply bind_result_Ok in P as ([m e] & Sp & P).
    apply split_Ok in Sp as (x & Ex & X & M & Nm). destruct (SetString m) as [r|] eqn:R; [|done].
    apply SetString_decimal in R as (v & D & ->). destruct (Qnum (Qred v) <? 0) eqn:Sg; [done|].
    apply Qred_nonneg in Sg. change (ceilBytes (computed v num (exp + e)) whole = Ok n) in P.
    assert (exists suf, bytes_of whole = m ++ x ++ suf /\ suffix suf num exp) as (suf & Ew & Sf).
    { apply take_suffix_sound in T as [(E & -> & ->)|(suf & Hs & E)].
      - exists []. rewrite app_nil_r, <- E. by split; [|constructor].
      - exists suf. rewrite E, Ex, <- app_assoc. by split; [|constructor]. }
    apply computed_Ok in P as [E B]; [|by eapply suffix_pos|done]. split; [done|].
    exists (v * inject_Z num * ten_to (exp + e))%Q. rewrite Ew. split_and!; auto.
    + by constructor.
    + apply value_nonneg; [by eapply suffix_pos|done].
  - intros (L & w & D & V & -> & B). remember (bytes_of whole) as bw eqn:Ew.
    destruct D as [m v x e suf num exp D X Sf]. pose proof (suffix_pos _ _ _ Sf) as Np.
    destruct (decimal_ends m v D) as (r & c & Em & Ec).
    assert (whole <> "")%string as Ne.
    { intros E. rewrite E in Ew. simpl in Ew. apply app_eq_nil in Ew as [E' _]. rewrite Em in E'. by destruct r. }
    rewrite (proj2 (String.eqb_neq _ _) Ne), (proj2 (Z.ltb_ge _ _)) by done.
    assert (take_suffix suffixes (m ++ x ++ suf) = (m ++ x, (num, exp))) as ->.
    { rewrite app_assoc. destruct (exponent_ends x e X) as [->|(r' & c' & -> & Ec')].
      - rewrite app_nil_r, Em. by apply take_suffix_complete.
      - rewrite (app_assoc m r'). by apply take_suffix_complete. }
    assert (m <> []) as Nm by (rewrite Em; by destruct r).
    destruct (m ++ x) as [|k t] eqn:E; [by apply app_eq_nil in E as [-> _]|]. rewrite <- E.
    assert (split (m ++ x) whole = Ok (m, e)) as ->.
    { apply split_Ok. exists x. repeat split; auto. by eapply decimal_mantissa. }
    simpl. assert (SetString m = Some (Qred v)) as -> by (apply SetString_decimal; by exists v).
    apply (value_nonneg v num _ Np) in V. rewrite (proj2 (Qred_nonneg v) V).
    change (ceilBytes (computed v num (exp + e)) whole = Ok (Qceiling (v * inject_Z num * ten_to (exp + e)))).
    by apply computed_Ok.
Qed.

(** What is read is a count of bytes. *)
Lemma ParseQuantity_range s n : ParseQuantity s = Ok n -> 0 <= n <= MaxInt64.
Proof.
  unfold ParseQuantity. repeat (case_match; try done). intros P. apply bind_result_Ok in P as ([m e] & _ & P).
  destruct (SetString m) as [r|] eqn:R; [|done]. apply SetString_decimal in R as (v & _ & ->).
  destruct (Qnum (Qred v) <? 0) eqn:Sg; [done|]. apply Qred_nonneg in Sg. revert P.
  match goal with T : take_suffix _ _ = (_, (?num, ?exp)) |- _ =>
    assert (0 < num) as Np; [|change (ceilBytes (computed v num (exp + e)) (TrimSpace s) = Ok n -> 0 <= n <= MaxInt64)] end.
  { match goal with T : take_suffix _ _ = _ |- _ => apply take_suffix_sound in T as [(_ & -> & _)|(suf & Hs & _)] end; [lia|].
    eapply (suffix_pos suf), suffix_some, Hs. }
  rewrite computed_Ok by done. intros [<- B]. split; [|done].
  rewrite <- (Qceiling_Z 0). apply Qceiling_resp_le. by apply value_nonneg.
Qed.
