(* ===== verification/Kubelet.v ===== *)
(** * Kubelet: what pods asked for and have not written (internal/kubelet/kubelet.go, source.go)

    What the kubelet serves, decoded, or that it could not be fetched, is an
    argument. The text of a complaint is left to whoever prints it. *)

From S2P Require Import Prelude GoStrings Quantity Float64 Pool Pressure.

Local Open Scope Z_scope.

Record container : Type := mkContainer {
  Requests : gmap string string;
  RestartPolicy : string;
}.

Definition request (c : container) : result QuantityErr Z :=
  match Requests c !! "ephemeral-storage"%string with
  | None => Ok 0
  | Some q => ParseQuantity q
  end.

(** The two loops of [declared]. *)
Fixpoint declared_app (regular : list container) (app : Z) : result QuantityErr Z :=
  match regular with
  | [] => Ok app
  | c :: regular => let? n := request c in declared_app regular (addSaturating app n)
  end.
Fixpoint declared_init (init : list container) (app biggest : Z) : result QuantityErr (Z * Z) :=
  match init with
  | [] => Ok (app, biggest)
  | c :: init =>
      let? n := request c in
      if (RestartPolicy c =? "Always")%string then declared_init init (addSaturating app n) biggest
      else declared_init init app (if biggest <? n then n else biggest)
  end.
Definition declared (regular init : list container) : result QuantityErr Z :=
  let? app := declared_app regular 0 in
  let? (app, biggest) := declared_init init app 0 in
  Ok (if app <? biggest then biggest else app).

(** ** The kubelet's answers *)

Record item : Type := mkItem {
  IName : string;
  INamespace : string;
  Containers : list container;
  InitContainers : list container;
  Phase : string;
}.
Record podUsage : Type := mkPodUsage {
  UName : string;
  UNamespace : string;
  UsedBytes : Z;
}.
Record summary : Type := mkSummary {
  AvailableBytes : Z;
  CapacityBytes : Z;
  SPods : list podUsage;
}.

Record Pod : Type := mkPod {
  Namespace : string;
  PName : string;
  Declared : Z;
  Used : Z;
  Live : bool;
}.

Definition Unwritten (p : Pod) : Z := let n := Declared p -! Used p in if 0 <? n then n else 0.

Section kubelet.
(** Why a response could not be had. *)
Context {GetErr : Type}.

Inductive KubeletErr : Type :=
  | ErrGet (e : GetErr)
  | ErrSkipped (pods : list (string * QuantityErr))
  | ErrNoSize
  | ErrNoCapacity (capacity : Z).

Definition pod_key (namespace name : string) : string := namespace +:+ "/" +:+ name.

Definition used_map (pods : list podUsage) : gmap string Z :=
  fold_left (fun m p => <[pod_key (UNamespace p) (UName p) := UsedBytes p]> m) pods ∅.

(** A key the map does not have reads as zero. *)
Definition pod_of (used : gmap string Z) (i : item) (n : Z) : Pod :=
  {| Namespace := INamespace i; PName := IName i; Declared := n;
     Used := default 0 (used !! pod_key (INamespace i) (IName i));
     Live := (Phase i =? "Running")%string || (Phase i =? "Pending")%string |}.

Fixpoint read_pods (used : gmap string Z) (items : list item) (out : list Pod)
    (skipped : list (string * QuantityErr)) : list Pod * list (string * QuantityErr) :=
  match items with
  | [] => (out, skipped)
  | i :: items =>
      match declared (Containers i) (InitContainers i) with
      | Err e => read_pods used items out (skipped ++ [(pod_key (INamespace i) (IName i), e)])
      | Ok n => read_pods used items (out ++ [pod_of used i n]) skipped
      end
  end.

Definition Pods (pods : result GetErr (list item)) (stats : result GetErr summary)
  : list Pod * option KubeletErr :=
  match pods with
  | Err e => ([], Some (ErrGet e))
  | Ok items =>
      match stats with
      | Err e => ([], Some (ErrGet e))
      | Ok stats =>
          let '(out, skipped) := read_pods (used_map (SPods stats)) items [] [] in
          (out, match skipped with [] => None | _ => Some (ErrSkipped skipped) end)
      end
  end.

Definition NodeFS (stats : result GetErr summary) : result KubeletErr (Z * Z) :=
  match stats with
  | Err e => Err (ErrGet e)
  | Ok stats =>
      if CapacityBytes stats =? 0 then Err ErrNoSize
      else Ok (CapacityBytes stats, AvailableBytes stats)
  end.

(** ** The source *)

(** What [Observe] complains of: what was not read, and who asks for what the
    filesystem does not have. *)
Record complaint : Type := mkComplaint {
  unread : option KubeletErr;
  impossible : list Pod;
}.

Definition NewSource (capacity : Z) : result KubeletErr Z :=
  if capacity <=? 0 then Err (ErrNoCapacity capacity) else Ok capacity.

Fixpoint sum_unwritten (capacity : Z) (pods : list Pod) (unwritten : Z) (impossible : list Pod) : Z * list Pod :=
  match pods with
  | [] => (unwritten, impossible)
  | p :: pods =>
      if negb (Live p) then sum_unwritten capacity pods unwritten impossible
      else if capacity <? Declared p then sum_unwritten capacity pods unwritten (impossible ++ [p])
      else sum_unwritten capacity pods (addSaturating unwritten (Unwritten p)) impossible
  end.

Definition join (unread : option KubeletErr) (impossible : list Pod) : option complaint :=
  match unread, impossible with
  | None, [] => None
  | _, _ => Some (mkComplaint unread impossible)
  end.

(** The need, and whether it is the whole answer, a floor, or no answer. *)
Inductive observed : Type :=
  | Whole (need : Z)
  | AtLeast (need : Z) (c : complaint)
  | Nothing (e : KubeletErr).

Definition Observe (capacity : Z) (answer : list Pod * option KubeletErr) (cfg : WatchConfig) (available : Bytes)
  : observed :=
  let '(pods, unread) := answer in
  match unread, pods with
  | Some e, [] => Nothing e
  | _, _ =>
      let '(unwritten, impossible) := sum_unwritten capacity pods 0 [] in
      let need := Headroom cfg -! (available -! unwritten) in
      match join unread impossible with
      | Some c => AtLeast need c
      | None => Whole need
      end
  end.

(** The source the watch is given, over what the kubelet answers within a bound
    and how a complaint reads. *)
Definition source (capacity : Z) (client : option duration -> list Pod * option KubeletErr)
    (message : complaint -> string) : Source :=
  {| Name := "pod requests";
     Pressure.Observe := fun bound cfg available =>
       match Observe capacity (client bound) cfg available with
       | Whole need => (need, None)
       | AtLeast need c => (need, Some (Partial (message c)))
       | Nothing e => (0, Some (Unread (message (mkComplaint (Some e) []))))
       end |}.
End kubelet.

(** * Asking a node's kubelet (New, TokenFromFile and get of
    internal/kubelet/kubelet.go)

    The kubelet behind the network is a parameter, and so is the JSON decoder.
    What is made of an answer is above. *)

Definition tokenPath : string := "/var/run/secrets/kubernetes.io/serviceaccount/token".

Record Client : Type := mkClient {
  base : string;
  token : string;
}.

Definition New (host : string) (port : Z) (token : string) : Client :=
  mkClient ("https://" +:+ host +:+ ":" +:+ FormatInt port) token.

(** [read] is [os.ReadFile]. *)
Definition TokenFromFile (read : string -> option string) (path : string) : option string :=
  TrimSpace <$> read (if (path =? "")%string then tokenPath else path).

Inductive GetErr : Type :=
  | ErrBuilding (path : string)
  | ErrFetching (path : string)
  | ErrReturned (path : string) (status : Z)
  | ErrDecoding (path : string).

(** What is asked for, and on whose word. *)
Record asked : Type := mkAsked {
  url : string;
  authorization : string;
}.

(** [parses] is whether a request can be built for a URL, [do_] what [http.Client.Do]
    makes of it: a status and a body. *)
Class Kubelets (W : Type) : Type := {
  parses : string -> bool;
  do_ : asked -> W -> W * option (Z * list byte);
  decode_pods : list byte -> option (list item);
  decode_summary : list byte -> option summary;
}.

Section client.
Context {W : Type} `{Kubelets W}.

Definition get {A} (decode : list byte -> option A) (path : string) (c : Client) (w : W) : W * result GetErr A :=
  if negb (parses (base c +:+ path)) then (w, Err (ErrBuilding path))
  else
    let '(w, resp) := do_ (mkAsked (base c +:+ path) ("Bearer " +:+ token c)) w in
    (w, match resp with
        | None => Err (ErrFetching path)
        | Some (status, body) =>
            if negb (status =? 200) then Err (ErrReturned path status)
            else match decode body with None => Err (ErrDecoding path) | Some v => Ok v end
        end).

Definition get_pods (c : Client) : W -> W * result GetErr (list item) := get decode_pods "/pods" c.
Definition get_summary (c : Client) : W -> W * result GetErr summary := get decode_summary "/stats/summary" c.

(** [Client.Pods]: the second question is only asked when the first is answered. *)
Definition client_Pods (c : Client) (w : W) : W * (list Pod * option KubeletErr) :=
  let '(w, pods) := get_pods c w in
  match pods with
  | Err e => (w, ([], Some (ErrGet e)))
  | Ok items =>
      let '(w, stats) := get_summary c w in
      (w, Pods (Ok items) stats)
  end.

Definition client_NodeFS (c : Client) (w : W) : W * result KubeletErr (Z * Z) :=
  let '(w, stats) := get_summary c w in (w, NodeFS stats).

(** [Client.Pods] is what [Pods] makes of what the kubelet said when it was asked. *)
Lemma client_Pods_answers c w w' r : client_Pods c w = (w', r) ->
  exists stats, r = Pods (get_pods c w).2 stats /\
    (is_ok (get_pods c w).2 = true -> stats = (get_summary c (get_pods c w).1).2).
Proof.
  unfold client_Pods. destruct (get_pods c w) as [w1 [items|e]]; simpl.
  - destruct (get_summary c w1) as [w2 stats]. intros [= <- <-]. by exists stats.
  - intros [= <- <-]. by exists (Err e).
Qed.

(** What is said to have been read was answered by the kubelet with a success that
    decodes, to a request at its own address that carries the token. *)
Lemma get_Ok {A} (decode : list byte -> option A) path c w w' v : get decode path c w = (w', Ok v) <->
  parses (base c +:+ path) = true /\ exists body,
    do_ (mkAsked (base c +:+ path) ("Bearer " +:+ token c)) w = (w', Some (200, body)) /\ decode body = Some v.
Proof.
  unfold get. destruct (parses _); simpl; [|naive_solver]. destruct (do_ _ w) as [w1 [[st body]|]]; [|naive_solver].
  destruct (Z.eqb_spec st 200) as [->|Ne]; simpl.
  - split.
    + destruct (decode body) as [v'|] eqn:D; [|done]. intros [= <- <-]. split; [done|]. by exists body.
    + intros (_ & body' & E & D). simplify_eq. by rewrite D.
  - split; [done|]. intros (_ & body' & E & _). congruence.
Qed.

(** Nothing but what the kubelet said can make the pods be read: with no success the
    answer is no pods and the reason, whatever the body. *)
Theorem unanswered_pods c w w' r :
  (forall q w1, url q = base c +:+ "/pods" -> match (do_ q w1).2 with Some (200, body) => decode_pods body = None | _ => True end) ->
  client_Pods c w = (w', r) -> exists e, r = ([], Some (ErrGet e)) /\
    (w' = w \/ exists q, url q = base c +:+ "/pods" /\ authorization q = "Bearer " +:+ token c /\ w' = (do_ q w).1).
Proof.
  intros No. unfold client_Pods, get_pods. destruct (get decode_pods "/pods" c w) as [w1 [items|e]] eqn:G.
  { apply get_Ok in G as (_ & body & D & E). specialize (No (mkAsked (base c +:+ "/pods") ("Bearer " +:+ token c)) w eq_refl). rewrite D in No. simpl in No. congruence. }
  intros [= <- <-]. exists e. split; [done|]. revert G. unfold get. destruct (parses _); simpl; [|intros [= <- _]; by left].
  destruct (do_ _ w) as [w2 x] eqn:D. intros [= <- _]. right.
  exists (mkAsked (base c +:+ "/pods") ("Bearer " +:+ token c)). by rewrite D.
Qed.
End client.

(** ** The addresses asked *)

Example pods_address : base (New "10.0.0.7" 10250 "t") +:+ "/pods" = "https://10.0.0.7:10250/pods".
Proof. vm_compute. reflexivity. Qed.

(** A token is read from where a pod finds its own, unless it is said where, and the
    newline at its end is not part of it. *)
Example token_read :
  let read p := if (p =? tokenPath)%string then Some ("abc" +:+ String "010" EmptyString) else None in
  TokenFromFile read "" = Some "abc"%string /\ TokenFromFile read "/etc/token" = None.
Proof. vm_compute. split; reflexivity. Qed.
