(* ===== verification/KubeletTheorems.v ===== *)
(** * KubeletTheorems: the demand of pods, counted *)

From S2P Require Import Prelude GoStrings Quantity QuantityTheorems Float64 Pool Pressure Kubelet.

Local Open Scope Z_scope.

(** ** What a pod is charged, as integers *)

Definition asks (c : container) : Z := match request c with Ok n => n | Err _ => 0 end.
Definition reads (c : container) : bool := is_ok (request c).
Definition sidecar (c : container) : bool := (RestartPolicy c =? "Always")%string.

(** App containers and sidecars run together; an init container runs alone. *)
Definition together (i : item) : Z :=
  Zsum (asks <$> Containers i) + Zsum (asks <$> List.filter sidecar (InitContainers i)).
Definition alone (i : item) : Z :=
  fold_right Z.max 0 (asks <$> List.filter (fun c => negb (sidecar c)) (InitContainers i)).
Definition charge (i : item) : Z := Z.max (together i) (alone i).
Definition readable (i : item) : bool := forallb reads (Containers i) && forallb reads (InitContainers i).

Lemma request_range c n : request c = Ok n -> 0 <= n <= MaxInt64.
Proof. unfold request. case_match; [apply ParseQuantity_range|]. intros [= <-]. done. Qed.

Lemma asks_range c : 0 <= asks c <= MaxInt64.
Proof. unfold asks. destruct (request c) eqn:R; [by apply request_range in R|done]. Qed.

Lemma sum_asks_nonneg cs : 0 <= Zsum (asks <$> cs).
Proof. apply Zsum_nonneg, Forall_fmap, Forall_true. intros c. apply asks_range. Qed.

(** Adding up with [addSaturating] is adding up, cut off at the end. *)
Lemma addSaturating_min a b s : 0 <= a <= MaxInt64 -> a = Z.min MaxInt64 s -> 0 <= b <= MaxInt64 ->
  addSaturating a b = Z.min MaxInt64 (s + b).
Proof.
  intros A E B. unfold addSaturating. rewrite !wrap64_id by int64_lia.
  destruct (Z.ltb_spec (MaxInt64 - a) b); [lia|]. rewrite wrap64_id by int64_lia. lia.
Qed.

Lemma declared_app_spec cs : forall s, 0 <= s ->
  declared_app cs (Z.min MaxInt64 s) =
  match declared_app cs (Z.min MaxInt64 s) with
  | Err e => Err e
  | Ok _ => Ok (Z.min MaxInt64 (s + Zsum (asks <$> cs)))
  end /\ is_ok (declared_app cs (Z.min MaxInt64 s)) = forallb reads cs.
Proof.
  induction cs as [|c cs IH]; intros s N; cbn [declared_app fmap list_fmap].
  { simpl. split; [|done]. do 2 f_equal. lia. }
  pose proof (asks_range c) as R. unfold asks, reads in *. simpl.
  destruct (request c) as [n|e]; simpl in *; [|done].
  rewrite (addSaturating_min _ n s) by (unfold MaxInt64 in *; lia).
  destruct (IH (s + n) ltac:(lia)) as [-> ->]. destruct (declared_app _ _); [|done].
  split; [|done]. do 2 f_equal. lia.
Qed.

Lemma declared_init_spec cs : forall s b, 0 <= s ->
  declared_init cs (Z.min MaxInt64 s) b =
  match declared_init cs (Z.min MaxInt64 s) b with
  | Err e => Err e
  | Ok _ => Ok (Z.min MaxInt64 (s + Zsum (asks <$> List.filter sidecar cs)),
                fold_left Z.max (asks <$> List.filter (fun c => negb (sidecar c)) cs) b)
  end /\ is_ok (declared_init cs (Z.min MaxInt64 s) b) = forallb reads cs.
Proof.
  induction cs as [|c cs IH]; intros s b N; cbn [declared_init List.filter fmap list_fmap].
  { simpl. split; [|done]. do 3 f_equal. lia. }
  pose proof (asks_range c) as R. unfold reads at 1. simpl forallb. fold reads. destruct (request c) as [n|e] eqn:Rq; simpl; [|done].
  assert (asks c = n) as Ea by (unfold asks; by rewrite Rq). rewrite Ea in R.
  change (RestartPolicy c =? "Always")%string with (sidecar c). destruct (sidecar c); simpl; rewrite Ea.
  - rewrite (addSaturating_min _ n s) by (unfold MaxInt64 in *; lia).
    destruct (IH (s + n) b ltac:(lia)) as [-> ->]. destruct (declared_init _ _ _); [|done].
    split; [|done]. do 3 f_equal. symmetry. apply Z.add_assoc.
  - replace (if b <? n then n else b) with (Z.max b n) by (destruct (Z.ltb_spec b n); lia).
    destruct (IH s (Z.max b n) N) as [-> ->]. by destruct (declared_init _ _ _).
Qed.

Lemma alone_range i : 0 <= alone i <= MaxInt64.
Proof.
  unfold alone. induction (List.filter _ _) as [|c cs IH]; [done|].
  rewrite fmap_cons. cbn [fold_right]. pose proof (asks_range c). lia.
Qed.

Lemma charge_nonneg i : 0 <= charge i.
Proof. pose proof (alone_range i). unfold charge. lia. Qed.

Lemma declared_spec i : declared (Containers i) (InitContainers i) =
  match declared (Containers i) (InitContainers i) with
  | Err e => Err e
  | Ok _ => Ok (Z.min MaxInt64 (charge i))
  end /\ is_ok (declared (Containers i) (InitContainers i)) = readable i.
Proof.
  unfold declared, readable. destruct (declared_app_spec (Containers i) 0 ltac:(lia)) as [A <-].
  change (Z.min MaxInt64 0) with 0 in *. destruct (declared_app (Containers i) 0) as [app|]; [|done].
  injection A as ->. simpl.
  destruct (declared_init_spec (InitContainers i) (0 + Zsum (asks <$> Containers i)) 0) as [B <-].
  { apply sum_asks_nonneg. }
  destruct (declared_init (InitContainers i) _ 0) as [[app big]|]; [|done]. injection B as -> ->. simpl.
  split; [|done]. f_equal. rewrite (fold_symmetric Z.max) by (intros; lia).
  change (fold_right Z.max 0 _) with (alone i). pose proof (alone_range i).
  unfold charge, together. case_match; bool_to_prop; simpl in *; lia.
Qed.

(** ** What the watch is told *)

Definition live (i : item) : bool := (Phase i =? "Running")%string || (Phase i =? "Pending")%string.
Definition key_of (i : item) : string := pod_key (INamespace i) (IName i).

Section demand.
Context {GetErr : Type}.
Implicit Types stats : summary.

Definition used_by stats (i : item) : Z := default 0 (used_map (SPods stats) !! key_of i).

(** What a pod may still write, and which pods can be believed. *)
Definition to_write stats (i : item) : Z := Z.max 0 (charge i - used_by stats i).
Definition counted (capacity : Z) (i : item) : bool := readable i && live i && (charge i <=? capacity).
Definition unbelievable (capacity : Z) (i : item) : bool := readable i && live i && negb (charge i <=? capacity).

Lemma read_pods_spec used items : forall out skipped, exists errs,
  read_pods used items out skipped =
    (out ++ ((fun i => pod_of used i (Z.min MaxInt64 (charge i))) <$> List.filter readable items), skipped ++ errs) /\
  errs.*1 = key_of <$> List.filter (fun i => negb (readable i)) items.
Proof.
  induction items as [|i items IH]; intros out skipped; cbn [read_pods List.filter].
  { exists []. simpl. by rewrite !app_nil_r. }
  change (pod_key (INamespace i) (IName i)) with (key_of i). destruct (declared_spec i) as [D <-]. destruct (declared (Containers i) (InitContainers i)) as [n|e].
  - injection D as ->. destruct (IH (out ++ [pod_of used i (Z.min MaxInt64 (charge i))]) skipped) as (errs & -> & E).
    exists errs. simpl. by rewrite <- app_assoc.
  - destruct (IH out (skipped ++ [(key_of i, e)])) as (errs & -> & E).
    exists ((key_of i, e) :: errs). rewrite fmap_cons, E, <- app_assoc. done.
Qed.

Lemma Unwritten_exact used i n : 0 <= n <= MaxInt64 -> 0 <= default 0 (used !! key_of i) <= MaxInt64 ->
  Unwritten (pod_of used i n) = Z.max 0 (n - default 0 (used !! key_of i)).
Proof.
  intros N U. unfold Unwritten, pod_of. simpl. change (pod_key _ _) with (key_of i). rewrite wrap64_id by int64_lia.
  case_match; bool_to_prop; lia.
Qed.

(** The loop of the source, over pods as [Pods] makes them. *)
Lemma sum_unwritten_spec capacity stats items : capacity < MaxInt64 ->
  (forall i, 0 <= used_by stats i <= MaxInt64) -> Forall (fun i => readable i = true) items ->
  forall s bad, 0 <= s ->
  sum_unwritten capacity ((fun i => pod_of (used_map (SPods stats)) i (Z.min MaxInt64 (charge i))) <$> items)
    (Z.min MaxInt64 s) bad =
  (Z.min MaxInt64 (s + Zsum (to_write stats <$> List.filter (counted capacity) items)),
   bad ++ ((fun i => pod_of (used_map (SPods stats)) i (Z.min MaxInt64 (charge i))) <$>
           List.filter (unbelievable capacity) items)).
Proof.
  intros C U. induction 1 as [|i items R _ IH]; intros s bad N; simpl.
  { rewrite app_nil_r, Z.add_0_r. done. }
  pose proof (charge_nonneg i) as Ch. unfold counted at 1, unbelievable at 1. rewrite R. simpl.
  fold (live i). destruct (live i); simpl; [|by apply IH].
  destruct (Z.ltb_spec capacity (Z.min MaxInt64 (charge i))) as [B|B].
  - rewrite (proj2 (Z.leb_gt _ _)) by lia. simpl. rewrite IH by done. by rewrite <- app_assoc.
  - rewrite (proj2 (Z.leb_le _ _)) by lia. simpl. rewrite Unwritten_exact; [|lia|apply U].
    fold (used_by stats i). specialize (U i).
    rewrite (addSaturating_min _ _ s) by lia. rewrite IH by lia. do 2 f_equal. unfold to_write.
    rewrite (Z.min_r MaxInt64 (charge i)) by lia. symmetry. apply Z.add_assoc.
Qed.

Lemma to_write_bound capacity stats items : 0 <= capacity -> (forall i, 0 <= used_by stats i) ->
  0 <= Zsum (to_write stats <$> List.filter (counted capacity) items) <= capacity * zlen items.
Proof.
  intros C U. induction items as [|i items IH]; [simpl; unfold zlen; simpl; lia|].
  rewrite zlen_cons. simpl. destruct (counted capacity i) eqn:Ct; [|nia].
  rewrite fmap_cons, Zsum_cons. apply andb_true_iff in Ct as [_ Ct]. bool_to_prop.
  specialize (U i). unfold to_write at 1 3. nia.
Qed.

Lemma filter_unreadable_nil items :
  key_of <$> List.filter (fun i => negb (readable i)) items = [] -> List.filter readable items = items.
Proof.
  induction items as [|i items IH]; [done|]. simpl. destruct (readable i); simpl; [|done]. intros E. by rewrite IH.
Qed.

Lemma filter_readable items : Forall (fun i => readable i = true) (List.filter readable items).
Proof. apply Forall_forall. intros i Hi%list_elem_of_In. by apply filter_In in Hi as [_ ?]. Qed.

Lemma filter_through (f g : item -> bool) items : (forall i, f i = true -> g i = true) ->
  List.filter f (List.filter g items) = List.filter f items.
Proof.
  intros I. induction items as [|i items IH]; [done|]. simpl. destruct (g i) eqn:G; simpl; rewrite IH; [done|].
  destruct (f i) eqn:F; [|done]. apply I in F. congruence.
Qed.
End demand.

(** the watch is told exactly what pods may still write. Over what the kubelet
    serves, the need is the floor, less what is free, plus for every live pod
    whose requests can be read and believed what it is charged (the larger of its
    containers together and of any init container alone) less what it used, as an
    integer; it is the whole answer exactly when no pod's request was unreadable
    or more than the filesystem, and each such pod is named; and there is no
    answer only when no pod could be read at all. *)
Theorem demand_exact {GetErr} capacity items (stats : summary) cfg available :
  0 <= capacity < MaxInt64 -> 0 <= Headroom cfg -> Headroom cfg + capacity * zlen items <= MaxInt64 ->
  0 <= available <= MaxInt64 -> (forall i, 0 <= used_by stats i <= MaxInt64) ->
  let total := Headroom cfg - available + Zsum (to_write stats <$> List.filter (counted capacity) items) in
  let unreadable := key_of <$> List.filter (fun i => negb (readable i)) items in
  let believed i := pod_of (used_map (SPods stats)) i (Z.min MaxInt64 (charge i)) in
  let bad := believed <$> List.filter (unbelievable capacity) items in
  match Observe (GetErr := GetErr) capacity (Pods (Ok items) (Ok stats)) cfg available with
  | Whole need => need = total /\ unreadable = [] /\ bad = []
  | AtLeast need c => need = total /\ impossible c = bad /\ (unreadable <> [] \/ bad <> []) /\
      match unread c with
      | None => unreadable = []
      | Some (ErrSkipped pods) => pods.*1 = unreadable
      | Some _ => False
      end
  | Nothing e => List.filter readable items = [] /\ unreadable <> [] /\
      exists pods, e = ErrSkipped pods /\ pods.*1 = unreadable
  end.
Proof.
  intros C Hd B Av U. cbv zeta. unfold Pods.
  destruct (read_pods_spec (used_map (SPods stats)) items [] []) as (errs & -> & E). simpl app.
  set (believed := fun i => pod_of _ i _). set (good := List.filter readable items).
  assert (sum_unwritten capacity (believed <$> good) 0 [] =
    (Zsum (to_write stats <$> List.filter (counted capacity) items), believed <$> List.filter (unbelievable capacity) items)) as S.
  { pose proof (sum_unwritten_spec capacity stats good ltac:(lia) U (filter_readable items) 0 [] ltac:(lia)) as S.
    unfold good in S. rewrite !filter_through in S by (intros i; unfold counted, unbelievable; by destruct (readable i)).
    change (Z.min MaxInt64 0) with 0 in S. unfold good, believed. rewrite S. simpl. f_equal.
    pose proof (to_write_bound capacity stats items ltac:(lia) ltac:(intros i; apply U)). lia. }
  pose proof (to_write_bound capacity stats items ltac:(lia) ltac:(intros i; apply U)) as T.
  assert (forall t, t = Zsum (to_write stats <$> List.filter (counted capacity) items) ->
    Headroom cfg -! (available -! t) = Headroom cfg - available + t) as Arith.
  { intros t ->. rewrite (wrap64_id (available - _)) by int64_lia. rewrite wrap64_id by int64_lia. lia. }
  unfold Observe. destruct errs as [|er errs].
  - simpl in E. rewrite S, (Arith _ eq_refl), <- E. unfold join.
    destruct (believed <$> List.filter (unbelievable capacity) items); simpl; split_and!; auto.
  - destruct (believed <$> good) eqn:G.
    + apply fmap_nil_inv in G. rewrite <- E. split_and!; [done|done|by eexists].
    + rewrite S, (Arith _ eq_refl). simpl. rewrite <- E. split_and!; auto.
Qed.

(** A kubelet's source answers with counts of bytes, as the watch asks of one. *)
Lemma source_typed {GetErr} capacity (client : option duration -> list Pod * option (KubeletErr (GetErr := GetErr))) message :
  typed (source capacity client message).
Proof.
  intros d cfg available. simpl. unfold Observe. destruct (client d) as [pods [e|]].
  - destruct pods; [done|]. destruct (sum_unwritten _ _ _ _). unfold join.
    by repeat case_match; simplify_eq; apply wrap64_range.
  - destruct (sum_unwritten _ _ _ _). unfold join. destruct l; simpl; apply wrap64_range.
Qed.

(** ** A node with three pods, for the witness *)

Definition asking (q policy : string) : container := mkContainer {["ephemeral-storage"%string := q]} policy.
Definition wstats : summary := mkSummary 500 10000 [mkPodUsage "a" "jobs" 300].
Definition wpods : list item := [
  mkItem "a" "jobs" [asking "1k" ""; asking "100m" ""] [asking "700" "Always"; asking "1500" ""] "Running";
  mkItem "b" "jobs" [asking "1e12" ""] [] "Pending";
  mkItem "c" "jobs" [asking "many" ""] [] "Running";
  mkItem "d" "jobs" [asking "1Ki" ""] [] "Succeeded"].

Lemma demand_exact_witness :
  exists c, Observe (GetErr := string) 10000 (Pods (Ok wpods) (Ok wstats)) (mkWatchConfig 200 0 0 Second) 500 = AtLeast 1101 c /\
    impossible c = [mkPod "jobs" "b" (10 ^ 12) 0 true] /\
    200 - 500 + Zsum (to_write wstats <$> List.filter (counted 10000) wpods) = 1101.
Proof.
  assert (forall i, 0 <= used_by wstats i <= MaxInt64) as U.
  { intros i. unfold used_by, wstats. cbn [SPods used_map fold_left UNamespace UName UsedBytes].
    destruct (decide (pod_key "jobs" "a" = key_of i)) as [<-|N].
    - rewrite lookup_insert_eq. simpl. unfold MaxInt64. lia.
    - rewrite lookup_insert_ne by exact N. rewrite lookup_empty. simpl. unfold MaxInt64. lia. }
  pose proof (demand_exact (GetErr := string) 10000 wpods wstats (mkWatchConfig 200 0 0 Second) 500
    ltac:(unfold MaxInt64; lia) ltac:(simpl; lia) ltac:(vm_compute; discriminate) ltac:(unfold MaxInt64; lia) U) as W.
  destruct (Observe _ _ _ _) as [need|need c|e] eqn:E; [vm_compute in E; discriminate| |vm_compute in E; discriminate].
  assert (need = 1101) as -> by (vm_compute in E; injection E; congruence).
  destruct W as (W1 & W2 & _). exists c. split; [reflexivity|]. split; [|symmetry; exact W1].
  rewrite W2. vm_compute. reflexivity.
Defined.
