(* ===== verification/Checkpoint.v ===== *)
(** * Checkpoint: staging a checkpoint and making it durable
    (internal/checkpoint/checkpoint.go, stage.go, the status of http.go)

    Staging is written against two interfaces, [Node] and [Store], as the code
    is. The bytes at the front of each extent are kept beside the node, by path.
    What the filesystem answers while a checkpoint is staged is a [weather]. The
    goroutine that uploads a staged checkpoint is what [Stage] leaves [pending]:
    [upload] runs it, after whatever else the node did meanwhile. *)

From S2P Require Import Prelude Pool Lease Agent Backend.

Local Open Scope Z_scope.

Abbreviation Ack := string (only parsing).
Definition Durable : Ack := "durable".
Definition Staged : Ack := "staged".

Inductive CheckpointErr : Type :=
  | ErrAck (a : Ack)
  | ErrNothing (n : Bytes)
  | ErrRevocable (c : Class_)
  | ErrTooLarge (asked free : Bytes)
  | ErrOverran (size : Bytes)
  | ErrNotStaged (id : string)
  | ErrRequest (what : string)
  | ErrGrant (e : AgentErr)
  | ErrPath (e : AgentErr)
  | ErrOpen
  | ErrStaging
  | ErrFlush
  | ErrReopen
  | ErrUpload
  | ErrContext
  | ErrConfig.

(** What an acknowledgement withstands, and what it does not. *)
Definition Survives (a : Ack) : result CheckpointErr (string * string) :=
  if (a =? Durable)%string then Ok ("whatever the backend survives", "whatever the backend does not")%string
  else if (a =? Staged)%string then Ok ("the process, and a restart of the agent", "the node")%string
  else Err (ErrAck a).

Definition WithDefault (a : Ack) : Ack := if (a =? "")%string then Durable else a.

Record Reservation : Type := mkReservation {
  RBytes : Bytes;
  RClass : Class_;
}.

Definition Check (r : Reservation) (guaranteedFree : Bytes) : option CheckpointErr :=
  if RBytes r <=? 0 then Some (ErrNothing (RBytes r))
  else if negb (RClass r =? Guaranteed) then Some (ErrRevocable (RClass r))
  else if guaranteedFree <? RBytes r then Some (ErrTooLarge (RBytes r) guaranteedFree)
  else None.

(** ** What staging is wired to *)

(** [node_extent] is not a method: it is the file at a path, and its size, which
    the node made on the disk it shares with staging. *)
Class Node (N : Type) : Type := {
  node_GuaranteedFree : N -> Bytes;
  node_Grant : Lease -> time -> N -> N * option AgentErr;
  node_Release : string -> N -> N * (Bytes * option AgentErr);
  node_ExtentPath : string -> N -> result AgentErr string;
  node_extent : string -> N -> option Z;
}.

Class Store (St : Type) : Type := {
  store_WriteObjectFrom : string -> list byte -> Z -> St -> St * bool;
}.

Record Request : Type := mkRequest {
  RID : string;
  RTenant : string;
  Object : string;
  Bytes_ : Bytes;
  RAck : Ack;
}.

Definition check (r : Request) : option CheckpointErr :=
  if (RID r =? "")%string then Some (ErrRequest "no id")
  else if (Object r =? "")%string then Some (ErrRequest "no object")
  else None.

(** A reader: its bytes, and whether it fails behind them rather than ending. *)
Record reader : Type := mkReader {
  bytes : list byte;
  breaks : bool;
}.

(** Whether the extent opens, where writing to it fails, whether it is flushed,
    whether it opens again for the upload, and whether a writer waiting for a
    durable checkpoint finds its context done. *)
Record weather : Type := mkWeather {
  opens : bool;
  write_fails : option Z;
  syncs : bool;
  reopens : bool;
  gone : bool;
}.

(** An upload yet to run: the request, the extent's path, and how much is in it. *)
Record upload_of : Type := mkUpload {
  request : Request;
  extent : string;
  written : Z;
}.

(** [New]: what it refuses; the clock is the [now] of each call. *)
Definition New (node store : bool) (term : duration) : option CheckpointErr :=
  if negb node then Some ErrConfig
  else if negb store then Some ErrConfig
  else if term <=? 0 then Some ErrConfig
  else None.

Section stager.
Context {N St : Type} `{Node N} `{Store St}.

Record Stager : Type := mkStager {
  node : N;
  store : St;
  files : gmap string (list byte);
  term : duration;
}.
Definition set_node (n : N) (s : Stager) : Stager :=
  {| node := n; store := store s; files := files s; term := term s |}.
Definition set_store (x : St) (s : Stager) : Stager :=
  {| node := node s; store := x; files := files s; term := term s |}.
Definition set_files (f : gmap string (list byte)) (s : Stager) : Stager :=
  {| node := node s; store := store s; files := f; term := term s |}.

(** [stageTo]. What is written goes over the front of the extent; the copy meets
    the reader's failure only when it reads that far. *)
Definition stageTo (path : string) (src : reader) (size : Z) (w : weather) (s : Stager)
  : Stager * result CheckpointErr Z :=
  match node_extent path (node s) with
  | None => (s, Err ErrOpen)
  | Some _ =>
      if negb (opens w) then (s, Err ErrOpen)
      else
        let limit := size +! 1 in
        let data := ztake limit (bytes src) in
        let put d := set_files (<[path := d ++ zdrop (zlen d) (default [] (files s !! path))]> (files s)) s in
        match write_fails w with
        | Some n => (put (ztake n data), Err ErrStaging)
        | None =>
            let s := put data in
            if breaks src && (zlen data <? limit) then (s, Err ErrStaging)
            else if size <? zlen data then (s, Err (ErrOverran size))
            else if negb (syncs w) then (s, Err ErrFlush)
            else (s, Ok (zlen data))
        end
  end.

Definition release (id : string) (s : Stager) : Stager := set_node (node_Release id (node s)).1 s.

Definition durable (u : upload_of) (w : weather) (s : Stager) : Stager * option CheckpointErr :=
  match node_extent (extent u) (node s) with
  | None => (s, Some ErrReopen)
  | Some _ =>
      if negb (reopens w) then (s, Some ErrReopen)
      else
        let section := ztake (written u) (default [] (files s !! extent u)) in
        let '(x, ok) := store_WriteObjectFrom (Object (request u)) section (written u) (store s) in
        (set_store x s, if ok then None else Some ErrUpload)
  end.

Definition upload (u : upload_of) (w : weather) (s : Stager) : Stager * option CheckpointErr :=
  let '(s, e) := durable u w s in
  match e with
  | None => (release (RID (request u)) s, None)
  | Some e => (s, Some e)
  end.

(** What [Stage] returns: the acknowledgement given, and the upload under way. *)
Definition Stage (r : Request) (src : reader) (w : weather) (now : time) (s : Stager)
  : Stager * result CheckpointErr (Ack * option upload_of) :=
  match check r with
  | Some e => (s, Err e)
  | None =>
      let ack := WithDefault (RAck r) in
      match Survives ack with
      | Err _ => (s, Err (ErrRequest "no such acknowledgement"))
      | Ok _ =>
          match Check (mkReservation (Bytes_ r) Guaranteed) (node_GuaranteedFree (node s)) with
          | Some e => (s, Err e)
          | None =>
              let l := {| ID := RID r; Tenant := RTenant r; Class := Guaranteed; Size := Bytes_ r;
                          Term := term s; GrantedAt := 0 |} in
              let '(n, e) := node_Grant l now (node s) in
              let s := set_node n s in
              match e with
              | Some e => (s, Err (ErrGrant e))
              | None =>
                  match node_ExtentPath (RID r) (node s) with
                  | Err e => (release (RID r) s, Err (ErrPath e))
                  | Ok path =>
                      let '(s, n) := stageTo path src (Bytes_ r) w s in
                      match n with
                      | Err e => (release (RID r) s, Err e)
                      | Ok n =>
                          if n =? 0 then (release (RID r) s, Err (ErrNotStaged (RID r)))
                          else
                            let u := {| request := r; extent := path; written := n |} in
                            if (ack =? Durable)%string then
                              let '(s, e) := upload u w s in
                              if gone w then (s, Err ErrContext)
                              else match e with
                                   | Some e => (s, Err e)
                                   | None => (s, Ok (ack, None))
                                   end
                            else (s, Ok (ack, Some u))
                      end
                  end
              end
          end
      end
  end.
End stager.

(** ** What a checkpoint's holder waits on

    The upload says once how it ended; anyone may wait for it. *)

(** [Checkpoint]: [h_once] is whether the once has fired, [h_done] whether the channel is closed. *)
Record handle : Type := mkHandle {
  h_ack : Ack;
  h_done : bool;
  h_once : bool;
  h_err : option CheckpointErr;
}.
Definition fresh_handle (a : Ack) : handle := mkHandle a false false None.

Definition finish (e : option CheckpointErr) (c : handle) : handle :=
  if h_once c then c else mkHandle (h_ack c) true true e.

(** [cancelled] is whether the waiter's context is done, and [first] which way the
    select goes when both are ready. [None] waits on. *)
Definition Wait (cancelled first : bool) (c : handle) : option (option CheckpointErr) :=
  if h_done c && (negb cancelled || first) then Some (h_err c)
  else if cancelled then Some (Some ErrContext)
  else None.

(** The upload's end reaches everyone, whatever is said after it; a waiter that has
    not been cancelled waits until then and no longer. *)
Lemma first_end_is_told e es a cancelled : let c := fold_left (fun c e => finish e c) (e :: es) (fresh_handle a) in
  Wait false cancelled c = Some e /\ Wait cancelled true c = Some e /\ Wait false true (fresh_handle a) = None.
Proof.
  intros c. assert (c = mkHandle a true true e) as ->; [|by destruct cancelled].
  unfold c. simpl. by induction es.
Qed.

(** What a writer waiting for a durable checkpoint is told by [Stage]. *)
Lemma durable_is_told e a gone : Wait gone false (finish e (fresh_handle a)) = Some (if gone then Some ErrContext else e).
Proof. by destruct gone. Qed.

(** ** The agent and the backend, as staging sees them *)

#[global] Instance Agent_Node {J} `{Journal J} : Node (Agent J) := {
  node_GuaranteedFree a := GuaranteedFree (manager a);
  node_Grant := Grant;
  node_Release := Agent.Release;
  node_ExtentPath id _ := ExtentPath id;
  node_extent path a := dir a !! path;
}.

#[global] Instance Backend_Store {D} `{Driver D} : Store (Backend D) := {
  store_WriteObjectFrom o src size b :=
    let '(b, r) := Backend.WriteObjectFrom o src size b in (b, is_ok r);
}.

(** ** Over HTTP (http.go)

    A request as [net/http] hands it over: its header, its query, its length when
    it states one, and its body. *)

Definition statusFor (e : CheckpointErr) : Z :=
  match e with
  | ErrTooLarge _ _ | ErrRevocable _ => 409
  | ErrOverran _ => 400
  | ErrNotStaged _ | ErrRequest _ => 400
  | _ => 500
  end.

Record http_request : Type := mkHttp {
  authorization : string;
  query : string -> string;
  ContentLength : Z;
  body : reader;
}.

Record Outcome : Type := mkOutcome {
  OAck : string;
  OSurvives : string;
  OLost : string;
  OBytes : Z;
}.

(** A status with a complaint, or the outcome. *)
Inductive response : Type :=
  | Status (code : Z)
  | Told (o : Outcome).

Definition bearer : string := "Bearer ".
Definition trim_bearer (h : string) : string :=
  if String.prefix bearer h then substring 7 (String.length h) h else h.

Section http.
Context {N St : Type} `{Node N} `{Store St}.
Implicit Types s : Stager (N := N) (St := St).

Definition guard (token : string) (next : http_request -> Stager (N := N) (St := St) -> Stager * response)
    (r : http_request) s : Stager * response :=
  if negb (trim_bearer (authorization r) =? token)%string then (s, Status 401) else next r s.

Definition stage (w : weather) (now : time) (r : http_request) s : Stager * response :=
  if ContentLength r <? 0 then (s, Status 411)
  else
    let req := {| RID := query r "id"; RTenant := query r "tenant"; Object := query r "object";
                  Bytes_ := ContentLength r; RAck := query r "ack" |} in
    let '(s, c) := Stage req (body r) w now s in
    (s, match c with
        | Err e => Status (statusFor e)
        | Ok (ack, _) =>
            let '(survives, lost) := match Survives ack with Ok p => p | Err _ => ("", "")%string end in
            Told (mkOutcome ack survives lost (ContentLength r))
        end).

(** [Handler], of a POST to [/checkpoints]. *)
Definition Handler (token : string) (w : weather) (now : time) (r : http_request) s : Stager * response :=
  guard token (stage w now) r s.
End http.
