(* ===== verification/CheckpointTheorems.v ===== *)
(** * CheckpointTheorems: an acknowledgement means what it says *)

From S2P Require Import Prelude Float64 Pool Lease LeaseProofs Journal LeaseTheorems Agent AgentTheorems Backend.
From S2P Require Import FileDriver Checkpoint.

Local Open Scope Z_scope.

(** ** What staging relies on *)

(** What a node promises staging: a grant is held with its extent made, a refused
    one changes nothing held, and a release touches no other lease. *)
Class NodeSpec (N : Type) `{Node N} : Type := {
  node_ok : N -> Prop;
  holding : N -> gmap string Lease;
  node_Grant_spec l now n : node_ok n -> is_int64 (Size l) -> is_int64 (Term l) ->
    let '(n', e) := node_Grant l now n in
    node_ok n' /\
    match e with
    | Some _ => holding n' = holding n
    | None => holding n !! ID l = None /\ holding n' = <[ID l := set_GrantedAt now l]> (holding n) /\
        exists path, node_ExtentPath (ID l) n' = Ok path /\ node_extent path n' = Some (Size l)
    end;
  node_Release_spec id n : node_ok n ->
    let '(n', (_, e)) := node_Release id n in
    node_ok n' /\ (holding n' = delete id (holding n) \/ holding n' = holding n /\ e <> None);
}.

(** What a store promises: an upload that succeeds is there in full, and nothing
    already there is replaced. *)
Class StoreSpec (St : Type) `{Store St} : Type := {
  stored : St -> string -> option (list byte);
  store_WriteObjectFrom_spec o src x : zlen src < MaxInt64 ->
    let '(x', ok) := store_WriteObjectFrom o src (zlen src) x in
    (ok = true -> stored x' o = Some src) /\
    (forall o' b, stored x o' = Some b -> stored x' o' = Some b);
}.

(** The agent keeps the node's promise, whatever its disk answers. *)
#[refine, global] Instance Agent_NodeSpec {J} `{Journal J} : NodeSpec (Agent J) := {
  node_ok a := exists base, inv base (manager a);
  holding a := leases (manager a);
  node_Grant_spec := _;
  node_Release_spec := _;
}.
Proof.
  - intros l now a [base I] Sz Tm. simpl.
    pose proof (Grant_outcome base l now a I Sz Tm) as G. pose proof (Grant_inv base l now a I Sz Tm) as I'.
    destruct (Grant l now a) as [a' [e|]]; simpl in *; (split; [by exists base|]); [by destruct G|].
    destruct G as (N & _ & El & _ & Ed & _ & V & _). split_and!; [done|done|].
    exists (ID l). unfold ExtentPath. rewrite V, Ed, lookup_insert_eq. done.
  - intros id a [base I]. simpl. pose proof (Release_outcome base id a I) as R.
    destruct (Agent.Release id a) as [a' [n e]]. destruct R as [I' R]. split; [by exists base|done].
Defined.

(** The backend over a directory keeps the store's. *)
#[refine, global] Instance Backend_StoreSpec : StoreSpec (Backend FileStore) := {
  stored b o := object_at (tree (driver b)) o;
  store_WriteObjectFrom_spec := _;
}.
Proof.
  intros o src b Sz. simpl. unfold Backend.WriteObjectFrom. simpl.
  destruct (negb _ || negb _); [done|]. rewrite (proj2 (Z.ltb_ge _ _)) by apply zlen_nonneg. unfold guarded.
  pose proof (WriteObjectFrom_outcome o src (zlen src) (driver b)) as W.
  destruct (WriteObjectFrom o src (zlen src) (driver b)) as [d r].
  destruct W as [Other W]; [split; [apply zlen_nonneg|done]|].
  assert (tree (driver (narrow WriteStream r (set_driver d b))) = tree d) as -> by (by destruct r as [|[]]).
  split.
  - destruct r; [|done]. intros _. by destruct W as (_ & _ & ?).
  - intros o' c E. destruct (decide (FileDriver.path o' = FileDriver.path o)) as [Ep|Np]; [|by rewrite Other].
    assert (forall t, object_at t o' = object_at t o) as Same by (intros t; unfold object_at; by rewrite Ep).
    rewrite Same in *. destruct r; [destruct W; congruence|]. destruct W as [->|(_ & ? & _)]; [done|congruence].
Defined.

Section stager.
Context {N St : Type} `{NodeSpec N} `{StoreSpec St}.
Implicit Types s : Stager (N := N) (St := St).

(** ** Writing to the extent *)

(** Errors of an upload, and of waiting for one. *)
Definition of_upload (e : CheckpointErr) : bool :=
  match e with ErrUpload | ErrReopen => true | _ => false end.
Definition before_upload (e : CheckpointErr) : bool :=
  match e with ErrUpload | ErrReopen | ErrContext => false | _ => true end.

Lemma stageTo_spec path src size w s : 0 <= size < MaxInt64 ->
  let '(s', r) := stageTo path src size w s in
  node s' = node s /\ store s' = store s /\ term s' = term s /\
  (forall p, p <> path -> files s' !! p = files s !! p) /\
  match r with
  | Err e => before_upload e = true
  | Ok n => n = zlen (bytes src) /\ n <= size /\ breaks src = false /\ is_Some (node_extent path (node s)) /\
      ztake n (default [] (files s' !! path)) = bytes src
  end.
Proof.
  intros Sz. unfold stageTo. destruct (node_extent path (node s)); [|done]. destruct (negb (opens w)); [done|].
  assert (size +! 1 = size + 1) as -> by int64_lia. cbv zeta.
  assert (forall d p, p <> path -> <[path := d]> (files s) !! p = files s !! p) as Other
    by (intros; by apply lookup_insert_ne).
  destruct (write_fails w) as [n|]; [simpl; split_and!; try done; by apply Other|].
  set (data := ztake (size + 1) (bytes src)). destruct (breaks src && (zlen data <? size + 1)) eqn:B; [simpl; split_and!; try done; by apply Other|].
  destruct (Z.ltb_spec size (zlen data)) as [|L]; [simpl; split_and!; try done; by apply Other|]. destruct (negb (syncs w)); [simpl; split_and!; try done; by apply Other|].
  assert (data = bytes src) as Ed.
  { unfold data in *. apply take_ge. unfold zlen, ztake in L. rewrite length_take in L. lia. }
  assert (breaks src = false) as Eb.
  { apply andb_false_iff in B as [|B]; [done|]. apply Z.ltb_ge in B. lia. }
  simpl. split_and!; auto; [by rewrite Ed|].
  rewrite lookup_insert_eq. simpl. unfold ztake, zlen. rewrite Nat2Z.id, take_app_length. done.
Qed.

(** The node was asked to release a lease it held, and refused. *)
Definition release_refused (id : string) s : Prop := exists n b e,
  holding n = holding (node s) /\ node_Release id n = (node s, (b, Some e)).

Lemma release_ok id s : node_ok (node s) -> node_ok (node (release id s)) /\
  (holding (node (release id s)) = delete id (holding (node s)) \/
   holding (node (release id s)) = holding (node s) /\ release_refused id (release id s)).
Proof.
  intros K. pose proof (node_Release_spec id (node s) K) as R. unfold release_refused, release.
  destruct (node_Release id (node s)) as [n' [b e]] eqn:E. simpl. destruct R as (? & [?|[Eh Ne]]); [by auto|].
  split; [done|]. right. split; [done|]. destruct e as [e|]; [|done]. by exists (node s), b, e.
Qed.

(** ** The upload *)

(** The extent of an upload holds what is to be uploaded. *)
Definition holds_bytes (u : upload_of) (data : list byte) s : Prop :=
  written u = zlen data /\ ztake (written u) (default [] (files s !! extent u)) = data.

Lemma upload_spec u data w s : node_ok (node s) -> zlen data < MaxInt64 -> holds_bytes u data s ->
  let '(s', e) := upload u w s in
  node_ok (node s') /\ files s' = files s /\
  (forall o b, stored (store s) o = Some b -> stored (store s') o = Some b) /\
  match e with
  | None => stored (store s') (Object (request u)) = Some data /\
      (holding (node s') = delete (RID (request u)) (holding (node s)) \/
       holding (node s') = holding (node s) /\ release_refused (RID (request u)) s')
  | Some e => node s' = node s /\ of_upload e = true
  end.
Proof.
  intros K L [Ew Ed]. unfold upload, durable. destruct (node_extent _ _); [|done].
  destruct (negb (reopens w)); [done|]. rewrite Ed, Ew.
  pose proof (store_WriteObjectFrom_spec (Object (request u)) data (store s) L) as S.
  destruct (store_WriteObjectFrom _ data _ _) as [x ok]. destruct S as [S1 S2]. destruct ok; [|done].
  pose proof (release_ok (RID (request u)) (set_store x s) K) as [K' R].
  split_and!; auto.
Qed.

(** The lease a checkpoint is staged under. *)
Definition staging_lease r now s : Lease :=
  {| ID := RID r; Tenant := RTenant r; Class := Guaranteed; Size := Bytes_ r; Term := term s; GrantedAt := now |}.

(** After a release that may have failed. *)
Lemma released id l n : holding n !! id = None -> forall s, node_ok (node s) ->
  holding (node s) = <[id := l]> (holding n) ->
  node_ok (node (release id s)) /\
  (holding (node (release id s)) = holding n \/
   holding (node (release id s)) = <[id := l]> (holding n) /\ release_refused id (release id s)).
Proof.
  intros No s K E. destruct (release_ok id s K) as [K' [R|[R Rr]]]; (split; [done|]); rewrite R, E; [left|by right].
  by apply delete_insert_id.
Qed.
End stager.

Lemma Stage_term {N St} `{Node N} `{Store St} r src w now (s : Stager (N := N) (St := St)) :
  term (Stage r src w now s).1 = term s.
Proof.
  unfold Stage, upload, durable, stageTo. repeat (case_match; simplify_eq/=; try done).
Qed.

Lemma Stage_outcome {N St} `{NodeSpec N} `{StoreSpec St} r src w now (s : Stager (N := N) (St := St)) :
  node_ok (node s) -> is_int64 (term s) -> Bytes_ r < MaxInt64 ->
  let '(s', res) := Stage r src w now s in
  let l := staging_lease r now s in
  let sent := breaks src = false /\ 0 < zlen (bytes src) <= Bytes_ r in
  let held := holding (node s') = <[RID r := l]> (holding (node s)) in
  let kept := held /\ exists u, holds_bytes u (bytes src) s' in
  let released := holding (node s') = holding (node s) \/ held /\ release_refused (RID r) s' in
  (forall o b, stored (store s) o = Some b -> stored (store s') o = Some b) /\
  match res with
  | Ok (a, None) => a = Durable /\ sent /\ stored (store s') (Object r) = Some (bytes src) /\
      released
  | Ok (a, Some u) => a = Staged /\ sent /\ store s' = store s /\ node_ok (node s') /\
      request u = r /\ holds_bytes u (bytes src) s' /\ held /\
      node_ExtentPath (RID r) (node s') = Ok (extent u) /\ node_extent (extent u) (node s') = Some (Bytes_ r)
  | Err (ErrUpload | ErrReopen) => sent /\ kept
  | Err ErrContext => sent /\ (kept \/ stored (store s') (Object r) = Some (bytes src) /\ released)
  | Err _ => store s' = store s /\ released
  end.
Proof.
  intros K Tm Lt. unfold Stage.
  destruct (check r) as [e|] eqn:Ck; [unfold check in Ck; repeat case_match; simplify_eq; by auto|].
  destruct (Survives (WithDefault (RAck r))) as [p|] eqn:Sv; [|by auto].
  destruct (Check _ _) as [e|] eqn:Cc; [unfold Check in Cc; repeat case_match; simplify_eq; by auto|].
  assert (0 < Bytes_ r) as Pos.
  { unfold Check in Cc. simpl in Cc. destruct (Z.leb_spec (Bytes_ r) 0); [done|lia]. }
  set (l0 := {| ID := RID r; Tenant := _; Class := _; Size := _; Term := _; GrantedAt := 0 |}).
  pose proof (node_Grant_spec l0 now (node s) K ltac:(simpl; int64_lia) Tm) as G.
  destruct (node_Grant l0 now (node s)) as [n [e|]]; destruct G as [Kn G].
  { simpl. split; [done|]. split; [done|]. by left. }
  destruct G as (No & Hn & path & Ep & Ex).
  change (set_GrantedAt now l0) with (staging_lease r now s) in Hn. simpl ID in *. simpl node. rewrite Ep.
  pose proof (stageTo_spec path src (Bytes_ r) w (set_node n s) ltac:(lia)) as W.
  destruct (stageTo path src (Bytes_ r) w (set_node n s)) as [s1 [m|e]]; destruct W as (En & Es & Et & _ & W); simpl in En, Es, Et.
  - destruct W as (Em & Lm & Nb & _ & Eb).
    assert (holds_bytes {| request := r; extent := path; written := m |} (bytes src) s1) as Hb by by split.
    assert (holding (node s1) = <[RID r := staging_lease r now s]> (holding (node s))) as Hl1 by by rewrite En.
    rewrite <- En in Kn. destruct (Z.eqb_spec m 0) as [Zm|Zm].
    { pose proof (released (RID r) _ (node s) No s1 Kn Hl1) as [_ R]. simpl. rewrite Es. auto. }
    assert (breaks src = false /\ 0 < zlen (bytes src) <= Bytes_ r) as Sent.
    { split; [done|]. pose proof (zlen_nonneg (bytes src)). lia. }
    destruct (String.eqb_spec (WithDefault (RAck r)) Durable) as [Ea|Na].
    + pose proof (upload_spec {| request := r; extent := path; written := m |} (bytes src) w s1 Kn ltac:(lia) Hb) as U.
      destruct (upload _ w s1) as [s2 e]. destruct U as (K2 & F2 & Old & U). rewrite Es in Old.
      assert (holds_bytes {| request := r; extent := path; written := m |} (bytes src) s2) as Hb2 by (unfold holds_bytes in *; by rewrite F2).
      destruct e as [e|]; simpl in U.
      * destruct U as [En2 Oe]. rewrite <- En2 in Hl1.
        destruct (gone w); (split; [done|]); [split; [done|]; left; eauto|]. destruct e; try done; (split; [done|]; eauto).
      * destruct U as [St2 U]. assert (holding (node s2) = holding (node s) \/
          holding (node s2) = <[RID r := staging_lease r now s]> (holding (node s)) /\ release_refused (RID r) s2) as Rl.
        { destruct U as [U|[U Rr]]; rewrite U, Hl1; [left; by apply delete_insert_id|by right]. }
        destruct (gone w); (split; [done|]); [by auto|]. split; [done|]. split; [exact Sent|]. by split.
    + assert (WithDefault (RAck r) = Staged) as ->.
      { unfold Survives in Sv. rewrite (proj2 (String.eqb_neq _ _) Na) in Sv.
        destruct (String.eqb_spec (WithDefault (RAck r)) Staged); [done|done]. }
      simpl. rewrite Es. split; [done|]. split; [done|]. split; [exact Sent|].
      split_and!; auto; by rewrite En.
  - rewrite <- En in Kn, Hn. pose proof (released (RID r) _ (node s) No s1 Kn Hn) as [_ R].
    simpl. rewrite Es. split; [done|]. by destruct e.
Qed.

(** C18: an acknowledgement is true, and a failure keeps what is worth keeping.
    When a writer is told [durable], the store holds exactly its bytes under the
    object's name. When it is told [staged], a guaranteed lease of the size it
    reserved is held and the extent holds exactly its bytes. Either way it sent
    them all, and no more than it reserved. An upload that fails leaves the lease
    and the bytes, which are the only copy. Any other refusal, and a checkpoint
    made durable, gives the lease back: what is held is what was held before,
    unless the node was asked to release the lease and would not. No object
    already stored is ever replaced. *)
Theorem acknowledgement_is_true {N St} `{NodeSpec N} `{StoreSpec St} r src w now (s : Stager (N := N) (St := St)) :
  node_ok (node s) -> is_int64 (term s) -> Bytes_ r < MaxInt64 ->
  let '(s', res) := Stage r src w now s in
  let l := staging_lease r now s in
  let sent := breaks src = false /\ 0 < zlen (bytes src) <= Bytes_ r in
  let held := holding (node s') = <[RID r := l]> (holding (node s)) in
  let kept := held /\ exists u, holds_bytes u (bytes src) s' in
  let released := holding (node s') = holding (node s) \/ held /\ release_refused (RID r) s' in
  (forall o b, stored (store s) o = Some b -> stored (store s') o = Some b) /\
  match res with
  | Ok (a, None) => a = Durable /\ sent /\ stored (store s') (Object r) = Some (bytes src) /\
      released
  | Ok (a, Some u) => a = Staged /\ sent /\ store s' = store s /\ node_ok (node s') /\
      request u = r /\ holds_bytes u (bytes src) s' /\ held /\
      node_ExtentPath (RID r) (node s') = Ok (extent u) /\ node_extent (extent u) (node s') = Some (Bytes_ r)
  | Err (ErrUpload | ErrReopen) => sent /\ kept
  | Err ErrContext => sent /\ (kept \/ stored (store s') (Object r) = Some (bytes src) /\ released)
  | Err _ => store s' = store s /\ released
  end.
Proof. apply Stage_outcome. Qed.

(** ** A staged checkpoint, until it is durable *)

Section survival.
Context {J : Type} `{Journal J}.
Implicit Types a : Agent J.

(** What a node may do while a checkpoint is staged under [l]: anything but give
    that lease back, and reclaim before its term is out. *)
Inductive meanwhile (l : Lease) : Agent J -> Agent J -> Prop :=
  | mw_Grant k now a : is_int64 (Size k) -> is_int64 (Term k) -> meanwhile l a (Grant k now a).1
  | mw_Release id a : id <> ID l -> meanwhile l a (Agent.Release id a).1
  | mw_Reclaim need now elapsed a : is_int64 need -> Expired l now = false ->
      meanwhile l a (ReclaimCapacity need now elapsed a).1
  | mw_Heartbeat now tmp a : String.prefix agentFilePrefix tmp = true -> meanwhile l a (Heartbeat now tmp a).1.

(** The lease is held and its extent is there, [n] bytes of it. *)
Record safe (l : Lease) (n : Z) a : Prop := {
  sf_inv : exists base, inv base (manager a);
  sf_held : leases (manager a) !! ID l = Some l;
  sf_extent : dir a !! ID l = Some n;
}.

Lemma allocate_other id size k a : k <> id -> dir (allocate id size a).1 !! k = dir a !! k.
Proof.
  intros N. destruct (allocate id size a) as [a' e] eqn:Al. apply allocate_spec in Al.
  destruct Al as [a' e Hd|a' n _ Hd|a' _ Hd]; simpl; rewrite Hd; by rewrite ?lookup_insert_ne.
Qed.

(** A running guarantee is nothing the ladder takes. *)
Lemma Reclaim_spares base need now (m : Manager J) l : inv base m -> is_int64 need ->
  leases m !! ID l = Some l -> Class l = Guaranteed -> Expired l now = false ->
  let '(m', r) := Reclaim need now m in inv base m' /\ leases m' !! ID l = Some l /\ ID l ∉ Dropped r.
Proof.
  intros I Hn E G X. pose proof (Reclaim_inv base need now m Hn I) as I'.
  destruct (Reclaim need now m) as [m' r] eqn:R. split; [done|].
  destruct (Z_le_gt_dec need 0) as [N|N].
  { unfold Reclaim in R. rewrite (proj2 (Z.leb_le _ _) N) in R. injection R as <- <-. split; [done|].
    by intros ?%not_elem_of_nil. }
  destruct (Reclaim_spec base need now m m' r I Hn ltac:(lia) R) as ((j & rs & ->) & D & _).
  assert (ID l ∉ Dropped r) as Nd.
  { rewrite D. intros (k & Ek & Hk)%list_elem_of_fmap.
    pose proof (reclaim_choice_held base need now m I) as [_ F]. rewrite Forall_forall in F.
    pose proof (F k Hk) as Fk. rewrite <- Ek, E in Fk. injection Fk as <-.
    apply (reclaim_running base) in Hk; auto. by apply ladder_elem in Hk as [_ ?]. }
  split; [|done]. simpl. rewrite drop_leases_lookup, bool_decide_false by by rewrite <- D. done.
Qed.

Lemma safe_step l n a a' : Class l = Guaranteed -> validLeaseID (ID l) = None ->
  meanwhile l a a' -> safe l n a -> safe l n a'.
Proof.
  intros G V M [[base I] E D]. pose proof (not_invalid _ V) as Ni. destruct M as [k now a Sz Tm|id a Ne|need now el a Hn X|now tmp a P].
  - pose proof (Grant_outcome base k now a I Sz Tm) as O. pose proof (Grant_inv base k now a I Sz Tm) as I'.
    destruct (Grant k now a) as [a' [e|]]; simpl in *.
    + destruct O as (El & _ & Ed). split; [by exists base|by rewrite El|].
      destruct Ed as [->|(Dk & _ & _ & _ & m & _ & ->)]; [done|]. rewrite lookup_insert_ne; [done|congruence].
    + destruct O as (Lk & Dk & El & _ & Ed & _). split; [by exists base| |].
      * rewrite El, lookup_insert_ne; [done|congruence].
      * rewrite Ed, lookup_insert_ne; [done|congruence].
  - pose proof (Release_outcome base id a I) as O.
    assert (dir (Agent.Release id a).1 !! ID l = dir a !! ID l) as Ed.
    { unfold Agent.Release. simpl releasing.
      pose proof (discard_other id (ID l) (note (ToldReleasing [id]) a) ltac:(auto) (Ni id)) as Do.
      etransitivity; [|exact Do].
      destruct (discard id _) as [a1 [e|]]; [done|]. simpl. by destruct (Lease.Release id (manager a1)) as [m [z e]]. }
    destruct (Agent.Release id a) as [a' [z e]]. destruct O as [I' O]. simpl in *. split; [by exists base| |by rewrite Ed].
    destruct O as [->|[-> _]]; [by rewrite lookup_delete_ne|done].
  - pose proof (Reclaim_spares base need now (manager a) l I Hn E G X) as R.
    unfold ReclaimCapacity. destruct (Reclaim need now (manager a)) as [m r]. destruct R as (I' & E' & Nd).
    set (a0 := releasing (Dropped r) (set_manager m a)).
    assert (manager a0 = m /\ dir a0 = dir a) as [M0 D0] by by (unfold a0; destruct (Dropped r)).
    pose proof (discard_all_frame (Dropped r) a0 []) as [Mf _].
    pose proof (discard_all_other (Dropped r) (ID l) a0 [] Nd Ni) as Df.
    destruct (discard_all (Dropped r) a0 []) as [a1 failed]. simpl in *.
    split; [exists base; by rewrite Mf, M0|by rewrite Mf, M0|by rewrite Df, D0].
  - destruct (valid_not_special _ V) as (_ & Nh & Np & _).
    pose proof (Heartbeat_spec now tmp a) as S. pose proof (Heartbeat_other now tmp (ID l) a) as O.
    destruct (Heartbeat now tmp a) as [a' e]. destruct S as (Mf & _ & _). simpl in *.
    split; [exists base; by rewrite Mf|by rewrite Mf|]. rewrite O; [done|congruence|done].
Qed.

Lemma safe_steps l n a a' : Class l = Guaranteed -> validLeaseID (ID l) = None ->
  rtc (meanwhile l) a a' -> safe l n a -> safe l n a'.
Proof. intros G V R. induction R; eauto using safe_step. Qed.

(** Around a staged checkpoint: what the node is asked, what other checkpoints stage
    and upload, a second attempt at its own included, and whatever becomes of the
    store. *)
Context {St : Type} `{StoreSpec St}.
Implicit Types s : Stager (N := Agent J) (St := St).

Inductive beside (l : Lease) : Stager (N := Agent J) (St := St) -> Stager (N := Agent J) (St := St) -> Prop :=
  | bs_node a s : meanwhile l (node s) a -> beside l s (set_node a s)
  | bs_Stage r src w now s : is_int64 (Bytes_ r) -> beside l s (Stage r src w now s).1
  | bs_upload u w s : RID (request u) <> ID l -> beside l s (upload u w s).1
  | bs_store x s : beside l s (set_store x s).

(** The lease is held, its extent is there, and what is in it is what was. *)
Record whole (l : Lease) (n : Z) (f : option (list byte)) s : Prop := {
  wh_safe : safe l n (node s);
  wh_files : files s !! ID l = f;
  wh_term : is_int64 (term s);
}.

Lemma whole_release l n f id s : Class l = Guaranteed -> validLeaseID (ID l) = None -> id <> ID l ->
  whole l n f s -> whole l n f (release id s).
Proof.
  intros G V Ne [Sf Ef Tm]. split; [|done..]. unfold release. simpl.
  apply (safe_step l n (node s)); [done..| |done]. by apply mw_Release.
Qed.

Lemma whole_upload l n f u w s : Class l = Guaranteed -> validLeaseID (ID l) = None -> RID (request u) <> ID l ->
  whole l n f s -> whole l n f (upload u w s).1.
Proof.
  intros G V Ne W. unfold upload, durable. destruct (node_extent _ _); [|done]. destruct (negb (reopens w)); [done|].
  destruct (store_WriteObjectFrom _ _ _ _) as [x []]; [|by destruct W].
  simpl. apply whole_release; [done..|]. by destruct W.
Qed.

Lemma whole_Stage l n f r src w now s : Class l = Guaranteed -> validLeaseID (ID l) = None -> is_int64 (Bytes_ r) ->
  whole l n f s -> whole l n f (Stage r src w now s).1.
Proof.
  intros G V Sz Wh. unfold Stage. destruct (check r); [done|]. destruct (Survives _); [|done]. destruct (Check _ _); [done|].
  set (l0 := {| ID := RID r; Tenant := _; Class := _; Size := _; Term := _; GrantedAt := 0 |}).
  pose proof Wh as [[[base I] El Ed] Ef Tm]. pose proof (Grant_outcome base l0 now (node s) I Sz Tm) as O.
  assert (safe l n (Grant l0 now (node s)).1) as S1 by (eapply safe_step; [done..|by apply mw_Grant|apply Wh]).
  change (node_Grant l0 now (node s)) with (Grant l0 now (node s)).
  destruct (Grant l0 now (node s)) as [b [e|]]; [done|]. simpl in S1.
  destruct O as (No & _ & _ & _ & _ & _ & Vr & _). assert (RID r <> ID l) as Ne by (intros E; simpl in No; congruence).
  assert (whole l n f (set_node b s)) as W1 by by split.
  unfold node_ExtentPath. simpl. unfold ExtentPath. simpl in Vr. rewrite Vr.
  assert (whole l n f (stageTo (RID r) src (Bytes_ r) w (set_node b s)).1) as W2.
  { unfold stageTo. destruct (node_extent _ _); [|done]. destruct (negb (opens w)); [done|].
    assert (forall d, whole l n f (set_files (<[RID r := d]> (files (set_node b s))) (set_node b s))) as Put.
    { intros d. destruct W1 as [A B C]. split; [done| |done]. simpl. by rewrite lookup_insert_ne. }
    cbv zeta. destruct (write_fails w); [apply Put|]. repeat (case_match; [apply Put|]). apply Put. }
  destruct (stageTo _ _ _ _ _) as [s2 [m|e]]; simpl in W2; [|by apply whole_release].
  destruct (m =? 0); [by apply whole_release|]. destruct (_ =? _)%string; [|done].
  pose proof (whole_upload l n f (mkUpload r (RID r) m) w s2 G V Ne W2) as W3.
  destruct (upload _ w s2) as [s3 e]. simpl in W3. destruct (gone w); [done|]. by destruct e.
Qed.

Lemma beside_whole l n f s s' : Class l = Guaranteed -> validLeaseID (ID l) = None ->
  beside l s s' -> whole l n f s -> whole l n f s'.
Proof.
  intros G V B W. destruct B as [a s M|r src w now s Sz|u w s Ne|x s].
  - destruct W as [A E T]. split; [|done..]. by apply (safe_step l n (node s)).
  - by apply whole_Stage.
  - by apply whole_upload.
  - by destruct W.
Qed.

Lemma besides_whole l n f s s' : Class l = Guaranteed -> validLeaseID (ID l) = None ->
  rtc (beside l) s s' -> whole l n f s -> whole l n f s'.
Proof. intros G V R. induction R; eauto using beside_whole. Qed.
End survival.

(** C19: a staged checkpoint survives whatever the node is asked before its term is
    out, and then becomes durable. After the writer was told [staged], let other
    leases be granted and released, capacity reclaimed under any pressure,
    heartbeats written, other checkpoints staged and uploaded, the same one
    attempted again, and the store be used by others, with any faults: the lease is
    still held, its extent still there and the writer's bytes still in it, and the
    upload either makes exactly them durable or fails and keeps all three. What
    writes to an extent here is staging; the block cache of a node that serves
    reads is not among the steps. *)
Theorem staged_becomes_durable {J St} `{Journal J} `{StoreSpec St} r src w w' now
    (s : Stager (N := Agent J) (St := St)) s' u s1 :
  node_ok (node s) -> is_int64 (term s) -> Bytes_ r < MaxInt64 ->
  Stage r src w now s = (s', Ok (Staged, Some u)) ->
  rtc (beside (staging_lease r now s)) s' s1 ->
  let l := staging_lease r now s in
  safe l (Bytes_ r) (node s1) /\ holds_bytes u (bytes src) s1 /\
  let '(s2, e) := upload u w' s1 in
  match e with
  | None => stored (store s2) (Object r) = Some (bytes src)
  | Some _ => safe l (Bytes_ r) (node s2) /\ holds_bytes u (bytes src) s2
  end.
Proof.
  intros K Tm Lt E R. cbv zeta. pose proof (Stage_outcome r src w now s K Tm Lt) as O.
  pose proof (Stage_term r src w now s) as Et. rewrite E in O, Et.
  destruct O as (_ & _ & [_ Sz] & _ & [base I] & Er & Hb & Hl & Ep & Ex). simpl in Ep, Ex, Hl, Et.
  unfold ExtentPath in Ep. destruct (validLeaseID (RID r)) eqn:V; [done|]. injection Ep as Ep.
  assert (whole (staging_lease r now s) (Bytes_ r) (files s' !! RID r) s') as Wh.
  { split; [split; [by exists base| |]|done|by rewrite Et]; simpl.
    - rewrite Hl. apply lookup_insert_eq.
    - by rewrite Ep. }
  apply (besides_whole (staging_lease r now s) _ _ _ _ eq_refl V R) in Wh as [Sf Ef _]. split; [done|].
  simpl in Ef. rewrite Ep in Ef.
  assert (holds_bytes u (bytes src) s1) as Hb1 by (unfold holds_bytes in *; by rewrite Ef). split; [done|].
  pose proof (upload_spec u (bytes src) w' s1 (sf_inv _ _ _ Sf) ltac:(lia) Hb1) as U.
  destruct (upload u w' s1) as [s2 [e|]]; destruct U as (_ & F2 & _ & U).
  - destruct U as [-> _]. split; [done|]. unfold holds_bytes in *. by rewrite F2.
  - destruct U as [U _]. by rewrite Er in U.
Qed.

(** ** A checkpoint of four bytes, for the witnesses *)

Definition wstager : Stager (N := Agent FileJournal) (St := Backend FileStore) :=
  {| node := wagent; files := ∅; term := Hour;
     store := match Backend.Open empty_store with Ok b => b | Err _ => mkBackend empty_store true true declared None end |}.
Definition wbytes : list byte := bytes_of "step".
Definition wreader : reader := mkReader wbytes false.
Definition wclear : weather := mkWeather true None true true false.
Definition wrequest (ack : Ack) : Request := mkRequest "ckpt-7" "team" "runs/7/ckpt" 8 ack.

Lemma wstager_ok : node_ok (node wstager).
Proof. exists 0. apply wit_inv. Qed.

Lemma wstager_term : is_int64 (term wstager).
Proof. simpl. unfold Hour. int64_lia. Qed.

(** Durable; then the same name again, staged, which the store refuses. *)
Lemma acknowledgement_is_true_witness :
  let s1 := (Stage (wrequest "") wreader wclear 5 wstager).1 in
  stored (store s1) "runs/7/ckpt" = Some wbytes /\
  (Stage (wrequest "") (mkReader wbytes true) wclear 5 wstager).2 = Err ErrStaging /\
  holding (node (Stage (wrequest "") (mkReader wbytes true) wclear 5 wstager).1) !! "b" = holding (node wstager) !! "b".
Proof.
  split_and!.
  - pose proof (acknowledgement_is_true (wrequest "") wreader wclear 5 wstager wstager_ok wstager_term ltac:(simpl; unfold MaxInt64; lia)) as W.
    assert ((Stage (wrequest "") wreader wclear 5 wstager).2 = Ok (Durable, None)) as E by (vm_compute; reflexivity).
    destruct (Stage (wrequest "") wreader wclear 5 wstager) as [s1 res]. simpl in E. subst res.
    destruct W as (_ & _ & _ & W & _). exact W.
  - vm_compute. reflexivity.
  - pose proof (acknowledgement_is_true (wrequest "") (mkReader wbytes true) wclear 5 wstager wstager_ok wstager_term
      ltac:(simpl; unfold MaxInt64; lia)) as W.
    assert ((Stage (wrequest "") (mkReader wbytes true) wclear 5 wstager).2 = Err ErrStaging) as E by (vm_compute; reflexivity).
    destruct (Stage _ (mkReader wbytes true) wclear 5 wstager) as [s1 res]. simpl in E. subst res.
    destruct W as (_ & _ & [W|[W _]]); cbn [fst]; rewrite W; [reflexivity|]. rewrite lookup_insert_ne by discriminate. reflexivity.
Defined.

(** Staged, then reclaimed around and staged beside, then uploaded. *)
Lemma staged_becomes_durable_witness :
  exists s' u, Stage (wrequest "staged") wreader wclear 5 wstager = (s', Ok (Staged, Some u)) /\
  let s1 := (Stage (mkRequest "ckpt-8" "team" "runs/8/ckpt" 8 "") wreader wclear 6
              (set_node (ReclaimCapacity 900 6 0 (node s')).1 s')).1 in
  dir (node s1) !! "a" = None /\ dir (node s1) !! "ckpt-7" = Some 8 /\
  let '(s2, e) := upload u wclear s1 in e = None /\ stored (store s2) "runs/7/ckpt" = Some wbytes.
Proof.
  destruct (Stage (wrequest "staged") wreader wclear 5 wstager) as [s' res] eqn:E.
  assert (res = Ok (Staged, Some (mkUpload (wrequest "staged") "ckpt-7" 4))) as -> by (apply (f_equal snd) in E; vm_compute in E; symmetry; exact E).
  exists s', (mkUpload (wrequest "staged") "ckpt-7" 4). split; [reflexivity|]. intros s1.
  assert (rtc (beside (staging_lease (wrequest "staged") 5 wstager)) s' s1) as R.
  { apply (rtc_l _ _ (set_node (ReclaimCapacity 900 6 0 (node s')).1 s')).
    { apply bs_node, mw_Reclaim; [int64_lia|vm_compute; reflexivity]. }
    apply rtc_once, bs_Stage. simpl. int64_lia. }
  pose proof (staged_becomes_durable (wrequest "staged") wreader wclear wclear 5 wstager s'
    (mkUpload (wrequest "staged") "ckpt-7" 4) s1 wstager_ok wstager_term
    ltac:(simpl; unfold MaxInt64; lia) E R) as (S & _ & W).
  assert (s' = (Stage (wrequest "staged") wreader wclear 5 wstager).1) as Es by (rewrite E; reflexivity).
  split; [unfold s1; rewrite Es; vm_compute; reflexivity|]. split; [exact (sf_extent _ _ _ S)|].
  destruct (upload _ wclear s1) as [s2 e] eqn:U.
  assert (e = None) as -> by (apply (f_equal snd) in U; unfold s1 in U; rewrite Es in U; vm_compute in U; symmetry; exact U).
  split; [reflexivity|exact W].
Defined.
