(* ===== verification/Intent.v ===== *)
(** * Intent: what a user declared, and what can meet it (internal/intent/intent.go, floor.go) *)

From S2P Require Import Prelude GoStrings Backend.

Local Open Scope Z_scope.

Abbreviation Durability := string (only parsing).
Abbreviation Latency := string (only parsing).
Abbreviation Cost := string (only parsing).

Definition DurabilityNone : Durability := "none".
Definition DurabilityBackend : Durability := "backend".
Definition DurabilityReplicated : Durability := "replicated".
Definition DurabilityRackTolerant : Durability := "rack-tolerant".
Definition LatencyBestEffort : Latency := "best-effort".
Definition LatencyCached : Latency := "cached".
Definition CostCheapest : Cost := "cheapest".
Definition CostBalanced : Cost := "balanced".

Record Intent : Type := mkIntent {
  IDurability : Durability;
  ILatency : Latency;
  ICost : Cost;
}.
#[global] Instance Intent_eq_dec : EqDecision Intent.
Proof. solve_decision. Defined.

Definition or_default (s d : string) : string := if (s =? "")%string then d else s.
Definition WithDefaults (i : Intent) : Intent :=
  {| IDurability := or_default (IDurability i) DurabilityBackend;
     ILatency := or_default (ILatency i) LatencyBestEffort;
     ICost := or_default (ICost i) CostBalanced |}.

Record Fleet : Type := mkFleet { KnowsRacks : bool }.

(** What is refused, and what cannot be met. *)
Inductive IntentErr : Type :=
  | ErrDurability (d : Durability)
  | ErrLatency (l : Latency)
  | ErrCost (c : Cost)
  | ErrContradiction
  | ErrNoBackend
  | Unsatisfiable (Missing : list Capability) (NoRacks : bool)
  | ErrFloor (d : Durability).

Definition is_one_of (s : string) (vs : list string) : bool := existsb (fun v => (s =? v)%string) vs.
Definition durabilities : list string :=
  [DurabilityNone; DurabilityBackend; DurabilityReplicated; DurabilityRackTolerant].

Definition Intent_Validate (i : Intent) : option IntentErr :=
  let i := WithDefaults i in
  if negb (is_one_of (IDurability i) durabilities) then Some (ErrDurability (IDurability i))
  else if negb (is_one_of (ILatency i) [LatencyBestEffort; LatencyCached]) then Some (ErrLatency (ILatency i))
  else if negb (is_one_of (ICost i) [CostCheapest; CostBalanced]) then Some (ErrCost (ICost i))
  else if (ICost i =? CostCheapest)%string && (ILatency i =? LatencyCached)%string then Some ErrContradiction
  else None.

Definition list_ (vs : list string) : string := Join ", " (sort_Strings vs).

Definition Needs (i : Intent) : list Capability :=
  if is_one_of (IDurability (WithDefaults i)) [DurabilityReplicated; DurabilityRackTolerant]
  then [Replicate] else [].

(** The message of an intent nothing here can meet. *)
Definition no_racks : string := "this fleet cannot say which rack a node is in".
Definition Unsatisfiable_Error (missing : list Capability) (noRacks : bool) : string :=
  let parts := (match missing with [] => [] | _ => ["the backend does not declare " +:+ Join " or " missing] end)
               ++ (if noRacks then [no_racks] else []) in
  "intent: unsatisfiable: " +:+ Join ", and " parts.

(** [Error], of each. *)
Definition unpublished `{Quoting} (s what : string) (vs : list string) : string :=
  "intent: " +:+ quote s +:+ " is not a " +:+ what +:+ " this project publishes, which are " +:+ list_ vs.
Definition IntentErr_Error `{Quoting} (e : IntentErr) : string :=
  match e with
  | ErrDurability d => unpublished d "durability" durabilities
  | ErrLatency l => unpublished l "latency" [LatencyBestEffort; LatencyCached]
  | ErrCost c => unpublished c "cost" [CostCheapest; CostBalanced]
  | ErrContradiction => "intent: " +:+ CostCheapest +:+ " and " +:+ LatencyCached
      +:+ " are two different requests: one refuses to spend borrowed capacity and the other asks for it"
  | ErrNoBackend => "intent: no backend to resolve against"
  | Unsatisfiable missing noRacks => Unsatisfiable_Error missing noRacks
  | ErrFloor d => "intent: floor names unknown durability " +:+ quote d
  end.

(** [Resolve], over a backend, if there is one. *)
Definition Resolve {D} (i : Intent) (b : option (Backend D)) (f : Fleet) : option IntentErr :=
  match Intent_Validate i with
  | Some e => Some e
  | None =>
      match b with
      | None => Some ErrNoBackend
      | Some b =>
          let i := WithDefaults i in
          let missing := List.filter (fun c => negb (Supports c b)) (Needs i) in
          let noRacks := (IDurability i =? DurabilityRackTolerant)%string && negb (KnowsRacks f) in
          match missing, noRacks with
          | [], false => None
          | _, _ => Some (Unsatisfiable missing noRacks)
          end
      end
  end.

(** ** The floor (floor.go) *)

Record Floor : Type := mkFloor { FDurability : Durability }.

(** The map [durabilityRank]. *)
Definition durabilityRank (d : Durability) : option Z :=
  if (d =? DurabilityNone)%string then Some 0
  else if (d =? DurabilityBackend)%string then Some 1
  else if (d =? DurabilityReplicated)%string then Some 2
  else if (d =? DurabilityRackTolerant)%string then Some 3
  else None.

Definition Apply (f : Floor) (i : Intent) : Intent :=
  let i := WithDefaults i in
  match durabilityRank (IDurability i) with
  | None => i
  | Some asked =>
      if asked <? default 0 (durabilityRank (FDurability f))
      then {| IDurability := FDurability f; ILatency := ILatency i; ICost := ICost i |} else i
  end.

Definition Floor_Validate (f : Floor) : option IntentErr :=
  if (FDurability f =? "")%string then None
  else match durabilityRank (FDurability f) with
       | None => Some (ErrFloor (FDurability f))
       | Some _ => None
       end.

(** ** What resolving means *)

Definition rank (d : Durability) : Z := default 0 (durabilityRank d).

(** An intent says one of the words, or nothing, and does not contradict itself. *)
Definition well_formed (i : Intent) : Prop :=
  IDurability (WithDefaults i) ∈ durabilities /\
  ILatency (WithDefaults i) ∈ [LatencyBestEffort; LatencyCached] /\
  ICost (WithDefaults i) ∈ [CostCheapest; CostBalanced] /\
  ~ (ICost i = CostCheapest /\ ILatency i = LatencyCached).

Lemma is_one_of_iff s vs : is_one_of s vs = true <-> s ∈ vs.
Proof.
  unfold is_one_of. rewrite existsb_exists, list_elem_of_In. split.
  - intros (v & Hv & E%String.eqb_eq). by subst.
  - intros Hs. exists s. by rewrite String.eqb_refl.
Qed.

Lemma or_default_other s d w : w <> ""%string -> w <> d -> or_default s d = w <-> s = w.
Proof. intros N1 N2. unfold or_default. destruct (String.eqb_spec s ""); split; intros; congruence. Qed.

Lemma Intent_Validate_iff i : Intent_Validate i = None <-> well_formed i.
Proof.
  unfold Intent_Validate, well_formed.
  assert ((ICost (WithDefaults i) =? CostCheapest)%string && (ILatency (WithDefaults i) =? LatencyCached)%string = true <->
    ICost i = CostCheapest /\ ILatency i = LatencyCached) as C.
  { rewrite andb_true_iff, !String.eqb_eq. simpl. by rewrite !or_default_other. }
  rewrite <- !is_one_of_iff, <- C. clear C.
  destruct (is_one_of (IDurability _) _), (is_one_of (ILatency _) _), (is_one_of (ICost _) _),
    (String.eqb (ICost (WithDefaults i)) _ && _); simpl; intuition congruence.
Qed.

Lemma or_default_idem s d : d <> ""%string -> or_default (or_default s d) d = or_default s d.
Proof. intros N. unfold or_default. destruct (String.eqb_spec s ""); [|by rewrite (proj2 (String.eqb_neq s ""))]. by rewrite (proj2 (String.eqb_neq d "")). Qed.

Lemma WithDefaults_idem i : WithDefaults (WithDefaults i) = WithDefaults i.
Proof. unfold WithDefaults. simpl. by rewrite !or_default_idem. Qed.

Lemma durabilityRank_known d : d ∈ durabilities <-> is_Some (durabilityRank d).
Proof.
  rewrite <- is_one_of_iff. unfold durabilityRank, is_one_of. simpl.
  repeat match goal with |- context [(d =? ?w)%string] => destruct (d =? w)%string; simpl; [by split|] end.
  split; [done|]. by intros [? ?].
Qed.

(** What the floor makes of an intent, defaults filled. *)
Lemma Apply_spec f i :
  WithDefaults (Apply f i) = Apply f i /\
  ILatency (Apply f i) = ILatency (WithDefaults i) /\ ICost (Apply f i) = ICost (WithDefaults i) /\
  (IDurability (Apply f i) ∈ durabilities <-> IDurability (WithDefaults i) ∈ durabilities) /\
  (IDurability (WithDefaults i) ∈ durabilities ->
   rank (IDurability (Apply f i)) = Z.max (rank (IDurability (WithDefaults i))) (rank (FDurability f))).
Proof.
  unfold Apply. set (w := WithDefaults i). rewrite !durabilityRank_known.
  destruct (durabilityRank (IDurability w)) as [asked|] eqn:E.
  2: { rewrite E. split_and!; try done; by apply WithDefaults_idem. }
  unfold rank. rewrite E. simpl. destruct (Z.ltb_spec asked (default 0 (durabilityRank (FDurability f)))) as [L|L].
  - simpl. destruct (durabilityRank (FDurability f)) as [k|] eqn:Ef.
    + simpl in *. split_and!; try done; [|lia]. assert (FDurability f <> ""%string) as Nf by (intros X; by rewrite X in Ef).
      unfold WithDefaults. simpl. rewrite !or_default_idem by done. unfold or_default at 1.
      by rewrite (proj2 (String.eqb_neq _ _) Nf).
    + simpl in L. exfalso. revert E L. unfold durabilityRank. repeat case_match; intros [= <-]; lia.
  - rewrite E. simpl. split_and!; try done; [by apply WithDefaults_idem|]. lia.
Qed.

Lemma rank_at_least d : d ∈ durabilities ->
  (is_one_of d [DurabilityReplicated; DurabilityRackTolerant] = true <-> 2 <= rank d) /\
  ((d =? DurabilityRackTolerant)%string = true <-> 3 <= rank d).
Proof.
  unfold durabilities. rewrite !elem_of_cons, elem_of_nil.
  intros [-> | [-> | [-> | [-> | []]]]]; vm_compute; intuition congruence.
Qed.

Lemma Resolve_iff {D} i (b : Backend D) fleet : Resolve i (Some b) fleet = None <->
  well_formed i /\ (2 <= rank (IDurability (WithDefaults i)) -> Supports Replicate b = true) /\
  (3 <= rank (IDurability (WithDefaults i)) -> KnowsRacks fleet = true).
Proof.
  unfold Resolve. rewrite <- Intent_Validate_iff. destruct (Intent_Validate i) as [e|] eqn:V; [by split; [|intros [? _]]|].
  apply Intent_Validate_iff in V as (Kd & _). unfold Needs. rewrite WithDefaults_idem.
  destruct (rank_at_least _ Kd) as [<- <-].
  destruct (is_one_of _ _), (IDurability _ =? DurabilityRackTolerant)%string, (KnowsRacks fleet); simpl;
    try destruct (Supports Replicate b); simpl; intuition congruence.
Qed.

(** What is short of the floor is raised to it, and nothing else is. *)
Lemma Apply_raises f i :
  (if (IDurability (Apply f i) =? IDurability (WithDefaults i))%string then "" else IDurability (Apply f i))%string =
  if decide (IDurability (WithDefaults i) ∈ durabilities /\ rank (IDurability (WithDefaults i)) < rank (FDurability f))
  then FDurability f else ""%string.
Proof.
  pose proof (durabilityRank_known (IDurability (WithDefaults i))) as K. unfold Apply.
  destruct (durabilityRank (IDurability (WithDefaults i))) as [k|] eqn:E.
  2: { rewrite String.eqb_refl, decide_False; [done|]. intros [[? [=]]%K _]. }
  assert (rank (IDurability (WithDefaults i)) = k) as Rk by (unfold rank; by rewrite E). change (default 0 (durabilityRank (FDurability f))) with (rank (FDurability f)). destruct (Z.ltb_spec k (rank (FDurability f))) as [L|L].
  - rewrite decide_True by (split; [apply K; by eexists|lia]). cbn [IDurability].
    destruct (String.eqb_spec (FDurability f) (IDurability (WithDefaults i))) as [X|_]; [|done].
    exfalso. rewrite X in L. lia.
  - rewrite String.eqb_refl, decide_False; [done|]. intros [_ X]. lia.
Qed.

(** What is refused is said in words. *)
Lemma IntentErr_says `{Quoting} e : IntentErr_Error e <> ""%string.
Proof. destruct e; simpl; unfold unpublished, Unsatisfiable_Error; discriminate. Qed.

(** resolving an intent under an administrator's floor succeeds exactly when it
    can be met. Nothing outside the vocabulary or contradicting itself resolves;
    otherwise the stronger of what was asked and the floor decides: a backend that
    replicates is needed for anything above its own guarantee, and a fleet that
    knows its racks for tolerating one. The floor leaves latency and cost as they
    were declared, and raising twice is raising once. *)
Theorem resolves_iff_met {D} i (b : Backend D) fleet f :
  let raised := Apply f i in
  (Resolve raised (Some b) fleet = None <->
   well_formed i /\
   (2 <= Z.max (rank (IDurability (WithDefaults i))) (rank (FDurability f)) -> Supports Replicate b = true) /\
   (3 <= Z.max (rank (IDurability (WithDefaults i))) (rank (FDurability f)) -> KnowsRacks fleet = true)) /\
  ILatency raised = ILatency (WithDefaults i) /\ ICost raised = ICost (WithDefaults i) /\
  Apply f raised = raised.
Proof.
  cbv zeta. destruct (Apply_spec f i) as (Wd & La & Co & Kn & Rk). split_and!; try done.
  - rewrite Resolve_iff. unfold well_formed. rewrite Wd, La, Co, Kn.
    assert (ICost (WithDefaults i) = CostCheapest /\ ILatency (WithDefaults i) = LatencyCached <->
      ICost i = CostCheapest /\ ILatency i = LatencyCached) as -> by (simpl; by rewrite !or_default_other).
    split; intros (W & R2 & R3); destruct W as [K W]; rewrite ?(Rk K) in *; rewrite <- ?(Rk K) in *; auto.
  - unfold Apply at 1. rewrite Wd. destruct (durabilityRank (IDurability (Apply f i))) as [a|] eqn:E; [|done].
    assert (IDurability (WithDefaults i) ∈ durabilities) as K by (apply Kn, durabilityRank_known; by rewrite E).
    specialize (Rk K). unfold rank in Rk. rewrite E in Rk. simpl in Rk.
    rewrite (proj2 (Z.ltb_ge _ _)) by lia. done.
Qed.
