(* ===== verification/Residence.v ===== *)
(** * Residence: where a version's bytes may be (internal/residence/residence.go) *)

From S2P Require Import Prelude GoStrings.

Abbreviation Region := string (only parsing).

Inductive ResidenceErr : Type :=
  | ErrDenied (r : Region)
  | ErrNotAllowed (r : Region) (allowed : string)
  | ErrUnnamed.

Record Policy : Type := mkPolicy {
  Allowed : list Region;
  Denied : list Region;
}.

Definition names (rs : list Region) (r : Region) : bool := existsb (fun x => (x =? r)%string) rs.

Definition list_ (rs : list Region) : string := Join ", " (sort_Strings rs).

Definition Permits (p : Policy) (r : Region) : option ResidenceErr :=
  if (TrimSpace r =? "")%string then Some ErrUnnamed
  else if names (Denied p) r then Some (ErrDenied r)
  else match Allowed p with
       | [] => None
       | _ => if names (Allowed p) r then None else Some (ErrNotAllowed r (list_ (Allowed p)))
       end.

(** Which end was refused. *)
Inductive TransferErr : Type :=
  | Origin (e : ResidenceErr)
  | Destination (e : ResidenceErr).

Definition Transfer (p : Policy) (from to : Region) : option TransferErr :=
  match Permits p from with
  | Some e => Some (Origin e)
  | None => Destination <$> Permits p to
  end.

Definition Breaches (p : Policy) (at_ : list Region) : list Region :=
  sort_Strings (List.filter (fun r => match Permits p r with None => false | Some _ => true end) at_).

(** ** Policies *)

Definition permitted (p : Policy) (r : Region) : Prop :=
  TrimSpace r <> ""%string /\ r ∉ Denied p /\ (Allowed p = [] \/ r ∈ Allowed p).

Lemma names_iff rs r : names rs r = true <-> r ∈ rs.
Proof.
  unfold names. rewrite existsb_exists, list_elem_of_In. split.
  - intros (v & Hv & E%String.eqb_eq). by subst.
  - intros Hs. exists r. by rewrite String.eqb_refl.
Qed.

Lemma Permits_iff p r : Permits p r = None <-> permitted p r.
Proof.
  unfold Permits, permitted. destruct (String.eqb_spec (TrimSpace r) ""); [naive_solver|].
  rewrite <- names_iff. destruct (names (Denied p) r); [naive_solver|].
  destruct (Allowed p) as [|a l]; [naive_solver|]. rewrite <- names_iff.
  destruct (names (a :: l) r); naive_solver.
Qed.

(** A prohibition wins, an allowance confines, and a region nothing names is no
    destination; a transfer needs both ends; and the regions in breach are exactly
    those a version is at and may not be, in order. *)
Theorem residence_decided p from to at_ :
  (Transfer p from to = None <-> permitted p from /\ permitted p to) /\
  (forall r, r ∈ Breaches p at_ <-> r ∈ at_ /\ ~ permitted p r) /\
  Sorted (fun s t => str_leb s t = true) (Breaches p at_).
Proof.
  split_and!.
  - unfold Transfer. rewrite <- !Permits_iff. destruct (Permits p from), (Permits p to); simpl; naive_solver.
  - intros r. unfold Breaches. rewrite sort_Strings_Permutation, !list_elem_of_In, filter_In, <- Permits_iff.
    destruct (Permits p r); naive_solver.
  - apply Sorted_merge_sort. apply _.
Qed.
