(* ===== verification/Lineage.v ===== *)
(** * Lineage: what produced what (internal/lineage/lineage.go)

    A graph of nodes and claims, and the query for a thing's ancestry. Kinds,
    bases and relations are Go integers, so a value outside the named ones is
    possible and is refused where the code refuses it. *)

From S2P Require Import Prelude.

Local Open Scope Z_scope.

Abbreviation Kind := Z (only parsing).
Definition Version : Kind := 0.
Definition Run : Kind := 1.
Definition Checkpoint : Kind := 2.
Definition Model : Kind := 3.

Abbreviation Basis := Z (only parsing).
Definition Declared_ : Basis := 0.
Definition Observed_ : Basis := 1.

Abbreviation Relation := Z (only parsing).
Definition Read : Relation := 0.
Definition Produced : Relation := 1.
Definition Promoted : Relation := 2.

Record Node : Type := mkNode {
  NID : string;
  NKind : Kind;
  Digest : string;
  Retrievable : bool;
}.
Record Edge : Type := mkEdge {
  From : string;
  To : string;
  ERelation : Relation;
  EBasis : Basis;
}.

#[global] Instance Node_eq_dec : EqDecision Node.
Proof. solve_decision. Defined.
#[global] Instance Edge_eq_dec : EqDecision Edge.
Proof. solve_decision. Defined.

(** [NoFuel] is no error of the code: it is what the traversal would return were
    its fuel not enough. *)
Inductive LineageErr : Type :=
  | ErrNoIdentity
  | ErrNoSuchNode (id : string)
  | ErrDuplicate (id : string)
  | ErrWrongKinds
  | ErrNotObservable
  | NoFuel.

(** The kinds a relation runs between. *)
Definition allowed (r : Relation) : option (Kind * Kind) :=
  if r =? Read then Some (Run, Version)
  else if r =? Produced then Some (Run, Checkpoint)
  else if r =? Promoted then Some (Checkpoint, Model)
  else None.

Record Graph : Type := mkGraph {
  nodes : gmap string Node;
  out : gmap string (list Edge);
}.

Definition New : Graph := {| nodes := ∅; out := ∅ |}.

Definition Add (n : Node) (g : Graph) : result LineageErr Graph :=
  if (NID n =? "")%string then Err ErrNoIdentity
  else match nodes g !! NID n with
       | Some _ => Err (ErrDuplicate (NID n))
       | None => Ok {| nodes := <[NID n := n]> (nodes g); out := out g |}
       end.

Definition Link (e : Edge) (g : Graph) : result LineageErr Graph :=
  match nodes g !! From e, nodes g !! To e with
  | None, _ => Err (ErrNoSuchNode (From e))
  | _, None => Err (ErrNoSuchNode (To e))
  | Some from, Some to =>
      let refuse := Err ErrWrongKinds in
      match allowed (ERelation e) with
      | None => refuse
      | Some (kf, kt) =>
          if negb (NKind from =? kf) || negb (NKind to =? kt) then refuse
          else if (ERelation e =? Promoted) && (EBasis e =? Observed_) then Err ErrNotObservable
          else Ok {| nodes := nodes g;
                     out := <[From e := default [] (out g !! From e) ++ [e]]> (out g) |}
      end
  end.

(** ** Ancestry *)

Record Answer : Type := mkAnswer {
  Nodes : list Node;
  Edges : list Edge;
  Observed : Z;
  Asserted : Z;
  Unretrievable : list string;
}.

Definition Complete (a : Answer) : bool := (Asserted a =? 0) && (0 <? Observed a).

(** Every claim, in the order a walk of the map meets it. *)
Definition all_edges (g : Graph) : list Edge := concat (map_to_list (out g)).*2.

(** The claims by what they point at. *)
Definition incoming (g : Graph) : gmap string (list Edge) :=
  fold_left (fun m e => <[To e := default [] (m !! To e) ++ [e]]> m) (all_edges g) ∅.

Definition ancestorEdges (g : Graph) (at_ : string) (inc : gmap string (list Edge)) : list Edge :=
  List.filter (fun e => ERelation e =? Read) (default [] (out g !! at_)) ++
  List.filter (fun e => negb (ERelation e =? Read)) (default [] (inc !! at_)).

(** The ancestor an edge of a node leads to. *)
Definition next_of (e : Edge) : string := if ERelation e =? Read then To e else From e.

(** The inner loop: the claims of one node, and the stack, newest first. *)
Fixpoint claims (es : list Edge) (a : Answer) (seen : gset string) (stack : list string)
  : Answer * gset string * list string :=
  match es with
  | [] => (a, seen, stack)
  | e :: es =>
      let a := {| Nodes := Nodes a; Edges := Edges a ++ [e];
                  Observed := if EBasis e =? Observed_ then Observed a + 1 else Observed a;
                  Asserted := if EBasis e =? Observed_ then Asserted a else Asserted a + 1;
                  Unretrievable := Unretrievable a |} in
      let next := next_of e in
      if bool_decide (next ∈ seen) then claims es a seen stack
      else claims es a ({[next]} ∪ seen) (next :: stack)
  end.

(** A name that is not in the graph reads as the zero node. *)
Definition zero_Node : Node := {| NID := ""; NKind := Version; Digest := ""; Retrievable := false |}.
Definition visit (g : Graph) (at_ : string) (a : Answer) : Answer :=
  let n := default zero_Node (nodes g !! at_) in
  {| Nodes := Nodes a ++ [n]; Edges := Edges a; Observed := Observed a; Asserted := Asserted a;
     Unretrievable := if (NKind n =? Version) && negb (Retrievable n)
                      then Unretrievable a ++ [NID n] else Unretrievable a |}.

Fixpoint traverse (fuel : nat) (g : Graph) (inc : gmap string (list Edge)) (a : Answer)
    (seen : gset string) (stack : list string) : option Answer :=
  match stack with
  | [] => Some a
  | at_ :: stack =>
      match fuel with
      | O => None
      | S fuel =>
          let '(a, seen, stack) := claims (ancestorEdges g at_ inc) (visit g at_ a) seen stack in
          traverse fuel g inc a seen stack
      end
  end.

(** [sort.Slice]: nothing is said of the order of equals. *)
Definition node_le (m n : Node) : Prop := str_leb (NID m) (NID n) = true.
Definition edge_le (d e : Edge) : Prop :=
  if decide (From d = From e) then str_leb (To d) (To e) = true
  else str_ltb (From d) (From e) = true.
#[global] Instance node_le_dec : RelDecision node_le.
Proof. intros m n. apply bool_eq_dec. Defined.
#[global] Instance edge_le_dec : RelDecision edge_le.
Proof. intros d e. unfold edge_le, Decision. destruct (decide _); apply bool_eq_dec. Defined.

Definition no_Answer : Answer :=
  {| Nodes := []; Edges := []; Observed := 0; Asserted := 0; Unretrievable := [] |}.

(** Each node is visited once, so one turn per node is enough. *)
Definition Ancestry (id : string) (g : Graph) : result LineageErr Answer :=
  match nodes g !! id with
  | None => Err (ErrNoSuchNode id)
  | Some _ =>
      match traverse (size (nodes g)) g (incoming g) no_Answer {[id]} [id] with
      | None => Err NoFuel
      | Some a => Ok {| Nodes := merge_sort node_le (Nodes a);
                        Edges := merge_sort edge_le (Edges a);
                        Observed := Observed a; Asserted := Asserted a;
                        Unretrievable := sort_Strings (Unretrievable a) |}
      end
  end.

Definition Kind_String (k : Kind) : string :=
  if k =? Version then "version" else if k =? Run then "run"
  else if k =? Checkpoint then "checkpoint" else if k =? Model then "model" else "unknown".
Definition Basis_String (b : Basis) : string := if b =? Observed_ then "observed" else "declared".
Definition Relation_String (r : Relation) : string :=
  if r =? Read then "read" else if r =? Produced then "produced"
  else if r =? Promoted then "promoted" else "unknown".

(** * What a graph may claim, and what a query answers

    A graph is what [Add] and [Link] make of an empty one. *)

(** ** Graphs *)

Definition edge_ok (g : Graph) (e : Edge) : Prop := exists from to,
  nodes g !! From e = Some from /\ nodes g !! To e = Some to /\
  allowed (ERelation e) = Some (NKind from, NKind to) /\
  ~ (ERelation e = Promoted /\ EBasis e = Observed_).

Record graph_ok (g : Graph) : Prop := {
  go_ids : forall id n, nodes g !! id = Some n -> NID n = id;
  go_out : forall f es e, out g !! f = Some es -> e ∈ es -> From e = f /\ edge_ok g e;
}.

Inductive gstep : Graph -> Graph -> Prop :=
  | gs_Add n g g' : Add n g = Ok g' -> gstep g g'
  | gs_Link e g g' : Link e g = Ok g' -> gstep g g'.

Lemma edge_ok_more g n e : nodes g !! NID n = None -> edge_ok g e ->
  edge_ok {| nodes := <[NID n := n]> (nodes g); out := out g |} e.
Proof.
  intros N (f & t & Ef & Et & A & P). exists f, t. simpl.
  rewrite !lookup_insert_ne by congruence. done.
Qed.

Lemma Link_spec e g g' : Link e g = Ok g' ->
  edge_ok g e /\ g' = {| nodes := nodes g; out := <[From e := default [] (out g !! From e) ++ [e]]> (out g) |}.
Proof.
  unfold Link, edge_ok. destruct (nodes g !! From e) as [f|]; [|done].
  destruct (nodes g !! To e) as [t|]; [|done]. destruct (allowed _) as [[kf kt]|]; [|done].
  destruct (Z.eqb_spec (NKind f) kf) as [<-|]; [|done]. destruct (Z.eqb_spec (NKind t) kt) as [<-|]; [|done].
  simpl. destruct (Z.eqb_spec (ERelation e) Promoted), (Z.eqb_spec (EBasis e) Observed_); simpl; try done;
    intros [= <-]; (split; [|done]); exists f, t; naive_solver.
Qed.

Lemma gstep_ok g g' : graph_ok g -> gstep g g' -> graph_ok g'.
Proof.
  intros G S. revert G. destruct S as [n g0 g1 A|e g0 g1 L]; intros [I O].
  - unfold Add in A. destruct (NID n =? "")%string; [done|]. destruct (nodes g0 !! NID n) eqn:N; [done|].
    injection A as <-. split; simpl.
    + intros id m [[<- <-]|[? E]]%lookup_insert_Some; [done|by apply I].
    + intros f es e E H. destruct (O f es e E H). split; [done|by apply edge_ok_more].
  - apply Link_spec in L as [E ->]. split; [done|]. simpl.
    intros f es d [[<- <-]|[? Es]]%lookup_insert_Some Hd; [|by apply (O f es)].
    apply elem_of_app in Hd as [Hd|Hd%list_elem_of_singleton]; [|by subst].
    destruct (out g0 !! From e) as [es|] eqn:Es; [by apply (O _ es)|]. by apply not_elem_of_nil in Hd.
Qed.

Lemma built_ok g : rtc gstep New g -> graph_ok g.
Proof.
  assert (graph_ok New) as I by (split; intros *; [intros [=]|intros [=]]).
  intros R. revert I. induction R; [done|]. intros I. by eapply IHR, gstep_ok.
Qed.

Lemma elem_of_all_edges g e : graph_ok g ->
  e ∈ all_edges g <-> e ∈ default [] (out g !! From e).
Proof.
  intros [_ O]. unfold all_edges. rewrite list_elem_of_In, in_concat. setoid_rewrite <- list_elem_of_In.
  setoid_rewrite list_elem_of_fmap. split.
  - intros (es & ([f es'] & -> & Hm) & He). apply elem_of_map_to_list in Hm.
    destruct (O f es' e Hm He) as [<- _]. by rewrite Hm.
  - destruct (out g !! From e) as [es|] eqn:E; [|by intros ?%not_elem_of_nil]. intros He.
    exists es. split; [|done]. exists (From e, es). split; [done|]. by apply elem_of_map_to_list.
Qed.

Lemma all_edges_ok g e : graph_ok g -> e ∈ all_edges g -> edge_ok g e.
Proof.
  intros G He. apply elem_of_all_edges in He; [|done]. destruct G as [_ O].
  destruct (out g !! From e) eqn:E; [by eapply O|by apply not_elem_of_nil in He].
Qed.

(** How far a kind is from a run, along claims. *)
Definition rank (k : Z) : Z := if k =? Run then 0 else if k =? Model then 2 else 1.

Definition claim (g : Graph) (x y : string) : Prop := exists e, e ∈ all_edges g /\ From e = x /\ To e = y.

Lemma allowed_rank r kf kt : allowed r = Some (kf, kt) -> rank kf < rank kt.
Proof. unfold allowed. repeat case_if; intros [= <- <-]; vm_compute; done. Qed.

Lemma claims_rank g x y : graph_ok g -> tc (claim g) x y ->
  exists nx ny, nodes g !! x = Some nx /\ nodes g !! y = Some ny /\ rank (NKind nx) < rank (NKind ny).
Proof.
  intros G. assert (forall x y, claim g x y -> exists nx ny,
    nodes g !! x = Some nx /\ nodes g !! y = Some ny /\ rank (NKind nx) < rank (NKind ny)) as One.
  { intros u v (e & He & <- & <-). apply all_edges_ok in He as (f & t & Ef & Et & A & _); [|done].
    exists f, t. split_and!; [done..|]. by apply allowed_rank in A. }
  induction 1 as [x y C|x y z C T IH]; [by apply One|].
  destruct (One _ _ C) as (nx & ny & Ex & Ey & L), IH as (ny' & nz & Ey' & Ez & L').
  exists nx, nz. split_and!; [done..|]. rewrite Ey in Ey'. injection Ey' as <-. lia.
Qed.

(** C38: a graph claims only what the model has a meaning for. Whatever was added
    and linked, each claim is between nodes the graph holds, of the kinds its
    relation runs between; no promotion is recorded as observed; and no chain of
    claims leads from a thing back to itself. *)
Theorem graph_sound g : rtc gstep New g ->
  (forall e, e ∈ all_edges g -> edge_ok g e) /\ (forall x, ~ tc (claim g) x x).
Proof.
  intros G%built_ok. split; [intros e He; by apply all_edges_ok|].
  intros x T. apply claims_rank in T as (n & n' & E & E' & L); [|done].
  rewrite E in E'. injection E' as <-. lia.
Qed.

(** ** The claims of a node *)

(** The node whose ancestry a claim is about. *)
Definition child_of (e : Edge) : string := if ERelation e =? Read then From e else To e.

Definition parent (g : Graph) (x y : string) : Prop :=
  exists e, e ∈ all_edges g /\ child_of e = x /\ next_of e = y.

Definition about (x : string) (e : Edge) : bool := (child_of e =? x)%string.

Lemma incoming_lookup g x :
  default [] (incoming g !! x) = List.filter (fun e => (To e =? x)%string) (all_edges g).
Proof.
  unfold incoming. generalize (all_edges g). intros es.
  assert (forall m : gmap string (list Edge), default [] (fold_left (fun m e => <[To e := default [] (m !! To e) ++ [e]]> m) es m !! x)
    = default [] (m !! x) ++ List.filter (fun e => (To e =? x)%string) es) as F.
  { induction es as [|e es IH]; intros m; simpl; [by rewrite app_nil_r|]. rewrite IH.
    destruct (String.eqb_spec (To e) x) as [<-|N].
    - rewrite lookup_insert_eq. simpl. by rewrite <- app_assoc.
    - by rewrite lookup_insert_ne by done. }
  by rewrite F, lookup_empty.
Qed.

Lemma filter_concat_one (m : list (string * list Edge)) x :
  (forall k es e, (k, es) ∈ m -> e ∈ es -> From e = k) -> NoDup m.*1 ->
  List.filter (fun e => (From e =? x)%string) (concat m.*2) ≡ₚ
  default [] ((list_to_map m : gmap string (list Edge)) !! x).
Proof.
  induction m as [|[k es] m IH]; intros K N; simpl; [done|]. apply NoDup_cons in N as [Nk N].
  rewrite List.filter_app. assert (forall e, e ∈ es -> From e = k) as Ke by (intros e; apply (K k es); left).
  specialize (IH ltac:(intros ?????; eapply K; [by right|done]) N).
  destruct (decide (k = x)) as [->|Nx].
  - rewrite lookup_insert_eq. simpl. rewrite IH, (not_elem_of_list_to_map_1 _ _ Nk). simpl. rewrite app_nil_r.
    clear -Ke. induction es as [|e es IH]; [done|]. simpl. rewrite (Ke e) by left. rewrite String.eqb_refl.
    constructor. apply IH. intros d Hd. apply Ke. by right.
  - rewrite lookup_insert_ne, <- IH by done.
    assert (List.filter (fun e => (From e =? x)%string) es = []) as ->; [|done].
    clear -Ke Nx. induction es as [|e es IH]; [done|]. simpl. rewrite (Ke e) by left.
    rewrite (proj2 (String.eqb_neq k x)) by done. apply IH. intros d Hd. apply Ke. by right.
Qed.

Lemma out_lookup g x : graph_ok g ->
  List.filter (fun e => (From e =? x)%string) (all_edges g) ≡ₚ default [] (out g !! x).
Proof.
  intros [_ O]. unfold all_edges. rewrite filter_concat_one.
  - by rewrite list_to_map_to_list.
  - intros k es e Hk He. apply elem_of_map_to_list in Hk. by apply (O k es e).
  - apply NoDup_fst_map_to_list.
Qed.

Lemma filter_filter (f h : Edge -> bool) l :
  List.filter f (List.filter h l) = List.filter (fun e => h e && f e) l.
Proof. induction l as [|e l IH]; simpl; [done|]. destruct (h e); simpl; [|done]. by rewrite IH. Qed.

Lemma filter_Permutation (f : Edge -> bool) l k : l ≡ₚ k -> List.filter f l ≡ₚ List.filter f k.
Proof. induction 1; simpl; repeat case_match; try constructor; try done. by etransitivity. Qed.

Lemma filter_split (f h : Edge -> bool) l :
  List.filter (fun e => h e && f e) l ++ List.filter (fun e => h e && negb (f e)) l ≡ₚ List.filter h l.
Proof.
  induction l as [|e l IH]; simpl; [done|]. destruct (h e); simpl; [|done]. destruct (f e); simpl.
  - by constructor.
  - rewrite <- Permutation_middle. by constructor.
Qed.

(** What the traversal collects at a node is every claim about it. *)
Lemma ancestorEdges_about g x : graph_ok g ->
  ancestorEdges g x (incoming g) ≡ₚ List.filter (about x) (all_edges g).
Proof.
  intros G. unfold ancestorEdges. rewrite incoming_lookup.
  rewrite (filter_Permutation (fun e => ERelation e =? Read) (default [] (out g !! x))
    (List.filter (fun e => (From e =? x)%string) (all_edges g))) by (symmetry; by apply out_lookup).
  rewrite !filter_filter, <- (filter_split (fun e => ERelation e =? Read) (about x)).
  apply reflexive_eq. f_equal; apply List.filter_ext; intros e; unfold about, child_of;
    destruct (ERelation e =? Read); simpl; by rewrite ?andb_true_r, ?andb_false_r.
Qed.

(** ** The traversal *)

Definition count_basis (es : list Edge) : Z := zlen (List.filter (fun e => EBasis e =? Observed_) es).

(** The account an answer keeps of its claims. *)
Definition counted (a : Answer) : Prop :=
  Observed a = count_basis (Edges a) /\ Asserted a = zlen (Edges a) - count_basis (Edges a).

Lemma claims_spec es : forall a seen stack, counted a ->
  exists a' new, claims es a seen stack = (a', list_to_set new ∪ seen, new ++ stack) /\
    counted a' /\ Nodes a' = Nodes a /\ Unretrievable a' = Unretrievable a /\ Edges a' = Edges a ++ es /\
    NoDup new /\ (forall x, x ∈ new -> x ∉ seen /\ x ∈ next_of <$> es) /\
    (forall e, e ∈ es -> next_of e ∈ new \/ next_of e ∈ seen).
Proof.
  induction es as [|e es IH]; intros a seen stack C; cbn [claims].
  { exists a, []. rewrite app_nil_r. split_and!; try done; [|constructor|set_solver..].
    f_equal. f_equal. set_solver. }
  set (a1 := {| Nodes := Nodes a; Edges := Edges a ++ [e]; Observed := _; Asserted := _; Unretrievable := _ |}).
  assert (counted a1) as C1.
  { destruct C as [Co Ca]. unfold counted, a1, count_basis in *. simpl. rewrite List.filter_app, !zlen_app.
    change (zlen [e]) with 1. simpl. case_if; simpl; change (zlen [e]) with 1; change (zlen (@nil Edge)) with 0; lia. }
  case_bool_decide as B.
  - destruct (IH a1 seen stack C1) as (a' & new & -> & C' & N & U & E & Nd & Fresh & All).
    exists a', new. split_and!; [done..| | | |].
    + rewrite E. unfold a1. simpl. by rewrite <- app_assoc.
    + done.
    + intros x Hx. destruct (Fresh x Hx). split; [done|]. rewrite fmap_cons. by right.
    + intros d [-> | Hd]%elem_of_cons; [by right|by apply All].
  - destruct (IH a1 ({[next_of e]} ∪ seen) (next_of e :: stack) C1) as (a' & new & -> & C' & N & U & E & Nd & Fresh & All).
    exists a', (new ++ [next_of e]). split_and!; [|done..| | | |].
    + f_equal; [f_equal; set_solver|]. by rewrite <- app_assoc.
    + rewrite E. unfold a1. simpl. by rewrite <- app_assoc.
    + apply NoDup_app. split_and!; [done| |apply NoDup_singleton].
      intros x Hx Hs. apply list_elem_of_singleton in Hs as ->. destruct (Fresh _ Hx). set_solver.
    + intros x [Hx|Hx%list_elem_of_singleton]%elem_of_app.
      * destruct (Fresh x Hx). split; [set_solver|]. rewrite fmap_cons. by right.
      * subst x. split; [done|]. rewrite fmap_cons. by left.
    + intros d [-> | Hd]%elem_of_cons; [left; set_solver|]. destruct (All d Hd); set_solver.
Qed.

Section traversal.
Context (g : Graph) (G : graph_ok g) (start : string).

Definition node_at (x : string) : Node := default zero_Node (nodes g !! x).

(** After [done_] has been visited, with [stack] waiting. *)
Record visiting (done_ : list string) (a : Answer) (seen : gset string) (stack : list string) : Prop := {
  vi_nodup : NoDup (done_ ++ stack);
  vi_seen : seen = list_to_set (done_ ++ stack);
  vi_reach : forall x, x ∈ done_ ++ stack -> is_Some (nodes g !! x) /\ rtc (parent g) start x;
  vi_closed : forall x y, x ∈ done_ -> parent g x y -> y ∈ done_ ++ stack;
  vi_start : start ∈ done_ ++ stack;
  vi_counted : counted a;
  vi_nodes : Nodes a = node_at <$> done_;
  vi_edges : Edges a = concat ((fun x => ancestorEdges g x (incoming g)) <$> done_);
  vi_gone : Unretrievable a =
    NID <$> List.filter (fun n => (NKind n =? Version) && negb (Retrievable n)) (Nodes a);
}.

Lemma elem_of_ancestorEdges x e :
  e ∈ ancestorEdges g x (incoming g) <-> e ∈ all_edges g /\ child_of e = x.
Proof.
  rewrite (ancestorEdges_about g x G), !list_elem_of_In, filter_In. unfold about. by rewrite String.eqb_eq.
Qed.

Lemma parent_node x y : parent g x y -> is_Some (nodes g !! y).
Proof.
  intros (e & He & _ & <-). destruct (all_edges_ok g e G He) as (f & t & Ef & Et & _).
  unfold next_of. case_if; by eexists.
Qed.

Lemma visit_step done_ a seen at_ stack :
  visiting done_ a seen (at_ :: stack) ->
  exists a' new, claims (ancestorEdges g at_ (incoming g)) (visit g at_ a) seen stack
    = (a', list_to_set new ∪ seen, new ++ stack) /\
    visiting (done_ ++ [at_]) a' (list_to_set new ∪ seen) (new ++ stack).
Proof.
  intros [Nd Se Re Cl St Co No Ed Go].
  destruct (claims_spec (ancestorEdges g at_ (incoming g)) (visit g at_ a) seen stack Co)
    as (a' & new & E & C' & N & U & Es & Ndn & Fresh & All).
  exists a', new. split; [done|].
  assert (at_ ∈ done_ ++ at_ :: stack) as Ha by set_solver. destruct (Re at_ Ha) as [_ Ra].
  assert (forall x, x ∈ new -> parent g at_ x) as Par.
  { intros x Hx. destruct (Fresh x Hx) as [_ (e & -> & He)%list_elem_of_fmap].
    apply elem_of_ancestorEdges in He as [He <-]. by exists e. }
  assert ((done_ ++ [at_]) ++ new ++ stack ≡ₚ new ++ done_ ++ at_ :: stack) as Perm by solve_Permutation.
  split.
  - rewrite Perm. apply NoDup_app. split_and!; [done| |done]. intros x Hx Hs. destruct (Fresh x Hx) as [F _].
    apply F. rewrite Se. by apply elem_of_list_to_set.
  - rewrite Se. set_solver.
  - intros x. rewrite Perm. intros [Hx|Hx]%elem_of_app; [|by apply Re].
    apply Par in Hx. split; [by eapply parent_node|]. by eapply rtc_r.
  - intros x y [Hx|Hx%list_elem_of_singleton]%elem_of_app P; rewrite Perm.
    + apply elem_of_app. right. by eapply Cl.
    + subst x. destruct P as (e & He & Ce & <-). destruct (All e) as [?|Hs].
      { by apply elem_of_ancestorEdges. }
      * apply elem_of_app. by left.
      * apply elem_of_app. right. rewrite Se in Hs. by apply elem_of_list_to_set in Hs.
  - rewrite Perm. apply elem_of_app. by right.
  - done.
  - rewrite N. simpl. rewrite No, fmap_app. done.
  - rewrite Es. simpl. rewrite Ed, fmap_app, concat_app. simpl. by rewrite app_nil_r.
  - rewrite U, N. simpl. rewrite Go, List.filter_app, fmap_app. simpl.
    unfold node_at. case_if; [done|by rewrite app_nil_r].
Qed.

(** Every name on the way is a node, and each is visited once. *)
Lemma visiting_size done_ a seen stack : visiting done_ a seen stack ->
  (length done_ + length stack <= size (nodes g))%nat.
Proof.
  intros [Nd _ Re _ _ _ _ _ _]. rewrite <- length_app, <- size_dom, <- (size_list_to_set (C := gset string) _ Nd).
  apply subseteq_size. intros x Hx%elem_of_list_to_set. apply elem_of_dom. by apply Re.
Qed.

Lemma traverse_visits fuel : forall done_ a seen stack,
  visiting done_ a seen stack -> (size (nodes g) <= length done_ + fuel)%nat ->
  exists a' all seen', traverse fuel g (incoming g) a seen stack = Some a' /\ visiting all a' seen' [].
Proof.
  induction fuel as [|fuel IH]; intros done_ a seen stack V L.
  - pose proof (visiting_size _ _ _ _ V). destruct stack; [by exists a, done_, seen|simpl in *; lia].
  - destruct stack as [|at_ stack]; [by exists a, done_, seen|]. cbn [traverse].
    destruct (visit_step _ _ _ _ _ V) as (a' & new & -> & V'). apply (IH _ _ _ _ V').
    rewrite length_app. simpl. lia.
Qed.
End traversal.

Lemma concat_about g xs : graph_ok g -> NoDup xs ->
  concat ((fun x => ancestorEdges g x (incoming g)) <$> xs)
  ≡ₚ List.filter (fun e => bool_decide (child_of e ∈ xs)) (all_edges g).
Proof.
  intros G. induction 1 as [|x xs Nx N IH]; simpl.
  - by induction (all_edges g).
  - rewrite IH, (ancestorEdges_about g x G). clear IH N. induction (all_edges g) as [|e es IH]; [done|]. simpl.
    unfold about at 1. destruct (String.eqb_spec (child_of e) x) as [E|E].
    + rewrite (bool_decide_true (child_of e ∈ x :: xs)) by set_solver.
      rewrite (bool_decide_false (child_of e ∈ xs)) by congruence. simpl. by constructor.
    + destruct (decide (child_of e ∈ xs)).
      * rewrite !bool_decide_true by set_solver. rewrite <- Permutation_middle. by constructor.
      * rewrite !bool_decide_false by set_solver. done.
Qed.

Lemma visiting_start g id n : nodes g !! id = Some n -> visiting g id [] no_Answer {[id]} [id].
Proof.
  intros E. split; simpl; try done.
  - apply NoDup_singleton.
  - set_solver.
  - intros x Hx%list_elem_of_singleton. subst x. by rewrite E.
  - intros x y Hx. by apply not_elem_of_nil in Hx.
  - by left.
Qed.

Lemma visited_exactly g id all a seen : visiting g id all a seen [] ->
  forall x, x ∈ all <-> rtc (parent g) id x.
Proof.
  intros [_ _ Re Cl St _ _ _ _] x. rewrite !app_nil_r in *. split; [intros Hx; apply Re; by rewrite ?app_nil_r|].
  intros R. assert (forall y z, rtc (parent g) y z -> y ∈ all -> z ∈ all) as K; [|by apply (K id)].
  clear R x. intros y z R. induction R as [|y z u P R IH]; [done|]. intros Hy. apply IH.
  pose proof (Cl y z Hy P) as H. by rewrite ?app_nil_r in H.
Qed.

#[global] Instance node_le_total : Total node_le.
Proof. intros m n. apply str_leb_total. Qed.
#[global] Instance edge_le_total : Total edge_le.
Proof.
  intros d e. unfold edge_le. destruct (decide (From d = From e)) as [E|N].
  - rewrite decide_True by done. apply str_leb_total.
  - rewrite decide_False by congruence. by apply str_ltb_total.
Qed.

(** C37: a query answers with everything a thing came from, and with nothing else.
    On any graph that was built, asking for the ancestry of a node it holds
    returns: each node reachable by what runs read, what produced a checkpoint
    and what was promoted, once, in order of identity; every claim about one of
    them, as often as it was recorded, in order of what it joins; how many of those were observed and how
    many asserted; and the versions among them whose bytes are gone. *)
Theorem Ancestry_exact g id : rtc gstep New g ->
  match nodes g !! id with
  | None => Ancestry id g = Err (ErrNoSuchNode id)
  | Some _ => exists a xs, Ancestry id g = Ok a /\
      NoDup xs /\ (forall x, x ∈ xs <-> rtc (parent g) id x) /\
      Nodes a ≡ₚ node_at g <$> xs /\ Sorted node_le (Nodes a) /\
      (forall x, x ∈ xs -> exists n, nodes g !! x = Some n /\ NID n = x /\ n ∈ Nodes a) /\
      Sorted edge_le (Edges a) /\
      Edges a ≡ₚ List.filter (fun e => bool_decide (child_of e ∈ xs)) (all_edges g) /\
      Observed a = count_basis (Edges a) /\ Observed a + Asserted a = zlen (Edges a) /\
      Unretrievable a ≡ₚ NID <$> List.filter (fun n => (NKind n =? Version) && negb (Retrievable n)) (Nodes a)
  end.
Proof.
  intros G%built_ok. unfold Ancestry. destruct (nodes g !! id) as [n|] eqn:E; [|done].
  destruct (traverse_visits g G id (size (nodes g)) [] no_Answer {[id]} [id]) as (a & xs & seen & -> & V).
  { by eapply visiting_start. } { simpl. lia. }
  pose proof (visited_exactly g id xs a seen V) as X. destruct V as [Nd _ Re _ _ [Co Ca] No Ed Go].
  rewrite app_nil_r in *. eexists _, xs. split; [reflexivity|]. simpl.
  assert (Nodes a ≡ₚ merge_sort node_le (Nodes a)) as Pn by (symmetry; apply merge_sort_Permutation).
  assert (merge_sort edge_le (Edges a) ≡ₚ Edges a) as Pe by apply merge_sort_Permutation.
  assert (count_basis (merge_sort edge_le (Edges a)) = count_basis (Edges a)) as Ec.
  { unfold count_basis, zlen. f_equal. apply Permutation_length. by apply filter_Permutation. }
  split_and!; [done|done|..].
  - by rewrite <- Pn, No.
  - apply Sorted_merge_sort. apply _.
  - intros x Hx. destruct (Re x Hx) as [[m Em] _]. exists m. split_and!; [done|by destruct G as [I _]; apply I|].
    rewrite <- Pn, No. apply list_elem_of_fmap. exists x. split; [|done]. unfold node_at. by rewrite Em.
  - apply Sorted_merge_sort. apply _.
  - rewrite Pe, Ed. by apply concat_about.
  - by rewrite Ec.
  - unfold zlen. rewrite (Permutation_length Pe). unfold zlen in *. lia.
  - rewrite sort_Strings_Permutation, Go. apply fmap_Permutation.
    clear -Pn. revert Pn. generalize (merge_sort node_le (Nodes a)). intros l P.
    induction P; simpl; repeat case_match; try constructor; try done. by etransitivity.
Qed.

(** ** A run read a version that is gone, and its checkpoint was promoted *)

Definition example_version : Node := mkNode "v1" Version "d1" false.
Definition example_run : Node := mkNode "r1" Run "d2" true.
Definition example_checkpoint : Node := mkNode "c1" Checkpoint "d3" true.
Definition example_model : Node := mkNode "m1" Model "d4" true.

Definition built (r : result LineageErr Graph) : Graph := match r with Ok g => g | Err _ => New end.
Definition example_nodes : Graph :=
  built (Add example_model (built (Add example_checkpoint (built (Add example_run (built (Add example_version New))))))).
Definition example_graph : Graph :=
  built (Link (mkEdge "c1" "m1" Promoted Declared_) (built (Link (mkEdge "r1" "c1" Produced Observed_)
    (built (Link (mkEdge "r1" "v1" Read Observed_) example_nodes))))).

Lemma built_Add n g : rtc gstep New g -> (exists g', Add n g = Ok g') -> rtc gstep New (built (Add n g)).
Proof. intros R [g' E]. eapply rtc_r; [done|]. rewrite E. by eapply gs_Add. Qed.
Lemma built_Link e g : rtc gstep New g -> (exists g', Link e g = Ok g') -> rtc gstep New (built (Link e g)).
Proof. intros R [g' E]. eapply rtc_r; [done|]. rewrite E. by eapply gs_Link. Qed.

Lemma example_graph_built : rtc gstep New example_graph.
Proof.
  unfold example_graph, example_nodes.
  repeat first [apply built_Link; [|eexists; vm_compute; reflexivity]
               |apply built_Add; [|eexists; vm_compute; reflexivity]]. apply rtc_refl.
Qed.

Lemma graph_sound_witness : rtc gstep New example_graph /\
  mkEdge "c1" "m1" Promoted Declared_ ∈ all_edges example_graph /\
  edge_ok example_graph (mkEdge "c1" "m1" Promoted Declared_).
Proof.
  assert (mkEdge "c1" "m1" Promoted Declared_ ∈ all_edges example_graph) as E by (by apply (bool_decide_unpack _); vm_compute).
  split; [apply example_graph_built|]. split; [exact E|].
  by apply (graph_sound example_graph example_graph_built).
Defined.

Lemma Ancestry_exact_witness : rtc gstep New example_graph /\
  Ancestry "m1" example_graph = Ok {|
    Nodes := [example_checkpoint; example_model; example_run; example_version];
    Edges := [mkEdge "c1" "m1" Promoted Declared_; mkEdge "r1" "c1" Produced Observed_; mkEdge "r1" "v1" Read Observed_];
    Observed := 2; Asserted := 1; Unretrievable := ["v1"] |} /\
  exists xs, NoDup xs /\ (forall x, x ∈ xs <-> rtc (parent example_graph) "m1" x) /\
    Permutation [example_checkpoint; example_model; example_run; example_version] (node_at example_graph <$> xs).
Proof.
  split; [apply example_graph_built|].
  pose proof (Ancestry_exact example_graph "m1" example_graph_built) as A.
  assert (Ancestry "m1" example_graph = Ok {|
    Nodes := [example_checkpoint; example_model; example_run; example_version];
    Edges := [mkEdge "c1" "m1" Promoted Declared_; mkEdge "r1" "c1" Produced Observed_; mkEdge "r1" "v1" Read Observed_];
    Observed := 2; Asserted := 1; Unretrievable := ["v1"] |}) as E by (vm_compute; reflexivity).
  split; [exact E|]. assert (is_Some (nodes example_graph !! "m1")) as [n N] by (vm_compute; by eexists).
  rewrite N in A. destruct A as (a & xs & Ea & Nd & R & P & _). rewrite E in Ea. injection Ea as <-.
  exists xs. split; [exact Nd|]. split; [exact R|exact P].
Defined.
