(* ===== verification/Topology.v ===== *)
(** * Topology: what a node says of its hardware (internal/topology/fact.go,
    topology.go, pool_unix.go)

    A fact is a value with its provenance. What the filesystem under the probed
    root answers is a [Sys]: one function per kind of call. *)

From S2P Require Import Prelude GoStrings GoPath.

Local Open Scope Z_scope.

(** ** Facts (fact.go) *)

Inductive Provenance : Type := Unknown | Discovered | Declared.
#[global] Instance Provenance_eq_dec : EqDecision Provenance.
Proof. solve_decision. Defined.

Definition Provenance_String (p : Provenance) : string :=
  match p with Discovered => "discovered" | Declared => "declared" | Unknown => "unknown" end.

(** The zero value of the type is what an unknown fact holds. *)
Class Zero (T : Type) := zero : T.
#[global] Instance Z_Zero : Zero Z := 0.
#[global] Instance bool_Zero : Zero bool := false.
#[global] Instance string_Zero : Zero string := ""%string.

Record Fact (T : Type) : Type := mkFact {
  value : T;
  prov : Provenance;
}.
Arguments mkFact {T} _ _.
Arguments value {T} _.
Arguments prov {T} _.

Section facts.
Context {T : Type} `{Zero T}.
Definition Known (f : Fact T) : option T := if decide (prov f = Unknown) then None else Some (value f).
Definition Or (fallback : T) (f : Fact T) : T := match Known f with Some v => v | None => fallback end.
Definition DiscoveredValue (v : T) : Fact T := mkFact v Discovered.
Definition DeclaredValue (v : T) : Fact T := mkFact v Declared.
Definition UnknownValue : Fact T := mkFact zero Unknown.
End facts.

(** ** The filesystem under the root *)

Inductive SysErr : Type := NotExist | OtherErr.

Record Sys : Type := mkSys {
  ReadDir : string -> result SysErr (list string);
  ReadFile : string -> option string;
  Readlink : string -> option string;
  Stat : string -> result SysErr ();
}.

Definition join (l : list string) : string := path_Join l.

Section probe.
Context (sys : Sys) (root : string).

(** [readTrimmed]: empty on any failure. *)
Definition readTrimmed (path : string) : string :=
  match ReadFile sys path with None => "" | Some b => TrimSpace b end.

Definition readNUMA (path : string) : Fact Z :=
  let s := readTrimmed path in
  if (s =? "")%string then UnknownValue
  else match ParseInt s with
       | (n, None) => if n <? 0 then UnknownValue else DiscoveredValue n
       | _ => UnknownValue
       end.

Definition readSectors (path : string) : Fact Z :=
  let s := readTrimmed path in
  if (s =? "")%string then UnknownValue
  else match ParseInt s with
       | (sectors, None) => if sectors <? 0 then UnknownValue else DiscoveredValue (sectors *! 512)
       | _ => UnknownValue
       end.

Definition readBool (path : string) : Fact bool :=
  let s := readTrimmed path in
  if (s =? "0")%string then DiscoveredValue false
  else if (s =? "1")%string then DiscoveredValue true
  else UnknownValue.

Definition hasAnyPrefix (s : string) (prefixes : list string) : bool := existsb (fun p => HasPrefix p s) prefixes.

(** ** Accelerators *)

Definition acceleratorVendors : gmap string string :=
  <["0x10de" := "NVIDIA"]> (<["0x1002" := "AMD"]> (<["0x8086" := "Intel"]> ∅)).
Definition computeDrivers : gset string := {["nvidia"; "nvidia_drm"; "amdgpu"; "xe"]}.
Definition displayClasses : list string := ["0x0300"; "0x0302"].

Record Accelerator : Type := mkAccelerator {
  PCIAddress : string;
  Vendor : string;
  Device : string;
  VendorName : string;
  ANUMA : Fact Z;
}.

Definition hasComputeDriver (dir : string) : bool :=
  match Readlink sys (join [dir; "driver"]) with
  | None => false
  | Some target => bool_decide (Base target ∈ computeDrivers)
  end.

(** The body of the loop, for one device. *)
Definition accelerator (base name : string) : option Accelerator :=
  let dir := join [base; name] in
  if negb (hasAnyPrefix (readTrimmed (join [dir; "class"])) displayClasses) then None
  else
    let vendor := readTrimmed (join [dir; "vendor"]) in
    match acceleratorVendors !! vendor with
    | None => None
    | Some vname =>
        if negb (hasComputeDriver dir) then None
        else Some {| PCIAddress := name; Vendor := vendor; Device := readTrimmed (join [dir; "device"]);
                     VendorName := vname; ANUMA := readNUMA (join [dir; "numa_node"]) |}
    end.

(** [sort.Slice] by a name. *)
Definition by_name {A} (name : A -> string) (x y : A) : Prop := str_leb (name x) (name y) = true.
#[global] Instance by_name_dec {A} (name : A -> string) : RelDecision (by_name name).
Proof. intros x y. apply bool_eq_dec. Defined.

Definition discoverAccelerators : list Accelerator :=
  let base := join [root; "sys/bus/pci/devices"] in
  match ReadDir sys base with
  | Err _ => []
  | Ok entries => merge_sort (by_name PCIAddress) (omap (accelerator base) entries)
  end.

(** ** Disks *)

Record Disk : Type := mkDisk {
  DName : string;
  SizeBytes : Fact Z;
  Rotational : Fact bool;
  DLocal : Fact bool;
}.

Definition networkBlockPrefixes : list string := ["nbd"; "rbd"; "drbd"].
Definition localNVMeTransports (t : string) : bool := (t =? "pcie")%string.

(** The digits at the front, and what is behind them. *)
Fixpoint span_digits (b : list byte) : list byte * list byte :=
  match b with
  | c :: b' => match digit_of c with
               | Some _ => let '(d, r) := span_digits b' in (c :: d, r)
               | None => ([], b)
               end
  | [] => ([], [])
  end.

(** [nvmeNamespace]: [^(nvme[0-9]+)n[0-9]+(?:p[0-9]+)?$]. No letter of the pattern
    is a digit, so what the digits match is all of them. *)
Definition nvmeController (namespace : string) : string :=
  match strip_prefix (bytes_of "nvme") (bytes_of namespace) with
  | None => ""
  | Some rest =>
      let '(ctrl, rest) := span_digits rest in
      match ctrl, strip_prefix (bytes_of "n") rest with
      | _ :: _, Some rest =>
          let '(ns, rest) := span_digits rest in
          let found := "nvme" +:+ string_of ctrl in
          match ns, rest with
          | _ :: _, [] => found
          | _ :: _, c :: rest =>
              let '(part, rest) := span_digits rest in
              match part, rest with
              | _ :: _, [] => if Ascii.eqb c "p" then found else ""
              | _, _ => ""
              end
          | [], _ => ""
          end
      | _, _ => ""
      end
  end.

Definition classifyNVMe (name : string) : Fact bool :=
  let ctrl := nvmeController name in
  if (ctrl =? "")%string then UnknownValue
  else
    let transport := readTrimmed (join [root; "sys/class/nvme"; ctrl; "transport"]) in
    if (transport =? "")%string then UnknownValue
    else DiscoveredValue (localNVMeTransports transport).

Definition classifyLocality (name : string) : Fact bool :=
  if hasAnyPrefix name networkBlockPrefixes then DiscoveredValue false
  else if HasPrefix "nvme" name then classifyNVMe name
  else UnknownValue.

Definition isStacked (dir : string) : bool :=
  match ReadDir sys (join [dir; "slaves"]) with Ok (_ :: _) => true | _ => false end.

Definition isSkippableBlockDevice (name : string) : bool :=
  hasAnyPrefix name ["loop"; "dm-"; "ram"; "zram"; "sr"].

Definition disk (base name : string) : option Disk :=
  if isSkippableBlockDevice name then None
  else
    let dir := join [base; name] in
    if is_ok (Stat sys (join [dir; "partition"])) then None
    else if isStacked dir then None
    else
      let size := readSectors (join [dir; "size"]) in
      if bool_decide (Known size = Some 0) then None
      else Some {| DName := name; SizeBytes := size; Rotational := readBool (join [dir; "queue/rotational"]);
                   DLocal := classifyLocality name |}.

Definition discoverDisks : list Disk :=
  let base := join [root; "sys/class/block"] in
  match ReadDir sys base with
  | Err _ => []
  | Ok entries => merge_sort (by_name DName) (omap (disk base) entries)
  end.

(** ** NUMA domains and RDMA *)

Definition is_numa_entry (name : string) : bool :=
  match CutPrefix "node" name with
  | None => false
  | Some rest => match ParseInt rest with (_, None) => true | _ => false end
  end.

Definition discoverNUMA : Fact Z :=
  match ReadDir sys (join [root; "sys/devices/system/node"]) with
  | Err _ => UnknownValue
  | Ok entries =>
      let n := zlen (List.filter is_numa_entry entries) in
      if n =? 0 then UnknownValue else DiscoveredValue n
  end.

Definition discoverRDMA : Fact bool :=
  match Stat sys (join [root; "sys/class"]) with
  | Err _ => UnknownValue
  | Ok _ =>
      match ReadDir sys (join [root; "sys/class/infiniband"]) with
      | Err NotExist => DiscoveredValue false
      | Err OtherErr => UnknownValue
      | Ok entries => DiscoveredValue (0 <? zlen entries)
      end
  end.

(** The loops over devices and ports: whether a port is up, and whether any
    would say. *)
Fixpoint any_port (dir : string) (ports : list string) (looked : bool) : bool * bool :=
  match ports with
  | [] => (false, looked)
  | p :: ports =>
      let state := readTrimmed (join [dir; "ports"; p; "state"]) in
      if (state =? "")%string then any_port dir ports looked
      else if Contains "ACTIVE" state then (true, true)
      else any_port dir ports true
  end.
Fixpoint any_device (base : string) (devices : list string) (looked : bool) : bool * bool :=
  match devices with
  | [] => (false, looked)
  | d :: devices =>
      match ReadDir sys (join [base; d; "ports"]) with
      | Err _ => any_device base devices looked
      | Ok ports =>
          let '(up, looked) := any_port (join [base; d]) ports looked in
          if up then (true, true) else any_device base devices looked
      end
  end.

Definition discoverRDMAActive : Fact bool :=
  match Known discoverRDMA with
  | None => UnknownValue
  | Some false => DiscoveredValue false
  | Some true =>
      let base := join [root; "sys/class/infiniband"] in
      match ReadDir sys base with
      | Err _ => UnknownValue
      | Ok devices =>
          let '(up, looked) := any_device base devices false in
          if up then DiscoveredValue true
          else if negb looked then UnknownValue
          else DiscoveredValue false
      end
  end.

(** ** A node *)

Record Node : Type := mkNode {
  Rack : Fact string;
  NUMANodes : Fact Z;
  Accelerators : list Accelerator;
  Disks : list Disk;
  RDMA : Fact bool;
  RDMAActive : Fact bool;
}.

Definition Discover : Node :=
  {| Rack := UnknownValue; NUMANodes := discoverNUMA; Accelerators := discoverAccelerators;
     Disks := discoverDisks; RDMA := discoverRDMA; RDMAActive := discoverRDMAActive |}.
End probe.

Definition WithDeclaredRack (rack : string) (n : Node) : Node :=
  if (TrimSpace rack =? "")%string then n
  else {| Rack := DeclaredValue rack; NUMANodes := NUMANodes n; Accelerators := Accelerators n;
          Disks := Disks n; RDMA := RDMA n; RDMAActive := RDMAActive n |}.

Definition SameRack (a b : Node) : bool :=
  match Known (Rack a), Known (Rack b) with
  | Some ra, Some rb => (ra =? rb)%string
  | _, _ => false
  end.
Definition DifferentRacks (a b : Node) : bool :=
  match Known (Rack a), Known (Rack b) with
  | Some ra, Some rb => negb (ra =? rb)%string
  | _, _ => false
  end.

Example nvmeController_ex : nvmeController "nvme0n1" = "nvme0" /\ nvmeController "nvme12n3p2" = "nvme12" /\
  nvmeController "nvme0" = "" /\ nvmeController "nvme0n1p" = "" /\ nvmeController "nvme0c0n1" = "".
Proof. vm_compute. split_and!; reflexivity. Qed.
