(* ===== verification/PoolStorage.v ===== *)
(** * PoolStorage: the filesystem under a pool (internal/topology/pool_unix.go) *)

From S2P Require Import Prelude GoStrings GoPath Topology.

Local Open Scope Z_scope.

Record PoolStorage : Type := mkPoolStorage {
  TotalBytes : Fact Z;
  AvailableBytes : Fact Z;
  PDevice : string;
  PLocal : Fact bool;
}.

(** What [statfs] says of a path: the block size, and how many blocks there are
    and are free. *)
Record statfs_t : Type := mkStatfs {
  Bsize : Z;
  Blocks : Z;
  Bavail : Z;
}.

(** [filepath.Abs], below a working directory. *)
Definition Abs (cwd path : string) : string := if rooted path then Clean path else path_Join [cwd; path].

(** A cleaned rooted path is its segments, outermost first; its parent is without
    the last one, and the root's is the root. *)
Definition path_of (segs : list string) : string := "/" +:+ Join "/" segs.
Definition segments_of (path : string) : list string :=
  List.filter (fun s => negb (s =? "")%string) (Split "/" path).

(** The loop of [statfsNearest], from the innermost segment outwards. *)
Fixpoint nearest (statfs : string -> result SysErr statfs_t) (inner : list string) : option statfs_t :=
  match statfs (path_of (rev inner)) with
  | Ok st => Some st
  | Err OtherErr => None
  | Err NotExist =>
      match inner with
      | [] => None
      | _ :: outer => nearest statfs outer
      end
  end.
Definition statfsNearest (statfs : string -> result SysErr statfs_t) (cwd path : string) : option statfs_t :=
  nearest statfs (rev (segments_of (Abs cwd path))).

(** ** The mount table *)

(** [bufio.Scanner] over lines: it gives up at one that does not fit its buffer. *)
Definition max_line : Z := 65535.
Fixpoint scan_lines (lines : list string) : list string :=
  match lines with
  | [] => []
  | l :: lines => if max_line <? strlen l then [] else l :: scan_lines lines
  end.
(** A last line that is empty is no line, and a carriage return before the end of
    one is dropped. *)
Definition drop_cr (l : string) : string :=
  match rev (bytes_of l) with
  | c :: r => if Ascii.eqb c (byte_of 13) then string_of (rev r) else l
  | [] => l
  end.
Definition Lines (content : string) : list string :=
  let ls := Split (byte_of 10) content in
  let ls := match rev ls with l :: r => if (l =? "")%string then rev r else ls | [] => [] end in
  drop_cr <$> scan_lines ls.

Fixpoint source_after_hyphen (fields : list string) : option string :=
  match fields with
  | [] => None
  | f :: rest =>
      match rest with
      | _ :: src :: _ => if (f =? "-")%string then Some src else source_after_hyphen rest
      | _ => None
      end
  end.
Definition parseMountinfoLine (line : string) : option (string * string) :=
  let fields := Fields line in
  match fields !! 4%nat with
  | None => None
  | Some mountPoint => (fun src => (mountPoint, src)) <$> source_after_hyphen fields
  end.

Definition underMount (path mount : string) : bool :=
  if (mount =? "/")%string then true
  else (path =? mount)%string || HasPrefix (mount +:+ "/") path.

Definition blockDeviceName (source : string) : string :=
  match CutPrefix "/dev/" source with
  | None => ""
  | Some name => default name (last (Split "/" name))
  end.

(** The loop: the longest mount point so far, and its source. *)
Fixpoint best_mount (abs : string) (lines : list string) (best source : string) : string * string :=
  match lines with
  | [] => (best, source)
  | line :: lines =>
      match parseMountinfoLine line with
      | Some (mount, src) =>
          if underMount abs mount && (strlen best <=? strlen mount) then best_mount abs lines mount src
          else best_mount abs lines best source
      | None => best_mount abs lines best source
      end
  end.

Definition deviceForPath (mountinfo : option string) (cwd path : string) : string :=
  match mountinfo with
  | None => ""
  | Some content => blockDeviceName (best_mount (Abs cwd path) (Lines content) "" "").2
  end.

Definition DescribePool (sys : Sys) (root : string) (statfs : string -> result SysErr statfs_t)
    (mountinfo : option string) (cwd path : string) : PoolStorage :=
  if (path =? "")%string then mkPoolStorage UnknownValue UnknownValue "" UnknownValue
  else
    let '(total, available) :=
      match statfsNearest statfs cwd path with
      | Some st => if 0 <? Bsize st
                   then (DiscoveredValue (wrap64 (Blocks st) *! Bsize st), DiscoveredValue (wrap64 (Bavail st) *! Bsize st))
                   else (UnknownValue, UnknownValue)
      | None => (UnknownValue, UnknownValue)
      end in
    let device := deviceForPath mountinfo cwd path in
    mkPoolStorage total available device
      (if (device =? "")%string then UnknownValue else classifyLocality sys root device).

(** ** What is occupied *)

(** What a walk finds: a regular file and its blocks, a directory and its listing,
    or something else; either may have gone, or not be readable. *)
Inductive entry : Type :=
  | Regular (info : result SysErr Z)
  | Special
  | Directory (listing : result SysErr (list entry)).

(** [filepath.WalkDir] below the root, with the callback of [OccupiedBytes]. *)
Fixpoint WalkDir (e : entry) (total : Z) : option Z :=
  match e with
  | Regular (Ok blocks) => Some (total +! blocks *! 512)
  | Regular (Err NotExist) => Some total
  | Regular (Err OtherErr) => None
  | Special => Some total
  | Directory (Err NotExist) => Some total
  | Directory (Err OtherErr) => None
  | Directory (Ok entries) =>
      (fix walk_all (es : list entry) (total : Z) : option Z :=
         match es with
         | [] => Some total
         | e :: es => match WalkDir e total with
                      | None => None
                      | Some total => walk_all es total
                      end
         end) entries total
  end.

(** A root that is not there ends its walk at nothing. *)
Definition walk_root (root : result SysErr entry) (total : Z) : option Z :=
  match root with
  | Err NotExist => Some total
  | Err OtherErr => None
  | Ok e => WalkDir e total
  end.
Fixpoint occupied (roots : list (string * result SysErr entry)) (total : Z) : option Z :=
  match roots with
  | [] => Some total
  | (path, root) :: roots =>
      if (path =? "")%string then occupied roots total
      else match walk_root root total with
           | None => None
           | Some total => occupied roots total
           end
  end.
Definition OccupiedBytes (roots : list (string * result SysErr entry)) : Fact Z :=
  match occupied roots 0 with
  | None => UnknownValue
  | Some total => DiscoveredValue total
  end.

Definition PoolStorage_String (p : PoolStorage) : string :=
  let device := if (PDevice p =? "")%string then "unknown device" else PDevice p in
  let local := match Known (PLocal p) with
               | Some true => "local"
               | Some false => "not local"
               | None => "locality unknown"
               end in
  match Known (TotalBytes p) with
  | None => device +:+ " (" +:+ local +:+ "), size unknown"
  | Some total => device +:+ " (" +:+ local +:+ "), " +:+ FormatInt total +:+ " bytes total, "
                  +:+ FormatInt (match Known (AvailableBytes p) with Some n => n | None => 0 end) +:+ " available"
  end.

(** [SameFilesystem]: what [stat] says of each path, a device or nothing. *)
Definition SameFilesystem (stat : string -> option Z) (a b : string) : result string bool :=
  match stat a with
  | None => Err a
  | Some da => match stat b with None => Err b | Some db => Ok (da =? db) end
  end.

Example blockDeviceName_ex : blockDeviceName "/dev/nvme0n1p2" = "nvme0n1p2" /\
  blockDeviceName "/dev/mapper/vg-lv" = "vg-lv" /\ blockDeviceName "tmpfs" = "" /\ blockDeviceName "/dev/" = "".
Proof. vm_compute. split_and!; reflexivity. Qed.
