(* ===== verification/TopologyTheorems.v ===== *)
(** * TopologyTheorems: what a node may lend is what the kernel vouches for *)

From S2P Require Import Prelude GoStrings GoPath MountTable Topology PoolStorage.

Local Open Scope Z_scope.

(** ** The names of NVMe namespaces *)

Definition is_digit (c : byte) : Prop := is_Some (digit_of c).
#[global] Instance is_digit_dec c : Decision (is_digit c).
Proof. unfold is_digit. apply _. Defined.

(** A number as a name has it: digits, and one at least. *)
Definition number (b : list byte) : Prop := b <> [] /\ Forall is_digit b.

(** [nvme_namespace ctrl name]: a namespace of the controller, or a partition of one. *)
Inductive nvme_namespace : string -> string -> Prop :=
  | namespace_intro c n part : number c -> number n ->
      (part = [] \/ exists p, part = bytes_of "p" ++ p /\ number p) ->
      nvme_namespace ("nvme" +:+ string_of c) (string_of (bytes_of "nvme" ++ c ++ bytes_of "n" ++ n ++ part)).

(** Where a run of digits ends. *)
Definition at_end (r : list byte) : Prop := match r with [] => True | x :: _ => ~ is_digit x end.

Lemma span_digits_sound b : forall d r, span_digits b = (d, r) -> b = d ++ r /\ Forall is_digit d /\ at_end r.
Proof.
  induction b as [|c b IH]; intros d r; simpl; [by intros [= <- <-]|].
  destruct (digit_of c) as [x|] eqn:D.
  - destruct (span_digits b) as [d' r'] eqn:S. intros [= <- <-]. destruct (IH d' r' eq_refl) as (-> & F & N).
    split_and!; [done| |done]. constructor; [by exists x|done].
  - intros [= <- <-]. split_and!; [done|constructor|]. simpl. unfold is_digit. rewrite D. by intros [? ?].
Qed.

Lemma span_digits_app d r : Forall is_digit d -> at_end r -> span_digits (d ++ r) = (d, r).
Proof.
  intros F E. induction F as [|c d [x D] F IH]; simpl; [|by rewrite D, IH].
  destruct r as [|c r]; [done|]. simpl in *. unfold is_digit in E. destruct (digit_of c); [|done].
  destruct E. by eexists.
Qed.

Lemma at_end_app c b : digit_of c = None -> at_end (c :: b).
Proof. simpl. unfold is_digit. intros ->. by intros [? ?]. Qed.

Lemma nvmeController_sound name : nvmeController name <> "" -> nvme_namespace (nvmeController name) name.
Proof.
  unfold nvmeController. destruct (strip_prefix (bytes_of "nvme") (bytes_of name)) as [rest|] eqn:P; [|done].
  apply strip_prefix_Some in P. rewrite <- (string_of_list_ascii_of_string name), P. clear P name.
  destruct (span_digits rest) as [c rest'] eqn:C. apply span_digits_sound in C as (-> & Fc & _).
  destruct c as [|c0 c]; [done|]. destruct (strip_prefix (bytes_of "n") rest') as [rest|] eqn:P; [|done].
  apply strip_prefix_Some in P as ->.
  destruct (span_digits rest) as [n rest'] eqn:N. apply span_digits_sound in N as (-> & Fn & _).
  destruct n as [|n0 n]; [done|].
  assert (number (c0 :: c) /\ number (n0 :: n)) as [Nc Nn] by done. destruct rest' as [|x rest].
  - intros _. by apply namespace_intro; [..|left].
  - destruct (span_digits rest) as [p rest'] eqn:S. apply span_digits_sound in S as (-> & Fp & _).
    destruct p as [|p0 p]; [done|]. destruct rest'; [|done]. destruct (Ascii.eqb_spec x "p") as [->|]; [|done].
    intros _. apply namespace_intro; [done..|]. right. exists (p0 :: p). by rewrite app_nil_r.
Qed.

Lemma nvmeController_complete ctrl name : nvme_namespace ctrl name -> nvmeController name = ctrl.
Proof.
  intros [c n part [Nc Fc] [Nn Fn] P]. unfold nvmeController.
  rewrite list_ascii_of_string_of_list_ascii.
  rewrite (proj2 (strip_prefix_Some (bytes_of "nvme") _ _) eq_refl), span_digits_app by (done || by apply at_end_app).
  destruct c as [|c0 c]; [done|]. rewrite (proj2 (strip_prefix_Some (bytes_of "n") _ _) eq_refl).
  destruct P as [->|(p & -> & Np & Fp)].
  - rewrite span_digits_app by done. by destruct n.
  - rewrite span_digits_app by (done || by apply at_end_app). destruct n as [|n0 n]; [done|]. simpl app.
    rewrite <- (app_nil_r p), span_digits_app by done. by destruct p.
Qed.

Lemma nvmeController_exact name ctrl : ctrl <> "" -> nvmeController name = ctrl <-> nvme_namespace ctrl name.
Proof.
  intros N. split; [|apply nvmeController_complete]. intros <-. by apply nvmeController_sound.
Qed.

Lemma namespace_named ctrl name : nvme_namespace ctrl name -> ctrl <> "" /\ HasPrefix "nvme" name = true.
Proof.
  intros [c n part _ _ _]. split; [done|]. apply HasPrefix_iff.
  exists (string_of (c ++ bytes_of "n" ++ n ++ part)). reflexivity.
Qed.

(** ** What is local *)

Section local.
Context (sys : Sys) (root : string).

(** What the kernel says of an NVMe controller's transport. *)
Definition transport_of (ctrl : string) : string :=
  readTrimmed sys (join [root; "sys/class/nvme"; ctrl; "transport"]).

(** A device is called local exactly when it is a namespace of a controller whose
    transport is the machine's own bus. *)
Lemma classifyLocality_local name : Known (classifyLocality sys root name) = Some true <->
  exists ctrl, nvme_namespace ctrl name /\ transport_of ctrl = "pcie".
Proof.
  split.
  - unfold classifyLocality. destruct (hasAnyPrefix name networkBlockPrefixes); [done|].
    destruct (HasPrefix "nvme" name); [|done]. unfold classifyNVMe.
    destruct (String.eqb_spec (nvmeController name) "") as [|N]; [done|].
    fold (transport_of (nvmeController name)).
    destruct (String.eqb_spec (transport_of (nvmeController name)) "") as [|T]; [done|].
    unfold Known, DiscoveredValue, localNVMeTransports. simpl. intros [= E%String.eqb_eq].
    exists (nvmeController name). split; [by apply nvmeController_sound|done].
  - intros (ctrl & NS & T). destruct (namespace_named _ _ NS) as [Nc P]. unfold classifyLocality.
    rewrite P. assert (hasAnyPrefix name networkBlockPrefixes = false) as ->.
    { destruct NS. reflexivity. }
    unfold classifyNVMe. rewrite (nvmeController_complete _ _ NS), (proj2 (String.eqb_neq ctrl "") Nc).
    fold (transport_of ctrl). by rewrite T.
Qed.
End local.

(** ** Disks *)

Lemma elem_of_sorted_omap {A B} (name : B -> string) (f : A -> option B) l x :
  x ∈ merge_sort (by_name name) (omap f l) <-> exists a, a ∈ l /\ f a = Some x.
Proof. by rewrite merge_sort_Permutation, list_elem_of_omap. Qed.

(** A whole device, built from no others, and not known to be empty. *)
Definition lendable_device (sys : Sys) (root name : string) : Prop :=
  let dir := join [join [root; "sys/class/block"]; name] in
  is_ok (Stat sys (join [dir; "partition"])) = false /\ isStacked sys dir = false /\
  Known (readSectors sys (join [dir; "size"])) <> Some 0.

Lemma disk_reported sys root base name d : base = join [root; "sys/class/block"] ->
  disk sys root base name = Some d <-> isSkippableBlockDevice name = false /\ lendable_device sys root name /\
    d = {| DName := name; SizeBytes := readSectors sys (join [join [base; name]; "size"]);
           Rotational := readBool sys (join [join [base; name]; "queue/rotational"]);
           DLocal := classifyLocality sys root name |}.
Proof.
  intros ->. unfold disk, lendable_device. cbv zeta.
  destruct (isSkippableBlockDevice name); [naive_solver|]. destruct (is_ok _); [naive_solver|].
  destruct (isStacked _ _); [naive_solver|]. case_bool_decide; naive_solver.
Qed.

(** ** The mount a path is on *)

(** A path is under a mount point that is the root, the path itself, or a directory
    above it. *)
Definition below (mount path : string) : Prop :=
  mount = "/" \/ path = mount \/ exists rest, path = (mount +:+ "/") +:+ rest.

Lemma underMount_below path mount : underMount path mount = true <-> below mount path.
Proof.
  unfold underMount, below. destruct (String.eqb_spec mount "/") as [->|N]; [tauto|].
  rewrite orb_true_iff, String.eqb_eq, HasPrefix_iff. tauto.
Qed.

(** [on_mount shown abs rows r]: of the rows whose mount point, as it is [shown], the
    path is under, [r] has the longest, and of those is the last. *)
Definition on_mount (shown : mount_row -> string) (abs : string) (rows : list mount_row) (r : mount_row) : Prop :=
  exists before after, rows = before ++ r :: after /\ below (shown r) abs /\
    (forall x, x ∈ before -> below (shown x) abs -> strlen (shown x) <= strlen (shown r)) /\
    (forall x, x ∈ after -> below (shown x) abs -> strlen (shown x) < strlen (shown r)).

(** As the table writes a mount point. *)
Definition tabled_point (r : mount_row) : string := escape (RPoint r).

(** *** The table read back *)

Lemma hyphen_found pre t src rest : "-"%string ∉ pre ->
  source_after_hyphen (pre ++ "-"%string :: t :: src :: rest) = Some src.
Proof.
  induction pre as [|w pre IH]; intros N; [done|]. apply not_elem_of_cons in N as [Nw N].
  specialize (IH N). cbn [app source_after_hyphen]. rewrite (proj2 (String.eqb_neq w "-")) by congruence.
  destruct pre as [|x [|y pre]]; simpl app in *; exact IH.
Qed.

Lemma parse_row r : row_ok r -> parseMountinfoLine (row_line r) = Some (tabled_point r, escape (RSource r)).
Proof.
  intros [L P H R]. unfold parseMountinfoLine, row_line. rewrite Fields_Join by done. unfold row_words, tabled_point.
  rewrite lookup_app_r, L by lia. simpl. rewrite app_comm_cons, app_comm_cons, app_assoc, hyphen_found; [done|].
  rewrite elem_of_app, !elem_of_cons in *. intros [I|[E|I]]; [tauto| |tauto].
  destruct (RPoint r) as [|c s]; [done|]. simpl in R.
  destruct c as [[] [] [] [] [] [] [] []]; try discriminate R. discriminate E.
Qed.

Lemma no_space_not c b : no_space b = true -> strip_any spaces [c] = Some [] -> c ∉ b.
Proof.
  intros N S. assert (forall l b', strip_any l [c] = Some [] -> exists r, strip_any l (c :: b') = Some r) as G.
  { induction l as [|p l IH]; intros b'; simpl; [done|]. destruct (strip_prefix p [c]) as [r|] eqn:E.
    - intros _. destruct p as [|x p]; simpl in *; [by eexists|]. destruct (Ascii.eqb x c); [|done]. destruct p; [by eexists|done].
    - intros H. destruct (strip_prefix p (c :: b')); [by eexists|by apply IH]. }
  induction b as [|x b IH]; [apply not_elem_of_nil|]. cbn [no_space] in N. apply andb_prop in N as [Nx N].
  intros [<-|I]%elem_of_cons; [|by apply IH]. destruct (G _ b S) as [r E]. by rewrite E in Nx.
Qed.

Lemma has_byte_elem c s : has_byte c s = true <-> c ∈ bytes_of s.
Proof.
  induction s as [|x s IH]; [by split; [done|intros I; inversion I]|]. simpl. rewrite orb_true_iff, IH, elem_of_cons, Ascii.eqb_eq.
  naive_solver.
Qed.
Lemma word_without c w : word w -> strip_any spaces [c] = Some [] -> has_byte c w = false.
Proof.
  intros [N _] S. destruct (has_byte c w) eqn:E; [|done]. apply has_byte_elem in E. by apply (no_space_not c) in N.
Qed.
Lemma Join_without c sep ws : has_byte c sep = false -> Forall (fun w => has_byte c w = false) ws -> has_byte c (Join sep ws) = false.
Proof.
  intros S. induction 1 as [|w ws N F IH]; [done|]. destruct ws as [|w' ws]; [done|].
  change (Join sep (w :: w' :: ws)) with (w +:+ sep +:+ Join sep (w' :: ws)). by rewrite !has_byte_app, N, S, IH.
Qed.
Lemma line_without c r : row_ok r -> strip_any spaces [c] = Some [] -> c <> " "%char -> has_byte c (row_line r) = false.
Proof.
  intros O S N. apply Join_without; [cbn [has_byte]; destruct (Ascii.eqb_spec " "%char c); [congruence|done]|].
  eapply Forall_impl; [apply (row_plain _ O)|]. intros w W. by apply word_without.
Qed.

Lemma drop_cr_plain l : has_byte (byte_of 13) l = false -> drop_cr l = l.
Proof.
  intros N. unfold drop_cr. destruct (rev (bytes_of l)) as [|c b] eqn:E; [done|].
  destruct (Ascii.eqb_spec c (byte_of 13)) as [->|]; [|done].
  assert (byte_of 13 ∈ bytes_of l) as I%has_byte_elem by (rewrite <- (rev_involutive (bytes_of l)), E; simpl; set_solver).
  congruence.
Qed.

Definition scanned (rows : list mount_row) : Prop := Forall (fun r => row_ok r /\ strlen (row_line r) <= 65535) rows.

Lemma Lines_table rows : scanned rows -> Lines (mount_table rows) = row_line <$> rows.
Proof.
  intros F. unfold Lines. assert (Split (byte_of 10) (mount_table rows) = (row_line <$> rows) ++ [""%string]) as ->.
  { induction F as [|r rows [O _] F IH]; [done|].
    change (mount_table (r :: rows)) with (row_line r +:+ String (byte_of 10) (mount_table rows)). rewrite Split_app, IH.
    by rewrite Split_no_byte by by apply line_without. }
  rewrite rev_app_distr. simpl. rewrite rev_involutive. induction F as [|r rows [O L] F IH]; [done|].
  rewrite !fmap_cons. cbn [scan_lines]. unfold max_line at 1. rewrite (proj2 (Z.ltb_ge _ _)) by done.
  rewrite fmap_cons, IH. by rewrite drop_cr_plain by by apply line_without.
Qed.

(** *** The loop over it *)

Lemma best_mount_step abs r rows best source : row_ok r -> best_mount abs (row_line <$> (r :: rows)) best source =
  if underMount abs (tabled_point r) && (strlen best <=? strlen (tabled_point r))
  then best_mount abs (row_line <$> rows) (tabled_point r) (escape (RSource r))
  else best_mount abs (row_line <$> rows) best source.
Proof. intros O. rewrite fmap_cons. cbn [best_mount]. by rewrite parse_row. Qed.

Lemma mounted_cons shown abs x rows r : on_mount shown abs rows r ->
  (below (shown x) abs -> strlen (shown x) <= strlen (shown r)) -> on_mount shown abs (x :: rows) r.
Proof.
  intros (before & after & -> & C & B & A) H. exists (x :: before), after. split_and!; [done..| |done].
  intros y [-> | I]%elem_of_cons; [exact H|by apply B].
Qed.

Lemma best_mount_exact abs rows : Forall row_ok rows -> forall best source,
  let m := best_mount abs (row_line <$> rows) best source in
  m = (best, source) /\ (forall x, x ∈ rows -> below (tabled_point x) abs -> strlen (tabled_point x) < strlen best) \/
  exists r, on_mount tabled_point abs rows r /\ m = (tabled_point r, escape (RSource r)) /\ strlen best <= strlen (tabled_point r).
Proof.
  induction 1 as [|x rows O F IH]; intros best source; cbv zeta; [left; split; [done|]; by intros y H; inversion H|].
  rewrite best_mount_step by done. destruct (underMount abs (tabled_point x)) eqn:U.
  - apply underMount_below in U. destruct (Z.leb_spec (strlen best) (strlen (tabled_point x))) as [Le|Lt]; simpl.
    + right. destruct (IH (tabled_point x) (escape (RSource x))) as [[-> K]|(r & M & -> & L)].
      * exists x. split_and!; [|done|done]. exists [], rows. split_and!; [done..| |done]. by intros y H; inversion H.
      * exists r. split_and!; [by apply mounted_cons|done|lia].
    + destruct (IH best source) as [[-> K]|(r & M & -> & L)]; [left|right].
      * split; [done|]. intros y [-> | I]%elem_of_cons; [done|by apply K].
      * exists r. split_and!; [|done|done]. apply mounted_cons; [done|]. intros _. lia.
  - assert (~ below (tabled_point x) abs) as N by (rewrite <- underMount_below; congruence). simpl.
    destruct (IH best source) as [[-> K]|(r & M & -> & L)]; [left|right].
    + split; [done|]. intros y [-> | I]%elem_of_cons; [by intros ?|by apply K].
    + exists r. split_and!; [|done|done]. by apply mounted_cons.
Qed.

(** There is one such row. *)
Lemma on_mount_unique shown abs rows r r' : on_mount shown abs rows r -> on_mount shown abs rows r' -> r = r'.
Proof.
  intros (b & a & -> & C & B & A) (b' & a' & E & C' & B' & A'). revert b' E B'.
  induction b as [|x b IH]; intros [|x' b'] E B'; simpl in E.
  - by injection E as -> ->.
  - injection E as <- ->. assert (strlen (shown r') < strlen (shown r)) by (apply A; [set_solver|done]).
    assert (strlen (shown r) <= strlen (shown r')) by (apply B'; [set_solver|done]). lia.
  - injection E as <- <-. assert (strlen (shown r) < strlen (shown x)) by (apply A'; [set_solver|done]).
    assert (strlen (shown x) <= strlen (shown r)) by (apply B; [set_solver|done]). lia.
  - injection E as <- E. apply (IH ltac:(intros; apply B; [by right|done]) b' E). intros; apply B'; [by right|done].
Qed.

Lemma Join_snoc sep l x : l <> [] -> Join sep (l ++ [x]) = Join sep l +:+ sep +:+ x.
Proof.
  induction l as [|y [|z l] IH]; intros N; [done|done|]. change (Join sep ((y :: z :: l) ++ [x])) with (y +:+ sep +:+ Join sep ((z :: l) ++ [x])).
  rewrite IH by done. change (Join sep (y :: z :: l)) with (y +:+ sep +:+ Join sep (z :: l)). by rewrite !string_app_assoc.
Qed.

(** The device a source names: the last name of a path below /dev. *)
Definition device_of (source name : string) : Prop := exists dir, source = "/dev/" +:+ dir +:+ name /\
  has_byte "/" name = false /\ (dir = ""%string \/ exists d, dir = d +:+ "/").

Lemma blockDeviceName_exact source name : name <> ""%string -> blockDeviceName source = name <-> device_of source name.
Proof.
  intros N. unfold blockDeviceName, device_of. split.
  - destruct (CutPrefix "/dev/" source) as [rest|] eqn:C; [|congruence]. apply CutPrefix_Some in C as ->.
    pose proof (Join_Split "/" rest) as J. pose proof (Split_segments "/" rest) as Sg.
    pose proof (Split_not_nil "/" rest) as Ns. destruct (Split "/" rest) as [|x l _] using rev_ind; [done|].
    rewrite last_snoc. cbn [default]. intros <-. apply Forall_app in Sg as [_ Sg]. apply Forall_cons in Sg as [Sx _].
    destruct l as [|y l].
    + exists ""%string. simpl in J. subst rest. split_and!; [done..|by left].
    + exists (Join "/" (y :: l) +:+ "/"). split_and!; [|done|right; by eexists]. rewrite Join_snoc in J by done. by rewrite !string_app_assoc, <- J.
  - intros (dir & -> & H & D). rewrite (proj2 (CutPrefix_Some _ _ _) eq_refl). destruct D as [->|[d ->]].
    + by rewrite Split_no_byte.
    + rewrite string_app_assoc. change ("/" +:+ name) with (String "/" name). rewrite Split_app, (Split_no_byte _ name), last_snoc by done. done.
Qed.

(** The source of a pool is the one of the mount it is on. *)
Lemma deviceForPath_exact rows cwd path device : scanned rows -> device <> ""%string ->
  deviceForPath (Some (mount_table rows)) cwd path = device <->
  exists r, on_mount tabled_point (Abs cwd path) rows r /\ device_of (escape (RSource r)) device.
Proof.
  intros Sc N. assert (Forall row_ok rows) as O by (eapply Forall_impl; [exact Sc|]; by intros r [? _]).
  unfold deviceForPath. rewrite Lines_table by done.
  destruct (best_mount_exact (Abs cwd path) rows O "" "") as [[-> K]|(r & M & -> & _)]; simpl snd.
  - split; [by intros <-|]. intros (r & (b & a & -> & C & _) & _). assert (strlen (tabled_point r) < 0) as X by (apply K; [set_solver|done]).
    pose proof (zlen_nonneg (bytes_of (tabled_point r))). unfold strlen in X. lia.
  - rewrite blockDeviceName_exact by done. split; [eauto|]. intros (r' & M' & D).
    by rewrite (on_mount_unique _ _ _ _ _ M M').
Qed.

(** ** What may be lent *)

(** A path on an NVMe namespace, or a partition of one, whose controller's transport
    is the machine's own bus. *)
Definition on_local_drive (shown : mount_row -> string) (sys : Sys) (root abs : string) (rows : list mount_row) : Prop :=
  exists r name ctrl, on_mount shown abs rows r /\ device_of (escape (RSource r)) name /\
    nvme_namespace ctrl name /\ transport_of sys root ctrl = "pcie".

Lemma on_mount_plain abs rows r : Forall (fun x => escape (RPoint x) = RPoint x) rows ->
  on_mount tabled_point abs rows r <-> on_mount RPoint abs rows r.
Proof.
  intros F. unfold on_mount, tabled_point. split; intros (before & after & -> & C & B & A); exists before, after; split; try done;
    apply Forall_app in F as [Fb [Fr Fa]%Forall_cons]; rewrite Forall_forall in Fb, Fa; rewrite Fr in *; split_and!; try done;
    intros x I; [rewrite <- (Fb x I)|rewrite <- (Fa x I)|rewrite (Fb x I)|rewrite (Fa x I)]; auto.
Qed.

Lemma DescribePool_local sys root statfs rows cwd path : scanned rows ->
  Known (PLocal (DescribePool sys root statfs (Some (mount_table rows)) cwd path)) = Some true <->
  path <> ""%string /\ on_local_drive tabled_point sys root (Abs cwd path) rows.
Proof.
  intros Sc. unfold DescribePool, on_local_drive. destruct (String.eqb_spec path "") as [->|Np]; [naive_solver|].
  set (device := deviceForPath _ cwd path). set (tb := match statfsNearest _ _ _ with Some _ => _ | None => _ end).
  destruct tb as [total available]. cbn [PLocal]. split.
  - destruct (String.eqb_spec device "") as [|Nd]; [done|]. intros (ctrl & NS & T)%classifyLocality_local.
    split; [done|]. destruct (proj1 (deviceForPath_exact rows cwd path device Sc Nd) eq_refl) as (r & M & D).
    by exists r, device, ctrl.
  - intros (_ & r & name & ctrl & M & D & NS & T).
    assert (name <> ""%string) as Nd by (intros ->; inversion NS).
    assert (device = name) as -> by (apply deviceForPath_exact; [done..|by exists r]).
    rewrite (proj2 (String.eqb_neq _ "") Nd). apply classifyLocality_local. by exists ctrl.
Qed.

Lemma DescribePool_no_table sys root statfs cwd path : Known (PLocal (DescribePool sys root statfs None cwd path)) = None.
Proof. unfold DescribePool. case_match; [done|]. by destruct (match statfsNearest _ _ _ with Some _ => _ | None => _ end). Qed.

(** a node reports a block device as local exactly when the kernel lists it as
    a namespace of an NVMe controller whose transport is the machine's own bus, it
    is a whole device that no others are under, and it is not known to be empty.
    A name that only looks local, or a kernel that does not answer, is never enough. *)
Theorem local_disks_exact sys root name :
  (exists d, d ∈ discoverDisks sys root /\ DName d = name /\ Known (DLocal d) = Some true) <->
  exists entries ctrl, ReadDir sys (join [root; "sys/class/block"]) = Ok entries /\ name ∈ entries /\
    nvme_namespace ctrl name /\ transport_of sys root ctrl = "pcie" /\ lendable_device sys root name.
Proof.
  unfold discoverDisks. cbv zeta. destruct (ReadDir sys (join [root; "sys/class/block"])) as [entries|e]; [|].
  - setoid_rewrite elem_of_sorted_omap. split.
    + intros (d & (n & I & (_ & L & ->)%disk_reported) & N & K); [|done]. simpl in N, K. subst n.
      apply classifyLocality_local in K as (ctrl & ? & ?). by exists entries, ctrl.
    + intros (? & ctrl & [= <-] & I & NS & T & L). eexists. split_and!.
      * exists name. split; [done|]. apply disk_reported; [done|]. split_and!; [by destruct NS|done|reflexivity].
      * done.
      * apply classifyLocality_local. by exists ctrl.
  - split; [intros (d & I & _); inversion I|naive_solver].
Qed.

(** C39: the filesystem under a pool is called local exactly when the longest mount
    the pool's directory is under, and of those the last one mounted, is of an NVMe
    namespace, or a partition of one, whose controller's transport is the machine's
    own bus. A mount point is taken as the mount table writes it, which is as it is
    unless it holds a space or another byte the table escapes
    ([escaped_mount_overlooked]); the table is one the kernel writes, with no line
    longer than the scanner takes, and without one nothing is called local. *)
Theorem pool_local_exact sys root statfs rows cwd path : scanned rows ->
  let local := Known (PLocal (DescribePool sys root statfs (Some (mount_table rows)) cwd path)) in
  (local = Some true <-> path <> ""%string /\ on_local_drive tabled_point sys root (Abs cwd path) rows) /\
  (Forall (fun r => escape (RPoint r) = RPoint r) rows ->
   local = Some true <-> path <> ""%string /\ on_local_drive RPoint sys root (Abs cwd path) rows) /\
  Known (PLocal (DescribePool sys root statfs None cwd path)) = None.
Proof.
  intros Sc local. pose proof (DescribePool_local sys root statfs rows cwd path Sc) as L. split_and!; [done| |].
  - intros F. unfold local. rewrite L. unfold on_local_drive. by setoid_rewrite (on_mount_plain _ _ _ F).
  - apply DescribePool_no_table.
Qed.

(** ** What is occupied *)

(** Every file a walk comes to, with its blocks, and whether any could not be read:
    what has gone meanwhile is neither. *)
Fixpoint files (e : entry) : list Z :=
  match e with
  | Regular (Ok blocks) => [blocks]
  | Directory (Ok entries) => flat_map files entries
  | _ => []
  end.
Fixpoint readable (e : entry) : bool :=
  match e with
  | Regular (Err OtherErr) | Directory (Err OtherErr) => false
  | Directory (Ok entries) => forallb readable entries
  | _ => true
  end.

Lemma WalkDir_exact : forall e total, is_int64 total ->
  WalkDir e total = if readable e then Some (wrap64 (total + 512 * Zsum (files e))) else None.
Proof.
  fix IH 1. intros e total I. assert (Some total = Some (wrap64 (total + 512 * Zsum []))) as Same.
  { simpl. by rewrite Z.add_0_r, wrap64_id. }
  destruct e as [[blocks|[]]| |[entries|[]]]; cbn [WalkDir readable files]; try done.
  - f_equal. rewrite wrap64_add_r. f_equal. simpl. lia.
  - revert total I Same. induction entries as [|e entries IHl]; intros total I Same; [done|].
    cbn [forallb flat_map]. rewrite IH by done. destruct (readable e); [|done]. cbn [andb].
    rewrite IHl; [|apply wrap64_range|by rewrite Z.add_0_r, wrap64_idem].
    destruct (forallb readable entries); [|done]. f_equal. rewrite wrap64_add_l, Zsum_app. f_equal. lia.
Qed.

(** The total is told only when every file could be read, and then it counts every
    file under every directory named. *)
Lemma OccupiedBytes_exact roots :
  Known (OccupiedBytes roots) =
    let named := List.filter (fun r : string * result SysErr entry => negb (r.1 =? "")%string) roots in
    if forallb (fun r => match r.2 with Ok e => readable e | Err NotExist => true | Err OtherErr => false end) named
    then Some (wrap64 (512 * Zsum (flat_map (fun r => match r.2 with Ok e => files e | Err _ => [] end) named)))
    else None.
Proof.
  assert (forall total, is_int64 total -> occupied roots total =
    let named := List.filter (fun r : string * result SysErr entry => negb (r.1 =? "")%string) roots in
    if forallb (fun r => match r.2 with Ok e => readable e | Err NotExist => true | Err OtherErr => false end) named
    then Some (wrap64 (total + 512 * Zsum (flat_map (fun r => match r.2 with Ok e => files e | Err _ => [] end) named)))
    else None) as H.
  { induction roots as [|[path r] roots IH]; intros total I; cbv zeta.
    - cbn. by rewrite Z.add_0_r, wrap64_id.
    - cbn [occupied List.filter fst]. destruct (path =? "")%string; cbn [negb]; [by apply IH|].
      cbn [forallb flat_map snd]. destruct r as [e|[]]; cbn [walk_root andb].
      + rewrite WalkDir_exact by done. destruct (readable e); [|done]. rewrite IH by apply wrap64_range. cbv zeta.
        cbn [andb]. destruct (forallb _ _); [|done]. f_equal. rewrite wrap64_add_l, Zsum_app. f_equal. lia.
      + by apply IH.
      + done. }
  unfold OccupiedBytes. rewrite H by (compute; split; discriminate). cbv zeta. by destruct (forallb _ _).
Qed.

(** ** Witnesses *)

Definition line_feed : string := String (byte_of 10) EmptyString.

(** A node with a local drive, one over a fabric, a partition and a loop device. *)
Definition sysfs : Sys := {|
  ReadDir p := if (p =? "/sys/class/block")%string then Ok ["loop0"; "nvme0n1"; "nvme0n1p1"; "nvme1n1"; "sda"]
               else Err NotExist;
  ReadFile p := if (p =? "/sys/class/nvme/nvme0/transport")%string then Some ("pcie" +:+ line_feed)
                else if (p =? "/sys/class/nvme/nvme1/transport")%string then Some ("tcp" +:+ line_feed)
                else if (p =? "/sys/class/block/nvme0n1/size")%string then Some "1000215216"
                else None;
  Readlink _ := None;
  Stat p := if (p =? "/sys/class/block/nvme0n1p1/partition")%string then Ok () else Err NotExist;
|}.

Lemma nvme0n1_namespace : nvme_namespace "nvme0" "nvme0n1".
Proof. apply nvmeController_exact; [discriminate|reflexivity]. Qed.
Lemma nvme0n1p2_namespace : nvme_namespace "nvme0" "nvme0n1p2".
Proof. apply nvmeController_exact; [discriminate|reflexivity]. Qed.

(** Of that node's devices the local drive is the one that is local. *)
Lemma local_disks_exact_witness :
  (exists d, d ∈ discoverDisks sysfs "/" /\ DName d = "nvme0n1" /\ Known (DLocal d) = Some true) /\
  ~ (exists d, d ∈ discoverDisks sysfs "/" /\ DName d = "nvme1n1" /\ Known (DLocal d) = Some true).
Proof.
  split.
  - apply (local_disks_exact sysfs "/" "nvme0n1"). exists ["loop0"; "nvme0n1"; "nvme0n1p1"; "nvme1n1"; "sda"], "nvme0".
    split_and!; [reflexivity|set_solver|apply nvme0n1_namespace|vm_compute; reflexivity|].
    split_and!; [vm_compute; reflexivity..|vm_compute; discriminate].
  - intros (entries & ctrl & _ & _ & NS & T & _)%(local_disks_exact sysfs "/" "nvme1n1").
    rewrite <- (nvmeController_complete _ _ NS) in T. vm_compute in T. discriminate.
Defined.

(** A pool on a partition of the local drive, mounted over the root's filesystem. *)
Definition rows : list mount_row := [
  mkRow ["22"; "1"; "0:21"; "/"] "/" "rw,relatime" ["shared:1"] "overlay" "overlay" "rw";
  mkRow ["36"; "22"; "259:2"; "/"] "/mnt/pool" "rw,noatime" ["shared:2"] "ext4" "/dev/nvme0n1p2" "rw";
  mkRow ["37"; "22"; "0:40"; "/"] "/mnt/poolside" "rw" [] "tmpfs" "tmpfs" "rw"].
Definition mountinfo : string := mount_table rows.
Lemma rows_scanned : scanned rows.
Proof. repeat constructor; try (vm_compute; reflexivity); try discriminate; try (apply (bool_decide_eq_true_1 _); vm_compute; reflexivity); vm_compute; discriminate. Qed.
Lemma on_pool_partition : on_local_drive RPoint sysfs "/" "/mnt/pool/borrowed" rows.
Proof.
  exists (mkRow ["36"; "22"; "259:2"; "/"] "/mnt/pool" "rw,noatime" ["shared:2"] "ext4" "/dev/nvme0n1p2" "rw"), "nvme0n1p2", "nvme0".
  split_and!; [| |apply nvme0n1p2_namespace|vm_compute; reflexivity].
  - eexists [_], [_]. split_and!; [reflexivity|right; right; by exists "borrowed"|..].
    + intros x ->%list_elem_of_singleton _. vm_compute. discriminate.
    + intros x ->%list_elem_of_singleton [E|[E|[rest E]]]; [discriminate..|]. vm_compute in E. discriminate.
  - exists ""%string. split_and!; [reflexivity..|by left].
Qed.
Lemma pool_local_exact_witness :
  Known (PLocal (DescribePool sysfs "/" (fun _ => Err NotExist) (Some mountinfo) "/" "/mnt/pool/borrowed")) = Some true.
Proof.
  apply (pool_local_exact sysfs "/" (fun _ => Err NotExist) rows "/" "/mnt/pool/borrowed" rows_scanned).
  - repeat constructor.
  - split; [discriminate|exact on_pool_partition].
Defined.

(** The mount table escapes a space in a mount point, and the code does not undo
    it: a pool on a mount whose name has one is taken to be on the mount around it,
    here a network filesystem called local. *)
Definition spaced_rows : list mount_row := [
  mkRow ["22"; "1"; "259:2"; "/"] "/" "rw,relatime" ["shared:1"] "ext4" "/dev/nvme0n1p2" "rw";
  mkRow ["36"; "22"; "0:50"; "/"] "/mnt/my pool" "rw" [] "nfs4" "server:/pool" "rw"].
Example escaped_mount_overlooked :
  Known (PLocal (DescribePool sysfs "/" (fun _ => Err NotExist) (Some (mount_table spaced_rows)) "/" "/mnt/my pool")) = Some true.
Proof. vm_compute. reflexivity. Qed.
