(* ===== verification/Metrics.v ===== *)
(** * Metrics: what a node publishes (internal/metrics/metrics.go, forebay.go)

    A registry is a map of metrics, each a map of labelled series, and the order
    both were first seen in, which is the order a scrape reads them in. *)

From S2P Require Import Prelude GoStrings Float64.

Local Open Scope Z_scope.

Inductive Kind : Type := Counter | Gauge | Histogram.
#[global] Instance Kind_eq_dec : EqDecision Kind.
Proof. solve_decision. Defined.
Definition Kind_String (k : Kind) : string :=
  match k with Counter => "counter" | Gauge => "gauge" | Histogram => "histogram" end.

Definition allowed : gset string := {["tenant"; "dataset"; "class"; "source"; "fact"]}.

Inductive MetricErr : Type :=
  | ErrNoName
  | ErrNoBuckets
  | ErrUnsorted
  | ErrRegistered
  | ErrNotRegistered
  | ErrLabel (name : string)
  | ErrKind
  | ErrFall.

Abbreviation Labels := (gmap string string) (only parsing).

Record series : Type := mkSeries {
  labels : Labels;
  value : float64;
  counts : list Z;
  count : Z;
  sum : float64;
}.

Record metric : Type := mkMetric {
  kind : Kind;
  help : string;
  buckets : list float64;
  mseries : gmap string series;
  morder : list string;
}.

Record Registry : Type := mkRegistry {
  metrics : gmap string metric;
  rorder : list string;
}.
Definition New : Registry := mkRegistry ∅ [].

(** [sort.Float64sAreSorted]: no element comes before the one it follows; a NaN is
    before every number. *)
Definition is_nan (f : float64) : bool := match f with S754_nan => true | _ => false end.
Definition f64_before (x y : float64) : bool := f64_ltb x y || is_nan x && negb (is_nan y).
Fixpoint Float64sAreSorted (l : list float64) : bool :=
  match l with
  | x :: (y :: _) as l' => negb (f64_before y x) && Float64sAreSorted l'
  | _ => true
  end.

Definition Register (name : string) (k : Kind) (h : string) (bs : list float64) (r : Registry)
  : Registry * option MetricErr :=
  if (name =? "")%string then (r, Some ErrNoName)
  else if bool_decide (k = Histogram) && (zlen bs =? 0) then (r, Some ErrNoBuckets)
  else if negb (Float64sAreSorted bs) then (r, Some ErrUnsorted)
  else match metrics r !! name with
       | Some _ => (r, Some ErrRegistered)
       | None => (mkRegistry (<[name := mkMetric k h bs ∅ []]> (metrics r)) (rorder r ++ [name]), None)
       end.

(** The names of a label set in order. Which of several refused labels an error
    names is left to the order a map is walked in; here it is the first. *)
Definition label_names (l : Labels) : list string := sort_Strings (elements (dom l)).
Definition refused_label (l : Labels) : option string :=
  List.find (fun n => negb (bool_decide (n ∈ allowed))) (label_names l).
Definition key (l : Labels) : result MetricErr string :=
  match refused_label l with
  | Some n => Err (ErrLabel n)
  | None => Ok (Join "," ((fun n => n +:+ "=" +:+ default "" (l !! n)) <$> label_names l))
  end.

(** [at]: the metric, with the series found or made, and the series' key. *)
Definition at_series (name : string) (l : Labels) (r : Registry) : Registry * result MetricErr (metric * string * series) :=
  match metrics r !! name with
  | None => (r, Err ErrNotRegistered)
  | Some m =>
      match key l with
      | Err e => (r, Err e)
      | Ok k =>
          match mseries m !! k with
          | Some s => (r, Ok (m, k, s))
          | None =>
              let s := mkSeries l (f64_of_Z 0)
                         (if bool_decide (kind m = Histogram) then (fun _ => 0) <$> buckets m else []) 0 (f64_of_Z 0) in
              let m := mkMetric (kind m) (help m) (buckets m) (<[k := s]> (mseries m)) (morder m ++ [k]) in
              (mkRegistry (<[name := m]> (metrics r)) (rorder r), Ok (m, k, s))
          end
      end
  end.

Definition put_series (name k : string) (m : metric) (s : series) (r : Registry) : Registry :=
  mkRegistry (<[name := mkMetric (kind m) (help m) (buckets m) (<[k := s]> (mseries m)) (morder m)]> (metrics r)) (rorder r).
Definition set_value (v : float64) (s : series) : series := mkSeries (labels s) v (counts s) (count s) (sum s).

Definition Add (name : string) (l : Labels) (delta : float64) (r : Registry) : Registry * option MetricErr :=
  let '(r, found) := at_series name l r in
  match found with
  | Err e => (r, Some e)
  | Ok (m, k, s) =>
      if bool_decide (kind m = Histogram) then (r, Some ErrKind)
      else if bool_decide (kind m = Counter) && f64_ltb delta (f64_of_Z 0) then (r, Some ErrFall)
      else (put_series name k m (set_value (f64_add (value s) delta) s) r, None)
  end.

Definition Set_ (name : string) (l : Labels) (v : float64) (r : Registry) : Registry * option MetricErr :=
  let '(r, found) := at_series name l r in
  match found with
  | Err e => (r, Some e)
  | Ok (m, k, s) =>
      if negb (bool_decide (kind m = Gauge)) then (r, Some ErrKind)
      else (put_series name k m (set_value v s) r, None)
  end.

(** The counts are [uint64]s. *)
Fixpoint bump (v : float64) (bs : list float64) (cs : list Z) : list Z :=
  match bs, cs with
  | b :: bs, c :: cs => (if f64_leb v b then wrapU64 (c + 1) else c) :: bump v bs cs
  | _, cs => cs
  end.
Definition Observe (name : string) (l : Labels) (v : float64) (r : Registry) : Registry * option MetricErr :=
  let '(r, found) := at_series name l r in
  match found with
  | Err e => (r, Some e)
  | Ok (m, k, s) =>
      if negb (bool_decide (kind m = Histogram)) then (r, Some ErrKind)
      else (put_series name k m (mkSeries (labels s) (value s) (bump v (buckets m) (counts s))
                                   (wrapU64 (count s + 1)) (f64_add (sum s) v)) r, None)
  end.

(** ** Recording

    Whoever records drops the error: a metric must not stop what it measures. *)

Inductive recording : Type :=
  | OAdd (delta : float64)
  | OSet (v : float64)
  | OObserve (v : float64).
Definition record_ (o : recording) (name : string) (l : Labels) (r : Registry) : Registry * option MetricErr :=
  match o with
  | OAdd d => Add name l d r
  | OSet v => Set_ name l v r
  | OObserve v => Observe name l v r
  end.

Record call : Type := mkCall {
  what : recording;
  cname : string;
  clabels : Labels;
}.
Definition run (r : Registry) (h : list call) : Registry :=
  fold_left (fun r e => (record_ (what e) (cname e) (clabels e) r).1) h r.

(** ** The text a scrape reads *)

(** [strconv.FormatFloat(v, 'g', -1, 64)]: the shortest decimal that reads back. *)
Class FloatFormat := FormatFloat : float64 -> string.

Section text.
Context `{Quoting} `{FloatFormat}.

Definition number (v : float64) : string := FormatFloat v.

Definition render (l : Labels) (le : string) : string :=
  if bool_decide (l = ∅) && (le =? "")%string then ""
  else "{" +:+ Join "," (((fun n => n +:+ "=" +:+ quote (default "" (l !! n))) <$> label_names l)
                         ++ (if (le =? "")%string then [] else ["le=" +:+ quote le])) +:+ "}".

Definition newline : string := String (byte_of 10) EmptyString.
Definition series_text (name : string) (m : metric) (s : series) : string :=
  if negb (bool_decide (kind m = Histogram))
  then name +:+ render (labels s) "" +:+ " " +:+ number (value s) +:+ newline
  else String.concat "" (zip_with (fun upper c => name +:+ "_bucket" +:+ render (labels s) (number upper) +:+ " " +:+ FormatUint c +:+ newline)
                           (buckets m) (counts s))
       +:+ name +:+ "_bucket" +:+ render (labels s) "+Inf" +:+ " " +:+ FormatUint (count s) +:+ newline
       +:+ name +:+ "_sum" +:+ render (labels s) "" +:+ " " +:+ number (sum s) +:+ newline
       +:+ name +:+ "_count" +:+ render (labels s) "" +:+ " " +:+ FormatUint (count s) +:+ newline.
Definition metric_text (name : string) (m : metric) : string :=
  (if (help m =? "")%string then "" else "# HELP " +:+ name +:+ " " +:+ help m +:+ newline)
  +:+ "# TYPE " +:+ name +:+ " " +:+ Kind_String (kind m) +:+ newline
  +:+ String.concat "" ((fun k => match mseries m !! k with Some s => series_text name m s | None => "" end) <$> morder m).
Definition WriteTo (r : Registry) : string :=
  String.concat "" ((fun n => match metrics r !! n with Some m => metric_text n m | None => "" end) <$> rorder r).
End text.

(** ** What a node registers (forebay.go) *)

Definition ReadSeconds : string := "forebay_read_seconds".
Definition ReadBytes : string := "forebay_read_bytes_total".
Definition ReadsInFlight : string := "forebay_reads_in_flight".
Definition TierHits : string := "forebay_tier_hits_total".
Definition TierBytes : string := "forebay_tier_bytes".
Definition LeaseBytes : string := "forebay_lease_bytes".
Definition ReclaimSeconds : string := "forebay_reclaim_seconds".
Definition ReclaimShortfall : string := "forebay_reclaim_shortfall_bytes".
Definition HeadroomBytes : string := "forebay_headroom_bytes".
Definition WatchPasses : string := "forebay_watch_passes_total".
Definition PoolReserve : string := "forebay_pool_reserve_bytes".
Definition TopologyDegraded : string := "forebay_topology_degraded_total".
Definition PrefetchBlocks : string := "forebay_prefetch_blocks_total".
Definition TierSavedSeconds : string := "forebay_tier_saved_seconds".
Definition TierSavingCover : string := "forebay_tier_saving_covered_ratio".

Definition readBuckets : list float64 :=
  (fun p : Z * Z => f64_lit p.1 p.2) <$>
  [(1, 10000); (25, 100000); (5, 10000); (1, 1000); (25, 10000); (5, 1000); (1, 100); (25, 1000); (5, 100);
   (1, 10); (1, 4); (1, 2); (1, 1); (5, 2); (5, 1)].
Definition reclaimBuckets : list float64 :=
  (fun p : Z * Z => f64_lit p.1 p.2) <$>
  [(1, 1000); (5, 1000); (1, 100); (5, 100); (1, 10); (1, 4); (1, 2); (1, 1); (5, 1); (30, 1)].

Definition node_metrics : list (string * Kind * string * list float64) := [
  (ReadSeconds, Histogram, "how long Forebay took to answer a read", readBuckets);
  (ReadBytes, Counter, "bytes delivered, by where they came from", []);
  (ReadsInFlight, Gauge, "reads being answered right now", []);
  (TierHits, Counter, "reads the fast tier answered without the backend", []);
  (TierBytes, Gauge, "bytes resident in the fast tier", []);
  (LeaseBytes, Gauge, "capacity lent, by how reclaimable it is", []);
  (ReclaimSeconds, Histogram, "how long taking capacity back took", reclaimBuckets);
  (ReclaimShortfall, Counter, "capacity compute asked for that the node could not return", []);
  (HeadroomBytes, Gauge, "the floor of free space being kept, which moves with the write rate", []);
  (WatchPasses, Counter, "passes the pressure watch has made, so silence can be told from a stopped watch", []);
  (PoolReserve, Gauge, "what the filesystem holds for everything which is not Forebay", []);
  (TopologyDegraded, Counter, "facts this node could once discover and no longer can", []);
  (PrefetchBlocks, Counter, "blocks predicted, by what became of them", []);
  (TierSavedSeconds, Gauge, "reader seconds the tier saved against this node's own backend, which is signed because the tier is sometimes slower", []);
  (TierSavingCover, Gauge, "the share of tier hits the saving above actually rests on, since a hit with no comparable miss is not estimated", [])].

Fixpoint register_all (ms : list (string * Kind * string * list float64)) (r : Registry) : Registry * option MetricErr :=
  match ms with
  | [] => (r, None)
  | (n, k, h, bs) :: ms =>
      let '(r, e) := Register n k h bs r in
      match e with Some e => (r, Some e) | None => register_all ms r end
  end.
Definition Node (r : Registry) : Registry * option MetricErr := register_all node_metrics r.

(** * What is recorded under a set of labels stays under it *)

(** ** A key names its labels

    As long as no value has a comma in it: the key joins names and values with
    nothing to tell a separator from a value that holds one. *)
Definition plain (l : Labels) : Prop := map_Forall (fun _ v => has_byte "," v = false) l.

Lemma Cut_app c n v : has_byte c n = false -> Cut c (n +:+ String c v) = (n, v, true).
Proof.
  induction n as [|a n IH]; simpl; [by rewrite Ascii.eqb_refl|]. intros [-> H]%orb_false_elim.
  by rewrite (IH H).
Qed.

Lemma refused_None l : refused_label l = None <-> forall n, is_Some (l !! n) -> n ∈ allowed.
Proof.
  unfold refused_label. split.
  - intros F n S. destruct (decide (n ∈ allowed)) as [|N]; [done|]. exfalso.
    assert (n ∈ label_names l) as I by (apply elem_of_sort_Strings, elem_of_elements, elem_of_dom; done).
    pose proof (find_none _ _ F n (proj1 (list_elem_of_In _ _) I)) as E. cbv beta in E. by rewrite bool_decide_false in E.
  - intros H. destruct (List.find _ _) as [n|] eqn:F; [|done]. apply find_some in F as [I%list_elem_of_In B].
    apply elem_of_sort_Strings, elem_of_elements, elem_of_dom in I. cbv beta in B. by rewrite bool_decide_true in B by by apply H.
Qed.

Lemma allowed_plain n : n ∈ allowed -> has_byte "," n = false /\ has_byte "=" n = false.
Proof.
  intros I. assert (n ∈ elements allowed) as E by by apply elem_of_elements.
  assert (forallb (fun n => negb (has_byte "," n) && negb (has_byte "=" n)) (elements allowed) = true) as A by (vm_compute; reflexivity).
  rewrite forallb_forall in A. specialize (A n (proj1 (list_elem_of_In _ _) E)).
  apply andb_prop in A as [A B]. by apply negb_true_iff in A, B.
Qed.

Definition pairs_of (l : Labels) : list (string * string) := (fun n => (n, default "" (l !! n))) <$> label_names l.

Lemma pairs_of_inj l l' : pairs_of l = pairs_of l' -> l = l'.
Proof.
  intros E. apply map_eq. intros n.
  assert (forall l : Labels, l !! n = if bool_decide (is_Some (l !! n)) then l !! n else None) as D.
  { intros x. case_bool_decide as B; [done|]. by apply eq_None_not_Some. }
  assert (forall (l : Labels) v, l !! n = Some v <-> (n, v) ∈ pairs_of l) as K.
  { intros x v. unfold pairs_of. rewrite list_elem_of_fmap. split.
    - intros L. exists n. rewrite L. split; [done|]. by apply elem_of_sort_Strings, elem_of_elements, elem_of_dom.
    - intros (n' & [= -> ->] & I%elem_of_sort_Strings%elem_of_elements%elem_of_dom). by destruct I as [? ->]. }
  apply option_eq. intros v. by rewrite !K, E.
Qed.

Lemma items_of l : (fun n => n +:+ "=" +:+ default "" (l !! n)) <$> label_names l =
  (fun p : string * string => p.1 +:+ "=" +:+ p.2) <$> pairs_of l.
Proof. unfold pairs_of. by rewrite <- list_fmap_compose. Qed.

Lemma pairs_plain l : refused_label l = None -> plain l ->
  Forall (fun p => has_byte "," p.1 = false /\ has_byte "=" p.1 = false /\ has_byte "," p.2 = false) (pairs_of l).
Proof.
  intros A P. unfold pairs_of. apply Forall_fmap, Forall_forall. intros n I.
  apply elem_of_sort_Strings, elem_of_elements, elem_of_dom in I as [v E]. simpl. rewrite E. simpl.
  destruct (allowed_plain n) as [C Q]; [apply (proj1 (refused_None l) A); by exists v|]. split_and!; [done..|].
  apply (P n v E).
Qed.

Lemma key_inj l l' k : key l = Ok k -> key l' = Ok k -> plain l -> plain l' -> l = l'.
Proof.
  unfold key. destruct (refused_label l) eqn:A; [done|]. destruct (refused_label l') eqn:A'; [done|].
  rewrite !items_of. intros [= E] [= E'] P P'. apply pairs_of_inj.
  pose proof (pairs_plain _ A P) as F. pose proof (pairs_plain _ A' P') as F'. subst k. revert E' F F'.
  generalize (pairs_of l) (pairs_of l'). intros ps qs E F F'.
  set (f := fun p : string * string => p.1 +:+ "=" +:+ p.2) in *.
  assert (forall ps, Forall (fun p => has_byte "," p.1 = false /\ has_byte "=" p.1 = false /\ has_byte "," p.2 = false) ps ->
    Forall (fun x => has_byte "," x = false) (f <$> ps)) as Items.
  { intros l0 G. apply Forall_fmap. eapply Forall_impl; [exact G|]. intros [a b] (X & Y & Z). unfold f. simpl in *.
    by rewrite has_byte_app, X. }
  assert (f <$> ps = f <$> qs) as Ef.
  { destruct ps as [|p ps], qs as [|q qs]; try done.
    - exfalso. destruct q as [[|a b] v], qs; simpl in E; discriminate.
    - exfalso. destruct p as [[|a b] v], ps; simpl in E; discriminate.
    - rewrite <- (Split_Join "," (f <$> p :: ps)), <- (Split_Join "," (f <$> q :: qs)); [by f_equal|done|by apply Items|done|by apply Items]. }
  clear E. revert qs F' Ef. induction F as [|p ps (Hp1 & Hp2 & _) F IH]; intros qs F' Ef; [by destruct qs|].
  destruct qs as [|q qs]; [done|]. apply Forall_cons in F' as [(Hq1 & Hq2 & _) F']. simpl in Ef. injection Ef as Epq Ef.
  f_equal; [|by apply IH]. unfold f in Epq. change ("=" +:+ ?s) with (String "=" s) in Epq.
  pose proof (Cut_app "=" p.1 p.2 Hp2) as Cp. pose proof (Cut_app "=" q.1 q.2 Hq2) as Cq. simpl in *.
  rewrite Epq in Cp. rewrite Cq in Cp. destruct p, q. by injection Cp as -> ->.
Qed.

(** ** One recording *)

(** What a recording makes of a series, or why it is refused. *)
Definition effect (k : Kind) (bs : list float64) (o : recording) (s : series) : result MetricErr series :=
  match o, k with
  | OAdd d, Counter => if f64_ltb d (f64_of_Z 0) then Err ErrFall else Ok (set_value (f64_add (value s) d) s)
  | OAdd d, Gauge => Ok (set_value (f64_add (value s) d) s)
  | OSet v, Gauge => Ok (set_value v s)
  | OObserve v, Histogram =>
      Ok (mkSeries (labels s) (value s) (bump v bs (counts s)) (wrapU64 (count s + 1)) (f64_add (sum s) v))
  | _, _ => Err ErrKind
  end.
Definition apply_effect (k : Kind) (bs : list float64) (s : series) (o : recording) : series :=
  match effect k bs o s with Ok s' => s' | Err _ => s end.
Definition fresh_series (k : Kind) (bs : list float64) (l : Labels) : series :=
  mkSeries l (f64_of_Z 0) (if bool_decide (k = Histogram) then (fun _ => 0) <$> bs else []) 0 (f64_of_Z 0).

Definition declared (r : Registry) (name : string) : option (Kind * list float64) :=
  (fun m => (kind m, buckets m)) <$> metrics r !! name.

(** The series of a name and a set of labels, if there is one. *)
Definition reading (r : Registry) (name : string) (l : Labels) : option series :=
  m ← metrics r !! name; match key l with Ok k => mseries m !! k | Err _ => None end.

(** Every series is filed under its own labels, and they are plain. *)
Definition tidy (r : Registry) : Prop := forall name m k s,
  metrics r !! name = Some m -> mseries m !! k = Some s -> key (labels s) = Ok k /\ plain (labels s).

Definition put_at (name : string) (m : metric) (k : string) (s : series) (r : Registry) : Registry :=
  mkRegistry (<[name := mkMetric (kind m) (help m) (buckets m) (<[k := s]> (mseries m))
    (match mseries m !! k with Some _ => morder m | None => morder m ++ [k] end)]> (metrics r)) (rorder r).

Lemma effect_labels k bs o s s' : effect k bs o s = Ok s' -> labels s' = labels s.
Proof. destruct o, k; simpl; intros; try case_if; simplify_eq; done. Qed.

Lemma apply_effect_labels k bs s o : labels (apply_effect k bs s o) = labels s.
Proof. unfold apply_effect. destruct (effect k bs o s) eqn:E; [by apply effect_labels in E|done]. Qed.

Lemma record_shape o name l r : record_ o name l r =
  match metrics r !! name with
  | None => (r, Some ErrNotRegistered)
  | Some m =>
      match key l with
      | Err e => (r, Some e)
      | Ok k =>
          let s := default (fresh_series (kind m) (buckets m) l) (mseries m !! k) in
          (put_at name m k (apply_effect (kind m) (buckets m) s o) r,
           match effect (kind m) (buckets m) o s with Ok _ => None | Err e => Some e end)
      end
  end.
Proof.
  assert (forall r', mkRegistry (metrics r') (rorder r') = r') as Eta by (by intros []).
  destruct o; simpl; unfold Add, Set_, Metrics.Observe, at_series; destruct (metrics r !! name) as [m|] eqn:M; try done;
    destruct (key l) as [k|]; try done; destruct (mseries m !! k) as [s|] eqn:S; unfold put_at, put_series, apply_effect;
    cbv zeta; simpl; rewrite ?S;
    destruct (kind m) eqn:K; simpl; try destruct (f64_ltb _ _); simpl; rewrite ?K, ?insert_insert_eq; try done.
  all: f_equal; destruct r as [ms ro]; simpl in *; f_equal; symmetry; apply insert_id; rewrite M; f_equal;
    destruct m; simpl in *; rewrite insert_id by done; congruence.
Qed.

(** A recording changes the reading of its own name and labels, and no other. *)
Lemma record_reading o name l r name' l' : tidy r -> plain l -> plain l' ->
  reading (record_ o name l r).1 name' l' =
    if decide (name' = name /\ l' = l) then
      '(k, bs) ← declared r name;
      match refused_label l with
      | Some _ => None
      | None => Some (apply_effect k bs (default (fresh_series k bs l) (reading r name l)) o)
      end
    else reading r name' l'.
Proof.
  intros T P P'. rewrite record_shape. unfold declared, reading at 2.
  destruct (metrics r !! name) as [m|] eqn:M; simpl.
  2: { case_decide as E; [|done]. destruct E as [-> ->]. unfold reading. by rewrite M. }
  destruct (key l) as [k|e] eqn:K; simpl.
  2: { case_decide as E; [|done]. destruct E as [-> ->]. unfold reading. rewrite M. simpl. rewrite K.
       unfold key in K. by destruct (refused_label l). }
  assert (refused_label l = None) as R by (unfold key in K; by destruct (refused_label l)). rewrite R.
  unfold reading, put_at. simpl. case_decide as E.
  - destruct E as [-> ->]. rewrite lookup_insert_eq. simpl. rewrite K. by rewrite lookup_insert_eq.
  - destruct (decide (name' = name)) as [->|N]; [|by rewrite lookup_insert_ne].
    rewrite lookup_insert_eq, M. simpl. destruct (key l') as [k'|] eqn:K'; [|done].
    destruct (decide (k' = k)) as [->|Nk]; [|by rewrite lookup_insert_ne].
    destruct E. split; [done|]. by eapply key_inj.
Qed.

Lemma record_declared o name l r name' : declared (record_ o name l r).1 name' = declared r name'.
Proof.
  rewrite record_shape. destruct (metrics r !! name) as [m|] eqn:M; [|done]. destruct (key l); [|done].
  unfold declared, put_at. simpl. destruct (decide (name' = name)) as [->|N]; [|by rewrite lookup_insert_ne].
  by rewrite lookup_insert_eq, M.
Qed.

Lemma record_tidy o name l r : tidy r -> plain l -> tidy (record_ o name l r).1.
Proof.
  intros T P. rewrite record_shape. destruct (metrics r !! name) as [m|] eqn:M; [|done]. destruct (key l) as [k|] eqn:K; [|done].
  intros name' m' k' s'. unfold put_at. simpl. destruct (decide (name' = name)) as [->|N]; [|rewrite lookup_insert_ne by done; apply T].
  rewrite lookup_insert_eq. intros [= <-]. simpl. destruct (decide (k' = k)) as [->|N]; [|rewrite lookup_insert_ne by done; by apply (T name m)].
  rewrite lookup_insert_eq. intros [= <-]. rewrite apply_effect_labels. destruct (mseries m !! k) as [s|] eqn:S; simpl; [|done].
  by apply (T name m).
Qed.

(** ** A run of recordings *)

(** Those of a history under one name and one set of labels. *)
Definition under (name : string) (l : Labels) (h : list call) : list recording :=
  what <$> filter (fun e => cname e = name /\ clabels e = l) h.

Lemma run_frame h : forall r, tidy r -> Forall (fun e => plain (clabels e)) h ->
  tidy (run r h) /\ forall name, declared (run r h) name = declared r name.
Proof.
  induction h as [|e h IH]; intros r T F; [done|]. apply Forall_cons in F as [P F].
  destruct (IH (record_ (what e) (cname e) (clabels e) r).1) as [T' D]; [by apply record_tidy|done|].
  split; [done|]. intros name. change (run r (e :: h)) with (run (record_ (what e) (cname e) (clabels e) r).1 h).
  by rewrite D, record_declared.
Qed.

(** what a scrape reads of a name and a set of labels is what the recordings
    made under exactly those, in order, make of a series that starts at zero: none
    is lost, none of another series is counted in, and a label the project does not
    publish never appears. This holds as long as no label's value has a comma. *)
Theorem registry_refines_history r h name l : tidy r -> (forall name l, reading r name l = None) ->
  Forall (fun e => plain (clabels e)) h -> plain l ->
  reading (run r h) name l =
    '(k, bs) ← declared r name;
    match refused_label l, under name l h with
    | None, (_ :: _) as os => Some (fold_left (apply_effect k bs) os (fresh_series k bs l))
    | _, _ => None
    end.
Proof.
  intros T Z F P. induction h as [|e h IH] using rev_ind.
  - simpl. rewrite Z. unfold under. simpl. destruct (declared r name) as [[k bs]|]; simpl; [|done]. by destruct (refused_label l).
  - apply Forall_app in F as [F [Pe _]%Forall_cons]. specialize (IH F).
    destruct (run_frame h r T F) as [T' D]. unfold run in *. rewrite fold_left_app. simpl.
    rewrite record_reading, D by done. unfold under in *. rewrite filter_app, fmap_app, filter_cons, filter_nil.
    destruct (decide (name = cname e /\ l = clabels e)) as [[-> ->]|N].
    + rewrite !decide_True, IH by done. destruct (declared r (cname e)) as [[k bs]|]; simpl; [|done].
      destruct (refused_label (clabels e)); [done|].
      destruct (what <$> filter _ h) as [|o os]; simpl; [done|]. by rewrite fold_left_app.
    + rewrite decide_False by naive_solver. simpl. by rewrite app_nil_r, IH.
Qed.

(** ** What a node records is never refused

    Every error of a recording is dropped where it is made, so nothing would tell
    a series that is missing from one that is zero. *)
Lemma node_declared name k h bs : (name, k, h, bs) ∈ node_metrics ->
  declared (Node New).1 name = Some (k, bs).
Proof.
  assert (forallb (fun t : string * Kind * string * list float64 =>
    bool_decide (declared (Node New).1 t.1.1.1 = Some (t.1.1.2, t.2))) node_metrics = true) as A by (vm_compute; reflexivity).
  intros I%list_elem_of_In. rewrite forallb_forall in A. specialize (A _ I). by apply bool_decide_eq_true in A.
Qed.
