(* ===== verification/Readiness.v ===== *)
(** * Readiness: whether a node should be sent more work (internal/metrics/ready.go)

    Two bounds on the slowest recent read. A node over the upper one takes no more
    work, and one already out comes back only under the lower one, or when its
    window is empty. The theorem says what that comes to over a whole history. *)

From S2P Require Import Prelude.

Local Open Scope Z_scope.

Record sample : Type := mkSample {
  at_ : time;
  took : duration;
}.

Record Readiness : Type := mkReadiness {
  fail : duration;
  recover : duration;
  window : duration;
  samples : list sample;
  unready : bool;
  since : time;
}.

Definition NewReadiness (fail recover window : duration) : option Readiness :=
  if (fail <=? 0) || (recover <=? 0) then None
  else if fail <=? recover then None
  else if window <=? 0 then None
  else Some (mkReadiness fail recover window [] false 0).

Definition set_samples (l : list sample) (r : Readiness) : Readiness :=
  mkReadiness (fail r) (recover r) (window r) l (unready r) (since r).
Definition set_unready (b : bool) (now : time) (r : Readiness) : Readiness :=
  mkReadiness (fail r) (recover r) (window r) (samples r) b now.

Definition trim (now : time) (r : Readiness) : Readiness :=
  let cut := time_Add now (- window r) in
  set_samples (List.filter (fun s => time_After (at_ s) cut) (samples r)) r.

Definition worst (l : list sample) : duration :=
  fold_left (fun worst s => if worst <? took s then took s else worst) l 0.

Definition decide_ (now : time) (r : Readiness) : Readiness :=
  match samples r with
  | [] => if unready r then set_unready false now r else r
  | l =>
      if negb (unready r) && (fail r <=? worst l) then set_unready true now r
      else if unready r && (worst l <? recover r) then set_unready false now r
      else r
  end.

Definition Observe (took : duration) (now : time) (r : Readiness) : Readiness :=
  decide_ now (trim now (set_samples (samples r ++ [mkSample now took]) r)).

(** Why not: the window, its slowest read, the bound, and for how long. *)
Definition Ready (now : time) (r : Readiness) : Readiness * option (duration * duration * duration * duration) :=
  let r := decide_ now (trim now r) in
  (r, if negb (unready r) then None
      else Some (window r, worst (samples r), fail r, time_Sub now (since r))).

(** ** Over a history

    An event is a read that was answered, or a probe. *)
Inductive event : Type :=
  | Answered (took : duration)
  | Probed.

Definition ready_step (r : Readiness) (e : time * event) : Readiness :=
  match e.2 with Answered took => Observe took e.1 r | Probed => (Ready e.1 r).1 end.
Definition ready_run (r : Readiness) (h : list (time * event)) : Readiness := fold_left ready_step h r.

(** The reads of a history, and those of the window that ends at [now]. *)
Definition reads_of (h : list (time * event)) : list sample :=
  omap (fun e => match e.2 with Answered took => Some (mkSample e.1 took) | Probed => None end) h.
Definition recent (w : duration) (now : time) (h : list (time * event)) : list sample :=
  List.filter (fun s => now - w <? at_ s) (reads_of h).

Section history.
Context (r0 : Readiness).

(** At the end of a history: some read of the window took as long as the upper
    bound; every one was under the lower bound, or there was none. *)
Definition slow_at (h : list (time * event)) (now : time) : Prop :=
  exists s, s ∈ recent (window r0) now h /\ fail r0 <= took s.
Definition quick_at (h : list (time * event)) (now : time) : Prop :=
  forall s, s ∈ recent (window r0) now h -> took s < recover r0.

(** Time does not run backwards. *)
Definition in_time (h : list (time * event)) : Prop := StronglySorted (fun a b => a.1 <= b.1) h.

Lemma worst_from l : forall w, w <= fold_left (fun worst s => if worst <? took s then took s else worst) l w /\
  (forall s, s ∈ l -> took s <= fold_left (fun worst s => if worst <? took s then took s else worst) l w) /\
  (fold_left (fun worst s => if worst <? took s then took s else worst) l w = w \/
   exists s, s ∈ l /\ fold_left (fun worst s => if worst <? took s then took s else worst) l w = took s).
Proof.
  induction l as [|x l IH]; intros w; simpl; [split_and!; [done|by intros s H; inversion H|by left]|].
  destruct (IH (if w <? took x then took x else w)) as (A & B & C).
  destruct (Z.ltb_spec w (took x)).
  - split_and!; [lia| |].
    + intros s [-> | H']%elem_of_cons; [lia|by apply B].
    + right. destruct C as [->|(s & I & ->)]; [exists x|exists s]; split; auto; set_solver.
  - split_and!; [lia| |].
    + intros s [-> | H']%elem_of_cons; [lia|by apply B].
    + destruct C as [->|(s & I & ->)]; [by left|right; exists s; set_solver].
Qed.

Lemma worst_ge l b : 0 < b -> (b <=? worst l) = true <-> exists s, s ∈ l /\ b <= took s.
Proof.
  intros B. rewrite Z.leb_le. destruct (worst_from l 0) as (_ & U & A). unfold worst. split.
  - intros L. destruct A as [E|(s & I & E)]; [rewrite E in L; lia|]. exists s. rewrite <- E. by split.
  - intros (s & I & L). specialize (U s I). lia.
Qed.

Lemma worst_lt l b : 0 < b -> (worst l <? b) = true <-> forall s, s ∈ l -> took s < b.
Proof.
  intros B. destruct (b <=? worst l) eqn:E.
  - apply (worst_ge l b B) in E as E'. split.
    + intros L%Z.ltb_lt. apply Z.leb_le in E. lia.
    + intros H. destruct E' as (s & I & L). specialize (H s I). lia.
  - apply Z.leb_gt in E. rewrite (proj2 (Z.ltb_lt _ _)) by done. split; [|done]. intros _ s I.
    destruct (worst_from l 0) as (_ & U & _). specialize (U s I). unfold worst in E. lia.
Qed.
(** The last event of a history is at [t]. *)
Definition ends (h : list (time * event)) (t : time) : Prop := exists h' e, h = h' ++ [(t, e)].

(** At some event a read of its window was over the upper bound, and at none since
    was every read of its window under the lower one. *)
Definition held_out (h : list (time * event)) : Prop :=
  exists h1 t1 h2, h = h1 ++ h2 /\ ends h1 t1 /\ slow_at h1 t1 /\
    forall p t, p `prefix_of` h2 -> ends (h1 ++ p) t -> ~ quick_at (h1 ++ p) t.

Hypothesis bounds : 0 < recover r0 < fail r0.

Lemma slow_not_quick h t : slow_at h t -> ~ quick_at h t.
Proof. intros (s & I & L) Q. specialize (Q s I). lia. Qed.

Lemma ends_app h t e t' : ends (h ++ [(t, e)]) t' -> t' = t.
Proof. intros (h' & e' & E). apply app_inj_tail in E as [_ [= -> ->]]. done. Qed.

Lemma held_out_app h t e : held_out (h ++ [(t, e)]) <->
  slow_at (h ++ [(t, e)]) t \/ held_out h /\ ~ quick_at (h ++ [(t, e)]) t.
Proof.
  split.
  - intros (h1 & t1 & h2 & E & En & S & N). destruct h2 as [|x h2 _] using rev_ind.
    + rewrite app_nil_r in E. subst h1. left. apply ends_app in En as ->. done.
    + rewrite app_assoc in E. apply app_inj_tail in E as [-> <-]. right. split.
      * exists h1, t1, h2. split_and!; [done..|]. intros p t' P. apply N. by apply prefix_app_r.
      * rewrite <- app_assoc. apply N; [done|]. exists (h1 ++ h2), e. by rewrite app_assoc.
  - intros [S|[(h1 & t1 & h2 & -> & En & S & N) Q]].
    + exists (h ++ [(t, e)]), t, []. split_and!; [by rewrite app_nil_r|by exists h, e|done|].
      intros p t' ->%prefix_nil_inv En. rewrite app_nil_r in *. rewrite (ends_app _ _ _ _ En). by apply slow_not_quick.
    + exists h1, t1, (h2 ++ [(t, e)]). split_and!; [by rewrite app_assoc|done..|].
      intros p t' [q E] En'. destruct q as [|y q _] using rev_ind.
      * rewrite app_nil_r in E. subst p. rewrite app_assoc in *. by rewrite (ends_app _ _ _ _ En').
      * rewrite app_assoc in E. apply app_inj_tail in E as [-> _]. apply N; [by eexists|done].
Qed.

Lemma decide_unready now r : recover r = recover r0 -> fail r = fail r0 ->
  unready (decide_ now r) = (fail r0 <=? worst (samples r)) || unready r && negb (worst (samples r) <? recover r0).
Proof.
  intros Er Ef. unfold decide_. destruct (samples r) as [|s l] eqn:E.
  - unfold worst. simpl. rewrite (proj2 (Z.leb_gt (fail r0) 0)), (proj2 (Z.ltb_lt 0 (recover r0))) by lia. by destruct (unready r) eqn:U.
  - rewrite <- E, Er, Ef. destruct (unready r) eqn:U; simpl.
    + destruct (Z.ltb_spec (worst (samples r)) (recover r0)); simpl; rewrite ?U;
        [rewrite (proj2 (Z.leb_gt _ _)) by lia; done|by rewrite orb_true_r].
    + destruct (Z.leb_spec (fail r0) (worst (samples r))); simpl; by rewrite ?U.
Qed.

Lemma decide_frame now r : fail (decide_ now r) = fail r /\ recover (decide_ now r) = recover r /\
  window (decide_ now r) = window r /\ samples (decide_ now r) = samples r.
Proof. unfold decide_. destruct (samples r) eqn:E; repeat case_if; simpl; rewrite ?E; auto. Qed.

Lemma recent_app w now h e : recent w now (h ++ [e]) = recent w now h ++ recent w now [e].
Proof. unfold recent, reads_of. by rewrite omap_app, List.filter_app. Qed.

Lemma recent_later w t now h : t <= now ->
  List.filter (fun s => now - w <? at_ s) (recent w t h) = recent w now h.
Proof.
  intros L. unfold recent. induction (reads_of h) as [|s l IH]; [done|]. simpl.
  destruct (Z.ltb_spec (t - w) (at_ s)), (Z.ltb_spec (now - w) (at_ s)); simpl; try lia;
    rewrite ?IH, ?(proj2 (Z.ltb_lt (now - w) (at_ s))), ?(proj2 (Z.ltb_ge (now - w) (at_ s))) by lia; by rewrite ?IH.
Qed.

Lemma trim_samples now r : window r = window r0 -> 
  samples (trim now r) = List.filter (fun s => now - window r0 <? at_ s) (samples r).
Proof. intros E. unfold trim, time_After, time_Add. simpl. rewrite E. by rewrite Z.add_opp_r. Qed.

(** The state a history leaves. *)
Record tracks (h : list (time * event)) (r : Readiness) : Prop := {
  tr_fail : fail r = fail r0;
  tr_recover : recover r = recover r0;
  tr_window : window r = window r0;
  tr_samples : forall t, ends h t -> samples r = recent (window r0) t h;
  tr_none : h = [] -> samples r = [];
  tr_unready : unready r = true <-> held_out h;
}.

Lemma tracks_step h r t e : tracks h r -> (forall t', ends h t' -> t' <= t) ->
  tracks (h ++ [(t, e)]) (ready_step r (t, e)).
Proof.
  intros [Ef Er Ew Es En Eu] L.
  assert (forall extra, samples (trim t (set_samples (samples r ++ extra) r)) =
    recent (window r0) t h ++ List.filter (fun s => t - window r0 <? at_ s) extra) as Old.
  { intros extra. rewrite trim_samples by done. simpl. rewrite List.filter_app. f_equal.
    destruct h as [|x h _] using rev_ind; [by rewrite En|]. destruct x as [t' e'].
    assert (ends (h ++ [(t', e')]) t') as E by by exists h, e'. rewrite (Es _ E). apply recent_later. by apply L. }
  set (extra := match e with Answered took => [mkSample t took] | Probed => [] end).
  assert (ready_step r (t, e) = decide_ t (trim t (set_samples (samples r ++ extra) r))) as ->.
  { unfold ready_step, Ready, Observe, extra. destruct e; simpl; [done|]. rewrite app_nil_r. by destruct r. }
  set (r1 := trim t (set_samples (samples r ++ extra) r)).
  assert (samples r1 = recent (window r0) t (h ++ [(t, e)])) as S1.
  { unfold r1. rewrite Old, recent_app. f_equal. unfold recent, extra. by destruct e. }
  destruct (decide_frame t r1) as (F1 & F2 & F3 & F4).
  constructor; rewrite ?F1, ?F2, ?F3, ?F4; try done.
  - intros t' ->%ends_app. done.
  - intros E. by destruct h.
  - rewrite decide_unready, orb_true_iff, andb_true_iff, negb_true_iff, held_out_app by done.
    rewrite (worst_ge (samples r1)) by lia. rewrite <- not_true_iff_false, (worst_lt (samples r1)) by lia.
    rewrite S1. change (unready r1) with (unready r). by rewrite Eu.
Qed.

Lemma tracks_nil : unready r0 = false -> samples r0 = [] -> tracks [] r0.
Proof.
  intros U S. assert (forall t, ~ ends [] t) as N by (intros t (h' & e & E); by destruct h').
  constructor; try done. rewrite U. split; [done|].
  intros (h1 & t1 & h2 & E & En & _). symmetry in E. apply app_nil in E as [-> ->]. by apply N in En.
Qed.

Lemma tracks_run h : unready r0 = false -> samples r0 = [] -> in_time h -> tracks h (ready_run r0 h).
Proof.
  intros U S. induction h as [|[t e] h IH] using rev_ind; intros T; [by apply tracks_nil|].
  unfold ready_run. rewrite fold_left_app. simpl. unfold in_time in T.
  apply StronglySorted_app in T as (H & T & _). apply tracks_step; [by apply IH|].
  intros t' (h' & e' & ->). apply (H (t', e') (t, e)); set_solver.
Qed.
End history.

(** a node is held out exactly when at some moment a read of the window then
    ending had taken as long as the upper bound and at no moment since had every
    read of its window been under the lower one. So one slow read takes a node out
    at once, one between the bounds neither takes it out nor lets it back, and a
    node with nothing recent to judge is ready. *)
Theorem ready_exact f rc w r0 h now : NewReadiness f rc w = Some r0 -> in_time (h ++ [(now, Probed)]) ->
  is_Some (Ready now (ready_run r0 h)).2 <-> held_out r0 (h ++ [(now, Probed)]).
Proof.
  unfold NewReadiness. intros E T. repeat case_if; try done. injection E as <-. bool_to_prop.
  set (r0 := mkReadiness f rc w [] false 0).
  pose proof (tracks_run r0 ltac:(simpl; lia) (h ++ [(now, Probed)]) eq_refl eq_refl T) as K.
  rewrite <- (tr_unready _ _ _ K). unfold ready_run. rewrite fold_left_app. simpl. unfold ready_step, Ready. simpl.
  destruct (unready (decide_ now _)); simpl; [|split; [by intros [? ?]|done]]. split; eauto.
Qed.

(** A read of three seconds takes a node out, one of a second later on keeps it
    out, and with that one out of the window too it is back. *)
Definition wready : Readiness := mkReadiness (2 * Second) (500 * Millisecond) (30 * Second) [] false 0.
Definition wreads : list (time * event) := [(Second, Answered (3 * Second)); (25 * Second, Answered Second)].
Lemma ready_exact_witness :
  held_out wready (wreads ++ [(36 * Second, Probed)]) /\ ~ held_out wready (wreads ++ [(56 * Second, Probed)]).
Proof.
  assert (forall now, 25 * Second <= now -> in_time (wreads ++ [(now, Probed)])) as T.
  { intros now L. unfold in_time, wreads. simpl. unfold Second in *.
    repeat (apply SSorted_cons || apply Forall_cons_2 || apply Forall_nil_2 || apply SSorted_nil); simpl; lia. }
  split.
  - apply (ready_exact (2 * Second) (500 * Millisecond) (30 * Second) wready wreads); [reflexivity|by apply T|].
    vm_compute. eauto.
  - rewrite <- (ready_exact (2 * Second) (500 * Millisecond) (30 * Second) wready wreads); [|reflexivity|by apply T].
    vm_compute. by intros [? ?].
Defined.
