(* ===== verification/AgentMain.v ===== *)
(** * AgentMain: starting, draining and reporting a node
    (cmd/forebay-agent/main.go)

    What [run] decides before an agent opens: how much of the filesystem under its
    pools it may promise. And what it does with an open one that is told to drain,
    or whose watch reports a pass. Flags are arguments and what is printed is not
    modelled; what the machine answers is a [machine]. *)

From S2P Require Import Prelude GoStrings GoPath Float64 Pool Lease Agent Pressure Metrics Topology PoolStorage.

Local Open Scope Z_scope.

(** ** What the node may promise *)

Record Flags : Type := mkFlags {
  borrowed : string;
  journal : string;
  capacity : Z;
  reserved : Z;
  reclaim : duration;
  tenantCeiling : Z;
  stagingCeiling : Z;
  autonomy : bool;
  sysroot : string;
}.

(** The filesystem under the root, statfs, the mount table, the working directory,
    and what walking the borrowed directory finds. *)
Record machine : Type := mkMachine {
  msys : Sys;
  mstatfs : string -> result SysErr statfs_t;
  mmountinfo : option string;
  mcwd : string;
  mwalk : string -> result SysErr entry;
}.

Inductive StartErr : Type :=
  | ErrReclaimWithin (d : duration)
  | ErrConfig (e : AgentErr)
  | ErrNotLocal (device : string)
  | ErrNotKnownLocal
  | ErrUnmeasured
  | ErrNoReserve
  | ErrAccounting (e : PoolErr)
  | ErrPromises (promised deliverable : Bytes).

Definition leaseCfg (f : Flags) : Config := {|
  ReclaimWithin := reclaim f;
  GuaranteedFraction := GuaranteedFraction DefaultConfig;
  MinTerm := MinTerm DefaultConfig;
  ChurnWindow := ChurnWindow DefaultConfig;
  ChurnBudget := ChurnBudget DefaultConfig;
  Autonomy := autonomy f;
  CQuota := mkQuota (tenantCeiling f) (stagingCeiling f);
|}.

(** The agent's configuration names directories by their segments. *)
Definition dir_of (w : machine) (path : string) : option (list string) :=
  if (path =? "")%string then None else Some (segments_of (Abs (mcwd w) path)).
Definition cfg_of (w : machine) (f : Flags) : AgentConfig := {|
  BorrowedDir := dir_of w (borrowed f);
  JournalDir := if (journal f =? "")%string then None else dir_of w (Dir (journal f));
  CLease := leaseCfg f;
|}.

Definition borrowedFS (w : machine) (f : Flags) : PoolStorage :=
  DescribePool (msys w) (sysroot f) (mstatfs w) (mmountinfo w) (mcwd w) (borrowed f).

Definition deliverableBytes (fs : PoolStorage) (pools : list (string * result SysErr entry)) : option Bytes :=
  match Known (AvailableBytes fs) with
  | None => None
  | Some available =>
      match Known (OccupiedBytes pools) with
      | None => None
      | Some ours => Some (available +! ours)
      end
  end.

(** The block under [*capacity == 0]: the capacity discovered, and the reserve. *)
Definition discovered (f : Flags) (fs : PoolStorage) (deliverable : option Bytes) : result StartErr Accounting :=
  match Known (PLocal fs) with
  | Some false => Err (ErrNotLocal (PDevice fs))
  | None => Err ErrNotKnownLocal
  | Some true =>
      match Known (TotalBytes fs) with
      | None => Err ErrUnmeasured
      | Some total =>
          if total =? 0 then Err ErrUnmeasured
          else match deliverable with
               | Some d =>
                   let reserve := total -! d in
                   Ok (mkAccounting total (if reserved f <? reserve then reserve else reserved f) 0)
               | None => if 0 <? reserved f then Ok (mkAccounting total (reserved f) 0) else Err ErrNoReserve
               end
      end
  end.

Definition startup (w : machine) (f : Flags) : result StartErr Accounting :=
  if reclaim f <=? 0 then Err (ErrReclaimWithin (reclaim f))
  else match Agent.Validate (cfg_of w f) with
  | Some e => Err (ErrConfig e)
  | None =>
      let fs := borrowedFS w f in
      let deliverable := deliverableBytes fs [(borrowed f, mwalk w (borrowed f))] in
      let acct := if capacity f =? 0 then discovered f fs deliverable
                  else Ok (mkAccounting (capacity f) (reserved f) 0) in
      match acct with
      | Err e => Err e
      | Ok acct =>
          match Pool.Validate acct with
          | Some e => Err (ErrAccounting e)
          | None =>
              let promised := Capacity acct -! Reserved acct in
              match deliverable with
              | Some d => if d <? promised then Err (ErrPromises promised d) else Ok acct
              | None => Ok acct
              end
          end
      end
  end.

(** ** Draining *)

Inductive DrainErr : Type :=
  | ErrDraining (e : AgentErr)
  | ErrStopped (e : LeaseErr)
  | ErrStuck (stuck staging : Bytes)
  | ErrStaging (staging : Bytes).

Fixpoint held_sums (remaining : list Lease) (staging stuck : Bytes) : Bytes * Bytes :=
  match remaining with
  | [] => (staging, stuck)
  | l :: ls => if Class l =? Guaranteed then held_sums ls (staging +! Size l) stuck
               else held_sums ls staging (stuck +! Size l)
  end.
Definition stillHeld (remaining : list Lease) : option DrainErr :=
  let '(staging, stuck) := held_sums remaining 0 0 in
  if 0 <? stuck then Some (ErrStuck stuck staging)
  else if 0 <? staging then Some (ErrStaging staging)
  else None.

Definition drainOutcome (rec : Reclamation) (e : option AgentErr) (remaining : list Lease) : option DrainErr :=
  match e with
  | Some ErrDeadlineMissed | None =>
      match RErr (RResult rec) with
      | Some e => Some (ErrStopped e)
      | None => stillHeld remaining
      end
  | Some e => Some (ErrDraining e)
  end.

Section drain.
Context {J : Type} `{Journal J}.

(** [Agent.Leases] is the manager's, in reclaim order. *)
Definition drainNode (now : time) (elapsed : duration) (a : Agent J) : Agent J * option DrainErr :=
  let before := Borrowed (acct (manager a)) in
  if before =? 0 then (a, None)
  else
    let '(a, (rec, e)) := ReclaimCapacity before now elapsed a in
    (a, drainOutcome rec e (leasesLocked (manager a))).
End drain.
