(* ===== verification/AgentMainTheorems.v ===== *)
(** * AgentMainTheorems: a node promises only what its disk can deliver *)

From S2P Require Import Prelude GoStrings GoPath Float64 Pool Lease LeaseProofs Journal LeaseTheorems Agent.
From S2P Require Import AgentTheorems Pressure Topology PoolStorage MountTable TopologyTheorems AgentMain.

Local Open Scope Z_scope.

(** ** An agent's manager moves by the manager's own steps *)

Section steps.
Context {J : Type} `{Journal J}.
Implicit Types a : Agent J.

Lemma allocate_frame id size a : manager (allocate id size a).1 = manager a.
Proof.
  destruct (allocate id size a) as [a' e] eqn:E. apply allocate_spec in E. by destruct E.
Qed.

Lemma Grant_msteps l now a : is_int64 (Size l) -> is_int64 (Term l) ->
  rtc mstep (manager a) (manager (Grant l now a).1).
Proof.
  intros Sz Tm. unfold Grant. pose proof (step_Accept l now (manager a) Sz Tm) as S.
  destruct (Accept l now (manager a)) as [m e] eqn:A. simpl in S. apply rtc_once in S.
  destruct e as [e|]; [done|]. pose proof (allocate_frame (ID l) (Size l) (set_manager m a)) as F.
  destruct (allocate (ID l) (Size l) (set_manager m a)) as [a' e]. simpl in F.
  destruct e as [e|].
  - pose proof (step_Release (ID l) (manager a')) as R. destruct (Lease.Release (ID l) (manager a')) as [m' [n r]].
    rewrite F in R. destruct r; simpl; (eapply rtc_r; [exact S|exact R]).
  - unfold granted. destruct (ExtentPath (ID l)); simpl; by rewrite F.
Qed.

Lemma Agent_Release_msteps id a : rtc mstep (manager a) (manager (Release id a).1).
Proof.
  unfold Release. simpl releasing. pose proof (discard_frame id (note (ToldReleasing [id]) a)) as [M _].
  destruct (discard id _) as [a' e]. simpl in M. destruct e; simpl; [by rewrite M|].
  pose proof (step_Release id (manager a')) as R. destruct (Lease.Release id (manager a')) as [m' [n r]]. simpl.
  rewrite M in R. by apply rtc_once.
Qed.

Lemma ReclaimCapacity_manager need now elapsed a :
  manager (ReclaimCapacity need now elapsed a).1 = (Reclaim need now (manager a)).1 /\
  RResult (ReclaimCapacity need now elapsed a).2.1 = (Reclaim need now (manager a)).2.
Proof.
  unfold ReclaimCapacity. destruct (Reclaim need now (manager a)) as [m res].
  set (a0 := releasing _ _). assert (manager a0 = m) as E by (unfold a0, releasing; by destruct (Dropped res)).
  pose proof (discard_all_frame (Dropped res) a0 []) as [M _].
  destruct (discard_all (Dropped res) a0 []) as [a' failed]. simpl in *. by rewrite M, E.
Qed.

Lemma astep_msteps a a' : astep a a' -> rtc mstep (manager a) (manager a').
Proof.
  destruct 1 as [l now a Sz Tm|id a|need now el a N|now tmp a P].
  - by apply Grant_msteps.
  - apply Agent_Release_msteps.
  - destruct (ReclaimCapacity_manager need now el a) as [-> _]. by apply rtc_once, step_Reclaim.
  - pose proof (Heartbeat_spec now tmp a) as S. destruct (Heartbeat now tmp a) as [a' e]. destruct S as [M _]. simpl. by rewrite M.
Qed.

Lemma asteps_msteps a a' : rtc astep a a' -> rtc mstep (manager a) (manager a').
Proof. induction 1 as [|a b c S _ IH]; [done|]. etrans; [by apply astep_msteps|done]. Qed.

Lemma reap_frame names live : forall a onDisk r, manager (reap names live a onDisk r).1 = manager a.
Proof.
  induction names as [|n names IH]; intros a onDisk r; [done|]. simpl.
  pose proof (Remove_frame n a) as [M _].
  destruct (_ || _); [apply IH|]. destruct (String.prefix _ _).
  - destruct (Remove n a) as [a' []]; simpl in *; [by rewrite IH|done].
  - case_bool_decide; [apply IH|]. destruct (Remove n a) as [a' []]; simpl in *; [by rewrite IH|done].
Qed.

Lemma drop_missing_msteps ids interrupted : forall a r,
  rtc mstep (manager a) (manager (drop_missing ids interrupted a r).1).
Proof.
  induction ids as [|id ids IH]; intros a r; [done|]. simpl.
  pose proof (step_Release id (manager a)) as R. destruct (Lease.Release id (manager a)) as [m [n e]]. simpl in R.
  destruct e as [e|]; simpl; [by apply rtc_once|]. eapply rtc_l; [exact R|]. apply (IH (set_manager m a)).
Qed.

Lemma reconcile_msteps a : rtc mstep (manager a) (manager (reconcile a).1).
Proof.
  unfold reconcile. destruct (negb (os a)); [done|]. cbv zeta.
  pose proof (reap_frame (sort_Strings (elements (dom (dir (called a))))) (live_ids (called a)) (called a) ∅) as F.
  match goal with |- context [reap ?n ?l ?x ?d ?r] => specialize (F r); destruct (reap n l x d r) as [a1 [[onDisk r1] [e|]]] end;
    simpl in *; [by rewrite F|].
  rewrite <- F. apply drop_missing_msteps.
Qed.

Lemma open_lock_frame a : manager (open_lock a).1 = manager a /\ config (open_lock a).1 = config a.
Proof. unfold open_lock. repeat (destruct (negb (os _)); [done|]). done. Qed.

(** Whatever an agent finds when it opens, its manager is one the manager's own
    steps reach from a new one. *)
Lemma Open_msteps acct j now tmp free verified a a' o :
  Open acct j now tmp free verified a = (a', (o, None)) ->
  rtc mstep (WithJournal j (New acct (CLease (config a)))) (manager a').
Proof.
  unfold Open. destruct (Validate (config a)); [done|]. pose proof (open_lock_frame a) as [_ C].
  destruct (open_lock a) as [a1 opened]. simpl in C. destruct (negb opened); [done|]. destruct (negb free); [done|].
  rewrite C. pose proof (step_Restore now (WithJournal j (New acct (CLease (config a))))) as R.
  destruct (Restore now _) as [m [res e]]. simpl in R. set (a2 := set_manager m a1).
  pose proof (reconcile_msteps a2) as Rc. destruct (reconcile a2) as [a3 [r e1]]. simpl in Rc.
  pose proof (Heartbeat_spec now tmp a3) as Hb. destruct (Heartbeat now tmp a3) as [a4 e2]. destruct Hb as (M & _).
  assert (rtc mstep (WithJournal j (New acct (CLease (config a)))) (manager a4)) as G
    by (rewrite M; eapply rtc_l; [exact R|exact Rc]).
  destruct e as [[]|]; try done; repeat case_match; try done; intros [= <- _]; done.
Qed.
End steps.

(** ** Starting *)

Definition deliverable_of (w : machine) (f : Flags) : option Bytes :=
  deliverableBytes (borrowedFS w f) [(borrowed f, mwalk w (borrowed f))].

(** On local storage: the mount the pool is on, as the table writes it, is of an NVMe
    namespace whose controller is on the machine's own bus. *)
Definition on_local_storage (w : machine) (f : Flags) : Prop :=
  is_Some (mmountinfo w) /\ forall rows, scanned rows -> mmountinfo w = Some (mount_table rows) ->
    on_local_drive tabled_point (msys w) (sysroot f) (Abs (mcwd w) (borrowed f)) rows.

Lemma TotalBytes_int64 w f total : Known (TotalBytes (borrowedFS w f)) = Some total -> is_int64 total.
Proof.
  unfold borrowedFS, DescribePool. case_if; [done|]. destruct (statfsNearest _ _ _) as [st|]; [|done].
  destruct (0 <? Bsize st); [|done]. intros [= <-]. apply wrap64_range.
Qed.

Lemma Validate_new_acct c r : is_int64 c -> is_int64 r -> Pool.Validate (mkAccounting c r 0) = None ->
  acct_ok (mkAccounting c r 0).
Proof.
  intros Ic Ir. unfold Pool.Validate, validate_fields, Free. simpl.
  destruct (Z.ltb_spec c 0); [done|]. destruct (Z.ltb_spec r 0); [done|]. simpl.
  rewrite wrap64_add_sub, Z.sub_0_r. case_if; [done|]. bool_to_prop.
  rewrite wrap64_id in * by int64_lia. intros _. constructor; simpl; unfold is_int64 in *; lia.
Qed.

Lemma discovered_Ok w f acct : is_int64 (reserved f) -> discovered f (borrowedFS w f) (deliverable_of w f) = Ok acct ->
  Known (PLocal (borrowedFS w f)) = Some true /\ Known (TotalBytes (borrowedFS w f)) = Some (Capacity acct) /\
  acct = mkAccounting (Capacity acct) (Reserved acct) 0 /\ is_int64 (Reserved acct) /\ reserved f <= Reserved acct /\
  forall d, deliverable_of w f = Some d -> Capacity acct -! d <= Reserved acct.
Proof.
  intros Ir. unfold discovered. destruct (Known (PLocal _)) as [[]|]; try done.
  destruct (Known (TotalBytes _)) as [total|] eqn:T; [|done]. destruct (total =? 0); [done|].
  destruct (deliverable_of w f) as [d|] eqn:D.
  - intros [= <-]. simpl. split_and!; try done.
    + case_if; [apply wrap64_range|done].
    + case_if; bool_to_prop; lia.
    + intros d' [= <-]. case_if; bool_to_prop; lia.
  - destruct (0 <? reserved f); [|done]. intros [= <-]. simpl. split_and!; try done; lia.
Qed.

(** The accounting a node starts with is sound, promises no more than can be
    delivered, and comes from local storage unless a capacity was given. *)
Lemma startup_Ok w f acct : is_int64 (capacity f) -> is_int64 (reserved f) -> startup w f = Ok acct ->
  acct_ok acct /\ reserved f <= Reserved acct /\
  (forall d, deliverable_of w f = Some d -> Capacity acct - Reserved acct <= d) /\
  (capacity f <> 0 -> Capacity acct = capacity f) /\
  (capacity f = 0 -> Known (PLocal (borrowedFS w f)) = Some true /\ Known (TotalBytes (borrowedFS w f)) = Some (Capacity acct)).
Proof.
  intros Ic Ir. unfold startup. case_if; [done|]. destruct (Agent.Validate _); [done|].
  fold (deliverable_of w f). set (src := if capacity f =? 0 then _ else _).
  assert (forall acct, src = Ok acct -> acct = mkAccounting (Capacity acct) (Reserved acct) 0 /\
    is_int64 (Capacity acct) /\ is_int64 (Reserved acct) /\ reserved f <= Reserved acct /\
    (capacity f <> 0 -> Capacity acct = capacity f) /\
    (capacity f = 0 -> Known (PLocal (borrowedFS w f)) = Some true /\
       Known (TotalBytes (borrowedFS w f)) = Some (Capacity acct))) as Src.
  { intros x. unfold src. destruct (Z.eqb_spec (capacity f) 0) as [E|N].
    - intros (L & T & X & Irx & R & _)%discovered_Ok; [|done]. split_and!; try done. by apply TotalBytes_int64 in T.
    - intros [= <-]. split_and!; simpl; try done; lia. }
  destruct src as [x|]; [|done]. destruct (Src x eq_refl) as (Ex & Icx & Irx & R & C & L).
  destruct (Pool.Validate x) eqn:V; [done|]. rewrite Ex in V.
  pose proof (Validate_new_acct _ _ Icx Irx V) as Ok'. rewrite <- Ex in Ok'.
  assert (Capacity x -! Reserved x = Capacity x - Reserved x) as Sub by (destruct Ok'; int64_lia).
  destruct (deliverable_of w f) as [d|] eqn:D.
  - destruct (Z.ltb_spec d (Capacity x -! Reserved x)); [done|]. intros [= <-]. split_and!; auto; try lia.
    intros d' [= <-]. lia.
  - intros [= <-]. by split_and!.
Qed.

(** whatever a node that started is then asked, what its leases hold never
    exceeds what its filesystem could deliver when it started, free space and what
    Forebay already occupied there, where both could be measured; with the reserve it
    fits the capacity an operator gave; and unless one was given, that filesystem is on a drive on the machine's own bus, and the leases and the
    reserve together fit its size. *)
Theorem lends_what_it_has {J} `{JournalSpec J} w f acct j now tmp free verified (a a1 a2 : Agent J) o :
  is_int64 (capacity f) -> is_int64 (reserved f) -> startup w f = Ok acct -> config a = cfg_of w f ->
  Open acct j now tmp free verified a = (a1, (o, None)) -> rtc astep a1 a2 ->
  0 <= lent (leases (manager a2)) /\
  (forall d, deliverable_of w f = Some d -> lent (leases (manager a2)) <= d) /\
  (capacity f <> 0 -> reserved f + lent (leases (manager a2)) <= capacity f) /\
  (capacity f = 0 -> on_local_storage w f /\ exists total, Known (TotalBytes (borrowedFS w f)) = Some total /\
     reserved f + lent (leases (manager a2)) <= total).
Proof.
  intros Ic Ir (A & R & D & Cp & L)%startup_Ok Cf Op St; [|done..].
  apply Open_msteps in Op. apply asteps_msteps in St. assert (rtc mstep _ _) as Run by (etrans; [exact Op|exact St]).
  destruct (reachable_minv _ _ (WithJournal_minv j _ (New_minv acct (CLease (config a)) A)) Run) as ((b & I & _) & Ec & Er).
  simpl in Ec, Er. pose proof (inv_lent_bound _ _ I). pose proof (ok_fits _ (inv_acct _ _ I)).
  pose proof (inv_sum _ _ I). pose proof (inv_base _ _ I).
  assert (lent (leases (manager a2)) <= Capacity acct - Reserved acct) as Fit by lia.
  split_and!; [lia| | |].
  - intros d E. specialize (D d E). lia.
  - intros E. rewrite <- (Cp E). lia.
  - intros E. destruct (L E) as [Loc T]. split.
    + unfold on_local_storage, borrowedFS in *. split.
      * destruct (mmountinfo w); [by eexists|]. by rewrite DescribePool_no_table in Loc.
      * intros rows Sc E'. rewrite E' in Loc. by apply DescribePool_local in Loc as [_ ?].
    + exists (Capacity acct). split; [done|lia].
Qed.

(** A node on a local drive, 4000 KiB of it free and 40 KiB already ours. *)
Definition wmachine : machine := {|
  msys := sysfs;
  mstatfs p := if (p =? "/mnt/pool")%string then Ok (mkStatfs 4096 2000 1000) else Err NotExist;
  mmountinfo := Some mountinfo;
  mcwd := "/";
  mwalk _ := Ok (Directory (Ok [Regular (Ok 80); Special; Regular (Err NotExist)]));
|}.
Definition wflags : Flags :=
  mkFlags "/mnt/pool/borrowed" "/var/lib/forebay/leases" 0 0 (30 * Second) 0 0 true "/".
Definition wacct : Accounting := mkAccounting 8192000 4055040 0.
Definition wnew : Agent FileJournal :=
  {| config := cfg_of wmachine wflags; manager := wit_m0; dir := ∅; beat := None; io := []; log := [] |}.
Definition wopen : Agent FileJournal := (Open wacct wit_disk 0 ".forebay-1" true true wnew).1.

Lemma lends_what_it_has_witness :
  let a := (Grant (wit_lease "job" Opportunistic 4000000) 1 wopen).1 in
  startup wmachine wflags = Ok wacct /\ deliverable_of wmachine wflags = Some 4136960 /\
  lent (leases (manager a)) = 4000000 /\ lent (leases (manager a)) <= 4136960 /\ on_local_storage wmachine wflags.
Proof.
  intros a. assert (startup wmachine wflags = Ok wacct) as S by (vm_compute; reflexivity).
  assert (deliverable_of wmachine wflags = Some 4136960) as D by (vm_compute; reflexivity).
  assert ((Open wacct wit_disk 0 ".forebay-1" true true wnew).2.2 = None) as O by (vm_compute; reflexivity).
  destruct (lends_what_it_has wmachine wflags wacct wit_disk 0 ".forebay-1" true true wnew wopen a
    (Open wacct wit_disk 0 ".forebay-1" true true wnew).2.1) as (_ & B & _ & L).
  - simpl. int64_lia.
  - simpl. int64_lia.
  - exact S.
  - reflexivity.
  - unfold wopen. destruct (Open _ _ _ _ _ _ _) as [x [y z]]. simpl in *. by rewrite O.
  - apply rtc_once, astep_Grant; simpl; int64_lia.
  - split_and!; [exact S|exact D|vm_compute; reflexivity|exact (B _ D)|exact (proj1 (L eq_refl))].
Defined.

(** ** Draining *)

Section draining.
Context {J : Type} `{Journal J}.
Implicit Types a : Agent J.

(** What a drain may not take: staging still within its term. *)
Definition staging_leases (now : time) (m : Manager J) : gmap string Lease :=
  filter (fun e => Class e.2 = Guaranteed /\ Expired e.2 now = false) (leases m).

Lemma held_sums_exact ls : forall staging stuck, 0 <= staging -> 0 <= stuck ->
  Forall (fun l => 0 <= Size l) ls -> staging + stuck + sum_sizes ls <= MaxInt64 ->
  held_sums ls staging stuck =
    (staging + sum_sizes (List.filter (fun l => Class l =? Guaranteed) ls), stuck + sum_sizes (reclaimable ls)).
Proof.
  induction ls as [|l ls IH]; intros staging stuck S1 S2 F B; simpl; [unfold sum_sizes; simpl; by rewrite !Z.add_0_r|].
  apply Forall_cons in F as [P F]. rewrite sum_sizes_cons in B.
  assert (0 <= sum_sizes ls) by (apply Zsum_nonneg; by apply Forall_fmap).
  destruct (Class l =? Guaranteed); simpl; rewrite sum_sizes_cons, wrap64_id by int64_lia; rewrite IH by (done || lia);
    f_equal; lia.
Qed.

(** What [Reclaim] leaves when it is asked for all that is lent. *)
Lemma Reclaim_all now (m : Manager J) : inv 0 m -> map_Forall (fun _ l => 0 < Size l) (leases m) ->
  0 < Borrowed (acct m) -> leases (Reclaim (Borrowed (acct m)) now m).1 = staging_leases now m.
Proof.
  intros I P N. destruct (Reclaim (Borrowed (acct m)) now m) as [m' r] eqn:R.
  destruct (Borrowed_int64 _ _ I) as [B1 B2].
  destruct (Reclaim_spec 0 (Borrowed (acct m)) now m m' r I) as ((j & rs & ->) & _); [int64_lia|done|done|].
  simpl. set (need := Borrowed (acct m)) in *. set (D := reclaim_choice need now m).
  pose proof (reclaim_choice_held 0 need now m I) as Hd. fold D in Hd.
  apply map_eq. intros id. unfold staging_leases. rewrite drop_leases_lookup.
  destruct (leases m !! id) as [l|] eqn:E.
  2: { rewrite map_lookup_filter_None_2 by by left. by case_bool_decide. }
  assert (ID l = id) as Ei by (eapply keyed_lookup; [apply (inv_keyed _ _ I)|done]).
  destruct (decide (Class l = Guaranteed /\ Expired l now = false)) as [[G X]|NG].
  - rewrite (map_lookup_filter_Some_2 _ _ _ l) by done. rewrite bool_decide_false; [done|].
    intros (k & Ek & Hk)%list_elem_of_fmap. rewrite <- Ei in Ek, E.
    destruct Hd as [_ F]. rewrite Forall_forall in F. pose proof (F k Hk) as Fk. rewrite <- Ek, E in Fk. injection Fk as <-.
    apply (reclaim_running 0) in Hk; [|done..]. by apply ladder_elem in Hk as [_ ?].
  - rewrite map_lookup_filter_None_2; [|right; intros x; rewrite E; by intros [= <-]]. case_bool_decide as Nd; [done|]. exfalso.
    assert (leases (drop_leases D m) !! id = Some l) as Ed by (rewrite drop_leases_lookup, bool_decide_false by done; done).
    apply (reclaim_keeps 0) in Ed as (_ & Nc & X & El); [|done].
    destruct (decide (Class l = Guaranteed)) as [G|G]; [by apply NG|].
    destruct (ladder_cheapest (need - sum_sizes (expired_leases now m))
      (leasesLocked (drop_leases (expired_leases now m) m)) l) as [Cov _]; [apply leasesLocked_Sorted|done..| |].
    { intros H'. apply Nc. unfold D, reclaim_choice. set_solver. }
    pose proof (drop_leases_inv 0 D m I Hd) as Ik.
    assert (leases (drop_leases D m) !! id = Some l) as Ed by (rewrite drop_leases_lookup, bool_decide_false by done; done).
    pose proof (lent_elem _ _ _ (inv_sizes _ _ Ik) Ed). pose proof (drop_leases_Borrowed D m) as Bd.
    pose proof (inv_sum _ _ Ik). pose proof (P id l E) as Pl. simpl in Pl.
    assert (need <= sum_sizes D) by (unfold D, reclaim_choice; rewrite sum_sizes_app; lia). lia.
Qed.
(** What a drain is told to hold on to, when what is left is staging alone. *)
Lemma stillHeld_staging (m : Manager J) : inv 0 m ->
  (forall l, l ∈ leasesLocked m -> Class l = Guaranteed) ->
  stillHeld (leasesLocked m) = if 0 <? lent (leases m) then Some (ErrStaging (lent (leases m))) else None.
Proof.
  intros I G. pose proof (inv_lent_bound _ _ I). pose proof (ok_capacity _ (inv_acct _ _ I)).
  assert (Forall (fun l => 0 <= Size l) (leasesLocked m)) as F.
  { apply Forall_forall. intros l (id & El)%elem_of_leasesLocked. by apply (inv_sizes _ _ I id). }
  unfold stillHeld. rewrite held_sums_exact; [|lia|lia|done|rewrite leasesLocked_sum; lia].
  assert (forall ls, (forall l : Lease, l ∈ ls -> Class l = Guaranteed) -> reclaimable ls = [] /\
    List.filter (fun l => Class l =? Guaranteed) ls = ls) as Fl.
  { clear. induction ls as [|l ls IH]; intros G; [done|]. unfold reclaimable in *. simpl. rewrite (G l) by left. simpl.
    destruct IH as [-> ->]; [|done]. intros k Hk. apply G. by right. }
  destruct (Fl (leasesLocked m) G) as [-> ->]. by rewrite leasesLocked_sum.
Qed.

(** Leases of some size that hold nothing are none. *)
Lemma lent_zero (m : Manager J) : inv 0 m -> map_Forall (fun _ l => 0 < Size l) (leases m) ->
  lent (leases m) <= 0 -> leases m = ∅.
Proof.
  intros I P Z0. apply map_empty. intros id. destruct (leases m !! id) as [l|] eqn:E; [|done]. exfalso.
  pose proof (lent_elem _ _ _ (inv_sizes _ _ I) E). pose proof (P id l E) as Pl. simpl in Pl. lia.
Qed.
End draining.

(** C13: a drain leaves exactly the staging leases still within their terms: it
    takes everything else, and never one of those. It says the node is drained only
    when nothing is left; it says staging is held only when it is, and how much;
    that something it should have taken is left, never; and otherwise that an
    extent could not be unlinked or the journal not saved. On a node whose disk
    answers, what is left on disk is what is left lent. *)
Theorem drain_exact {J} `{Journal J} now elapsed (a a' : Agent J) e :
  inv 0 (manager a) -> map_Forall (fun _ l => 0 < Size l) (leases (manager a)) ->
  drainNode now elapsed a = (a', e) ->
  leases (manager a') = staging_leases now (manager a) /\
  match e with
  | None => leases (manager a') = ∅
  | Some (ErrStaging n) => leases (manager a') <> ∅ /\ n = lent (leases (manager a'))
  | Some (ErrStuck _ _) => False
  | Some (ErrDraining e) => exists id ids, e = ErrUnlink (id :: ids)
  | Some (ErrStopped e) => exists je, e = ErrJournal je
  end /\
  (ainv 0 a -> extents (dir a') = Size <$> leases (manager a')).
Proof.
  intros I P. pose proof (Borrowed_int64 _ _ I) as B. pose proof (inv_sum _ _ I) as Sum. unfold drainNode.
  destruct (Z.eqb_spec (Borrowed (acct (manager a))) 0) as [Z0|N].
  { intros [= <- <-]. assert (leases (manager a) = ∅) as E by (apply lent_zero; [done..|lia]).
    split_and!; [by unfold staging_leases; rewrite E, map_filter_empty|done|apply ainv_extents]. }
  destruct (ReclaimCapacity_manager (Borrowed (acct (manager a))) now elapsed a) as [M Rr].
  pose proof (Reclaim_all now (manager a) I P ltac:(lia)) as All.
  pose proof (ainv_Reclaim 0 (Borrowed (acct (manager a))) now elapsed a) as Ar.
  pose proof (Reclaim_inv 0 (Borrowed (acct (manager a))) now (manager a) ltac:(int64_lia) I) as I'.
  destruct (Reclaim (Borrowed (acct (manager a))) now (manager a)) as [m r] eqn:R.
  destruct (Reclaim_spec 0 (Borrowed (acct (manager a))) now (manager a) m r I ltac:(int64_lia) ltac:(lia) R) as (_ & _ & _ & _ & Er).
  destruct (ReclaimCapacity _ now elapsed a) as [a1 [rec e1]] eqn:C. simpl in *. intros [= <- <-]. rewrite M.
  assert (map_Forall (fun _ l => 0 < Size l) (leases m)) as P'.
  { intros id l El. rewrite All in El. apply map_lookup_filter_Some in El as [El _]. by apply (P id). }
  split; [done|]. split; [|intros A; rewrite <- M; apply (ainv_extents 0); apply Ar; [int64_lia|done]].
  assert (e1 = None \/ e1 = Some ErrDeadlineMissed \/ exists id ids, e1 = Some (ErrUnlink (id :: ids))) as E1.
  { unfold ReclaimCapacity in C. rewrite R in C. destruct (discard_all _ _ _) as [a2 failed]. injection C as _ _ <-.
    destruct failed as [|id ids]; [|right; right; by exists id, ids]. simpl. case_if; auto. }
  assert (match (match RErr r with Some e => Some (ErrStopped e) | None => stillHeld (leasesLocked m) end) with
    | None => leases m = ∅
    | Some (ErrStaging n) => leases m <> ∅ /\ n = lent (leases m)
    | Some (ErrStuck _ _) => False
    | Some (ErrDraining e) => exists id ids, e = ErrUnlink (id :: ids)
    | Some (ErrStopped e) => exists je, e = ErrJournal je
    end) as G.
  { destruct Er as [->|[je ->]]; [|by exists je]. rewrite (stillHeld_staging m I').
    - destruct (Z.ltb_spec 0 (lent (leases m))); [|by apply lent_zero].
      split; [|done]. intros E. rewrite E, lent_empty in *. lia.
    - intros l (id & El)%elem_of_leasesLocked. rewrite All in El. by apply map_lookup_filter_Some in El as [_ [G _]]. }
  unfold drainOutcome. rewrite Rr. destruct E1 as [->|[->|(id & ids & ->)]]; [exact G..|by exists id, ids].
Qed.

Lemma drain_exact_witness :
  let '(a', e) := drainNode 3 0 wagent in
  e = Some (ErrStaging 300) /\ leases (manager a') = <["b" := set_GrantedAt 2 (wit_lease "b" Guaranteed 300)]> ∅ /\
  extents (dir a') = Size <$> leases (manager a').
Proof.
  destruct (drainNode 3 0 wagent) as [a' e] eqn:D.
  assert (e = Some (ErrStaging 300)) as -> by (apply (f_equal snd) in D; vm_compute in D; symmetry; exact D).
  destruct (drain_exact 3 0 wagent a' (Some (ErrStaging 300))) as (L & _ & E); [apply wit_inv| |exact D|].
  - assert (map_to_list (leases (manager wagent)) =
      [("a", set_GrantedAt 1 (wit_lease "a" Opportunistic 200)); ("b", set_GrantedAt 2 (wit_lease "b" Guaranteed 300))]
      \/ map_to_list (leases (manager wagent)) =
      [("b", set_GrantedAt 2 (wit_lease "b" Guaranteed 300)); ("a", set_GrantedAt 1 (wit_lease "a" Opportunistic 200))]) as M
      by (vm_compute; auto).
    apply map_Forall_to_list. destruct M as [-> | ->]; repeat apply Forall_cons_2; try apply Forall_nil_2; reflexivity.
  - split_and!; [reflexivity|rewrite L; vm_compute; reflexivity|apply E, wagent_ainv].
Defined.
