(* ===== verification/AgentWatch.v ===== *)
(** * AgentWatch: the pod input and what a node publishes (cmd/forebay-agent/main.go)

    The input from the kubelet is proved to watch the pools' filesystem before it
    is used, in the background and again until it succeeds; and every pass of the
    watch, and every read, is recorded in the registry. *)

From S2P Require Import Prelude GoStrings Float64 Pool Lease Agent Pressure Metrics Topology PoolStorage Kubelet.
From S2P Require DataServer Prefetch.

Local Open Scope Z_scope.

(** ** Proving the pod input *)

(** What it is proved against: what [stat] says of each path, the token file, the
    kubelet's own filesystem, and what the pools' measured. *)
Record kubelet_view : Type := mkView {
  stat : string -> option Z;
  token : option string;
  node_fs : option Z;
}.

Inductive PodErr : Type :=
  | ErrOtherFilesystem
  | ErrToken
  | ErrKubelet
  | ErrPoolsUnmeasured
  | ErrOtherSize
  | ErrSource.

(** [podSource]: the capacity the source is built with. [build] is
    [kubelet.NewSource]. *)
Definition podSource {S} (root borrowedDir : string) (pools : PoolStorage) (v : kubelet_view) (build : Z -> option S)
  : result PodErr S :=
  let same := SameFilesystem (stat v) root borrowedDir in
  match same with
  | Ok false => Err ErrOtherFilesystem
  | _ =>
      match token v with
      | None => Err ErrToken
      | Some _ =>
          match node_fs v with
          | None => Err ErrKubelet
          | Some capacity =>
              let build_ := match build capacity with Some s => Ok s | None => Err ErrSource end in
              match same with
              | Ok _ => build_
              | Err _ =>
                  match Known (TotalBytes pools) with
                  | None => Err ErrPoolsUnmeasured
                  | Some total => if negb (total =? capacity) then Err ErrOtherSize else build_
                  end
              end
          end
      end
  end.

(** [pendingSource]: an attempt runs on a goroutine of its own, so it is a step
    apart from the observations. *)
Record pendingSource (S E : Type) : Type := mkPending {
  built : option S;
  lastErr : option E;
  building : bool;
}.
Arguments mkPending {S E} _ _ _.
Arguments built {S E} _.
Arguments lastErr {S E} _.
Arguments building {S E} _.

Section pending.
Context {S E : Type}.
Definition no_source : pendingSource S E := mkPending None None false.

Inductive answer : Type :=
  | Ask (s : S)
  | Failed (e : E)
  | StillChecking.

(** [Observe]: what the pass is answered, and whether an attempt was started. *)
Definition pending_Observe (p : pendingSource S E) : pendingSource S E * answer * bool :=
  let start := match built p with None => negb (building p) | Some _ => false end in
  let p' := if start then mkPending (built p) (lastErr p) true else p in
  (p', match built p, lastErr p with
       | Some s, _ => Ask s
       | None, Some e => Failed e
       | None, None => StillChecking
       end, start).

(** [attempt], when it ends. *)
Definition attempt (r : result E S) (p : pendingSource S E) : pendingSource S E :=
  match r with
  | Ok s => mkPending (Some s) None false
  | Err e => mkPending None (Some e) false
  end.
End pending.
Arguments answer : clear implicits.

(** ** What is published *)

(** [record]: one pass of the watch. *)
Definition record (t : Tick) : list call :=
  [mkCall (OAdd (f64_of_Z 1)) WatchPasses ∅; mkCall (OSet (f64_of_Z (Target t))) HeadroomBytes ∅]
  ++ (if 0 <? TReclaimed t
      then [mkCall (OObserve (Seconds (TElapsed t))) ReclaimSeconds
              {["class" := if TBounded t then "elastic" else "opportunistic"]}]
      else [])
  ++ (if 0 <? TShortfall t then [mkCall (OAdd (f64_of_Z (TShortfall t))) ReclaimShortfall ∅] else []).

(** [recordTier]: what the tier holds, and what it saved. *)
Definition recordTier (sv : option (Z * duration * float64)) : list call :=
  match sv with
  | None => []
  | Some (resident, saved, covered) =>
      [mkCall (OSet (f64_of_Z resident)) TierBytes ∅; mkCall (OSet (Seconds saved)) TierSavedSeconds ∅;
       mkCall (OSet covered) TierSavingCover ∅]
  end.

(** What the data server publishes (internal/dataserver/dataserver.go, ahead.go). *)
Definition server_call (m : DataServer.metric) : call :=
  match m with
  | DataServer.ReadsInFlight delta => mkCall (OAdd (f64_of_Z delta)) ReadsInFlight ∅
  | DataServer.ReadSeconds took => mkCall (OObserve (Seconds took)) ReadSeconds ∅
  | DataServer.TierHits => mkCall (OAdd (f64_of_Z 1)) TierHits ∅
  | DataServer.ReadBytes source n => mkCall (OAdd (f64_of_Z n)) ReadBytes {["source" := source]}
  | DataServer.PrefetchBlocks fact => mkCall (OAdd (f64_of_Z 1)) PrefetchBlocks {["fact" := fact]}
  end.

(** ** What the flags ask for *)

(** [leaseToken]: [content] is what reading the file gives. *)
Definition leaseToken (path : string) (content : option string) : result string string :=
  if (path =? "")%string then Ok ""
  else match content with
       | None => Err "reading the lease token"
       | Some body => let token := TrimSpace body in
                      if (token =? "")%string then Err "the lease token is empty" else Ok token
       end%string.

Definition prefetchConfig (on : bool) (depth : Z) (floor : float64) : option Prefetch.Config :=
  if negb on then None
  else let d := Prefetch.DefaultConfig in
       Some {| Prefetch.Depth := depth; Prefetch.Confirmations := Prefetch.Confirmations d; Prefetch.Window := Prefetch.Window d;
               Prefetch.MinAccuracy := floor; Prefetch.Patience := Prefetch.Patience d |}.

(** * Nothing a node publishes is refused, and the pod input is
    proved before it is used *)

(** ** Published without an error *)

Definition accepted (e : call) (r : Registry) : Prop := (record_ (what e) (cname e) (clabels e) r).2 = None.

(** A recording is accepted when its name was declared with the kind it needs, its
    labels are published ones, and it does not move a counter down. *)
Definition suits (k : Kind) (o : recording) : bool :=
  match o, k with
  | OAdd d, Counter => negb (f64_ltb d (f64_of_Z 0))
  | OAdd _, Gauge | OSet _, Gauge | OObserve _, Histogram => true
  | _, _ => false
  end.
Lemma suits_effect k bs o s : suits k o = true -> exists s', effect k bs o s = Ok s'.
Proof. destruct o, k; simpl; try done; eauto. destruct (f64_ltb _ _); [done|eauto]. Qed.

Lemma suits_accepted e r k bs : Metrics.declared r (cname e) = Some (k, bs) -> refused_label (clabels e) = None ->
  suits k (what e) = true -> accepted e r.
Proof.
  intros D L S. unfold accepted. rewrite record_shape. unfold Metrics.declared in D.
  destruct (metrics r !! cname e) as [m|]; [|done]. injection D as <- <-. unfold key. rewrite L. simpl.
  match goal with |- context [effect ?k ?bs ?o ?s] => destruct (suits_effect k bs o s S) as [s' ->] end. done.
Qed.

(** A number that is not negative is not below zero once rounded. *)
Lemma f64_of_Z_nonneg n : 0 <= n -> f64_ltb (f64_of_Z n) (f64_of_Z 0) = false.
Proof.
  intros N. change (f64_of_Z 0) with (S754_zero false). unfold f64_ltb, SFltb, SFcompare, f64_of_Z, binary_normalize.
  destruct n as [|p|p]; [done| |lia]. unfold binary_round. destruct (shl_align _ _ _) as [m e].
  unfold binary_round_aux. destruct (shr_fexp _ _ _ _ _) as [mrs e']. destruct (shr_fexp _ _ _ _ _) as [mrs2 e2].
  destruct (shr_m mrs2); try done. by destruct (e2 <=? _).
Qed.

(** A registry that was only registered into has no series yet. *)
Definition no_series (r : Registry) : Prop := forall name m, metrics r !! name = Some m -> mseries m = ∅.

Lemma register_all_no_series ms : forall r, no_series r -> no_series (register_all ms r).1.
Proof.
  induction ms as [|[[[n k] h] bs] ms IH]; intros r N; [done|]. simpl.
  assert (no_series (Register n k h bs r).1) as N'.
  { unfold Register. repeat case_if; [done..|]. destruct (metrics r !! n); [done|]. intros name m. simpl.
    destruct (decide (name = n)) as [->|Ne]; [rewrite lookup_insert_eq; by intros [= <-]|].
    rewrite lookup_insert_ne by done. apply N. }
  destruct (Register n k h bs r) as [r' [e|]]; [done|by apply IH].
Qed.

Lemma Node_no_series : no_series (Metrics.Node Metrics.New).1.
Proof. apply register_all_no_series. by intros name m. Qed.

Lemma no_series_tidy r : no_series r -> tidy r.
Proof. intros N name m k s M S. by rewrite (N name m M) in S. Qed.

Lemma no_series_reading r name l : no_series r -> reading r name l = None.
Proof.
  intros N. unfold reading. destruct (metrics r !! name) as [m|] eqn:M; [|done]. simpl.
  destruct (key l); [|done]. by rewrite (N name m M).
Qed.

(** What a node publishes: a pass of its watch, its tier, or what its data server
    counts, the bytes it delivered among it. *)
Inductive published : call -> Prop :=
  | published_pass t e : e ∈ AgentWatch.record t -> published e
  | published_tier sv e : e ∈ recordTier sv -> published e
  | published_read m : (forall source n, m = DataServer.ReadBytes source n -> 0 <= n) -> published (server_call m).

#[local] Ltac labelled := simpl; match goal with H : forall n v, _ -> refused_label _ = None |- _ => apply H end;
  apply (bool_decide_unpack _); vm_compute; exact Logic.I.
#[local] Ltac listed := apply list_elem_of_In; simpl; tauto.

Lemma published_suits e : published e -> refused_label (clabels e) = None /\
  exists k h bs, (cname e, k, h, bs) ∈ node_metrics /\ suits k (what e) = true.
Proof.
  assert (forall n v, n ∈ allowed -> refused_label {[n := v]} = None) as One.
  { intros n v I. apply refused_None. intros n' [x E]. by apply lookup_singleton_Some in E as [<- _]. }
  assert (forall n, 0 <= n -> negb (f64_ltb (f64_of_Z n) (f64_of_Z 0)) = true) as Up.
  { intros n N. by rewrite f64_of_Z_nonneg. }
  assert (refused_label ∅ = None) as None_ by (vm_compute; reflexivity).
  assert (forall (c : call) ms k h bs, ms = node_metrics -> (cname c, k, h, bs) ∈ ms -> suits k (what c) = true ->
    refused_label (clabels c) = None -> refused_label (clabels c) = None /\
    exists k h bs, (cname c, k, h, bs) ∈ node_metrics /\ suits k (what c) = true) as Put by (intros; subst; eauto 10).
  intros [t c I|sv c I|m N].
  - unfold AgentWatch.record in I. rewrite !elem_of_app in I. destruct I as [I|[I|I]].
    + apply elem_of_cons in I as [-> | ->%list_elem_of_singleton];
        eapply Put; [reflexivity|listed|by apply (Up 1)|done|reflexivity|listed|done..].
    + destruct (0 <? TReclaimed t); [|by apply elem_of_nil in I]. apply list_elem_of_singleton in I as ->.
      eapply Put; [reflexivity|listed|done|]. labelled.
    + destruct (Z.ltb_spec 0 (TShortfall t)); [|by apply elem_of_nil in I]. apply list_elem_of_singleton in I as ->.
      eapply Put; [reflexivity|listed|apply Up; lia|done].
  - destruct sv as [[[resident saved] covered]|]; [|by apply elem_of_nil in I].
    apply elem_of_cons in I as [-> | [-> | ->%list_elem_of_singleton]%elem_of_cons];
      (eapply Put; [reflexivity|listed|done..]).
  - destruct m as [delta|took| |source n|fact].
    1-3: eapply Put; [reflexivity|listed|first [done|by apply (Up 1)]|done].
    1-2: eapply Put; [reflexivity|listed|first [by apply (Up 1)|apply (Up n); by eapply N]|labelled].
Qed.

(** nothing a node publishes is refused: every recording its watch, its tier
    and its data server make, after any others, goes to a metric that was
    registered, of the kind that takes it, under labels the project publishes, and
    never moves a counter down. The errors the callers drop do not occur. *)
Theorem nothing_published_is_refused h e : Forall (fun e => plain (clabels e)) h -> published e ->
  accepted e (run (Metrics.Node Metrics.New).1 h).
Proof.
  intros F (L & k & d & bs & I & S)%published_suits.
  destruct (run_frame h (Metrics.Node Metrics.New).1 (no_series_tidy _ Node_no_series) F) as [_ D].
  apply (suits_accepted e _ k bs); [|done..]. rewrite D. by eapply node_declared.
Qed.

Definition wtick : Tick := mkTick (mkPressure "pod requests" 4096) 4096 [] 512 8192 (f64_of_Z 100) Second true.
Definition wcalls : list call :=
  [server_call (DataServer.ReadsInFlight 1); server_call DataServer.TierHits; server_call (DataServer.ReadBytes "tier" 4096);
   server_call (DataServer.ReadSeconds Millisecond); server_call (DataServer.ReadBytes "backend" 100);
   server_call (DataServer.ReadBytes "tier" 10)].

Lemma wcalls_plain : Forall (fun e => plain (clabels e)) wcalls.
Proof.
  assert (forall n v, has_byte "," v = false -> plain {[n := v]}) as One.
  { intros n v H n' v' E. by apply lookup_singleton_Some in E as [_ <-]. }
  repeat apply Forall_cons_2; try apply Forall_nil_2; simpl; try (intros n v E; by rewrite lookup_empty in E); by apply One.
Qed.

Lemma nothing_published_is_refused_witness :
  Forall (fun e => accepted e (run (Metrics.Node Metrics.New).1 wcalls)) (AgentWatch.record wtick).
Proof.
  apply Forall_forall. intros e I. apply nothing_published_is_refused; [apply wcalls_plain|]. by apply (published_pass wtick).
Defined.

(** The bytes delivered from the tier, of what was recorded above. *)
Lemma registry_refines_history_witness :
  Metrics.value <$> reading (run (Metrics.Node Metrics.New).1 wcalls) ReadBytes {["source" := "tier"]} = Some (f64_of_Z 4106).
Proof.
  rewrite (registry_refines_history (Metrics.Node Metrics.New).1 wcalls ReadBytes {["source" := "tier"]}).
  - vm_compute. reflexivity.
  - apply no_series_tidy, Node_no_series.
  - intros name l. apply no_series_reading, Node_no_series.
  - apply wcalls_plain.
  - intros n v E. apply lookup_singleton_Some in E as [_ <-]. reflexivity.
Defined.

(** With a comma in a value two sets of labels share a series. *)
Example key_collides :
  key {["class" := "a,source=b"]} = key (<["class" := "a"]> {["source" := "b"]}).
Proof. vm_compute. reflexivity. Qed.

(** ** The pod input *)

(** A source is built only over the filesystem the pools are on: the same device
    when both can be reached, and otherwise one of the same size. *)
Lemma podSource_same_filesystem {S} root dir pools v (build : Z -> option S) s :
  podSource root dir pools v build = Ok s -> exists capacity, node_fs v = Some capacity /\ build capacity = Some s /\
    (SameFilesystem (stat v) root dir = Ok true \/
     (exists path, SameFilesystem (stat v) root dir = Err path) /\ Known (TotalBytes pools) = Some capacity).
Proof.
  unfold podSource. destruct (SameFilesystem _ _ _) as [[]|path] eqn:E; [|done|];
    (destruct (token v); [|done]); (destruct (node_fs v) as [c|]; [|done]).
  - destruct (build c) eqn:B; [|done]. intros [= <-]. exists c. auto.
  - destruct (Known (TotalBytes pools)) as [total|] eqn:T; [|done]. destruct (Z.eqb_spec total c) as [->|]; [|done].
    simpl. destruct (build c) eqn:B; [|done]. intros [= <-]. exists c. split_and!; eauto.
Qed.

(** The steps of a pending source: the watch observes, and an attempt that was
    started ends. *)
Inductive pstep {S E} : pendingSource S E * nat -> pendingSource S E * nat -> Prop :=
  | pstep_Observe p n : pstep (p, n) ((pending_Observe p).1.1, if (pending_Observe p).2 then Datatypes.S n else n)
  | pstep_attempt r p n : pstep (p, Datatypes.S n) (attempt r p, n).

Definition one_attempt {S E} (x : pendingSource S E * nat) : Prop :=
  x.2 = (if building x.1 then 1 else 0)%nat /\ (is_Some (built x.1) -> x.2 = 0%nat).

Lemma pstep_one {S E} (x y : pendingSource S E * nat) : pstep x y -> one_attempt x ->
  one_attempt y /\ forall s, built x.1 = Some s -> built y.1 = Some s.
Proof.
  unfold one_attempt. destruct 1 as [p n|r p n]; simpl; intros [B K].
  - unfold pending_Observe. destruct p as [[s|] le []]; simpl in *; split_and!; auto; try lia; by intros [? ?].
  - destruct (built p) as [s|]; [by specialize (K (mk_is_Some _ _ eq_refl))|].
    destruct (building p); [|done]. injection B as ->. destruct r; simpl; split_and!; auto; by intros s E1.
Qed.

(** However passes and attempts interleave, one attempt runs at a time, none runs
    once a source is built, and a source that is built stays. *)
Lemma one_attempt_at_a_time {S E} (x y : pendingSource S E * nat) : rtc pstep x y -> one_attempt x ->
  one_attempt y /\ forall s, built x.1 = Some s -> built y.1 = Some s.
Proof.
  induction 1 as [x|x z y St R IH]; [done|]. intros O. destruct (pstep_one _ _ St O) as [Oz Bz].
  destruct (IH Oz) as [Oy By]. split; [done|]. intros s E1. by apply By, Bz.
Qed.
