(* ===== verification/Residual.v ===== *)
(** * Residual: that fresh capacity reads as zeros (internal/agent/residual.go)

    The probe is made in the pool the way an extent is, with the operations of
    Agent.v. What reading it answers is an argument: what [ReadAt] gives of the
    bytes from an offset, and the error it gives beside them. *)

From S2P Require Import Prelude GoStrings Pool Lease Agent.

Local Open Scope Z_scope.

Definition probeName : string := "residual-probe" +:+ invalidSuffix.
Definition probeSize : Z := 4194304.
Definition bufSize : Z := 1048576.

(** What the check found: a byte and where it is, a probe that stopped short, or a
    call that failed. [stopped_by] is the reader's own reason, if it gave one. *)
Inductive ResidualErr (E : Type) : Type :=
  | NotZero (at_ : Z) (b : byte) (size : Z)
  | Stopped (at_ size : Z) (stopped_by : option E)
  | ProbeIO.
Arguments NotZero {E}.
Arguments Stopped {E}.
Arguments ProbeIO {E}.

Section scan.
Context {R E : Type}.
(** [io.ReaderAt]: the bytes put into the buffer, no more than it holds. *)
Variable ReadAt : Z -> R -> R * (list byte * option E).

(** The first byte of a buffer that is not zero, and its place. *)
Fixpoint nonzero (i : Z) (buf : list byte) : option (Z * byte) :=
  match buf with
  | [] => None
  | b :: buf => if of_byte b =? 0 then nonzero (i + 1) buf else Some (i, b)
  end.

(** One turn of the loop: what was read, cut to what was asked for. *)
Definition scan_turn (at_ size : Z) (r : R) : R * result (ResidualErr E) Z :=
  let '(r, (data, err)) := ReadAt at_ r in
  let buf := ztake bufSize data in
  let over := at_ + zlen buf - size in
  let n := if 0 <? over then zlen buf - over else zlen buf in
  match nonzero 0 (ztake n buf) with
  | Some (i, b) => (r, Err (NotZero (at_ + i) b size))
  | None => (r, if n =? 0 then Err (Stopped at_ size err) else Ok (at_ + n))
  end.

Fixpoint scan_loop (fuel : nat) (at_ size : Z) (r : R) : R * option (ResidualErr E) :=
  if size <=? at_ then (r, None)
  else match fuel with
       | O => (r, None)
       | S fuel =>
           match scan_turn at_ size r with
           | (r, Err e) => (r, Some e)
           | (r, Ok at_') => scan_loop fuel at_' size r
           end
       end.

(** Every turn that goes on has read a byte, so there are [size] turns at most. *)
Definition scanZeros (size : Z) (r : R) : R * option (ResidualErr E) := scan_loop (Z.to_nat size) 0 size r.

(** ** The check *)

Context {J : Type} `{Journal J}.

(** Making the probe where another may have been left, and scanning it. The removal
    at the end is deferred, and what it answers is not looked at. *)
Definition VerifyNoResidualData (a : Agent J) (r : R) : Agent J * R * option (ResidualErr E) :=
  let gone := os a in
  let '(a, _) := Remove probeName a in
  if negb gone then (a, r, Some ProbeIO)
  else
    let '(a, opened) := OpenExcl probeName a in
    if negb opened then (a, r, Some ProbeIO)
    else
      let '(a, reserved) := reserve probeName probeSize a in
      if negb reserved then ((Remove probeName a).1, r, Some ProbeIO)
      else
        let '(r, e) := scanZeros probeSize r in
        ((Remove probeName a).1, r, e).

(** ** Lemmas *)

Lemma nonzero_None buf : forall i, nonzero i buf = None <-> Forall (fun b => of_byte b = 0) buf.
Proof.
  induction buf as [|b buf IH]; intros i; simpl; [by split; [constructor|]|].
  rewrite Forall_cons. destruct (Z.eqb_spec (of_byte b) 0); [rewrite IH; naive_solver|naive_solver].
Qed.

Lemma nonzero_Some buf : forall i k b, nonzero i buf = Some (k, b) ->
  i <= k < i + zlen buf /\ buf !! Z.to_nat (k - i) = Some b /\ of_byte b <> 0 /\
  Forall (fun b => of_byte b = 0) (ztake (k - i) buf).
Proof.
  induction buf as [|c buf IH]; intros i k b; simpl; [done|]. rewrite zlen_cons. pose proof (zlen_nonneg buf).
  destruct (Z.eqb_spec (of_byte c) 0) as [Z0|N].
  - intros (L & G & Nb & F)%IH. split_and!; [lia..| |done|].
    + by replace (Z.to_nat (k - i)) with (S (Z.to_nat (k - (i + 1)))) by lia.
    + unfold ztake in *. replace (Z.to_nat (k - i)) with (S (Z.to_nat (k - (i + 1)))) by lia. simpl. by constructor.
  - intros [= <- <-]. rewrite Z.sub_diag. split_and!; [lia..|done|done|]. constructor.
Qed.

(** *** A file behind the reader *)

(** Reading gives the start of what the file holds from there on, and perhaps less
    than is there. *)
Definition reads (c : list byte) : Prop := forall at_ r, 0 <= at_ -> exists rest, zdrop at_ c = (ReadAt at_ r).2.1 ++ rest.
(** It gives something wherever there is something. *)
Definition gives (c : list byte) : Prop := forall at_ r, 0 <= at_ < zlen c -> (ReadAt at_ r).2.1 <> [].

Definition zeros (n : Z) (c : list byte) : Prop := Forall (fun b => of_byte b = 0) (ztake n c).

(** What the scan may answer of a file, of which the first [at_] bytes are zero. *)
Definition verdict (c : list byte) (size : Z) (e : option (ResidualErr E)) : Prop :=
  match e with
  | None => size <= zlen c /\ zeros size c
  | Some (NotZero k b s) => s = size /\ 0 <= k < size /\ c !! Z.to_nat k = Some b /\ of_byte b <> 0 /\ zeros k c
  | Some (Stopped k s err) => s = size /\ 0 <= k < size /\ zeros k c /\ exists r, (ReadAt k r).2 = ([], err)
  | Some ProbeIO => False
  end.

Lemma ztake_zdrop_app (c buf rest : list byte) at_ : 0 <= at_ -> zdrop at_ c = buf ++ rest -> at_ + zlen buf <= zlen c \/ buf = [].
Proof.
  intros Ha E0. destruct buf as [|b buf]; [by right|left]. apply (f_equal zlen) in E0. rewrite zlen_app in E0.
  pose proof (zlen_nonneg rest). pose proof (zlen_nonneg buf). rewrite zlen_cons in *.
  unfold zdrop, zlen in *. rewrite length_drop in E0. lia.
Qed.

Lemma zeros_more (c buf rest : list byte) at_ n : 0 <= at_ -> 0 <= n <= zlen buf -> zdrop at_ c = buf ++ rest ->
  zeros at_ c -> Forall (fun b => of_byte b = 0) (ztake n buf) -> zeros (at_ + n) c.
Proof.
  unfold zeros, ztake, zdrop, zlen. intros Ha Hn E0 Z0 F. rewrite Z2Nat.inj_add by lia. rewrite <- take_take_drop, E0.
  apply Forall_app. split; [done|]. by rewrite take_app_le by lia.
Qed.

Lemma scan_turn_spec c at_ size r : reads c -> 0 <= at_ < size -> zeros at_ c ->
  match (scan_turn at_ size r).2 with
  | Ok at_' => at_ < at_' <= size /\ at_' <= zlen c /\ zeros at_' c
  | Err e => verdict c size (Some e)
  end.
Proof.
  intros Rd Ha Z0. unfold scan_turn. assert (0 < bufSize) as Bp by (unfold bufSize; lia).
  revert Bp. generalize bufSize. intros most Bp. destruct (Rd at_ r ltac:(lia)) as [rest0 E0].
  destruct (ReadAt at_ r) as [r' [data err]] eqn:ER. simpl in E0. set (buf := ztake most data).
  assert (exists rest, zdrop at_ c = buf ++ rest) as [rest Eb].
  { exists (zdrop most data ++ rest0). unfold buf, ztake, zdrop in *. by rewrite app_assoc, take_drop. }
  set (n := if 0 <? at_ + zlen buf - size then _ else _). pose proof (zlen_nonneg buf) as Nb.
  assert (0 <= n <= zlen buf /\ n <= size - at_ /\ (n = 0 -> buf = [])) as (Hn & Hs & Hz).
  { unfold n. destruct (Z.ltb_spec 0 (at_ + zlen buf - size)); [lia|]. split_and!; [lia..|]. intros Z1.
    destruct buf as [|x buf']; [done|]. rewrite zlen_cons in Z1. pose proof (zlen_nonneg buf'). lia. }
  destruct (nonzero 0 (ztake n buf)) as [[i b]|] eqn:Nz; simpl.
  - apply nonzero_Some in Nz as (L & G & Bz & F). rewrite Z.sub_0_r in *. rewrite Z.add_0_l in L.
    assert (zlen (ztake n buf) <= n) as Ln by (unfold zlen, ztake; rewrite length_take; lia).
    assert (ztake i (ztake n buf) = ztake i buf) as Et.
    { unfold ztake. rewrite take_take. f_equal. lia. }
    rewrite Et in F. split_and!; [done|lia|lia| |done|apply (zeros_more c buf rest); [lia|lia|done..]].
    unfold ztake in G. rewrite lookup_take_lt in G by lia.
    replace (Z.to_nat (at_ + i)) with (Z.to_nat at_ + Z.to_nat i)%nat by lia.
    rewrite <- lookup_drop. unfold zdrop in Eb. rewrite Eb. by apply lookup_app_l_Some.
  - apply nonzero_None in Nz. destruct (Z.eqb_spec n 0) as [Z1|N1].
    + split_and!; [done|lia|lia|done|]. exists r. rewrite ER. specialize (Hz Z1). simpl. f_equal.
      apply (f_equal zlen) in Hz. unfold buf, ztake, zlen in Hz. rewrite length_take in Hz. simpl length in Hz.
      destruct data; [done|]. simpl length in Hz. lia.
    + split_and!; [lia|lia| |by apply (zeros_more c buf rest); [lia|..]].
      destruct (ztake_zdrop_app c buf rest at_ ltac:(lia) Eb) as [|Eb']; [lia|].
      assert (zlen buf = 0) by (by rewrite Eb'). lia.
Qed.

Lemma scan_loop_spec c size fuel : reads c -> forall at_ r, 0 <= at_ -> size - at_ <= Z.of_nat fuel -> zeros at_ c ->
  (at_ < size \/ size <= zlen c /\ zeros size c) -> verdict c size (scan_loop fuel at_ size r).2.
Proof.
  intros Rd. induction fuel as [|fuel IH]; intros at_ r Ha Hf Z0 Hs; simpl.
  - destruct (Z.leb_spec size at_); [|lia]. simpl. destruct Hs; [lia|done].
  - destruct (Z.leb_spec size at_); [simpl; destruct Hs; [lia|done]|].
    pose proof (scan_turn_spec c at_ size r Rd ltac:(lia) Z0) as T.
    destruct (scan_turn at_ size r) as [r' [at_'|e]]; simpl in T; [|done]. destruct T as (L & Lc & Z1).
    apply IH; [lia|lia|done|]. destruct (decide (at_' < size)); [by left|right].
    assert (at_' = size) as -> by lia. done.
Qed.

(** C8: the scan says what the file holds. It passes only a file whose first bytes,
    as many as were reserved, are there and zero; what it reports is the first byte
    that is not, where it is; and where it stops, all before was zero and the reader
    gave nothing. A reader that gives something wherever there is something gets a
    verdict that depends on the file alone. *)
Theorem scan_exact c size r : reads c -> 0 <= size ->
  verdict c size (scanZeros size r).2 /\
  (gives c -> size <= zlen c -> zeros size c <-> (scanZeros size r).2 = None).
Proof.
  intros Rd Hs. assert (verdict c size (scanZeros size r).2) as V.
  { unfold scanZeros. apply scan_loop_spec; [done|lia|lia|by constructor|].
    destruct (decide (size = 0)) as [->|]; [right|left; lia]. split; [apply zlen_nonneg|by constructor]. }
  split; [done|]. intros G Le. split.
  - intros Z0. destruct (scanZeros size r).2 as [[k b s|k s err|]|]; simpl in V; [| |done..].
    + destruct V as (_ & Hk & Ek & Nb & _). destruct Nb. unfold zeros in Z0. rewrite Forall_lookup in Z0.
      apply (Z0 (Z.to_nat k)). unfold ztake. by rewrite lookup_take_lt by lia.
    + destruct V as (_ & Hk & _ & r' & E0). destruct (G k r' ltac:(lia)). by rewrite E0.
  - intros E0. rewrite E0 in V. apply V.
Qed.

(** *** The probe and the pool *)

(** No lease's extent is the probe's file, so a probe left by a crash is nobody's. *)
Lemma probe_no_lease id : ExtentPath id <> Ok probeName.
Proof.
  unfold ExtentPath. destruct (validLeaseID id) eqn:V; [done|]. intros [= ->]. vm_compute in V. done.
Qed.

(** Everything of an agent but the probe's file. *)
Definition near (a a' : Agent J) : Prop :=
  delete probeName (dir a') = delete probeName (dir a) /\ manager a' = manager a /\ beat a' = beat a /\ (io a = [] -> io a' = []).
#[local] Instance near_trans : Transitive near.
Proof. intros x y z (A & B & C & D) (A' & B' & C' & D'). split_and!; [congruence..|auto]. Qed.

Lemma io_tail (a : Agent J) : io a = [] -> tail (io a) = [].
Proof. by intros ->. Qed.

Lemma Remove_near (a : Agent J) : near a (Remove probeName a).1 /\ (os a = true -> dir (Remove probeName a).1 = delete probeName (dir a)).
Proof.
  unfold Remove, near. destruct (os a); simpl; [|by split_and!; auto using io_tail].
  case_bool_decide as I; simpl; split_and!; auto using io_tail; [by rewrite delete_delete_eq|].
  intros _. rewrite delete_id; [done|]. by apply eq_None_not_Some.
Qed.
Lemma OpenExcl_near (a : Agent J) : near a (OpenExcl probeName a).1 /\ (os a = true -> dir a !! probeName = None -> (OpenExcl probeName a).2 = true).
Proof.
  unfold OpenExcl, near. destruct (os a); simpl; [|by split_and!; auto using io_tail].
  case_bool_decide as I; simpl; split_and!; auto using io_tail; [by intros _ E0; rewrite E0 in I; destruct I|by rewrite delete_insert_eq].
Qed.
Lemma reserve_near (a : Agent J) n : near a (reserve probeName n a).1 /\ (os a = true -> 0 < n -> (reserve probeName n a).2 = true).
Proof.
  unfold reserve, near. destruct (os a); simpl; [|by split_and!; auto using io_tail].
  destruct (Z.ltb_spec 0 n); simpl; split_and!; auto using io_tail; [by rewrite delete_insert_eq|lia].
Qed.
Lemma os_calm (a : Agent J) : io a = [] -> os a = true.
Proof. unfold os. by intros ->. Qed.

(** Whatever fails on the way, nothing in the pool but the probe is touched; nothing
    is found unless the probe was made, as an extent is, and read; and when every
    call succeeds it is read, and no probe is left. *)
Theorem verify_touches_probe (a : Agent J) (r : R) :
  let '(a', _, e) := VerifyNoResidualData a r in
  near a a' /\ (e <> Some ProbeIO -> e = (scanZeros probeSize r).2) /\
  (io a = [] -> dir a' = delete probeName (dir a) /\ e = (scanZeros probeSize r).2).
Proof.
  unfold VerifyNoResidualData. assert (0 < probeSize) as Ps by (unfold probeSize; lia). revert Ps. generalize probeSize. intros size Ps.
  destruct (Remove_near a) as [N1 D1]. destruct (Remove probeName a) as [a1 b1]. cbn [fst snd] in *.
  destruct (os a) eqn:O1; cbn [negb]; [|split_and!; [done..|intros C; by rewrite (os_calm a C) in O1]]. specialize (D1 eq_refl).
  destruct (OpenExcl_near a1) as [N2 D2]. destruct (OpenExcl probeName a1) as [a2 b2]. cbn [fst snd] in *.
  assert (near a a2) as N12 by by etrans.
  destruct b2; cbn [negb].
  2: { split_and!; [done..|]. intros C. assert (io a1 = []) as C1 by by apply N1. assert (false = true); [|done].
       apply D2; [by apply os_calm|]. by rewrite D1, lookup_delete_eq. }
  destruct (reserve_near a2 size) as [N3 D3]. destruct (reserve probeName size a2) as [a3 b3]. cbn [fst snd] in *.
  assert (near a a3) as N13 by by etrans. destruct (Remove_near a3) as [N4 D4].
  assert (near a (Remove probeName a3).1) as N14 by by etrans.
  destruct b3; cbn [negb].
  2: { split_and!; [done..|]. intros C. assert (io a2 = []) as C2 by by apply N12.
       assert (false = true); [|done]. apply D3; [by apply os_calm|done]. }
  destruct (scanZeros size r) as [r' e]. cbn [fst snd] in *. split_and!; [done..|]. intros C.
  assert (io a3 = []) as C3 by by apply N13. split; [|done]. rewrite D4 by by apply os_calm. by apply N13.
Qed.
End scan.

(** A kernel that hands over what was there is found out, and where; a reader that
    gives a few bytes at a time is read to the end. *)
Example residual_found :
  let c := replicate 10 (byte_of 0) ++ byte_of 165 :: replicate 5 (byte_of 0) in
  let few at_ (_ : ()) := ((), (ztake 3 (zdrop at_ c), None (A := ()))) in
  (scanZeros few 16 ()).2 = Some (NotZero 10 (byte_of 165) 16) /\ (scanZeros few 10 ()).2 = None /\
  (scanZeros (fun at_ _ => ((), (zdrop at_ (replicate 4 (byte_of 0)), None (A := ())))) 16 ()).2 = Some (Stopped 4 16 None).
Proof. vm_compute. done. Qed.

(** A reader that gives three bytes at a time, over a file with one byte left in it. *)
Definition wleft : list byte := replicate 10 (byte_of 0) ++ byte_of 165 :: replicate 5 (byte_of 0).
Definition wfew (at_ : Z) (_ : ()) : () * (list byte * option ()) := ((), (ztake 3 (zdrop at_ wleft), None)).
Lemma scan_exact_witness :
  (scanZeros wfew 16 ()).2 = Some (NotZero 10 (byte_of 165) 16) /\ zeros 10 wleft /\ ~ zeros 16 wleft.
Proof.
  assert (reads wfew wleft) as R.
  { intros at_ r _. exists (zdrop 3 (zdrop at_ wleft)). unfold wfew, ztake, zdrop. cbn [snd fst]. by rewrite take_drop. }
  assert (gives wfew wleft) as G.
  { intros at_ r [L U] E. cbn [snd fst wfew] in E. apply (f_equal zlen) in E. unfold zlen, ztake, zdrop in *.
    rewrite length_take, length_drop in E. cbn [length] in E. lia. }
  destruct (scan_exact wfew wleft 16 () R ltac:(lia)) as [V D].
  assert ((scanZeros wfew 16 ()).2 = Some (NotZero 10 (byte_of 165) 16)) as E by (vm_compute; reflexivity).
  rewrite E in V. split; [exact E|]. split; [apply V|]. intros Z0. apply D in Z0; [congruence|exact G|vm_compute; discriminate].
Defined.
