(* ===== verification/Serve.v ===== *)
(** * Serve: a node that answers reads (cmd/forebay-agent/serve.go, backend.go)

    The agent and the block cache are joined by two callbacks: a lease that is
    granted becomes capacity of the cache, and one about to be taken back is let go
    of by the cache first. The agent's log records both calls in the order they are
    made, so here they are run from it. *)

From S2P Require Import Prelude GoStrings GoPath Pool Lease Agent FastTier.

Local Open Scope Z_scope.

Definition selfLease : string := "self-granted-tier".

(** ** The backend the flags name (backend.go) *)

Record backendOptions : Type := mkBackendOptions {
  BDir : string;
  Endpoint : string;
  Bucket : string;
  Region : string;
}.

Inductive BackendErr : Type := ErrTwoBackends | ErrNoBackend | ErrS3Incomplete | ErrEndpointCredentials | ErrNoCredentials.

(** Which driver is built, and with what. *)
Inductive chosen : Type :=
  | FileBackend (dir : string)
  | S3Backend (endpoint bucket region access secret : string).

(** [url.Parse], as the code looks at it: whether there is user information, and
    the host. *)
Class UrlParser := url_Parse : string -> option (bool * string).

Section backend.
Context `{UrlParser}.

Definition openBackend (o : backendOptions) (access secret : string) : result BackendErr chosen :=
  let dir := negb (BDir o =? "")%string in
  let s3 := negb (Endpoint o =? "")%string || negb (Bucket o =? "")%string in
  if dir && s3 then Err ErrTwoBackends
  else if negb dir && negb s3 then Err ErrNoBackend
  else if dir then Ok (FileBackend (BDir o))
  else if (Endpoint o =? "")%string || (Bucket o =? "")%string then Err ErrS3Incomplete
  else if match url_Parse (Endpoint o) with Some (user, _) => user | None => false end then Err ErrEndpointCredentials
  else if (access =? "")%string || (secret =? "")%string then Err ErrNoCredentials
  else Ok (S3Backend (Endpoint o) (Bucket o) (Region o) access secret).

Definition endpointHost (endpoint : string) : string :=
  match url_Parse endpoint with
  | Some (_, host) => if negb (host =? "")%string then host else endpoint
  | None => endpoint
  end.

Definition scope (cwd : string) (o : backendOptions) : string :=
  if negb (BDir o =? "")%string
  then (if rooted (BDir o) then Clean (BDir o) else path_Join [cwd; BDir o])
  else "s3://" +:+ endpointHost (Endpoint o) +:+ "/" +:+ Bucket o.

Definition describe (o : backendOptions) : string :=
  if negb (BDir o =? "")%string then "directory " +:+ BDir o
  else "s3 " +:+ endpointHost (Endpoint o) +:+ " bucket " +:+ Bucket o.
End backend.

(** ** The two callbacks *)

Section serving.
Context {J : Type} `{Journal J}.

(** What opening an extent gives: a new one is the zeros [fallocate] reserves. *)
Definition extent_bytes (a : Agent J) (path : string) : option (list byte) :=
  (fun n => replicate (Z.to_nat n) (byte_of 0)) <$> dir a !! path.

(** The cache, and how many blocks reclamation took from it. *)
Definition hook (extent : string -> option (list byte)) (t : Cache * Z) (e : event) : Cache * Z :=
  match e with
  | ToldGranted id path => if (id =? selfLease)%string then t else ((AddCapacity id (extent path) t.1).1, t.2)
  | ToldReleasing ids => fold_left (fun t id => let '(c, n) := Revoke id t.1 in (c, t.2 +! n)) ids t
  | _ => t
  end.

Record serving : Type := mkServing {
  node : Agent J;
  stier : Cache;
  sdropped : Z;
}.

(** What the agent has logged since it was [a]. *)
Definition since (a a' : Agent J) : list event := drop (length (log a)) (log a').

(** The agent having moved to [a'], with what it told on the way. *)
Definition tell (a' : Agent J) (s : serving) : serving :=
  let t := fold_left (hook (extent_bytes a')) (since (node s) a') (stier s, sdropped s) in
  mkServing a' t.1 t.2.

Definition Resident (s : serving) : Z := wrap64 (Z.of_nat (size (resident (stier s)))) *! BlockSize (tcfg (stier s)).
Definition Dropped (s : serving) : Z := sdropped s.

(** [serveReads], up to listening: [server] and [listens] are whether the data
    server could be built and the socket bound, and [extent] what opening the
    tier's own extent gives. *)
Inductive ServeErr : Type :=
  | ErrNoTierBytes
  | ErrBackend (e : BackendErr)
  | ErrTier
  | ErrReleasing (e : AgentErr)
  | ErrGranting (e : AgentErr)
  | ErrExtentPath (e : AgentErr)
  | ErrGiving (e : TierErr)
  | ErrServer
  | ErrListening.

Definition self (size : Bytes) (now : time) : Lease :=
  {| ID := selfLease; Tenant := NodeTenant; Class := Elastic; Size := size; Term := 365 * 24 * Hour; GrantedAt := now |}.

Definition serveReads (backend : result BackendErr chosen) (tierBytes : Bytes) (cfg : FastTier.Config) (now : time)
    (opens server listens : bool) (a : Agent J) : Agent J * result ServeErr serving :=
  if tierBytes <=? 0 then (a, Err ErrNoTierBytes)
  else match backend with
  | Err e => (a, Err (ErrBackend e))
  | Ok _ =>
      match FastTier.New cfg with
      | None => (a, Err ErrTier)
      | Some tier =>
          let '(a, (_, e)) := Agent.Release selfLease a in
          let grant :=
            let '(a, e) := Grant (self tierBytes now) now a in
            match e with
            | Some e => (a, Err (ErrGranting e))
            | None =>
                match ExtentPath selfLease with
                | Err e => (a, Err (ErrExtentPath e))
                | Ok path =>
                    let '(tier, e) := AddCapacity selfLease (if opens then extent_bytes a path else None) tier in
                    match e with
                    | Some e => (a, Err (ErrGiving e))
                    | None => if negb server then (a, Err ErrServer)
                              else if negb listens then (a, Err ErrListening)
                              else (a, Ok (mkServing a tier 0))
                    end
                end
            end in
          match e with
          | None | Some (ErrLease ErrNoSuchLease) | Some ErrNoExtent => grant
          | Some e => (a, Err (ErrReleasing e))
          end
      end
  end.
End serving.
Arguments serving J : clear implicits.
