(* ===== verification/ServeTheorems.v ===== *)
(** * ServeTheorems: the cache holds only what is lent, and lets go before it is
    taken back *)

From S2P Require Import Prelude GoStrings GoPath Pool Lease LeaseProofs Journal LeaseTheorems FastTier.
From S2P Require Import FastTierProofs FastTierTheorems Agent AgentTheorems AgentMainTheorems Serve.

Local Open Scope Z_scope.

(** ** What an operation adds to the log *)

Section logs.
Context {J : Type} `{Journal J}.
Implicit Types a : Agent J.

(** Events that tell nothing, and take away only names in [P]. *)
Definition taking (P : string -> Prop) (e : event) : Prop :=
  match e with
  | ToldReleasing _ | ToldGranted _ _ => False
  | Renamed f _ | Unlinked f => P f
  | Created _ | Freed _ => True
  end.

Definition extends (P : string -> Prop) a a' : Prop :=
  exists evs, log a' = log a ++ evs /\ Forall (taking P) evs.

Lemma extends_same P a a' : log a' = log a -> extends P a a'.
Proof. intros E. exists []. by rewrite E, app_nil_r. Qed.

Lemma extends_trans P a b c : extends P a b -> extends P b c -> extends P a c.
Proof.
  intros (u & E & F) (v & E' & F'). exists (u ++ v). rewrite E', E, <- app_assoc. split; [done|]. by apply Forall_app.
Qed.

Lemma extends_note P e a a' : log a' = log a ++ [e] -> taking P e -> extends P a a'.
Proof. intros E T. exists [e]. auto. Qed.

Lemma Remove_extends (P : string -> Prop) n a : P n -> extends P a (Remove n a).1.
Proof. intros T. unfold Remove. destruct (_ && _); [by eapply extends_note|by apply extends_same]. Qed.

Lemma allocate_extends (P : string -> Prop) id size a : P id -> extends P a (allocate id size a).1.
Proof.
  intros T. unfold allocate, ExtentPath. destruct (validLeaseID id); [by apply extends_same|].
  unfold OpenExcl. destruct (os a && _); simpl; [|by apply extends_same].
  set (a1 := note _ _). assert (extends P a a1) as E1 by (by eapply extends_note).
  unfold reserve. destruct (os a1 && _); simpl.
  - destruct (negb (os _)); simpl; exact E1.
  - pose proof (Remove_extends P id (called a1) T) as R. destruct (Remove id (called a1)). simpl in *.
    by eapply extends_trans; [exact E1|].
Qed.

Lemma discard_extends (P : string -> Prop) id a : P id -> (forall f, validLeaseID f <> None -> P f) ->
  extends P a (discard id a).1.
Proof.
  intros T Tv. unfold discard, ExtentPath. destruct (validLeaseID id) eqn:V; [by apply extends_same|].
  destruct (dir a !! id); [|by apply extends_same]. destruct (negb (os a)); [by apply extends_same|].
  set (a1 := note _ _). assert (extends P a a1) as E1 by (by eapply extends_note).
  assert (P (id +:+ invalidSuffix)) as Ti.
  { apply Tv. intros V'. apply valid_not_special in V' as (_ & _ & _ & S). by rewrite has_suffix_app in S. }
  pose proof (Remove_extends P _ a1 Ti) as R. destruct (Remove _ a1). simpl in *. by eapply extends_trans.
Qed.

Lemma discard_all_extends (P : string -> Prop) ids : forall a failed, Forall P ids ->
  (forall f, validLeaseID f <> None -> P f) -> extends P a (discard_all ids a failed).1.
Proof.
  induction ids as [|id ids IH]; intros a failed F Tv; [by apply extends_same|].
  apply Forall_cons in F as [T F]. simpl. pose proof (discard_extends P id a T Tv) as D.
  destruct (discard id a) as [a' e]. simpl in D. eapply extends_trans; [exact D|by apply IH].
Qed.

Lemma Heartbeat_extends (P : string -> Prop) now tmp a : P tmp -> extends P a (Heartbeat now tmp a).1.
Proof.
  intros T. assert (forall b, log b = log a -> extends P a (Remove tmp b).1) as R.
  { intros b E. destruct (Remove_extends P tmp b T) as (u & Eu & F). exists u. by rewrite Eu, E. }
  unfold Heartbeat. destruct (negb (os a)); [by apply extends_same|].
  repeat (destruct (negb (os _)); [by apply R|]). by apply extends_same.
Qed.

(** A grant that is refused takes away at most what it made, and makes nothing
    under the name of a live lease. *)
Lemma Grant_refused_extends base l now a a' e : inv base (manager a) -> Grant l now a = (a', Some e) ->
  extends (fun f => f = ID l /\ leases (manager a) !! ID l = None) a a'.
Proof.
  intros I. unfold Grant. destruct (Accept l now (manager a)) as [m e0] eqn:Ac.
  apply (Accept_spec base) in Ac as [j Ac]; [|done]. destruct e0 as [e'|].
  { intros [= <- _]. by apply extends_same. }
  destruct Ac as (_ & N & _).
  pose proof (allocate_extends (fun f => f = ID l /\ leases (manager a) !! ID l = None) (ID l) (Size l) (set_manager m a)
    (conj eq_refl N)) as X.
  destruct (allocate _ _ _) as [a1 [e'|]]; [|done]. simpl in X.
  destruct (Lease.Release _ _) as [m' [n [r|]]]; by intros [= <- _].
Qed.

Lemma Release_log id a : exists evs,
  log (Release id a).1 = log a ++ ToldReleasing [id] :: evs /\ Forall (taking (fun f => f = id \/ validLeaseID f <> None)) evs.
Proof.
  unfold Release. simpl releasing. set (a0 := note _ a).
  pose proof (discard_extends (fun f => f = id \/ validLeaseID f <> None) id a0) as D.
  destruct (discard id a0) as [a1 e]. destruct D as (u & Eu & F); [auto..|]. simpl in Eu.
  assert (log a1 = log a ++ ToldReleasing [id] :: u) as E1 by (rewrite Eu, <- app_assoc; done).
  destruct e; [by exists u|]. destruct (Lease.Release id (manager a1)) as [m [n r]].
  exists (u ++ [Freed id]). simpl. rewrite E1, <- app_assoc. split; [done|]. apply Forall_app. split; [done|].
  by apply Forall_singleton.
Qed.

Lemma ReclaimCapacity_log need now elapsed a :
  let ids := Lease.Dropped (Reclaim need now (manager a)).2 in exists evs,
  log (ReclaimCapacity need now elapsed a).1 = log a ++ (if ids then [] else [ToldReleasing ids]) ++ evs /\
  Forall (taking (fun f => f ∈ ids \/ validLeaseID f <> None)) evs.
Proof.
  unfold ReclaimCapacity. destruct (Reclaim need now (manager a)) as [m res]. simpl. set (a0 := releasing _ _).
  pose proof (discard_all_extends (fun f => f ∈ Lease.Dropped res \/ validLeaseID f <> None) (Lease.Dropped res) a0 []) as D.
  destruct (discard_all _ a0 []) as [a1 failed]. destruct D as (u & Eu & F); [|auto|].
  { apply Forall_forall. auto. }
  exists u. split; [|done]. simpl in *. rewrite Eu. unfold a0, releasing. destruct (Lease.Dropped res); [done|].
  simpl. by rewrite <- app_assoc.
Qed.
End logs.

(** ** What the callbacks do to the cache *)

(** Slabs stay where they are, at the number of slots they had. *)
Definition grown (h h' : list slab) : Prop :=
  forall p s, h !! p = Some s -> exists s', h' !! p = Some s' /\ slots s' = slots s.

Lemma grown_refl h : grown h h.
Proof. intros p s E. eauto. Qed.
Lemma grown_trans h1 h2 h3 : grown h1 h2 -> grown h2 h3 -> grown h1 h3.
Proof. intros A B p s E. destruct (A _ _ E) as (s' & E' & <-). destruct (B _ _ E') as (s3 & E3 & <-). eauto. Qed.
Lemma grown_app h k : grown h (h ++ k).
Proof. intros p s E. exists s. split; [by apply lookup_app_l_Some|done]. Qed.
Lemma grown_alter f q h : (forall s, h !! q = Some s -> slots (f s) = slots s) -> grown h (alter f q h).
Proof.
  intros F p s E. rewrite alter_lookup, E. case_decide; [|eauto]. subst. simpl. eauto.
Qed.
#[local] Hint Resolve grown_refl grown_app : core.

(** What filling and reading leave of the cache. *)
Definition framed (c c' : Cache) : Prop :=
  grown (heap c) (heap c') /\ slabs c' = slabs c /\ tcfg c' = tcfg c.

Lemma framed_refl c : framed c c.
Proof. split_and!; auto. Qed.
Lemma framed_trans a b c : framed a b -> framed b c -> framed a c.
Proof. intros (G & S & T) (G' & S' & T'). split_and!; [by eapply grown_trans|congruence|congruence]. Qed.
Lemma framed_with_slab f p c : (forall s, heap c !! p = Some s -> slots (f s) = slots s) -> framed c (with_slab p f c).
Proof. intros F. split_and!; [by apply grown_alter|done|done]. Qed.
#[local] Hint Resolve framed_refl : core.

Lemma take_first_framed ls c p slot c' : take_first ls c = Some (p, slot, c') -> framed c c'.
Proof.
  induction ls as [|l ls IH]; simpl; [done|]. destruct (slabs c !! l) as [q|]; [|done].
  destruct (heap c !! q) as [s|] eqn:Hq; [|done]. destruct (slab_take s) as [[sl s']|] eqn:T; [|done].
  intros [= <- <- <-]. apply framed_with_slab. intros s0 E. rewrite Hq in E. injection E as <-.
  unfold slab_take in T. destruct (revoked s); [done|]. destruct (last _); [|done]. by injection T as <- <-.
Qed.

Lemma evict_framed ls c c' : evict_from ls c = Some c' -> framed c c'.
Proof.
  induction ls as [|l ls IH]; simpl; [done|]. destruct (slabs c !! l) as [q|]; [|done].
  destruct (lru q c) as [[k p]|]; [|done]. intros [= <-]. exact (framed_with_slab (slab_release (pslot p)) q c (fun _ _ => eq_refl)).
Qed.

Lemma placeLocked_framed pf c c' r : placeLocked pf c = (c', r) -> framed c c'.
Proof.
  unfold placeLocked. destruct (take_first (order c) c) as [[[p slot] c1]|] eqn:T.
  { intros [= <- _]. by eapply take_first_framed. }
  destruct pf; [by intros [= <- _]|]. destruct (evictOneLocked c) as [c1|] eqn:Ev; [|by intros [= <- _]].
  apply evict_framed in Ev. destruct (take_first (order c1) c1) as [[[p slot] c2]|] eqn:T2; intros [= <- _]; [|done].
  eapply framed_trans; [exact Ev|by eapply take_first_framed].
Qed.

Lemma Admit_framed k d pf io c : framed c (Admit k d pf io c).1.
Proof.
  unfold Admit. destruct (_ <? _); [done|]. case_bool_decide; [done|].
  destruct (if pf then _ else _) as [f before]. destruct (negb before); [done|].
  destruct (placeLocked pf (set_first f c)) as [c1 r] eqn:Pl. apply placeLocked_framed in Pl.
  assert (framed c c1) as F by exact Pl. destruct r as [[p slot]|e]; [|done].
  destruct (heap c1 !! p) as [s|] eqn:Hp; [|done].
  destruct (slab_write slot d _ io s) as [s'|e] eqn:W; simpl; (eapply framed_trans; [exact F|]).
  - apply (framed_with_slab (fun _ => s') p c1). intros s0 E. rewrite Hp in E. injection E as <-. unfold slab_write in W.
    destruct (revoked s); [done|]. destruct (_ <? _); [done|]. destruct (closed s || _); [done|]. by injection W as <-.
  - by apply framed_with_slab.
Qed.

Lemma Read_begin_framed k c : framed c (Read_begin k c).1.
Proof. unfold Read_begin. by destruct (resident c !! k). Qed.

Lemma Read_end_framed r res c : framed c (Read_end r res c).1.
Proof.
  unfold Read_end. destruct res as [d|e]; [by destruct (negb _)|].
  destruct (match resident c !! rkey r with Some _ => _ | None => _ end); [|done].
  destruct (negb _); [|done]. exact (framed_with_slab (slab_release (pslot (rplace r))) (pslab (rplace r)) c (fun _ _ => eq_refl)).
Qed.

Lemma tstep_grown content st st' : tstep content st st' -> grown (heap st.1) (heap st'.1) /\ tcfg st'.1 = tcfg st.1.
Proof.
  destruct 1; simpl; auto.
  - unfold AddCapacity. destruct (openSlab _ _ _); [|done]. destruct (slabs c !! l); simpl; auto.
  - unfold Revoke. destruct (slabs c !! l); [|done]. simpl. split; [|done]. eapply grown_trans; by apply grown_alter.
  - split; [|done]. unfold Close. simpl. generalize (heap c). induction (map_to_list (slabs c)) as [|x l IH]; intros h; [done|].
    simpl. eapply grown_trans; [|apply IH]. by apply grown_alter.
  - destruct (Admit_framed k d pf io c) as (? & _ & ?). auto.
  - destruct (Read_begin_framed k c) as (? & _ & ?). rewrite H in *. auto.
  - destruct (Read_begin_framed k c) as (? & _ & ?). rewrite H in *. auto.
  - destruct (Read_end_framed r res c) as (? & _ & ?). auto.
Qed.

(** Taking the leases one by one. *)
Lemma Revoke_slabs l c l' : slabs (Revoke l c).1 !! l' = if bool_decide (l' = l) then None else slabs c !! l'.
Proof.
  unfold Revoke. destruct (slabs c !! l) as [p|] eqn:E; simpl; case_bool_decide as D; subst; try done.
  - apply lookup_delete_eq.
  - by apply lookup_delete_ne.
Qed.

Lemma Revoke_grown l c : grown (heap c) (heap (Revoke l c).1).
Proof. exact (proj1 (tstep_grown (fun _ _ => True) (c, []) ((Revoke l c).1, []) (ts_Revoke _ l c []))). Qed.

Lemma hook_releasing content ext ids : forall c n, tinv content c ->
  let t' := hook ext (c, n) (ToldReleasing ids) in
  tinv content t'.1 /\ keeps c t'.1 /\ generation t'.1 = generation c /\ grown (heap c) (heap t'.1) /\
  forall l, slabs t'.1 !! l = if bool_decide (l ∈ ids) then None else slabs c !! l.
Proof.
  induction ids as [|id ids IH]; intros c n I; cbv zeta in *.
  { simpl. split_and!; auto using keeps_refl. }
  destruct (Revoke_core content id c I) as (I1 & K1 & G1). pose proof (Revoke_grown id c) as W1.
  pose proof (Revoke_slabs id c) as S1. simpl in IH |- *. destruct (Revoke id c) as [c1 d]. simpl in *.
  destruct (IH c1 (n +! d) I1) as (I2 & K2 & G2 & W2 & S2). split_and!; auto.
  - by eapply keeps_trans.
  - congruence.
  - by eapply grown_trans.
  - intros l. rewrite S2, S1. repeat case_bool_decide; set_solver.
Qed.

Lemma hooks_tinv content ext evs : forall t, tinv content t.1 -> tinv content (fold_left (hook ext) evs t).1.
Proof.
  induction evs as [|e evs IH]; intros [c n] T; [done|]. apply IH.
  destruct e as [ids|id path| | | |]; try done.
  - by apply (hook_releasing content ext ids c n).
  - simpl. destruct (id =? selfLease)%string; [done|]. by apply (AddCapacity_core content id (ext path) c).
Qed.

(** Telling nothing changes nothing. *)
Lemma hook_quiet ext P evs t : Forall (taking P) evs -> fold_left (hook ext) evs t = t.
Proof. intros F. revert t. induction F as [|e evs Q F IH]; intros t; [done|]. simpl. rewrite IH. by destruct e. Qed.

(** The names an event takes away, and that the cache is off them by then. *)
Definition takes (e : event) (f : string) : Prop :=
  match e with Renamed g _ | Unlinked g => f = g | _ => False end.
Definition lets_go (ext : string -> option (list byte)) (t : Cache * Z) (evs : list event) : Prop :=
  forall pre e post f, evs = pre ++ e :: post -> takes e f ->
    slabs (fold_left (hook ext) pre t).1 !! f = None.

Lemma lets_go_quiet ext P t evs : Forall (taking P) evs -> (forall f, P f -> slabs t.1 !! f = None) -> lets_go ext t evs.
Proof.
  intros F N pre e post f -> T. apply Forall_app in F as [F1 F2]. rewrite (hook_quiet ext P) by done.
  apply Forall_cons in F2 as [F2 _]. apply N. destruct e; simpl in *; subst; done.
Qed.

Lemma lets_go_cons ext t e evs : (forall f, ~ takes e f) -> lets_go ext (hook ext t e) evs -> lets_go ext t (e :: evs).
Proof.
  intros N L pre e' post f E T. destruct pre as [|x pre]; simpl in E; injection E as -> E; [by apply N in T|].
  exact (L pre e' post f E T).
Qed.

(** ** The cache against the leases *)

Section served.
Context {J : Type} `{Journal J}.
Variable content : Key -> list byte -> Prop.
Variable base : Z.
Implicit Types s : serving J.

(** Every slab is a live lease's, and within it. *)
Definition lent_slabs (m : Manager J) (c : Cache) : Prop := forall l p sl,
  slabs c !! l = Some p -> heap c !! p = Some sl ->
  validLeaseID l = None /\ exists le, leases m !! l = Some le /\ slots sl * BlockSize (tcfg c) <= Size le.

Record served s : Prop := {
  sv_inv : inv base (manager (node s));
  sv_tier : tinv content (stier s);
  sv_lent : lent_slabs (manager (node s)) (stier s);
}.

(** What a move of the agent owes to the cache, given what it logged. *)
Definition told s (a' : Agent J) evs : Prop :=
  let t := fold_left (hook (extent_bytes a')) evs (stier s, sdropped s) in
  tinv content t.1 /\ lent_slabs (manager a') t.1 /\ keeps (stier s) t.1 /\ generation t.1 = generation (stier s) /\
  lets_go (extent_bytes a') (stier s, sdropped s) evs.

Lemma since_app (a a' : Agent J) evs : log a' = log a ++ evs -> since a a' = evs.
Proof. intros E. unfold since. by rewrite E, drop_app_length. Qed.

(** A lease some slab is on is live, and its name is a lease's. *)
Lemma slab_live s l : served s -> is_Some (slabs (stier s) !! l) ->
  validLeaseID l = None /\ is_Some (leases (manager (node s)) !! l).
Proof.
  intros [I T L] [p E]. destruct (c_reg content _ _ _ _ _ _ T _ _ E) as (sl & Hs & _).
  destruct (L _ _ _ E Hs) as (V & le & El & _). eauto.
Qed.

Lemma told_quiet s a' P evs : served s -> Forall (taking P) evs ->
  (forall f, P f -> slabs (stier s) !! f = None) ->
  (forall l le, leases (manager (node s)) !! l = Some le -> leases (manager a') !! l = Some le) -> told s a' evs.
Proof.
  intros [I T L] F N Le. unfold told. rewrite (hook_quiet _ P) by done. simpl. split_and!; auto using keeps_refl.
  - intros l p sl E Hs. destruct (L _ _ _ E Hs) as (V & le & El & B). eauto.
  - by eapply lets_go_quiet.
Qed.

Lemma told_releasing s a' ids evs : served s -> Forall (taking (fun f => f ∈ ids \/ validLeaseID f <> None)) evs ->
  (forall l, l ∉ ids -> leases (manager a') !! l = leases (manager (node s)) !! l) ->
  told s a' (ToldReleasing ids :: evs).
Proof.
  intros Sv F Le. pose proof Sv as [I T L]. unfold told.
  change (fold_left ?f (?e :: evs) ?t) with (fold_left f evs (f t e)). rewrite (hook_quiet _ _ evs _ F).
  destruct (hook_releasing content (extent_bytes a') ids (stier s) (sdropped s) T) as (T' & K & G & W & S).
  set (t' := hook _ _ _) in *. clearbody t'. split_and!; auto.
  - intros l p sl E Hs. rewrite S in E. case_bool_decide as D; [done|].
    destruct (c_reg content _ _ _ _ _ _ T _ _ E) as (s0 & H0 & _). destruct (L _ _ _ E H0) as (V & le & El & B).
    split; [done|]. exists le. rewrite Le by done. split; [done|]. destruct K as (-> & _).
    destruct (W _ _ H0) as (s1 & H1 & Es). rewrite Hs in H1. injection H1 as <-. by rewrite Es.
  - apply lets_go_cons; [by intros f []|].
    destruct (hook_releasing content (extent_bytes a') ids (stier s) (sdropped s) T) as (_ & _ & _ & _ & S').
    eapply lets_go_quiet; [exact F|]. intros f Q. rewrite S'. case_bool_decide as D; [done|].
    destruct Q as [|Q]; [done|]. destruct (slabs (stier s) !! f) eqn:E; [|done].
    destruct (slab_live s f Sv ltac:(by rewrite E)) as [V _]. by rewrite V in Q.
Qed.

(** Capacity from an extent of a live lease's size. *)
Lemma AddCapacity_lent m c l le : tinv content c -> lent_slabs m c ->
  validLeaseID l = None -> leases m !! l = Some le -> 0 <= Size le ->
  lent_slabs m (AddCapacity l (Some (replicate (Z.to_nat (Size le)) (byte_of 0))) c).1.
Proof.
  intros T L V El Sz. pose proof (c_bs content _ _ _ _ _ _ T) as B. unfold AddCapacity.
  destruct (openSlab _ _ _) as [sl|] eqn:O; [|done].
  assert (slots sl * BlockSize (tcfg c) <= Size le) as Bd.
  { unfold openSlab in O. case_if; [done|]. injection O as <-. simpl. unfold zlen. rewrite length_replicate, Z2Nat.id by done.
    rewrite Z.mul_comm. apply Z.mul_div_le. lia. }
  assert (forall k, (forall l' p (s' : slab), slabs c !! l' = Some p -> (heap c ++ k) !! p = Some s' -> heap c !! p = Some s')) as Old.
  { intros k l' p s' E Hs. destruct (c_reg content _ _ _ _ _ _ T _ _ E) as (s0 & H0 & _).
    by rewrite (lookup_app_l_Some _ _ _ _ H0) in Hs; injection Hs as <-. }
  destruct (slabs c !! l) eqn:E; intros l' p s'; simpl.
  - intros E' Hs. eapply L; [done|]. by eapply Old.
  - rewrite lookup_insert_Some. intros [[<- <-]|[N E']] Hs.
    + rewrite list_lookup_middle in Hs by done. injection Hs as <-. eauto.
    + eapply L; [done|]. by eapply Old.
Qed.

Lemma told_granted s a' le id : served s -> leases (manager (node s)) !! id = None -> 0 < Size le ->
  leases (manager a') = <[id := le]> (leases (manager (node s))) -> dir a' !! id = Some (Size le) ->
  validLeaseID id = None -> told s a' [Created id; ToldGranted id id].
Proof.
  intros Sv N Sz Le D V. pose proof Sv as [I T L]. unfold told. simpl.
  assert (lent_slabs (manager a') (stier s)) as L'.
  { intros l p sl E Hs. destruct (L _ _ _ E Hs) as (Vl & le' & El & B). split; [done|]. exists le'. split; [|done].
    rewrite Le, lookup_insert_ne; [done|congruence]. }
  assert (lets_go (extent_bytes a') (stier s, sdropped s) [Created id; ToldGranted id id]) as Lg.
  { apply lets_go_cons; [by intros f []|]. apply lets_go_cons; [by intros f []|]. intros [] ? ? ? ?; done. }
  destruct (id =? selfLease)%string; simpl; [split_and!; auto using keeps_refl|].
  destruct (AddCapacity_core content id (extent_bytes a' id) (stier s) T) as (T1 & K1 & G1). split_and!; auto.
  unfold extent_bytes. rewrite D. simpl. apply AddCapacity_lent; auto; [|lia]. by rewrite Le, lookup_insert_eq.
Qed.

Lemma astep_told s a' : served s -> astep (node s) a' -> inv base (manager a') /\ told s a' (since (node s) a').
Proof.
  intros Sv S. pose proof Sv as [I T L]. inversion S as [l now a Sz Tm Ea|id a Ea|need now el a Hn Ea|now tmp a P Ea]; subst.
  - split; [by apply Grant_inv|]. pose proof (Grant_outcome base l now (node s) I Sz Tm) as O.
    destruct (Grant l now (node s)) as [a' [e|]] eqn:G; cbn [fst].
    + destruct O as (El & _). destruct (Grant_refused_extends base _ _ _ _ _ I G) as (u & Eu & F).
      rewrite (since_app _ a' u) by done. eapply told_quiet; [done|exact F| |by simpl; rewrite El].
      intros f [-> N]. destruct (slabs (stier s) !! ID l) eqn:E; [|done].
      destruct (slab_live s (ID l) Sv ltac:(by rewrite E)) as [_ [? V]]. congruence.
    + destruct O as (N & _ & El & _ & Ed & Hz & V & Lg). rewrite (since_app _ _ _ Lg).
      eapply (told_granted s _ (set_GrantedAt now l)); auto. rewrite Ed. apply lookup_insert_eq.
  - pose proof (Release_outcome base id (node s) I) as O. destruct (Release_log id (node s)) as (u & Eu & F).
    destruct (Release id (node s)) as [a' [n e]]. destruct O as [I' O]. split; [done|]. cbn [fst] in *.
    rewrite (since_app _ _ _ Eu). apply told_releasing; auto.
    + eapply Forall_impl; [exact F|]. intros []; simpl; rewrite ?list_elem_of_singleton; auto.
    + intros l Nl. destruct O as [->|[-> _]]; [|done]. rewrite lookup_delete_ne; [done|]. intros ->. apply Nl. left.
  - destruct (ReclaimCapacity_manager need now el (node s)) as [Em _].
    destruct (Reclaim_leases base need now _ I Hn) as (D & _ & ED & El). rewrite <- Em in El.
    destruct (ReclaimCapacity_log need now el (node s)) as (u & Eu & F).
    pose proof (Reclaim_inv base need now _ Hn I) as I'. rewrite <- Em in I'. split; [done|].
    rewrite (since_app _ _ _ Eu). rewrite ED in F |- *. destruct (ID <$> D) as [|i ids].
    + simpl. eapply told_quiet; [done|exact F| |].
      * intros f [Q|Q]; [by inversion Q|]. destruct (slabs (stier s) !! f) eqn:E; [|done].
        destruct (slab_live s f Sv ltac:(by rewrite E)) as [V _]. by rewrite V in Q.
      * intros l le. by rewrite El.
    + simpl app. apply told_releasing; [done|exact F|]. intros l Nl. by rewrite El, bool_decide_false.
  - pose proof (Heartbeat_spec now tmp (node s)) as M.
    destruct (Heartbeat_extends (fun f => f = tmp) now tmp (node s) eq_refl) as (u & Eu & F).
    destruct (Heartbeat now tmp (node s)) as [a' e]. destruct M as [M _]. cbn [fst] in *. rewrite M. split; [done|].
    rewrite (since_app _ _ _ Eu). eapply told_quiet; [done|exact F| |by rewrite M].
    intros f ->. destruct (slabs (stier s) !! tmp) eqn:E; [|done].
    destruct (slab_live s tmp Sv ltac:(by rewrite E)) as [V _]. apply valid_not_special in V as (_ & _ & Pf & _). congruence.
Qed.
(** ** Reachable states

    The agent moves, telling the cache as it goes; and between its moves the cache
    is read and filled, its slabs staying the same ones. *)
Inductive sstep : serving J * list (reader * phase) -> serving J * list (reader * phase) -> Prop :=
  | ss_agent a' s rs : astep (node s) a' -> sstep (s, rs) (tell a' s, rs)
  | ss_read c rs' s rs : tstep content (stier s, rs) (c, rs') -> slabs c = slabs (stier s) ->
      sstep (s, rs) (mkServing (node s) c (sdropped s), rs').

Definition sstate_ok (st : serving J * list (reader * phase)) : Prop :=
  served st.1 /\ Forall (reader_ok (stier st.1)) st.2.

Lemma sstep_ok st st' : sstep st st' -> sstate_ok st -> 0 <= generation (stier st.1) < 18446744073709551615 ->
  sstate_ok st' /\ 0 <= generation (stier st'.1) <= generation (stier st.1) + 1.
Proof.
  intros S [Sv F] G. destruct S as [a' s rs S|c rs' s rs S Es]; simpl in *.
  - destruct (astep_told s a' Sv S) as (I & T & L & K & Eg & _). split; [split; [by constructor|]|simpl; lia].
    eapply Forall_impl; [exact F|]. intros x. by apply reader_keeps.
  - pose proof Sv as [I T L].
    destruct (tstep_ok content _ _ S (conj T F) G) as [[T' F'] G']. simpl in *. split; [split; [|done]|done].
    constructor; simpl; [done|done|]. intros l p sl E Hs. rewrite Es in E.
    destruct (c_reg content _ _ _ _ _ _ T _ _ E) as (s0 & H0 & _). destruct (L _ _ _ E H0) as (V & le & El & B).
    split; [done|]. exists le. split; [done|].
    destruct (tstep_grown content _ _ S) as [W Ec]. simpl in W, Ec. rewrite Ec. destruct (W _ _ H0) as (s1 & H1 & Q).
    rewrite Hs in H1. injection H1 as <-. by rewrite Q.
Qed.

Lemma sreach_ok n st st' : nsteps sstep n st st' -> sstate_ok st -> 0 <= generation (stier st.1) ->
  generation (stier st.1) + Z.of_nat n <= 18446744073709551615 -> sstate_ok st'.
Proof.
  induction 1 as [|n st1 st2 st3 S1 S IH]; [done|]. intros O G B.
  destruct (sstep_ok _ _ S1 O) as [O1 G1]; [lia|]. apply IH; auto; lia.
Qed.
End served.

(** ** Counting *)

#[local] Instance zlen_Permutation {A} : Proper ((≡ₚ) ==> (=)) (@zlen A).
Proof. intros l k P. unfold zlen. by rewrite P. Qed.

Lemma size_filter_split p (res : gmap Key placement) :
  zlen (occ p res) + Z.of_nat (size (filter (fun kp : Key * placement => pslab kp.2 <> p) res)) = Z.of_nat (size res).
Proof.
  induction res as [|k pl res N IH] using map_ind; [done|].
  rewrite (map_size_insert_None _ _ _ N), occ_insert, zlen_app by done. destruct (Nat.eqb_spec (pslab pl) p) as [Eq|Ne].
  - rewrite map_filter_insert_False by (intros X; by apply X). rewrite delete_id by done. unfold zlen in *. simpl. lia.
  - rewrite map_filter_insert_True by done.
    rewrite map_size_insert_None by (apply map_lookup_filter_None; auto). unfold zlen in *. simpl. lia.
Qed.

(** Blocks in distinct slabs, each within its lease, are within what is lent. *)
Lemma resident_within bs (sl : gmap string nat) : forall (res : gmap Key placement) (ls : gmap string Lease), 0 < bs ->
  (forall l l' p, sl !! l = Some p -> sl !! l' = Some p -> l = l') ->
  (forall k pl, res !! k = Some pl -> exists l, sl !! l = Some (pslab pl)) ->
  map_Forall (fun _ l => 0 <= Size l) ls ->
  (forall l p, sl !! l = Some p -> exists le, ls !! l = Some le /\ zlen (occ p res) * bs <= Size le) ->
  Z.of_nat (size res) * bs <= lent ls.
Proof.
  induction sl as [|l p sl N IH] using map_ind; intros res ls B Inj Cov Pos Bd.
  - assert (res = ∅) as ->.
    { apply map_eq. intros k. rewrite lookup_empty. destruct (res !! k) as [pl|] eqn:E; [|done].
      destruct (Cov _ _ E) as [l El]. by rewrite lookup_empty in El. }
    rewrite map_size_empty. pose proof (lent_nonneg ls Pos). lia.
  - destruct (Bd l p) as (le & El & Bl); [by rewrite lookup_insert_eq|].
    rewrite <- (size_filter_split p res). pose proof (lent_delete ls l le El).
    enough (Z.of_nat (size (filter (fun kp : Key * placement => pslab kp.2 <> p) res)) * bs <= lent (delete l ls)) by lia.
    apply IH; auto.
    + intros l1 l2 q E1 E2. apply (Inj l1 l2 q); rewrite lookup_insert_ne; congruence.
    + intros k pl [E Ne]%map_lookup_filter_Some. destruct (Cov _ _ E) as [l' E'].
      apply lookup_insert_Some in E' as [[<- ?]|[_ E']]; [done|eauto].
    + by apply map_Forall_delete.
    + intros l' q E. assert (l <> l') by congruence.
      destruct (Bd l' q) as (le' & El' & Bl'); [by rewrite lookup_insert_ne|].
      exists le'. rewrite lookup_delete_ne by done. split; [done|]. rewrite occ_filter_ne; [done|]. intros ->.
      apply H0. apply (Inj l l' p); [apply lookup_insert_eq|by rewrite lookup_insert_ne].
Qed.

Section counted.
Context {J : Type} `{Journal J}.
Variable content : Key -> list byte -> Prop.
Variable base : Z.

Lemma served_resident (s : serving J) : served content base s ->
  Z.of_nat (size (resident (stier s))) * BlockSize (tcfg (stier s)) <= lent (leases (manager (node s))).
Proof.
  intros [I T L]. pose proof (c_bs content _ _ _ _ _ _ T) as B. apply (resident_within _ (slabs (stier s))); [done| | | |].
  - intros l l' p. by apply (reg_inj content _ _ _ _ _ T).
  - intros k pl E. destruct (c_res content _ _ _ _ _ _ T _ _ E) as (sl & _ & El). eauto.
  - by eapply inv_sizes.
  - intros l p E. destruct (c_reg content _ _ _ _ _ _ T _ _ E) as (sl & Hs & _).
    destruct (L _ _ _ E Hs) as (_ & le & El & Bd). exists le. split; [done|].
    pose proof (Permutation_length (c_slots content _ _ _ _ _ _ T _ _ _ E Hs)) as P.
    rewrite !length_app, length_seqZ in P. unfold zlen.
    destruct (decide (occ p (resident (stier s)) = [])) as [->|Ne].
    + simpl. by destruct (inv_wf _ _ I _ _ El).
    + assert (0 < length (occ p (resident (stier s))))%nat
        by (revert Ne; destruct (occ p (resident (stier s))); simpl; [done|lia]). nia.
Qed.
(** *** The state [serveReads] leaves *)

Lemma New_empty cf c : FastTier.New cf = Some c ->
  tinv content c /\ slabs c = ∅ /\ heap c = [] /\ resident c = ∅ /\ generation c = 0.
Proof.
  intros E. destruct (FastTierProofs.New_ok content _ _ E) as [[T _] G]. split; [done|]. unfold FastTier.New in E.
  destruct (_ <=? _); [done|]. destruct (_ <? _); [done|]. by injection E as <-.
Qed.

Lemma serveReads_served backend tb cfg now opens server listens (a a' : Agent J) s :
  serveReads backend tb cfg now opens server listens a = (a', Ok s) -> inv base (manager a) -> is_int64 tb ->
  served content base s /\ generation (stier s) = 0.
Proof.
  unfold serveReads. intros E I Tb. destruct (Z.leb_spec tb 0) as [|Pb]; [done|]. destruct backend; [|done].
  destruct (FastTier.New cfg) as [tier|] eqn:N; [|done]. apply New_empty in N as (T & Sl & Hp & _ & G).
  pose proof (Release_outcome base selfLease a I) as Ro. destruct (Agent.Release selfLease a) as [a1 [n e]].
  destruct Ro as [I1 _].
  pose proof (Grant_outcome base (self tb now) now a1 I1 Tb ltac:(simpl; unfold Hour; int64_lia)) as O.
  pose proof (Grant_inv base (self tb now) now a1 I1 Tb ltac:(simpl; unfold Hour; int64_lia)) as I2.
  destruct (Grant (self tb now) now a1) as [a2 e2]. simpl in I2.
  assert (exists tier', AddCapacity selfLease (if opens then extent_bytes a2 selfLease else None) tier = (tier', None) /\
    e2 = None /\ s = mkServing a2 tier' 0) as (tier' & Ad & -> & ->).
  { assert (match e2 with
            | Some e => (a2, Err (ErrGranting e))
            | None => match ExtentPath selfLease with
                      | Err e => (a2, Err (ErrExtentPath e))
                      | Ok path =>
                          let '(tier, e) := AddCapacity selfLease (if opens then extent_bytes a2 path else None) tier in
                          match e with
                          | Some e => (a2, Err (ErrGiving e))
                          | None => if negb server then (a2, Err ErrServer)
                                    else if negb listens then (a2, Err ErrListening) else (a2, Ok (mkServing a2 tier 0))
                          end
                      end
            end = (a', Ok s)) as E' by (destruct e as [[| | | | | | | |[]| |]|]; solve [exact E | discriminate E]).
    destruct e2; [done|]. change (ExtentPath selfLease) with (@Ok AgentErr string selfLease) in E'. cbv iota beta in E'.
    destruct (AddCapacity _ _ _) as [tier' [e'|]]; [done|].
    destruct (negb server); [done|]. destruct (negb listens); [done|]. injection E' as _ <-. eauto. }
  destruct O as (_ & _ & El & _ & Ed & Pz & V & _). simpl in El, Ed, Pz, V.
  pose proof (AddCapacity_core content selfLease (if opens then extent_bytes a2 selfLease else None) tier T) as (T' & _ & G').
  rewrite Ad in T', G'. simpl in *. split; [|congruence]. constructor; [done|done|]. simpl.
  destruct opens; [|by simplify_eq].
  pose proof (AddCapacity_lent content (manager a2) tier selfLease (set_GrantedAt now (self tb now)) T) as L.
  unfold extent_bytes in Ad. rewrite Ed, lookup_insert_eq in Ad. simpl in Ad, L. rewrite Ad in L. apply L; auto; [| |lia].
  - intros l p sl. by rewrite Sl, lookup_empty.
  - rewrite El. apply lookup_insert_eq.
Qed.

Lemma serving_ok backend tb cfg now opens server listens (a a' : Agent J) s0 n s rs :
  serveReads backend tb cfg now opens server listens a = (a', Ok s0) -> inv base (manager a) -> is_int64 tb ->
  nsteps (sstep content) n (s0, []) (s, rs) -> Z.of_nat n <= 18446744073709551615 -> served content base s.
Proof.
  intros E I Tb S B. destruct (serveReads_served _ _ _ _ _ _ _ _ _ _ E I Tb) as [Sv G].
  destruct (sreach_ok content base n (s0, []) (s, rs) S) as [Sv' _]; simpl; auto; [by split|lia|lia].
Qed.
End counted.

(** C11: what the cache holds is always capacity the node has lent. From the state
    serving starts in, and however grants, releases, reclamations and heartbeats
    with any disk faults interleave with reads and fills, every cached block lies
    in a slab under a lease that is live, inside the bytes that lease was granted,
    and all that the cache reports holding is within what the accounting counts as
    borrowed. *)
Theorem tier_holds_only_lent {J} `{Journal J} (content : Key -> list byte -> Prop) base
    backend tb cfg now opens server listens (a a' : Agent J) s0 n s rs :
  serveReads backend tb cfg now opens server listens a = (a', Ok s0) -> inv base (manager a) -> is_int64 tb ->
  nsteps (sstep content) n (s0, []) (s, rs) -> Z.of_nat n <= 18446744073709551615 ->
  0 <= Resident s <= Borrowed (acct (manager (node s))) - base /\
  forall k pl, resident (stier s) !! k = Some pl -> exists sl le,
    heap (stier s) !! pslab pl = Some sl /\ leases (manager (node s)) !! lease sl = Some le /\
    0 <= pslot pl /\ pslot pl * BlockSize (tcfg (stier s)) + plength pl <= Size le.
Proof.
  intros E I Tb S B. pose proof (serving_ok content base _ _ _ _ _ _ _ _ _ _ _ _ _ E I Tb S B) as Sv.
  pose proof (served_resident content base s Sv) as R. destruct Sv as [I' T L].
  pose proof (c_bs content _ _ _ _ _ _ T) as Pb. pose proof (inv_sum _ _ I') as Sm. pose proof (inv_base _ _ I').
  pose proof (Borrowed_int64 _ _ I') as Bo. split.
  - unfold Resident. rewrite (wrap64_id (Z.of_nat _)) by (unfold is_int64, MinInt64, MaxInt64 in *; nia). rewrite wrap64_id; [nia|(unfold is_int64, MinInt64, MaxInt64 in *; nia)].
  - intros k pl Ek. destruct (c_res content _ _ _ _ _ _ T _ _ Ek) as (sl & Hs & El).
    destruct (L _ _ _ El Hs) as (_ & le & Ele & Bd). exists sl, le.
    assert (0 <= pslot pl < slots sl).
    { eapply (slot_bounds content _ []); eauto. rewrite !elem_of_app. right; left. by eapply elem_of_occ. }
    destruct (c_data content _ _ _ _ _ _ T _ _ Ek) as (d & _ & _ & Le & _). split_and!; auto; [lia|nia].
Qed.

(** C10: the cache lets go before capacity is taken back. In every state serving
    reaches, whatever the agent then does, by the time an extent's name is renamed
    away or unlinked the cache has no slab on that extent and no block in it, so no
    descriptor keeps the bytes from the workload that needs them. *)
Theorem cache_lets_go_first {J} `{Journal J} (content : Key -> list byte -> Prop) base
    backend tb cfg now opens server listens (a a' b : Agent J) s0 n s rs pre e post f :
  serveReads backend tb cfg now opens server listens a = (a', Ok s0) -> inv base (manager a) -> is_int64 tb ->
  nsteps (sstep content) n (s0, []) (s, rs) -> Z.of_nat n <= 18446744073709551615 ->
  astep (node s) b -> since (node s) b = pre ++ e :: post -> takes e f ->
  let c := (fold_left (hook (extent_bytes b)) pre (stier s, sdropped s)).1 in
  slabs c !! f = None /\ forall k pl, resident c !! k = Some pl -> lease <$> heap c !! pslab pl <> Some f.
Proof.
  intros E I Tb S B St Eq Tk. pose proof (serving_ok content base _ _ _ _ _ _ _ _ _ _ _ _ _ E I Tb S B) as Sv.
  destruct (astep_told content base s b Sv St) as (_ & _ & _ & _ & _ & Lg). rewrite Eq in Lg.
  pose proof (Lg pre e post f eq_refl Tk) as N. split; [exact N|]. intros k pl Ek.
  assert (tinv content (fold_left (hook (extent_bytes b)) pre (stier s, sdropped s)).1) as T by (by apply hooks_tinv, Sv).
  destruct (c_res content _ _ _ _ _ _ T _ _ Ek) as (sl & -> & El). simpl. intros [= <-]. congruence.
Qed.

(** ** A node that serves, for the witnesses *)

Definition wserved : Agent FileJournal * result ServeErr (serving FileJournal) :=
  serveReads (Ok (FileBackend "/data")) 8 (mkTierConfig 4 8) 3 true true true wagent.
Definition ws0 : serving FileJournal :=
  match wserved.2 with Ok s => s | Err _ => mkServing wagent wcache0 0 end.
Definition fill (o : string) (s : serving FileJournal) : serving FileJournal :=
  mkServing (node s) (Admit (wkey o 0) (bytes_of o) false true (stier s)).1 (sdropped s).
Definition ws1 : serving FileJournal := fill "x" (fill "x" ws0).
Definition wgrant : Agent FileJournal := (Grant (wit_lease "c" Elastic 8) 4 (node ws1)).1.
Definition ws2 : serving FileJournal := tell wgrant ws1.
Definition wreclaim : Agent FileJournal := (ReclaimCapacity 212 5 0 (node ws2)).1.
Definition wany (k : Key) (d : list byte) : Prop := True.

Lemma wserved_Ok : wserved = (wserved.1, Ok ws0).
Proof. vm_compute. reflexivity. Qed.

Lemma wserved_steps : nsteps (sstep wany) 3 (ws0, []) (ws2, []).
Proof.
  eapply nsteps_l; [apply (ss_read _ _ [] ws0 [] (ts_Admit _ (wkey "x" 0) (bytes_of "x") false true _ [] I)); vm_compute; reflexivity|].
  eapply nsteps_l; [apply (ss_read _ _ [] (fill "x" ws0) [] (ts_Admit _ (wkey "x" 0) (bytes_of "x") false true _ [] I)); vm_compute; reflexivity|].
  eapply nsteps_l; [apply (ss_agent _ wgrant ws1 []), astep_Grant; simpl; int64_lia|]. apply nsteps_O.
Qed.

Lemma tier_holds_only_lent_witness :
  Resident ws2 = 4 /\ 0 <= Resident ws2 <= Borrowed (acct (manager (node ws2))) - 0.
Proof.
  split; [vm_compute; reflexivity|].
  apply (tier_holds_only_lent wany 0 (Ok (FileBackend "/data")) 8 (mkTierConfig 4 8) 3 true true true wagent wserved.1 ws0 3 ws2 []).
  - exact wserved_Ok.
  - apply wit_inv.
  - int64_lia.
  - apply wserved_steps.
  - lia.
Defined.

Lemma cache_lets_go_first_witness : exists pre post,
  since (node ws2) wreclaim = pre ++ Renamed "c" "c.invalid" :: post /\
  is_Some (slabs (stier ws2) !! "c") /\
  slabs (fold_left (hook (extent_bytes wreclaim)) pre (stier ws2, sdropped ws2)).1 !! "c" = None.
Proof.
  exists [ToldReleasing ["a"; "self-granted-tier"; "c"]; Renamed "a" "a.invalid"; Unlinked "a.invalid";
    Renamed "self-granted-tier" "self-granted-tier.invalid"; Unlinked "self-granted-tier.invalid"], [Unlinked "c.invalid"].
  assert (since (node ws2) wreclaim = [ToldReleasing ["a"; "self-granted-tier"; "c"]; Renamed "a" "a.invalid"; Unlinked "a.invalid";
    Renamed "self-granted-tier" "self-granted-tier.invalid"; Unlinked "self-granted-tier.invalid"] ++
    Renamed "c" "c.invalid" :: [Unlinked "c.invalid"]) as E by (vm_compute; reflexivity).
  split; [exact E|]. split; [vm_compute; eauto|].
  eapply (cache_lets_go_first wany 0 (Ok (FileBackend "/data")) 8 (mkTierConfig 4 8) 3 true true true wagent wserved.1 wreclaim ws0 3 ws2 []).
  - exact wserved_Ok.
  - apply wit_inv.
  - int64_lia.
  - apply wserved_steps.
  - lia.
  - apply astep_Reclaim. int64_lia.
  - exact E.
  - reflexivity.
Defined.

(** Every lease but the agent's own becomes cache capacity when it is granted, a
    guaranteed one for a staged checkpoint too: its extent is a slab. *)
Example staged_extent_is_a_slab :
  let s := tell (Grant (wit_lease "ckpt-7" Guaranteed 8) 4 (node ws1)).1 ws1 in
  lease <$> (slabs (stier s) !! "ckpt-7" ≫= fun p => heap (stier s) !! p) = Some "ckpt-7".
Proof. vm_compute. reflexivity. Qed.
