(* ===== verification/GoTime.v ===== *)
(** * GoTime: [time.ParseDuration], as the code uses it

    The text of a duration: an optional sign, then numbers with a fraction and a
    unit each. The arithmetic is on [uint64]s and checked against 2^63; the
    fraction goes through a [float64]. *)

From S2P Require Import Prelude GoStrings Float64.

Local Open Scope Z_scope.

(** The units; the micro sign and the Greek letter are both accepted. *)
Definition unit_of (u : list byte) : option Z :=
  let one l := bool_decide (u = l) in
  if one (bytes_of "ns") then Some Nanosecond
  else if one (bytes_of "us") || one (bytes_list [194; 181; 115]) || one (bytes_list [206; 188; 115]) then Some Microsecond
  else if one (bytes_of "ms") then Some Millisecond
  else if one (bytes_of "s") then Some Second
  else if one (bytes_of "m") then Some Minute
  else if one (bytes_of "h") then Some Hour
  else None.

Definition two63 : Z := 9223372036854775808.

(** [leadingInt] *)
Fixpoint leading_int (x : Z) (b : list byte) : option (Z * list byte) :=
  match b with
  | [] => Some (x, [])
  | c :: b' =>
      match digit_of c with
      | None => Some (x, b)
      | Some d => if two63 / 10 <? x then None
                  else let x := x * 10 + d in if two63 <? x then None else leading_int x b'
      end
  end.

(** [leadingFraction]: digits past what fits are read and dropped. *)
Fixpoint leading_fraction (x : Z) (scale : float64) (overflow : bool) (b : list byte) : Z * float64 * list byte :=
  match b with
  | [] => (x, scale, [])
  | c :: b' =>
      match digit_of c with
      | None => (x, scale, b)
      | Some d =>
          if overflow then leading_fraction x scale true b'
          else if MaxInt64 / 10 <? x then leading_fraction x scale true b'
          else let y := x * 10 + d in
               if two63 <? y then leading_fraction x scale true b'
               else leading_fraction y (f64_mul scale (f64_of_Z 10)) false b'
      end
  end.

Definition is_point (c : byte) : bool := Ascii.eqb c ".".
Definition numeric (c : byte) : bool := is_point c || match digit_of c with Some _ => true | None => false end.

Fixpoint take_unit (b : list byte) : list byte * list byte :=
  match b with
  | [] => ([], [])
  | c :: b' => if numeric c then ([], b) else let '(u, rest) := take_unit b' in (c :: u, rest)
  end.

(** One number and its unit, and what is behind them. *)
Definition parse_part (b : list byte) : option (Z * list byte) :=
  match b with
  | [] => None
  | c :: _ =>
      if negb (numeric c) then None
      else match leading_int 0 b with
      | None => None
      | Some (v, b1) =>
          let pre := negb (zlen b1 =? zlen b) in
          let '(f, scale, post, b2) :=
            match b1 with
            | c :: b1' => if is_point c then let '(f, scale, b2) := leading_fraction 0 (f64_of_Z 1) false b1' in
                                             (f, scale, negb (zlen b2 =? zlen b1'), b2)
                          else (0, f64_of_Z 1, false, b1)
            | [] => (0, f64_of_Z 1, false, b1)
            end in
          if negb pre && negb post then None
          else
            let '(u, rest) := take_unit b2 in
            match u, unit_of u with
            | [], _ | _, None => None
            | _, Some unit =>
                if two63 / unit <? v then None
                else
                  let v := v * unit in
                  let v := if 0 <? f then wrapU64 (v + int64_of_f64 (f64_mul (f64_of_Z f) (f64_div (f64_of_Z unit) scale))) else v in
                  if two63 <? v then None else Some (v, rest)
            end
      end
  end.

(** The loop; each round takes a byte at least. *)
Fixpoint parse_parts (fuel : nat) (d : Z) (b : list byte) : option Z :=
  match b, fuel with
  | [], _ => Some d
  | _, O => None
  | _, S fuel =>
      match parse_part b with
      | None => None
      | Some (v, rest) => let d := wrapU64 (d + v) in if two63 <? d then None else parse_parts fuel d rest
      end
  end.

Definition duration_of (s : string) : option duration :=
  let '(neg, b) := match bytes_of s with
                   | c :: b => if Ascii.eqb c "-" then (true, b) else if Ascii.eqb c "+" then (false, b) else (false, c :: b)
                   | [] => (false, [])
                   end in
  if bool_decide (b = bytes_of "0") then Some 0
  else match b with
       | [] => None
       | _ => match parse_parts (length b) 0 b with
              | None => None
              | Some d => if neg then Some (- d) else if MaxInt64 <? d then None else Some d
              end
       end.

Example duration_of_ex :
  duration_of "24h" = Some (24 * Hour) /\ duration_of "1h30m" = Some (90 * Minute) /\ duration_of "1.5s" = Some 1500000000 /\
  duration_of "-1m" = Some (- Minute) /\ duration_of "0" = Some 0 /\ duration_of "" = None /\ duration_of "3" = None /\
  duration_of ".s" = None /\ duration_of "2562048h" = None /\ duration_of "1e3s" = None.
Proof. vm_compute. split_and!; reflexivity. Qed.

Lemma wrapU64_nonneg z : 0 <= wrapU64 z.
Proof. apply Z.mod_pos_bound. done. Qed.

(** A duration is an [int64]. *)
Lemma leading_int_nonneg b : forall x v r, 0 <= x -> leading_int x b = Some (v, r) -> 0 <= v.
Proof.
  induction b as [|c b IH]; intros x v r X; simpl; [by intros [= <- _]|].
  destruct (digit_of c) as [d|] eqn:D; [|by intros [= <- _]]. destruct (_ <? x); [done|]. destruct (_ <? _); [done|].
  apply IH. unfold digit_of in D. case_if; [|done]. injection D as <-. bool_to_prop. lia.
Qed.

Lemma unit_of_pos u n : unit_of u = Some n -> 0 < n.
Proof. unfold unit_of. repeat (case_if; [by intros [= <-]|]). done. Qed.

Lemma parse_part_range b v r : parse_part b = Some (v, r) -> 0 <= v <= two63.
Proof.
  unfold parse_part. destruct b as [|c b]; [done|]. destruct (negb _); [done|].
  destruct (leading_int 0 (c :: b)) as [[w b1]|] eqn:L; [|done]. apply leading_int_nonneg in L; [|lia].
  set (x := match b1 with [] => _ | _ => _ end). destruct x as [[[f scale] post] b2]. destruct (_ && _); [done|].
  destruct (take_unit b2) as [[|u0 u] rest]; [done|]. destruct (unit_of (u0 :: u)) as [unit|] eqn:U; [|done].
  apply unit_of_pos in U. destruct (_ <? w); [done|]. match goal with |- context [two63 <? ?y] => destruct (Z.ltb_spec two63 y) end; [done|].
  intros [= <- _]. split; [|done]. case_if; [apply wrapU64_nonneg|nia].
Qed.

Lemma parse_parts_range fuel : forall d b n, 0 <= d <= two63 -> parse_parts fuel d b = Some n -> 0 <= n <= two63.
Proof.
  induction fuel as [|fuel IH]; intros d [|c b] n D; cbn [parse_parts]; try by intros [= <-].
  destruct (parse_part (c :: b)) as [[v r]|]; [|done]. cbv zeta.
  destruct (Z.ltb_spec two63 (wrapU64 (d + v))); [done|]. apply IH. split; [apply wrapU64_nonneg|done].
Qed.

Lemma duration_of_int64 s d : duration_of s = Some d -> is_int64 d.
Proof.
  unfold duration_of. set (x := match bytes_of s with [] => _ | _ => _ end). destruct x as [neg b].
  case_bool_decide; [by intros [= <-]|]. destruct b as [|c b]; [done|].
  destruct (parse_parts _ 0 _) as [n|] eqn:E; [|done]. apply parse_parts_range in E; [|unfold two63; lia].
  unfold two63 in E. destruct neg; [intros [= <-]|destruct (Z.ltb_spec MaxInt64 n); [done|intros [= <-]]];
    unfold is_int64, MinInt64, MaxInt64 in *; lia.
Qed.
