(* ===== verification/LeaseApi.v ===== *)
(** * LeaseApi: proposing leases to a node (internal/leaseapi)

    The server is in front of one node's agent; the client asks it over a network
    that may lose the request before the node sees it, or the answer after. A body
    is what it decodes to, as in Journal.v. *)

From S2P Require Import Prelude GoStrings GoTime Pool Lease Journal Agent LeaseProofs LeaseTheorems.
From S2P Require Import AgentTheorems AgentMainTheorems.
From S2P Require Checkpoint.

Local Open Scope Z_scope.

(** ** The wire (leaseapi.go) *)

Record Proposal : Type := mkProposal {
  PID : string;
  PTenant : string;
  PClass : string;
  PBytes : Z;
  PTerm : string;
}.

Inductive ProposalErr : Type :=
  | ErrClass (e : LeaseErr)
  | ErrTerm (term : string)
  | ErrNotCapacity (bytes : Z).

(** [GrantedAt] is the zero [time.Time], which accepting the lease overwrites. *)
Definition zero_time : time := -62135596800000000000.

Definition Proposal_Lease (p : Proposal) : result ProposalErr Lease :=
  match ParseClass (PClass p) with
  | Err e => Err (ErrClass e)
  | Ok class =>
      match duration_of (PTerm p) with
      | None => Err (ErrTerm (PTerm p))
      | Some term =>
          if PBytes p <=? 0 then Err (ErrNotCapacity (PBytes p))
          else Ok {| ID := PID p; Tenant := PTenant p; Class := class; Size := PBytes p; Term := term; GrantedAt := zero_time |}
      end
  end.

Inductive Refusal : Type := NoRefusal | NoCapacity | BackingOff | OverQuota | Malformed | Unavailable.

(** The reason is the error whose text the node sends. *)
Inductive reason : Type :=
  | NoReason
  | OfNode (e : AgentErr)
  | OfProposal (e : ProposalErr)
  | UnreadableBody
  | TokenRefused
  | NotReached.

Record Decision : Type := mkDecision {
  Granted : bool;
  Already : bool;
  Reason : reason;
  DRefusal : Refusal;
}.

Record Capacity_ : Type := mkCapacity {
  CBytes : Z;
  CReserved : Z;
  CBorrowed : Z;
  CFree : Z;
  MeasuredAt : time;
}.
Definition Age (now : time) (c : Capacity_) : duration := time_Sub now (MeasuredAt c).

(** What encoding a proposal and decoding it again gives. *)
Definition json_Proposal (p : Proposal) : Proposal :=
  mkProposal (json_string (PID p)) (json_string (PTenant p)) (json_string (PClass p)) (PBytes p) (json_string (PTerm p)).

(** ** The server (server.go) *)

(** [POST /leases], whose body is too large or does not decode, or is a proposal;
    [DELETE /leases/{id}]; [GET /capacity]. *)
Inductive request : Type :=
  | PostLease (body : option Proposal)
  | DeleteLease (id : string)
  | GetCapacity.
Inductive response : Type :=
  | Decided (code : Z) (d : Decision)
  | Measured (c : Capacity_)
  | Status (code : Z).

(** [errors.Is] on what [Grant] returns looks at either of two joined errors; the
    ones looked for are never the second. *)
Fixpoint is_lease_err (f : LeaseErr -> bool) (e : AgentErr) : bool :=
  match e with
  | ErrLease e => f e
  | ErrAllocateAndRelease e r => is_lease_err f e || f r
  | _ => false
  end.

Definition classify (e : AgentErr) : Refusal :=
  let one es := is_lease_err (fun e => bool_decide (e ∈ es)) e in
  if one [ErrChurning; ErrCooldown] then BackingOff
  else if one [ErrTenantQuota; ErrNoTenant] then OverQuota
  else if one [ErrBadClass; ErrBadTerm] then Malformed
  else NoCapacity.

Section server.
Context {J : Type} `{Journal J}.
Implicit Types a : Agent J.

Definition propose (now : time) (body : option Proposal) a : Agent J * response :=
  match body with
  | None => (a, Decided 400 (mkDecision false false UnreadableBody Malformed))
  | Some p =>
      match Proposal_Lease p with
      | Err e => (a, Decided 400 (mkDecision false false (OfProposal e) Malformed))
      | Ok l =>
          let '(a, e) := Grant l now a in
          (a, Decided 200
                match e with
                | None => mkDecision true false NoReason NoRefusal
                | Some e => if is_lease_err (fun e => bool_decide (e = ErrDuplicate)) e
                            then mkDecision true true NoReason NoRefusal
                            else mkDecision false false (OfNode e) (classify e)
                end)
      end
  end.

Definition release (id : string) a : Agent J * response :=
  let '(a, (_, e)) := Agent.Release id a in
  (a, Status match e with
             | None | Some (ErrLease ErrNoSuchLease) | Some ErrNoExtent => 204
             | Some _ => 500
             end).

Definition capacity (now : time) a : response :=
  let acct := acct (manager a) in
  Measured (mkCapacity (Capacity acct) (Reserved acct) (Borrowed acct) (Free acct) now).

(** [Handler], with [guard] in front of every route; [given] is the header. *)
Definition Handler (token given : string) (now : time) (r : request) a : Agent J * response :=
  if negb (Checkpoint.trim_bearer given =? token)%string then (a, Status 401)
  else match r with
       | PostLease body => propose now body a
       | DeleteLease id => release id a
       | GetCapacity => (a, capacity now a)
       end.

(** ** The client (client.go) *)

(** What the network does to one request. *)
Inductive fate : Type := Delivered | RequestLost | AnswerLost.

(** [send]: the node as it is after, and the answer that arrived. *)
Definition send (token ctoken : string) (f : fate) (now : time) (r : request) a : Agent J * option response :=
  match f with
  | RequestLost => (a, None)
  | _ => let '(a, answer) := Handler token (Checkpoint.bearer +:+ ctoken) now r a in
         (a, match f with Delivered => Some answer | _ => None end)
  end.

Definition unavailable : Decision := mkDecision false false NotReached Unavailable.
Definition Propose (token ctoken : string) (f : fate) (now : time) (p : Proposal) a : Agent J * Decision :=
  let '(a, answer) := send token ctoken f now (PostLease (Some (json_Proposal p))) a in
  (a, match answer with
      | None => unavailable
      | Some (Decided _ d) => d
      | Some (Status 401) => mkDecision false false TokenRefused Malformed
      | Some _ => mkDecision false false UnreadableBody Unavailable
      end).

(** Whether it was released, as far as the caller knows. *)
Definition ReleaseLease (token ctoken : string) (f : fate) (now : time) (id : string) a : Agent J * bool :=
  let '(a, answer) := send token ctoken f now (DeleteLease id) a in
  (a, match answer with Some (Status code) => code <? 300 | Some _ => true | None => false end).

Definition ReadCapacity (token ctoken : string) (f : fate) (now : time) a : option Capacity_ :=
  match (send token ctoken f now GetCapacity a).2 with
  | Some (Measured c) => Some c
  | _ => None
  end.
End server.

(** * A proposal sent again is granted once *)

(** The token of a header the client wrote. *)
Lemma substring_all s : forall n, (String.length s <= n)%nat -> substring 0 n s = s.
Proof. induction s as [|c s IH]; intros [|n] L; simpl in *; try done; try lia. rewrite IH; [done|lia]. Qed.

Lemma trim_bearer_own s : Checkpoint.trim_bearer (Checkpoint.bearer +:+ s) = s.
Proof.
  unfold Checkpoint.trim_bearer. assert (String.prefix Checkpoint.bearer (Checkpoint.bearer +:+ s) = true) as ->
    by (simpl; by destruct s).
  unfold Checkpoint.bearer. cbn -[Nat.sub]. apply substring_all. rewrite append_length. lia.
Qed.

Section retries.
Context {J : Type} `{Journal J}.
Implicit Types a : Agent J.

(** A control plane that sends one proposal again and again, whatever becomes of
    each, and what it is told each time. *)
Fixpoint retry (token ctoken : string) (fs : list (fate * time)) (p : Proposal) a : Agent J * list Decision :=
  match fs with
  | [] => (a, [])
  | (f, now) :: fs =>
      let '(a, d) := Propose token ctoken f now p a in
      let '(a, ds) := retry token ctoken fs p a in (a, d :: ds)
  end.

Definition fresh (d : Decision) : bool := Granted d && negb (Already d).

(** A proposal the node could read. *)
Lemma Proposal_Lease_Ok p l : Proposal_Lease p = Ok l -> is_int64 (PBytes p) ->
  ID l = PID p /\ Tenant l = PTenant p /\ Size l = PBytes p /\ 0 < Size l /\ is_int64 (Size l) /\ is_int64 (Term l) /\
  Valid (Class l) = true.
Proof.
  unfold Proposal_Lease. destruct (ParseClass _) as [c|] eqn:C; [|done].
  destruct (duration_of (PTerm p)) as [d|] eqn:D; [|done]. apply duration_of_int64 in D.
  destruct (Z.leb_spec (PBytes p) 0); [done|]. intros [= <-] I. simpl. split_and!; auto.
  unfold ParseClass in C. repeat (case_if; [by injection C as <-|]). done.
Qed.

Lemma allocate_err id size a a' e f : allocate id size a = (a', Some e) -> is_lease_err f e = false.
Proof.
  unfold allocate. destruct (ExtentPath id) eqn:P.
  - destruct (OpenExcl _ a) as [a1 []]; simpl; [|by intros [= _ <-]].
    destruct (reserve _ size a1) as [a2 []]; simpl.
    + destruct (negb (os a2)); by intros [= _ <-].
    + destruct (Remove _ a2). by intros [= _ <-].
  - intros [= _ <-]. unfold ExtentPath in P. destruct (validLeaseID id) eqn:V; [|done]. injection P as <-.
    by rewrite (validLeaseID_err _ _ V).
Qed.

(** A grant is refused as a duplicate exactly of a lease that is held. *)
Lemma Grant_duplicate base l now a a' e : inv base (manager a) -> Grant l now a = (a', Some e) ->
  is_lease_err (fun e => bool_decide (e = ErrDuplicate)) e = true -> is_Some (leases (manager a) !! ID l).
Proof.
  intros I G D. unfold Grant in G. destruct (Accept l now (manager a)) as [m r] eqn:Ac. destruct r as [r|].
  - injection G as _ <-. simpl in D. apply bool_decide_eq_true in D. subst r. unfold Accept in Ac.
    destruct (prune_frame now (manager a)) as [rs Ep]. rewrite Ep in Ac.
    destruct (accept_refusal l now _) as [x|] eqn:R.
    + injection Ac as _ ->. unfold accept_refusal in R. destruct (withinQuota l _) as [q|] eqn:W.
      * repeat (case_if; [try discriminate R; by match goal with B : bool_decide _ = true |- _ => apply bool_decide_eq_true in B end|]).
        injection R as ->. unfold withinQuota in W. repeat case_match; discriminate W.
      * repeat (case_if; [try discriminate R; by match goal with B : bool_decide _ = true |- _ => apply bool_decide_eq_true in B end|]).
        discriminate R.
    + destruct (Lend _ _); [|done]. destruct (persistLocked _) as [m' [pe|]]; [|done]. by destruct (releaseLocked _ m').
  - destruct (allocate (ID l) (Size l) (set_manager m a)) as [a1 [e1|]] eqn:Al; [|done].
    pose proof (allocate_err _ _ _ _ _ (fun e => bool_decide (e = ErrDuplicate)) Al) as N1.
    destruct (Lease.Release (ID l) (manager a1)) as [m2 [n [r|]]] eqn:Rl; injection G as _ <-; simpl in D.
    + rewrite N1 in D. simpl in D. apply bool_decide_eq_true in D. subst r. exfalso. revert Rl. unfold Lease.Release.
      destruct (leases (manager a1) !! ID l); [|done]. destruct (releaseLocked _ _) as [m3|pe]; [|done].
      destruct (persistLocked m3) as [m4 [je|]]; done.
    + congruence.
Qed.

(** One attempt changes nothing and is told so, or that the lease was held; or the
    lease is new, and the caller is told, or hears nothing. *)
Definition same_leases a a' : Prop :=
  leases (manager a') = leases (manager a) /\ Borrowed (acct (manager a')) = Borrowed (acct (manager a)).
Definition newly_lent (q : Proposal) a a' : Prop :=
  leases (manager a) !! PID q = None /\ exists l now, Proposal_Lease q = Ok l /\
  leases (manager a') = <[PID q := set_GrantedAt now l]> (leases (manager a)) /\
  Borrowed (acct (manager a')) = Borrowed (acct (manager a)) + PBytes q.

Lemma Propose_once base token ctoken f now p a : inv base (manager a) -> is_int64 (PBytes p) ->
  let q := json_Proposal p in let '(a', d) := Propose token ctoken f now p a in
  inv base (manager a') /\
  (same_leases a a' /\ fresh d = false /\ (Granted d = true -> is_Some (leases (manager a) !! PID q)) \/
   newly_lent q a a' /\ (d = mkDecision true false NoReason NoRefusal \/ f = AnswerLost /\ d = unavailable)).
Proof.
  intros I B. cbv zeta. unfold Propose, send.
  assert (inv base (manager a) /\ (same_leases a a /\ fresh unavailable = false /\
    (Granted unavailable = true -> is_Some (leases (manager a) !! PID (json_Proposal p))) \/
    newly_lent (json_Proposal p) a a /\ (unavailable = mkDecision true false NoReason NoRefusal \/ f = AnswerLost /\ unavailable = unavailable)))
    as Lost by (split; [done|left; by split_and!]).
  destruct f; [|exact Lost|]; unfold Handler; rewrite trim_bearer_own.
  all: destruct (negb (ctoken =? token)%string); [split; [done|left; split_and!; try done]|]; unfold propose.
  all: destruct (Proposal_Lease (json_Proposal p)) as [l|e] eqn:L; [|split; [done|left; split_and!; try done]].
  all: destruct (Proposal_Lease_Ok _ _ L B) as (Ei & _ & Es & Pz & Sz & Tm & _); simpl in Es.
  all: pose proof (Grant_inv base l now a I Sz Tm) as I'; pose proof (Grant_outcome base l now a I Sz Tm) as O.
  all: pose proof (fun a' e => Grant_duplicate base l now a a' e I) as D; rewrite Ei in D, O.
  all: destruct (Grant l now a) as [a' [e|]]; simpl in I'; split; [done| |done|].
  - left. destruct O as (El & Ea & _). specialize (D a' e eq_refl).
    destruct (is_lease_err _ e); simpl; unfold same_leases; rewrite Ea; split_and!; auto; done.
  - right. destruct O as (N & _ & El & Eb & _). split; [|by left]. split; [done|]. exists l, now. by rewrite Eb, Es.
  - left. destruct O as (El & Ea & _). unfold same_leases. rewrite Ea. by split_and!.
  - right. destruct O as (N & _ & El & Eb & _). split; [|by right]. split; [done|]. exists l, now. by rewrite Eb, Es.
Qed.

(** A lease that is held is answered as granted already. *)
Lemma Propose_held token now p a l : Proposal_Lease (json_Proposal p) = Ok l -> 0 < Term l ->
  restored (manager a) = true -> is_Some (leases (manager a) !! PID (json_Proposal p)) ->
  (Propose token token Delivered now p a).2 = mkDecision true true NoReason NoRefusal.
Proof.
  intros L T R S. unfold Propose, send, Handler. rewrite trim_bearer_own, String.eqb_refl. simpl. unfold propose. rewrite L.
  assert (PID (json_Proposal p) = ID l /\ Valid (Class l) = true) as [Ei V].
  { revert L. unfold Proposal_Lease. destruct (ParseClass _) as [c|] eqn:C; [|done]. destruct (duration_of _); [|done].
    case_if; [done|]. intros [= <-]. split; [done|]. unfold ParseClass in C. simpl. repeat (case_if; [by injection C as <-|]). done. }
  rewrite Ei in S. assert (accept_refusal l now (prune now (manager a)) = Some ErrDuplicate) as X.
  { destruct (prune_frame now (manager a)) as [rs ->]. unfold accept_refusal. simpl.
    rewrite R, V, (proj2 (Z.leb_gt _ _) T), bool_decide_true by done. done. }
  unfold Grant, Accept. rewrite X. done.
Qed.

Lemma retry_inv base token ctoken fs p : forall a, inv base (manager a) -> is_int64 (PBytes p) ->
  let q := json_Proposal p in let '(a', ds) := retry token ctoken fs p a in
  inv base (manager a') /\ (same_leases a a' /\ List.filter fresh ds = [] \/
    newly_lent q a a' /\ (length (List.filter fresh ds) <= 1)%nat) /\
  Forall (fun d => Granted d = true -> is_Some (leases (manager a') !! PID q)) ds.
Proof.
  induction fs as [|[f now] fs IH]; intros a I B; cbn -[Propose].
  { split_and!; [done|left; by split|constructor]. }
  pose proof (Propose_once base token ctoken f now p a I B) as O.
  destruct (Propose token ctoken f now p a) as [a1 d]. destruct O as [I1 O]. specialize (IH a1 I1 B). cbv zeta in IH.
  destruct (retry token ctoken fs p a1) as [a2 ds]. destruct IH as (I2 & S & F). split; [done|].
  destruct O as [([El Eb] & Fd & Gd)|([N (l & t & L & El & Eb)] & Dd)].
  - split.
    + simpl. rewrite Fd. destruct S as [([El2 Eb2] & Ff)|([N2 (l & t & L & El2 & Eb2)] & Ff)].
      * left. split; [split; congruence|done].
      * right. split; [|done]. split; [congruence|]. exists l, t. rewrite <- El, <- Eb. auto.
    + constructor; [|done]. intros G. destruct (Gd G) as [x Ex].
      destruct S as [([El2 _] & _)|([N2 _] & _)]; [rewrite El2, El; eauto|congruence].
  - assert (is_Some (leases (manager a1) !! PID (json_Proposal p))) as Held by (rewrite El, lookup_insert_eq; eauto).
    destruct S as [([El2 Eb2] & Ff)|([N2 _] & _)]; [|rewrite N2 in Held; by destruct Held].
    split.
    + right. split; [split; [done|]; exists l, t; rewrite El2, Eb2; auto|]. simpl. rewrite Ff. destruct (fresh d); simpl; lia.
    + constructor; [|done]. intros _. by rewrite El2.
Qed.
End retries.

Lemma retry_refused {J} `{Journal J} token ctoken fs p (a : Agent J) : ctoken <> token ->
  (retry token ctoken fs p a).1 = a.
Proof.
  intros N. induction fs as [|[f now] fs IH]; [done|]. cbn -[Propose].
  assert ((Propose token ctoken f now p a).1 = a) as E.
  { unfold Propose, send, Handler. rewrite trim_bearer_own, (proj2 (String.eqb_neq _ _) N). by destruct f. }
  destruct (Propose token ctoken f now p a) as [a1 d]. simpl in E. subst a1. by destruct (retry token ctoken fs p a).
Qed.

(** C14: a proposal sent again and again is granted once. Whatever becomes of each
    request and each answer on the way, the node ends up as it was or with exactly
    the lease proposed, new, once, and counted once, every other lease being left
    alone; at most one answer says it was newly granted, and then it was; nobody is
    told granted of a lease the node does not hold; without the token nothing at
    all happens; and while the lease is held, the next answer that arrives says so. *)
Theorem proposal_granted_once {J} `{Journal J} base token ctoken fs p (a : Agent J) :
  inv base (manager a) -> is_int64 (PBytes p) ->
  let q := json_Proposal p in let '(a', ds) := retry token ctoken fs p a in
  (same_leases a a' /\ List.filter fresh ds = [] \/ newly_lent q a a' /\ (length (List.filter fresh ds) <= 1)%nat) /\
  (forall d, d ∈ ds -> Granted d = true -> is_Some (leases (manager a') !! PID q)) /\
  (ctoken <> token -> a' = a) /\
  (forall l now, Proposal_Lease q = Ok l -> 0 < Term l -> restored (manager a') = true ->
     is_Some (leases (manager a') !! PID q) ->
     (Propose token token Delivered now p a').2 = mkDecision true true NoReason NoRefusal).
Proof.
  intros I B. cbv zeta. pose proof (retry_inv base token ctoken fs p a I B) as R. cbv zeta in R.
  pose proof (retry_refused token ctoken fs p a) as N. destruct (retry token ctoken fs p a) as [a' ds].
  destruct R as (_ & S & F). split_and!; [done| |done|].
  - intros d D. by apply (proj1 (Forall_forall _ _) F d D).
  - intros l now L T Rs Hd. by apply (Propose_held token now p a' l).
Qed.

Definition wproposal : Proposal := mkProposal "forebay-tier-team" "team" "elastic" 50 "24h".

(** The first answer is lost, the second says already. *)
Lemma proposal_granted_once_witness :
  let '(a', ds) := retry "secret" "secret" [(AnswerLost, 3); (Delivered, 4)] wproposal wagent in
  ds = [unavailable; mkDecision true true NoReason NoRefusal] /\
  newly_lent wproposal wagent a'.
Proof.
  pose proof (proposal_granted_once 0 "secret" "secret" [(AnswerLost, 3); (Delivered, 4)] wproposal wagent wit_inv
    ltac:(simpl; int64_lia)) as W. cbv zeta in W.
  assert ((retry "secret" "secret" [(AnswerLost, 3); (Delivered, 4)] wproposal wagent).2 =
    [unavailable; mkDecision true true NoReason NoRefusal]) as E by (vm_compute; reflexivity).
  assert (leases (manager (retry "secret" "secret" [(AnswerLost, 3); (Delivered, 4)] wproposal wagent).1) !! "forebay-tier-team"%string
    <> leases (manager wagent) !! "forebay-tier-team"%string) as N by (vm_compute; discriminate).
  destruct (retry _ _ _ _ _) as [a' ds]. simpl in E, N. split; [exact E|].
  destruct W as [[[[El _] _]|[W _]] _]; [by rewrite El in N|exact W].
Defined.

(** A lease held under the proposal's name is all the node looks for: asked for
    more under the same name it says granted, and lends no more. *)
Example grown_proposal_unheard :
  let a := (retry "t" "t" [(Delivered, 3)] wproposal wagent).1 in
  let '(a', d) := Propose "t" "t" Delivered 4 (mkProposal "forebay-tier-team" "team" "elastic" 100 "24h") a in
  Granted d = true /\ Size <$> leases (manager a') !! "forebay-tier-team"%string = Some 50.
Proof. vm_compute. split; reflexivity. Qed.

(** ** Giving back *)

(** Told done, the lease is gone, or its extent was; and then the lease, if there
    was one, is held as before. *)
Theorem release_told {J} `{Journal J} base id (a : Agent J) : inv base (manager a) ->
  (release id a).2 = Status 204 ->
  leases (manager (release id a).1) !! id = None \/
  dir a !! id = None /\ manager (release id a).1 = manager a.
Proof.
  intros I. unfold release. pose proof (Release_outcome base id a I) as O. unfold Agent.Release in *. simpl releasing in *.
  set (a0 := note (ToldReleasing [id]) a) in *. destruct (discard id a0) as [a1 e] eqn:D. apply discard_spec in D.
  destruct D as [a1 e Hm Hc Hd Hl F|a1 n _ _ _ _ _ _|a1 V _ Hm Hc Hd Hl Hi].
  - destruct F as [[-> N]|[[-> _]|[-> _]]]; [|done|done]. intros _. right. simpl. by rewrite Hm.
  - done.
  - rewrite Hm in *. change (manager a0) with (manager a) in *. destruct (Lease.Release id (manager a)) as [m [n e]] eqn:R.
    intros St. left. simpl in *. destruct e as [e|].
    + simpl in *. assert (e = ErrNoSuchLease) as -> by (destruct e; congruence).
      unfold Lease.Release in R. destruct (leases (manager a) !! id) as [l|] eqn:E.
      * destruct (releaseLocked l (manager a)) as [m1|]; [|done]. by destruct (persistLocked m1) as [m2 [x|]].
      * by injection R as <-.
    + destruct O as [_ [->|[_ N]]]; [apply lookup_delete_eq|done].
Qed.

(** Of a lease whose extent somebody removed the node says it is gone, and goes on
    counting it. *)
Example release_told_but_held :
  let a := set_dir (delete "a" (dir wagent)) wagent in
  (release "a" a).2 = Status 204 /\ is_Some (leases (manager (release "a" a).1) !! "a"%string) /\
  Borrowed (acct (manager (release "a" a).1)) = 500.
Proof. vm_compute. split_and!; try reflexivity. eexists. reflexivity. Qed.
