(* ===== verification/Kube.v ===== *)
(** * Kube: custom resources on the API server (internal/kube)

    The API server is a parameter: [api_do] is what it makes of a request, and a
    body is what it encodes or decodes to. An object's status and its labels are
    maps of fields, and a merge patch is a map of what to set and what to remove. *)

From S2P Require Import Prelude GoStrings Backend Intent Journal GoPath.
From S2P Require GrpcWire Residency.

Local Open Scope Z_scope.

(** ** Requests (kube.go) *)

(** [url.PathEscape] *)
Definition path_safe (c : byte) : bool :=
  let z := of_byte c in
  (97 <=? z) && (z <=? 122) || (65 <=? z) && (z <=? 90) || (48 <=? z) && (z <=? 57)
  || has_byte c "-_.~$&+:=@".
Definition PathEscape (s : string) : string :=
  string_of (concat ((fun c => if path_safe c then [c]
    else ["%"%char; GrpcWire.hex_digit (of_byte c / 16); GrpcWire.hex_digit (of_byte c mod 16)]) <$> bytes_of s)).

Record Resource : Type := mkResource {
  Group : string;
  Version : string;
  Plural : string;
  RNamespace : string;
}.
Definition with_namespace (ns : string) (r : Resource) : Resource := mkResource (Group r) (Version r) (Plural r) ns.

Definition DatasetResource : Resource := mkResource "forebay.io" "v1alpha1" "datasets" "".
Definition NodeResource : Resource := mkResource "" "v1" "nodes" "".
Definition SliceResource : Resource := mkResource "discovery.k8s.io" "v1" "endpointslices" "".

Record Config : Type := mkKubeConfig {
  Host : string;
  KToken : string;
  CA : list byte;
  Timeout : duration;
}.

Inductive KubeErr : Type :=
  | ErrNoHost
  | ErrHost
  | ErrCA
  | ErrNotInCluster
  | ErrReadToken
  | ErrReadCA
  | ErrTransport
  | ErrDecode
  | StatusErr (code : Z) (reason message : string)
  | ErrNoObject (name : string).

(** [net.JoinHostPort] *)
Definition JoinHostPort (host port : string) : string :=
  if has_byte ":" host then "[" +:+ host +:+ "]:" +:+ port else host +:+ ":" +:+ port.

(** The environment, and what reading the two files gives. *)
Definition InCluster (host port : string) (token : option string) (ca : option (list byte)) : result KubeErr Config :=
  if (host =? "")%string || (port =? "")%string then Err ErrNotInCluster
  else match token with
  | None => Err ErrReadToken
  | Some token =>
      match ca with
      | None => Err ErrReadCA
      | Some ca => Ok (mkKubeConfig ("https://" +:+ JoinHostPort host port) (TrimSpace token) ca (30 * Second))
      end
  end.

Record Client : Type := mkClient {
  base : string;
  ctoken : string;
  timeout : duration;
}.

(** [strings.TrimSuffix(s, "/")] *)
Definition trim_slash (s : string) : string :=
  match rev (bytes_of s) with
  | c :: b => if Ascii.eqb c "/" then string_of (rev b) else s
  | [] => s
  end.

(** Whether the host parses as a URL, and the certificates as such. *)
Definition New (parses certificates : bool) (cfg : Config) : result KubeErr Client :=
  if (Host cfg =? "")%string then Err ErrNoHost
  else if negb parses then Err ErrHost
  else if (0 <? zlen (CA cfg)) && negb certificates then Err ErrCA
  else Ok (mkClient (trim_slash (Host cfg)) (KToken cfg) (if Timeout cfg <=? 0 then 30 * Second else Timeout cfg)).

Definition path (c : Client) (r : Resource) (name : string) : string :=
  base c
  +:+ (if (Group r =? "")%string then "/api/" else "/apis/" +:+ PathEscape (Group r) +:+ "/")
  +:+ PathEscape (Version r)
  +:+ (if (RNamespace r =? "")%string then "" else "/namespaces/" +:+ PathEscape (RNamespace r))
  +:+ "/" +:+ PathEscape (Plural r)
  +:+ (if (name =? "")%string then "" else "/" +:+ PathEscape name).

(** ** Objects (dataset.go, nodes.go) *)

Inductive field : Type := FBool (b : bool) | FInt (n : Z) | FString (s : string).
#[global] Instance field_eq_dec : EqDecision field.
Proof. solve_decision. Defined.
Abbreviation Fields := (gmap string field) (only parsing).

Record DatasetStatus : Type := mkStatus {
  Present : bool;
  Bytes : Z;
  Reason : string;
  Satisfiable : bool;
  Unsatisfiable_ : string;
  RaisedTo : string;
  ObservedGeneration : Z;
}.
#[global] Instance DatasetStatus_eq_dec : EqDecision DatasetStatus.
Proof. solve_decision. Defined.

Record Dataset : Type := mkDataset {
  DName : string;
  DNamespace : string;
  Generation : Z;
  DIntent : Intent;
  DObject : string;
  DStatus : option DatasetStatus;
}.

Record Node : Type := mkNode {
  NName : string;
  NLabels : gmap string string;
}.

Record Endpoint : Type := mkEndpoint {
  Addresses : list string;
  NodeName : option string;
  EReady : option bool;
}.
Record EndpointSlice : Type := mkSlice {
  SLabels : gmap string string;
  Endpoints : list Endpoint;
  Ports : list (option Z);
}.

(** [json.Marshal] of a status: a field marked [omitempty] is left out when it is
    its type's zero. *)
Definition omit_empty (name : string) (v : field) (fs : Fields) : Fields :=
  if bool_decide (v = FInt 0 \/ v = FString "") then fs else <[name := v]> fs.
Definition status_fields (s : DatasetStatus) : Fields :=
  <["present" := FBool (Present s)]> (<["satisfiable" := FBool (Satisfiable s)]>
    (omit_empty "bytes" (FInt (Bytes s))
    (omit_empty "reason" (FString (json_string (Reason s)))
    (omit_empty "unsatisfiable" (FString (json_string (Unsatisfiable_ s)))
    (omit_empty "raisedTo" (FString (json_string (RaisedTo s)))
    (omit_empty "observedGeneration" (FInt (ObservedGeneration s)) ∅)))))).

(** [json.Unmarshal] into a status: what is missing stays zero, and what is of
    another type is refused. *)
Definition get_bool (name : string) (fs : Fields) : option bool :=
  match fs !! name with None => Some false | Some (FBool b) => Some b | Some _ => None end.
Definition get_int (name : string) (fs : Fields) : option Z :=
  match fs !! name with None => Some 0 | Some (FInt n) => if bool_decide (is_int64 n) then Some n else None | Some _ => None end.
Definition get_string (name : string) (fs : Fields) : option string :=
  match fs !! name with None => Some ""%string | Some (FString s) => Some s | Some _ => None end.
Definition status_of (fs : Fields) : option DatasetStatus :=
  p ← get_bool "present" fs; n ← get_int "bytes" fs; r ← get_string "reason" fs;
  s ← get_bool "satisfiable" fs; u ← get_string "unsatisfiable" fs; t ← get_string "raisedTo" fs;
  g ← get_int "observedGeneration" fs; Some (mkStatus p n r s u t g).

(** ** The client *)

Inductive body : Type :=
  | NoBody
  | StatusPatch (fields : Fields)
  | LabelsPatch (labels : gmap string (option string)).

(** What a body that came back decodes to; [Refused] is an object with a reason
    and a message. *)
Inductive answer : Type :=
  | Datasets (items : list Dataset)
  | Slices (items : list EndpointSlice)
  | OneNode (n : Node)
  | Refused (reason message : string)
  | Anything.

Inductive method : Type := GET | PATCH.

Class ApiServer (S : Type) : Type :=
  api_do : method -> string -> body -> S -> S * option (Z * answer).

(** [http.StatusText] *)
Class StatusTexts := StatusText : Z -> string.

Section client.
Context {S : Type} `{ApiServer S} `{StatusTexts}.

Definition statusError (code : Z) (a : answer) : KubeErr :=
  let '(reason, message) := match a with Refused r m => (r, m) | _ => ("", "")%string end in
  StatusErr code (if (reason =? "")%string then StatusText code else reason) message.

Definition do_ (m : method) (u : string) (b : body) (s : S) : S * result KubeErr answer :=
  let '(s, r) := api_do m u b s in
  (s, match r with
      | None => Err ErrTransport
      | Some (code, a) => if (code <? 200) || (300 <=? code) then Err (statusError code a) else Ok a
      end).

Definition ListDatasets (c : Client) (r : Resource) (s : S) : S * result KubeErr (list Dataset) :=
  let '(s, a) := do_ GET (path c r "") NoBody s in
  (s, match a with Err e => Err e | Ok (Datasets l) => Ok l | Ok _ => Err ErrDecode end).
Definition ListSlices (c : Client) (r : Resource) (s : S) : S * result KubeErr (list EndpointSlice) :=
  let '(s, a) := do_ GET (path c r "") NoBody s in
  (s, match a with Err e => Err e | Ok (Slices l) => Ok l | Ok _ => Err ErrDecode end).
Definition GetNode (c : Client) (name : string) (s : S) : S * result KubeErr Node :=
  let '(s, a) := do_ GET (path c NodeResource name) NoBody s in
  (s, match a with Err e => Err e | Ok (OneNode n) => Ok n | Ok _ => Err ErrDecode end).

Definition PatchStatus (c : Client) (r : Resource) (name : string) (st : DatasetStatus) (s : S) : S * option KubeErr :=
  let '(s, a) := do_ PATCH (path c r name +:+ "/status") (StatusPatch (status_fields st)) s in
  (s, match a with Err e => Some e | Ok _ => None end).
Definition PatchLabels (c : Client) (r : Resource) (name : string) (labels : gmap string (option string)) (s : S)
  : S * option KubeErr :=
  let '(s, a) := do_ PATCH (path c r name) (LabelsPatch labels) s in
  (s, match a with Err e => Some e | Ok _ => None end).
End client.

(** [Status.Error] *)
Definition Status_Error (code : Z) (reason message : string) : string :=
  if (message =? "")%string then "kube: " +:+ FormatInt code +:+ " " +:+ reason
  else "kube: " +:+ FormatInt code +:+ " " +:+ reason +:+ ": " +:+ message.

Definition NotFound (e : KubeErr) : bool :=
  match e with StatusErr code _ _ => code =? 404 | _ => false end.

(** ** Resolving a dataset (dataset.go) *)

Section resolve.
Context {D : Type} `{Quoting}.

Record Resolvable : Type := mkResolvable {
  RBackend : option (Backend D);
  RFleet : Fleet;
  RFloor : Floor;
}.

(** [size] is what the store says of the object, or the text of its error. *)
Definition Resolve (size : result string Z) (d : Dataset) : result KubeErr DatasetStatus :=
  if (DObject d =? "")%string then Err (ErrNoObject (DName d))
  else Ok match size with
          | Err reason => mkStatus false 0 reason true "" "" (Generation d)
          | Ok n => mkStatus true n "" true "" "" (Generation d)
          end.

Definition ResolveIntent (d : Dataset) (r : Resolvable) (st : DatasetStatus) : DatasetStatus :=
  let effective := Apply (RFloor r) (DIntent d) in
  let raised := if (IDurability effective =? IDurability (WithDefaults (DIntent d)))%string then ""%string
                else IDurability effective in
  match Intent.Resolve effective (RBackend r) (RFleet r) with
  | Some e => mkStatus (Present st) (Bytes st) (Reason st) false (IntentErr_Error e) raised (ObservedGeneration st)
  | None => mkStatus (Present st) (Bytes st) (Reason st) true "" raised (ObservedGeneration st)
  end.
End resolve.
Arguments Resolvable D : clear implicits.

Definition Changed (was : option DatasetStatus) (now : DatasetStatus) : bool :=
  match was with None => true | Some w => negb (bool_decide (w = now)) end.

(** ** Agents (nodes.go) *)

Record Agent_ : Type := mkAgentAt {
  ANode : string;
  AAddress : string;
}.

Definition service_label : string := "kubernetes.io/service-name".
Definition endpoint_agent (port : Z) (e : Endpoint) : option Agent_ :=
  match EReady e with
  | Some false => None
  | _ =>
      match NodeName e, Addresses e with
      | Some n, a :: _ => if (n =? "")%string then None else Some (mkAgentAt n (a +:+ ":" +:+ FormatInt port))
      | _, _ => None
      end
  end.
Definition slice_agents (service : string) (s : EndpointSlice) : list Agent_ :=
  if negb (default "" (SLabels s !! service_label) =? service)%string then []
  else match omap id (Ports s) with
       | [] => []
       | port :: _ => if port =? 0 then [] else omap (endpoint_agent port) (Endpoints s)
       end.

(** Sorted by node; the order of two agents on one node is left to an unstable
    sort, and is here the order they were listed in. *)
Definition agent_le (a b : Agent_) : Prop := str_ltb (ANode b) (ANode a) = false.
#[global] Instance agent_le_dec : RelDecision agent_le.
Proof. intros a b. apply bool_eq_dec. Defined.

Definition Agents {S} `{ApiServer S} `{StatusTexts} (c : Client) (namespace service : string) (s : S)
  : S * result KubeErr (list Agent_) :=
  let '(s, l) := ListSlices c (with_namespace namespace SliceResource) s in
  (s, match l with
      | Err e => Err e
      | Ok l => Ok (merge_sort agent_le (mjoin (slice_agents service <$> l)))
      end).

Example path_ex :
  path (mkClient "http://api" "" 0) (with_namespace "team" DatasetResource) "shards/a" =
  "http://api/apis/forebay.io/v1alpha1/namespaces/team/datasets/shards%2Fa".
Proof. vm_compute. reflexivity. Qed.

(** * What the API server keeps of what the controller writes

    The laws a client relies on: reading changes nothing, a refusal changes
    nothing, and a merge patch sets the fields it names, removes the labels it
    gives as null, and leaves the rest. Nobody else writes to it meanwhile. *)

(** A merge patch of labels. *)
Definition patched (p : gmap string (option string)) (old : gmap string string) : gmap string string :=
  merge (fun v o => match v with Some v => v | None => o end) p old.

Lemma lookup_patched p old k : patched p old !! k = match p !! k with Some v => v | None => old !! k end.
Proof.
  unfold patched. rewrite lookup_merge. unfold diag_None. by destruct (p !! k) as [[|]|], (old !! k).
Qed.

Definition ok_code (code : Z) : Prop := 200 <= code < 300.

(** [recorded] is the status of each object, by its address, and [labelled] the
    labels. *)
Class ApiSpec (S : Type) (c : Client) `{ApiServer S} : Type := {
  recorded : S -> gmap string (option (gmap string field));
  labelled : S -> gmap string (gmap string string);
  api_get u b s : recorded (api_do GET u b s).1 = recorded s /\ labelled (api_do GET u b s).1 = labelled s;
  api_list u s code items : (api_do GET u NoBody s).2 = Some (code, Datasets items) -> ok_code code ->
    Forall (fun d => exists fs, recorded s !! path c (with_namespace (DNamespace d) DatasetResource) (DName d) = Some fs /\
      match DStatus d with None => fs = None | Some st => exists f, fs = Some f /\ status_of f = Some st end) items;
  api_node u s code n : (api_do GET u NoBody s).2 = Some (code, OneNode n) -> ok_code code -> labelled s !! u = Some (NLabels n);
  api_patch_labels u p s s' code a : api_do PATCH u (LabelsPatch p) s = (s', Some (code, a)) -> ok_code code ->
    recorded s' = recorded s /\ exists old, labelled s !! u = Some old /\ labelled s' = <[u := patched p old]> (labelled s);
  api_patch_labels_other u p s v : recorded (api_do PATCH u (LabelsPatch p) s).1 = recorded s /\
    (v <> u -> labelled (api_do PATCH u (LabelsPatch p) s).1 !! v = labelled s !! v);
  api_patch_status u fs s s' code a : api_do PATCH (u +:+ "/status") (StatusPatch fs) s = (s', Some (code, a)) -> ok_code code ->
    labelled s' = labelled s /\ exists old, recorded s !! u = Some old /\
      recorded s' = <[u := Some (fs ∪ default ∅ old)]> (recorded s);
  api_patch_status_other u fs s v : labelled (api_do PATCH (u +:+ "/status") (StatusPatch fs) s).1 = labelled s /\
    (v <> u -> recorded (api_do PATCH (u +:+ "/status") (StatusPatch fs) s).1 !! v = recorded s !! v);
}.

(** ** Statuses

    A status with fields the API server can keep as they are. *)
Definition clean_status (st : DatasetStatus) : Prop :=
  json_string (Reason st) = Reason st /\ json_string (Unsatisfiable_ st) = Unsatisfiable_ st /\
  json_string (RaisedTo st) = RaisedTo st /\ is_int64 (Bytes st) /\ is_int64 (ObservedGeneration st).

(** What merging one into another leaves: a field that is left out when it is empty
    keeps what was there. *)
Definition kept (s d : string) : string := if (s =? "")%string then d else s.
Definition kept_int (n d : Z) : Z := if n =? 0 then d else n.
Definition overlay (was : option DatasetStatus) (st : DatasetStatus) : DatasetStatus :=
  match was with
  | None => st
  | Some w => mkStatus (Present st) (kept_int (Bytes st) (Bytes w)) (kept (Reason st) (Reason w)) (Satisfiable st)
                (kept (Unsatisfiable_ st) (Unsatisfiable_ w)) (kept (RaisedTo st) (RaisedTo w))
                (kept_int (ObservedGeneration st) (ObservedGeneration w))
  end.

(** Some field was there and now is not. *)
Definition emptied (was : option DatasetStatus) (st : DatasetStatus) : Prop :=
  match was with
  | None => False
  | Some w => (Bytes st = 0 /\ Bytes w <> 0) \/ (Reason st = "" /\ Reason w <> "")%string \/
      (Unsatisfiable_ st = "" /\ Unsatisfiable_ w <> "")%string \/ (RaisedTo st = "" /\ RaisedTo w <> "")%string \/
      (ObservedGeneration st = 0 /\ ObservedGeneration w <> 0)
  end.

Lemma kept_eq s d : kept s d = s <-> ~ (s = "" /\ d <> "")%string.
Proof. unfold kept. destruct (String.eqb_spec s "") as [->|N]; [|tauto]. destruct (String.eqb_spec d ""); naive_solver. Qed.
Lemma kept_int_eq n d : kept_int n d = n <-> ~ (n = 0 /\ d <> 0).
Proof. unfold kept_int. destruct (Z.eqb_spec n 0); lia. Qed.

Lemma one_of_five (A B C D E : Prop) `{Decision A, Decision B, Decision C, Decision D, Decision E} :
  ~ (~ A /\ ~ B /\ ~ C /\ ~ D /\ ~ E) <-> A \/ B \/ C \/ D \/ E.
Proof. destruct (decide A), (decide B), (decide C), (decide D), (decide E); tauto. Qed.

(** A pass that observes the same again writes again exactly when something went
    empty. *)
Lemma Changed_overlay was st : Changed (Some (overlay was st)) st = true <-> emptied was st.
Proof.
  unfold Changed. rewrite negb_true_iff, bool_decide_eq_false. destruct was as [w|]; simpl; [|tauto].
  assert (mkStatus (Present st) (kept_int (Bytes st) (Bytes w)) (kept (Reason st) (Reason w)) (Satisfiable st)
    (kept (Unsatisfiable_ st) (Unsatisfiable_ w)) (kept (RaisedTo st) (RaisedTo w))
    (kept_int (ObservedGeneration st) (ObservedGeneration w)) = st <->
    kept_int (Bytes st) (Bytes w) = Bytes st /\ kept (Reason st) (Reason w) = Reason st /\
    kept (Unsatisfiable_ st) (Unsatisfiable_ w) = Unsatisfiable_ st /\ kept (RaisedTo st) (RaisedTo w) = RaisedTo st /\
    kept_int (ObservedGeneration st) (ObservedGeneration w) = ObservedGeneration st) as ->.
  { destruct st; simpl. split; [intros [=]; auto|]. by intros (-> & -> & -> & -> & ->). }
  rewrite !kept_eq, !kept_int_eq.
  apply one_of_five; apply _.
Qed.

Definition nonzero (v : field) : option field := if bool_decide (v = FInt 0 \/ v = FString "") then None else Some v.

Lemma lookup_omit_eq name v (fs : gmap string field) :
  omit_empty name v fs !! name = match nonzero v with Some v => Some v | None => fs !! name end.
Proof. unfold omit_empty, nonzero. case_bool_decide; [done|]. apply lookup_insert_eq. Qed.
Lemma lookup_omit_ne name v (fs : gmap string field) k : name <> k -> omit_empty name v fs !! k = fs !! k.
Proof. intros N. unfold omit_empty. case_bool_decide; [done|]. by apply lookup_insert_ne. Qed.

Lemma nonzero_int n : nonzero (FInt n) = if n =? 0 then None else Some (FInt n).
Proof.
  unfold nonzero. destruct (Z.eqb_spec n 0) as [->|N]; [by rewrite bool_decide_true by auto|].
  rewrite bool_decide_false; [done|]. intros [[= E]|E]; [done|discriminate E].
Qed.
Lemma nonzero_string s : nonzero (FString s) = if (s =? "")%string then None else Some (FString s).
Proof.
  unfold nonzero. destruct (String.eqb_spec s "") as [->|N]; [by rewrite bool_decide_true by auto|].
  rewrite bool_decide_false; [done|]. intros [E|[= E]]; [discriminate E|done].
Qed.

Ltac find_field := repeat first
  [ rewrite lookup_insert_eq | rewrite lookup_insert_ne by discriminate
  | rewrite lookup_omit_eq | rewrite lookup_omit_ne by discriminate | rewrite lookup_empty ].

Lemma status_fields_lookups st : clean_status st ->
  status_fields st !! "present"%string = Some (FBool (Present st)) /\
  status_fields st !! "satisfiable"%string = Some (FBool (Satisfiable st)) /\
  status_fields st !! "bytes"%string = nonzero (FInt (Bytes st)) /\
  status_fields st !! "reason"%string = nonzero (FString (Reason st)) /\
  status_fields st !! "unsatisfiable"%string = nonzero (FString (Unsatisfiable_ st)) /\
  status_fields st !! "raisedTo"%string = nonzero (FString (RaisedTo st)) /\
  status_fields st !! "observedGeneration"%string = nonzero (FInt (ObservedGeneration st)).
Proof.
  intros (C1 & C2 & C3 & _). unfold status_fields. rewrite C1, C2, C3. clear.
  split_and!; find_field; try done; by destruct (nonzero _).
Qed.

(** A field of a union, read back. *)
Lemma get_int_union name (g f : gmap string field) n d : g !! name = nonzero (FInt n) -> is_int64 n ->
  get_int name f = Some d -> get_int name (g ∪ f) = Some (kept_int n d).
Proof.
  intros E I D. unfold get_int, kept_int in *. rewrite nonzero_int in E. rewrite lookup_union, E.
  destruct (n =? 0); [by rewrite option_union_left_id|].
  assert (Some (FInt n) ∪ f !! name = Some (FInt n)) as -> by by destruct (f !! name). by rewrite bool_decide_true.
Qed.
Lemma get_string_union name (g f : gmap string field) s d : g !! name = nonzero (FString s) ->
  get_string name f = Some d -> get_string name (g ∪ f) = Some (kept s d).
Proof.
  intros E D. unfold get_string, kept in *. rewrite nonzero_string in E. rewrite lookup_union, E.
  destruct (s =? "")%string; [by rewrite option_union_left_id|]. by destruct (f !! name).
Qed.
Lemma get_bool_union name (g f : gmap string field) b : g !! name = Some (FBool b) -> get_bool name (g ∪ f) = Some b.
Proof. intros E. unfold get_bool. rewrite lookup_union, E. by destruct (f !! name). Qed.

(** What the fields of a status decode to. *)
Lemma status_of_Some f w : status_of f = Some w ->
  get_int "bytes" f = Some (Bytes w) /\ get_string "reason" f = Some (Reason w) /\
  get_string "unsatisfiable" f = Some (Unsatisfiable_ w) /\ get_string "raisedTo" f = Some (RaisedTo w) /\
  get_int "observedGeneration" f = Some (ObservedGeneration w).
Proof.
  unfold status_of. destruct (get_bool "present" f) as [x1|]; [|done]. destruct (get_int "bytes" f) as [x2|]; [|done].
  destruct (get_string "reason" f) as [x3|]; [|done]. destruct (get_bool "satisfiable" f) as [x4|]; [|done].
  destruct (get_string "unsatisfiable" f) as [x5|]; [|done]. destruct (get_string "raisedTo" f) as [x6|]; [|done].
  destruct (get_int "observedGeneration" f) as [x7|]; [|done]. by intros [= <-].
Qed.

(** Merging a status into the fields of another. *)
Lemma status_merged was f st : clean_status st -> match was with None => f = ∅ | Some w => status_of f = Some w end ->
  status_of (status_fields st ∪ f) = Some (overlay was st).
Proof.
  intros C W. destruct (status_fields_lookups st C) as (L1 & L2 & L3 & L4 & L5 & L6 & L7). destruct C as (_ & _ & _ & I1 & I2).
  assert (status_of f = Some (default (mkStatus false 0 "" false "" "" 0) was)) as W' by (destruct was; [done|by subst]).
  apply status_of_Some in W' as (G1 & G2 & G3 & G4 & G5). unfold status_of.
  rewrite (get_bool_union _ _ _ _ L1), (get_int_union _ _ _ _ _ L3 I1 G1), (get_string_union _ _ _ _ _ L4 G2),
    (get_bool_union _ _ _ _ L2), (get_string_union _ _ _ _ _ L5 G3), (get_string_union _ _ _ _ _ L6 G4),
    (get_int_union _ _ _ _ _ L7 I2 G5).
  simpl. destruct was as [w|]; [done|]. destruct st. unfold kept, kept_int. simpl.
  repeat match goal with |- context [if (?x =? ?y)%string then _ else _] => destruct (String.eqb_spec x y); subst; simpl end;
  repeat match goal with |- context [if ?x =? ?y then _ else _] => destruct (Z.eqb_spec x y); subst; simpl end; done.
Qed.
