(* ===== verification/Controller.v ===== *)
(** * Controller: the control plane's passes (cmd/forebay-controller)

    Every interval the controller labels nodes from what their agents report, asks
    the agents to lend for what datasets declare, and records each dataset's status.
    Agents and the API server are behind a network; what an agent answers is what
    LeaseApi.v's client makes of it. *)

From S2P Require Import Prelude GoStrings GoPath Float64 Pool Lease Backend Intent Kube.
From S2P Require Agent LeaseApi Residency.

Local Open Scope Z_scope.

(** ** Planning (plan.go) *)

Record demand : Type := mkDemand {
  DTenant : string;
  DBytes : Z;
}.

Definition counts (floor : Floor) (d : Dataset) : option Z :=
  match DStatus d with
  | None => None
  | Some st =>
      if negb (Present st) || (Bytes st <=? 0) then None
      else if negb (ILatency (Apply floor (DIntent d)) =? LatencyCached)%string then None
      else Some (Bytes st)
  end.
Definition tally (floor : Floor) (byTenant : gmap string Z) (d : Dataset) : gmap string Z :=
  match counts floor d with
  | None => byTenant
  | Some n => <[DNamespace d := default 0 (byTenant !! DNamespace d) +! n]> byTenant
  end.
Definition wanted (floor : Floor) (items : list Dataset) : list demand :=
  let byTenant := fold_left (tally floor) items ∅ in
  (fun t => mkDemand t (default 0 (byTenant !! t))) <$> sort_Strings (elements (dom byTenant)).

Definition leaseID (tenant : string) : string := "forebay-tier-" +:+ tenant.

Section planning.
Context {J : Type} `{Journal J}.

(** The fleet: at each address an agent and the token it requires; and what
    becomes of each request to one, and when. *)
Record fleet : Type := mkFleetOf {
  at_address : gmap string (string * Agent.Agent J);
  fates : list (LeaseApi.fate * time);
}.
Definition next_fate (w : fleet) : LeaseApi.fate * time := default (LeaseApi.RequestLost, 0) (head (fates w)).

Record proposer : Type := mkProposer {
  ptoken : string;
  share : float64;
}.

(** [Client.Capacity] and [Client.Propose] at an address. *)
Definition ask_capacity (p : proposer) (address : string) (w : fleet) : fleet * option LeaseApi.Capacity_ :=
  let '(f, now) := next_fate w in
  let w := mkFleetOf (at_address w) (tail (fates w)) in
  match at_address w !! address with
  | None => (w, None)
  | Some (token, a) => (w, LeaseApi.ReadCapacity token (ptoken p) f now a)
  end.
Definition ask_lease (p : proposer) (address : string) (q : LeaseApi.Proposal) (w : fleet) : fleet * LeaseApi.Decision :=
  let '(f, now) := next_fate w in
  let w := mkFleetOf (at_address w) (tail (fates w)) in
  match at_address w !! address with
  | None => (w, LeaseApi.unavailable)
  | Some (token, a) =>
      let '(a, d) := LeaseApi.Propose token (ptoken p) f now q a in
      (mkFleetOf (<[address := (token, a)]> (at_address w)) (fates w), d)
  end.

Record tallies : Type := mkTallies {
  granted : Z;
  refused : Z;
  failed : list string;
}.

Definition proposal (tenant : string) (size : Z) : LeaseApi.Proposal :=
  LeaseApi.mkProposal (leaseID tenant) tenant "elastic" size "24h".

(** The inner loop: one agent, every tenant, against a budget. *)
Fixpoint propose_to (p : proposer) (address : string) (want : list demand) (budget : Z) (w : fleet) (n : tallies)
  : fleet * tallies :=
  match want with
  | [] => (w, n)
  | d :: want =>
      let size := if budget <? DBytes d then budget else DBytes d in
      if size <=? 0 then propose_to p address want budget w n
      else
        let '(w, decision) := ask_lease p address (proposal (DTenant d) size) w in
        if LeaseApi.Granted decision && negb (LeaseApi.Already decision)
        then propose_to p address want (budget -! size) w (mkTallies (granted n + 1) (refused n) (failed n))
        else if LeaseApi.Granted decision then propose_to p address want budget w n
        else propose_to p address want budget w (mkTallies (granted n) (refused n + 1) (failed n))
  end.

Definition budget_of (p : proposer) (c : LeaseApi.Capacity_) : Z :=
  int64_of_f64 (f64_mul (f64_of_Z (LeaseApi.CFree c)) (share p)).

Definition propose_agent (p : proposer) (want : list demand) (a : Agent_) (wn : fleet * tallies) : fleet * tallies :=
  let '(w, n) := wn in
  let '(w, c) := ask_capacity p (AAddress a) w in
  match c with
  | None => (w, mkTallies (granted n) (refused n) (failed n ++ [ANode a]))
  | Some c => propose_to p (AAddress a) want (budget_of p c) w n
  end.

(** [agents] is what listing them gave. *)
Definition propose (p : proposer) (want : list demand) (agents : result KubeErr (list Agent_)) (w : fleet)
  : fleet * result KubeErr tallies :=
  match want with
  | [] => (w, Ok (mkTallies 0 0 []))
  | _ =>
      match agents with
      | Err e => (w, Err e)
      | Ok agents =>
          let '(w, n) := fold_left (fun wn a => propose_agent p want a wn) agents (w, mkTallies 0 0 []) in
          (w, Ok n)
      end
  end.

Definition describe (granted refused : Z) : string :=
  "granted " +:+ FormatInt granted +:+ " lease(s)" +:+
  (if 0 <? refused then ", " +:+ FormatInt refused +:+ " refused" else "").
End planning.
Arguments fleet J : clear implicits.

(** ** Labelling (residency.go) *)

(** The prefix is the one of the label keys (Residency.v). *)
Record held : Type := mkHeldLabel {
  HLevel : string;
  HLabel : string;
  HRack : string;
}.

Definition want_one (want : gmap string string) (h : held) : gmap string string :=
  if (HLevel h =? "")%string || (HLabel h =? "")%string then want
  else
    let want := <[HLabel h := HLevel h]> want in
    if (HRack h =? "")%string then want else <[HRack h := HLevel h]> want.
Definition labels_wanted (report : list held) : gmap string string := fold_left want_one report ∅.

(** What to set, and a removal for each label of ours that is not wanted. *)
Definition diff (have want : gmap string string) : gmap string (option string) :=
  merge (fun h w =>
    match w with
    | Some v => if (default "" h =? v)%string then None else Some (Some v)
    | None => None
    end) have want
  ∪ (const None <$> filter (fun kv : string * string => HasPrefix Residency.prefix kv.1 = true /\ want !! kv.1 = None) have).

Section labelling.
Context {S : Type} `{ApiServer S} `{StatusTexts}.

(** What asking an agent for its report gives. *)
Class Reports (W : Type) : Type := ask_report : string -> W -> W * option (list held).
Context {W : Type} `{Reports W}.

(** Whether it had to write, and whether it could not. *)
Definition one (c : Client) (a : Agent_) (sw : S * W) : S * W * option bool :=
  let '(s, w) := sw in
  let '(w, report) := ask_report (AAddress a) w in
  match report with
  | None => (s, w, None)
  | Some report =>
      let '(s, n) := GetNode c (ANode a) s in
      match n with
      | Err _ => (s, w, None)
      | Ok n =>
          let patch := diff (NLabels n) (labels_wanted report) in
          if bool_decide (patch = ∅) then (s, w, Some false)
          else let '(s, e) := PatchLabels c NodeResource (ANode a) patch s in
               (* [PatchLabels] having failed, whether it wrote is not looked at. *)
               (s, w, match e with None => Some true | Some _ => None end)
      end
  end.

Record passed : Type := mkPassed {
  written : Z;
  pfailed : list string;
}.
Fixpoint label_all (c : Client) (agents : list Agent_) (sw : S * W) (p : passed) : S * W * passed :=
  match agents with
  | [] => (sw.1, sw.2, p)
  | a :: agents =>
      let '(s, w, r) := one c a sw in
      label_all c agents (s, w)
        match r with
        | None => mkPassed (written p) (pfailed p ++ [ANode a])
        | Some wrote => mkPassed (if wrote then written p + 1 else written p) (pfailed p)
        end
  end.
Definition run (c : Client) (namespace service : string) (sw : S * W) : S * W * result KubeErr passed :=
  let '(s, agents) := Agents c namespace service sw.1 in
  match agents with
  | Err e => (s, sw.2, Err e)
  | Ok agents => let '(s, w, p) := label_all c agents (s, sw.2) (mkPassed 0 []) in (s, w, Ok p)
  end.
End labelling.

(** ** Reconciling (main.go) *)

(** The text of what the store says of an object it would not size. *)
Class StoreTexts := store_text : string -> DrvErr -> string.

Section reconciling.
Context {S : Type} `{ApiServer S} `{StatusTexts}.
Context {D : Type} `{Driver D} `{Quoting} `{StoreTexts}.

Definition status_now (fleet : Fleet) (floor : Floor) (d : Dataset) (b : Backend D) : Backend D * result KubeErr DatasetStatus :=
  if (DObject d =? "")%string then (b, Resolve (Err "") d)
  else
    let '(b, size) := SizeOf (DObject d) b in
    let size := match size with Ok n => Ok n | Err e => Err (store_text (DObject d) e) end in
    (b, match Resolve size d with
        | Err e => Err e
        | Ok st => Ok (ResolveIntent d (mkResolvable (Some b) fleet floor) st)
        end).

Definition item_resource (r : Resource) (d : Dataset) : Resource :=
  if (RNamespace r =? "")%string then with_namespace (DNamespace d) r else r.

Fixpoint reconcile_items (c : Client) (r : Resource) (fleet : Fleet) (floor : Floor) (items : list Dataset)
    (sb : S * Backend D) (p : passed) : S * Backend D * passed :=
  match items with
  | [] => (sb.1, sb.2, p)
  | d :: items =>
      let '(b, st) := status_now fleet floor d sb.2 in
      match st with
      | Err _ => reconcile_items c r fleet floor items (sb.1, b) p
      | Ok st =>
          if negb (Changed (DStatus d) st) then reconcile_items c r fleet floor items (sb.1, b) p
          else
            let '(s, e) := PatchStatus c (item_resource r d) (DName d) st sb.1 in
            reconcile_items c r fleet floor items (s, b)
              match e with
              | None => mkPassed (written p + 1) (pfailed p)
              | Some e => if NotFound e then p else mkPassed (written p) (pfailed p ++ [DNamespace d +:+ "/" +:+ DName d])
              end
      end
  end.
Definition reconcile (c : Client) (r : Resource) (fleet : Fleet) (floor : Floor) (sb : S * Backend D)
  : S * Backend D * result KubeErr passed :=
  let '(s, items) := ListDatasets c r sb.1 in
  match items with
  | Err e => (s, sb.2, Err e)
  | Ok items => let '(s, b, p) := reconcile_items c r fleet floor items (s, sb.2) (mkPassed 0 []) in (s, b, Ok p)
  end.

(** [planCapacity]: what is wanted of the datasets, put to the agents. *)
Definition planCapacity {J} `{Journal J} (p : proposer) (c : Client) (r : Resource) (floor : Floor)
    (namespace service : string) (s : S) (w : fleet J) : S * fleet J * result KubeErr tallies :=
  let '(s, items) := ListDatasets c r s in
  match items with
  | Err e => (s, w, Err e)
  | Ok items =>
      let want := wanted floor items in
      match want with
      | [] => (s, w, Ok (mkTallies 0 0 []))
      | _ =>
          let '(s, agents) := Agents c namespace service s in
          let '(w, n) := propose p want agents w in (s, w, n)
      end
  end.
End reconciling.

Inductive FlagErr : Type := ErrNoStore | ErrInterval (d : duration).
Definition checkFlags (endpoint bucket : string) (interval : duration) : option FlagErr :=
  if (endpoint =? "")%string || (bucket =? "")%string then Some ErrNoStore
  else if interval <=? 0 then Some (ErrInterval interval) else None.

(** [readToken]: [content] is what reading the file gives. *)
Inductive TokenErr : Type := ErrReading | ErrEmptyToken.
Definition readToken (path : string) (content : option string) : result TokenErr string :=
  if (path =? "")%string then Ok ""%string
  else match content with
       | None => Err ErrReading
       | Some body => let token := TrimSpace body in if (token =? "")%string then Err ErrEmptyToken else Ok token
       end.
