(* ===== verification/ControllerTheorems.v ===== *)
(** * ControllerTheorems: what a pass of the controller does to a fleet *)

From S2P Require Import Prelude GoStrings GoPath Float64 Pool Lease LeaseProofs Journal LeaseTheorems Backend.
From S2P Require Import Intent Kube Controller GoTime.
From S2P Require Agent AgentTheorems LeaseApi Residency.

Local Open Scope Z_scope.

(** ** Planning *)

Section planning.
Context {J : Type} `{Journal J}.
Variable base : Z.
Implicit Types w : fleet J.
Implicit Types a : Agent.Agent J.

Definition leases_at a : gmap string Lease := leases (Agent.manager a).
Definition borrowed_at a : Z := Borrowed (acct (Agent.manager a)).

(** A lease the plan asks for: its tenant's, elastic, a day long, and no more than
    the tenant's datasets come to. *)
Definition planned (want : list demand) (id : string) (l : Lease) : Prop :=
  exists d, d ∈ want /\ id = leaseID (DTenant d) /\ ID l = id /\ Tenant l = DTenant d /\ Class l = Elastic /\ Term l = 24 * Hour /\
    0 < Size l <= DBytes d.

Definition lent_for (want : list demand) a a' : Prop :=
  leases_at a ⊆ leases_at a' /\
  forall id l, leases_at a' !! id = Some l -> leases_at a !! id = Some l \/ planned want id l.

Lemma lent_for_refl want a a' : leases_at a' = leases_at a -> lent_for want a a'.
Proof. intros E. split; rewrite E; auto. Qed.
Lemma lent_for_trans want a b c : lent_for want a b -> lent_for want b c -> lent_for want a c.
Proof.
  intros [S1 N1] [S2 N2]. split; [by etrans|]. intros id l E. destruct (N2 _ _ E) as [E2|]; [|by right]. by apply N1.
Qed.
Lemma lent_for_weaken d want a b : lent_for want a b -> lent_for (d :: want) a b.
Proof.
  intros [S N]. split; [done|]. intros id l E. destruct (N _ _ E) as [?|(x & I & ?)]; [by left|right].
  exists x. split; [by right|done].
Qed.

(** How many answers the network is yet to lose: a request heard, and its answer not. *)
Definition is_lost (f : LeaseApi.fate) : bool := match f with LeaseApi.AnswerLost => true | _ => false end.
Definition lost w : Z := zlen (List.filter (fun f => is_lost f.1) (fates w)).
Lemma lost_nonneg w : 0 <= lost w.
Proof. apply zlen_nonneg. Qed.
Lemma lost_next w m : lost w = (if is_lost (next_fate w).1 then 1 else 0) + lost (mkFleetOf m (tail (fates w))).
Proof.
  unfold lost, next_fate. simpl. destruct (fates w) as [|[f t] l]; simpl; [done|].
  destruct (is_lost f); [by rewrite zlen_cons|done].
Qed.

(** Names the control plane's JSON carries as they are. *)
Definition clean_demand (d : demand) : Prop :=
  json_string (DTenant d) = DTenant d /\ json_string (leaseID (DTenant d)) = leaseID (DTenant d) /\ is_int64 (DBytes d).

Lemma json_proposal tenant size : json_string tenant = tenant -> json_string (leaseID tenant) = leaseID tenant ->
  LeaseApi.json_Proposal (proposal tenant size) = proposal tenant size.
Proof. intros T I. unfold LeaseApi.json_Proposal, proposal. simpl. rewrite T, I. done. Qed.

Lemma proposal_lease tenant size : 0 < size -> LeaseApi.Proposal_Lease (proposal tenant size) =
  Ok {| ID := leaseID tenant; Tenant := tenant; Class := Elastic; Size := size; Term := 24 * Hour; GrantedAt := LeaseApi.zero_time |}.
Proof.
  intros P. assert (duration_of "24h" = Some (24 * Hour)) as E by (vm_compute; reflexivity).
  unfold LeaseApi.Proposal_Lease, proposal.
  cbn [LeaseApi.PClass LeaseApi.PTerm LeaseApi.PBytes LeaseApi.PID LeaseApi.PTenant]. rewrite E. simpl.
  by rewrite (proj2 (Z.leb_gt _ _)).
Qed.

(** What one proposal does to the agent it is put to: nothing; a grant that is heard;
    or one that is not. *)
Lemma ask_lease_spec p address tenant size w token a : at_address w !! address = Some (token, a) ->
  inv base (Agent.manager a) -> 0 < size -> is_int64 size ->
  json_string tenant = tenant -> json_string (leaseID tenant) = leaseID tenant ->
  let '(w', d) := ask_lease p address (proposal tenant size) w in
  lost w' <= lost w /\
  exists a', at_address w' = <[address := (token, a')]> (at_address w) /\ inv base (Agent.manager a') /\
  (leases_at a' = leases_at a /\ borrowed_at a' = borrowed_at a /\ (LeaseApi.Granted d && negb (LeaseApi.Already d)) = false \/
   (LeaseApi.Granted d && negb (LeaseApi.Already d) = true \/
    LeaseApi.Granted d && negb (LeaseApi.Already d) = false /\ lost w = 1 + lost w') /\
   borrowed_at a' = borrowed_at a + size /\
   leases_at a !! leaseID tenant = None /\ exists now, leases_at a' = <[leaseID tenant :=
     {| ID := leaseID tenant; Tenant := tenant; Class := Elastic; Size := size; Term := 24 * Hour; GrantedAt := now |}]> (leases_at a)).
Proof.
  intros Ea I Pz Iz Jt Ji. unfold ask_lease. pose proof (lost_next w) as Ln. destruct (next_fate w) as [f now].
  simpl in *. rewrite Ea.
  pose proof (LeaseApi.Propose_once base token (ptoken p) f now (proposal tenant size) a I Iz) as O. cbv zeta in O.
  destruct (LeaseApi.Propose _ _ _ _ _ a) as [a' d]. destruct O as [I' O].
  split; [rewrite (Ln (<[address:=(token, a')]> (at_address w))); destruct (is_lost f); lia|]. exists a'. split; [done|]. split; [done|].
  rewrite json_proposal in O by done. destruct O as [([El Eb] & Fr & _)|([N (l & t & L & El & Eb)] & Dd)]; [left; auto|right].
  rewrite proposal_lease in L by done. injection L as <-.
  split; [|split_and!; [exact Eb|exact N|by exists t]].
  destruct Dd as [->|[-> ->]]; [by left|right]. split; [done|]. apply Ln.
Qed.

(** At most a share is lent besides what is lent without its being heard, each time
    no more than the share. *)
Lemma propose_to_spec p address want : forall budget w n token a, at_address w !! address = Some (token, a) ->
  inv base (Agent.manager a) -> is_int64 budget -> Forall clean_demand want ->
  let '(w', n') := propose_to p address want budget w n in
  lost w' <= lost w /\ exists a', at_address w' = <[address := (token, a')]> (at_address w) /\ inv base (Agent.manager a') /\
    lent_for want a a' /\
    borrowed_at a <= borrowed_at a' <= borrowed_at a + (1 + (lost w - lost w')) * Z.max 0 budget /\
    granted n <= granted n'.
Proof.
  induction want as [|d want IH]; intros budget w n token a Ea I Ib C; cbn [propose_to].
  { split; [lia|]. exists a. rewrite insert_id by done. split_and!; [done..|by apply lent_for_refl|lia|lia|lia]. }
  apply Forall_cons in C as [(Jt & Ji & Id) C]. set (size := if budget <? DBytes d then budget else DBytes d).
  destruct (Z.leb_spec size 0).
  { specialize (IH budget w n token a Ea I Ib C). destruct (propose_to _ _ _ _ _ _) as [w' n'].
    destruct IH as (Lo & a' & E & I' & L & B & G). split; [done|]. exists a'. split_and!; try done; try lia. by apply lent_for_weaken. }
  assert (is_int64 size /\ size <= budget /\ size <= DBytes d) as (Iz & Lb & Ld).
  { unfold size. destruct (Z.ltb_spec budget (DBytes d)); split_and!; auto; lia. }
  clearbody size. pose proof (ask_lease_spec p address (DTenant d) size w token a Ea I ltac:(lia) Iz Jt Ji) as A.
  destruct (ask_lease p address _ w) as [w1 dec]. destruct A as (Lo1 & a1 & E1 & I1 & Q).
  assert (at_address w1 !! address = Some (token, a1)) as Ea1 by (rewrite E1; apply lookup_insert_eq).
  (* The rest of the list, with the budget that is left. *)
  assert (forall left_ m, is_int64 left_ -> 0 <= left_ <= budget -> granted n <= granted m ->
    lent_for (d :: want) a a1 -> borrowed_at a <= borrowed_at a1 ->
    borrowed_at a1 + left_ <= borrowed_at a + (1 + (lost w - lost w1)) * budget ->
    let '(w', n') := propose_to p address want left_ w1 m in
    lost w' <= lost w /\ exists a', at_address w' = <[address := (token, a')]> (at_address w) /\ inv base (Agent.manager a') /\
    lent_for (d :: want) a a' /\
    borrowed_at a <= borrowed_at a' <= borrowed_at a + (1 + (lost w - lost w')) * Z.max 0 budget /\ granted n <= granted n') as Go.
  { intros left_ m Il Bl Gm L1 Ba Bs. specialize (IH left_ w1 m token a1 Ea1 I1 Il C).
    destruct (propose_to _ _ _ _ _ m) as [w' n']. destruct IH as (Lo' & a' & E & I' & L & B & G).
    split; [lia|]. exists a'. rewrite E, E1, insert_insert_eq. rewrite (Z.max_r 0 left_) in B by lia.
    rewrite (Z.max_r 0 budget) by lia. split; [done|]. split; [done|].
    split; [eapply lent_for_trans; [done|by apply lent_for_weaken]|]. split; [|lia].
    assert ((lost w1 - lost w') * left_ <= (lost w1 - lost w') * budget) by (apply Z.mul_le_mono_nonneg_l; lia). lia. }
  assert (0 <= (lost w - lost w1) * budget) by (apply Z.mul_nonneg_nonneg; lia).
  destruct Q as [(El & Eb & ->)|(Hd & Eb & N & now & El)].
  - assert (lent_for (d :: want) a a1) as L1 by by apply lent_for_refl.
    destruct (LeaseApi.Granted dec); apply Go; try done; simpl; lia.
  - assert (lent_for (d :: want) a a1) as L1.
    { split.
      + rewrite El. by apply insert_subseteq.
      + intros id l. rewrite El, lookup_insert_Some. intros [[<- <-]|[_ ?]]; [right|by left].
        exists d. simpl. split_and!; try done; try lia; by left. }
    destruct Hd as [->|[-> Hl]].
    + assert (is_int64 (budget -! size)) as Ib' by apply wrap64_range.
      assert (budget -! size = budget - size) as Sub by int64_lia. rewrite Sub in *.
      apply Go; try done; simpl; lia.
    + assert (lost w - lost w1 = 1) as E2 by lia. rewrite E2 in *. destruct (LeaseApi.Granted dec); apply Go; try done; simpl; lia.
Qed.
End planning.

Section passes.
Context {J : Type} `{Journal J}.
Implicit Types w : fleet J.
Implicit Types a : Agent.Agent J.

Definition sound w : Prop := forall x token a, at_address w !! x = Some (token, a) -> exists b, inv b (Agent.manager a).

(** The most of a node's free space a plan asks for. *)
Definition share_of (p : proposer) a : Z :=
  Z.max 0 (int64_of_f64 (f64_mul (f64_of_Z (Free (acct (Agent.manager a)))) (share p))).

Definition lent_within (p : proposer) (want : list demand) (xs : list string) w w' : Prop :=
  forall x token a, at_address w !! x = Some (token, a) -> exists a', at_address w' !! x = Some (token, a') /\
    lent_for want a a' /\ borrowed_at a <= borrowed_at a' <= borrowed_at a + (1 + (lost w - lost w')) * share_of p a /\
    (x ∉ xs -> a' = a).

Lemma share_nonneg p a : 0 <= share_of p a.
Proof. unfold share_of. lia. Qed.

Lemma share_room p a w w' : lost w' <= lost w -> 0 <= (1 + (lost w - lost w')) * share_of p a.
Proof. intros Lo. apply Z.mul_nonneg_nonneg; [lia|apply share_nonneg]. Qed.

Lemma lent_within_same p want xs w w' : at_address w' = at_address w -> lost w' <= lost w -> lent_within p want xs w w'.
Proof.
  intros E Lo x token a Ea. exists a. rewrite E. pose proof (share_room p a w w' Lo).
  split_and!; try done; try lia. by apply lent_for_refl.
Qed.

Lemma propose_agent_spec p want ag w n : sound w -> Forall clean_demand want ->
  let '(w', n') := propose_agent p want ag (w, n) in
  lost w' <= lost w /\ sound w' /\ lent_within p want [AAddress ag] w w' /\ granted n <= granted n'.
Proof.
  intros So C. unfold propose_agent, ask_capacity. pose proof (lost_next w (at_address w)) as Lo. destruct (next_fate w) as [f now].
  set (w1 := mkFleetOf (at_address w) (tail (fates w))) in *. change (at_address w1) with (at_address w).
  assert (sound w1) as So1 by exact So. assert (lost w1 <= lost w) as L1 by (destruct (is_lost _); lia).
  assert (lent_within p want [AAddress ag] w w1) as Same by (by apply lent_within_same).
  destruct (at_address w !! AAddress ag) as [[token a]|] eqn:Ea; [|simpl; split_and!; [done..|lia]].
  destruct (LeaseApi.ReadCapacity token (ptoken p) f now a) as [c|] eqn:Rc; [|simpl; split_and!; [done..|lia]].
  assert (LeaseApi.CFree c = Free (acct (Agent.manager a))) as Ef.
  { unfold LeaseApi.ReadCapacity, LeaseApi.send, LeaseApi.Handler in Rc.
    rewrite LeaseApi.trim_bearer_own in Rc. destruct f; [|done|by destruct (negb _)].
    destruct (negb (ptoken p =? token)%string); [done|]. by injection Rc as <-. }
  destruct (So _ _ _ Ea) as [b I]. assert (is_int64 (budget_of p c)) as Ib by apply int64_of_f64_range.
  pose proof (propose_to_spec b p (AAddress ag) want (budget_of p c) w1 n token a Ea I Ib C) as S.
  destruct (propose_to _ _ _ _ w1 n) as [w' n']. destruct S as (Lo2 & a' & E & I' & L & B & G). split_and!; [lia| | |done].
  - intros x tk y. rewrite E, lookup_insert_Some. intros [[<- [= <- <-]]|[_ Ey]]; eauto.
  - assert (lost w' <= lost w) as Lw by lia.
    intros x tk y Ey. destruct (decide (x = AAddress ag)) as [->|Nx].
    + rewrite Ea in Ey. injection Ey as <- <-. exists a'. rewrite E, lookup_insert_eq.
      assert (Z.max 0 (budget_of p c) = share_of p a) as Sh by (unfold share_of, budget_of; by rewrite Ef). rewrite Sh in B.
      assert ((lost w1 - lost w') * share_of p a <= (lost w - lost w') * share_of p a)
        by (apply Z.mul_le_mono_nonneg_r; [apply share_nonneg|lia]).
      split_and!; try done; try lia. intros X. destruct X. by left.
    + exists y. rewrite E, lookup_insert_ne by done. pose proof (share_room p y w w' Lw).
      split_and!; try done; try lia. by apply lent_for_refl.
Qed.

Lemma propose_all p want agents : forall w n, sound w -> Forall clean_demand want ->
  NoDup (AAddress <$> agents) ->
  let '(w', n') := fold_left (fun wn ag => propose_agent p want ag wn) agents (w, n) in
  lost w' <= lost w /\ sound w' /\ lent_within p want (AAddress <$> agents) w w' /\ granted n <= granted n'.
Proof.
  induction agents as [|ag agents IH]; intros w n So C ND; cbn [fold_left].
  { split_and!; [lia|done|by apply lent_within_same|lia]. }
  apply NoDup_cons in ND as [Na ND]. pose proof (propose_agent_spec p want ag w n So C) as S.
  destruct (propose_agent p want ag (w, n)) as [w1 n1]. destruct S as (Lo1 & So1 & L1 & G1).
  specialize (IH w1 n1 So1 C ND). destruct (fold_left _ agents (w1, n1)) as [w2 n2].
  destruct IH as (Lo2 & So2 & L2 & G2). split_and!; [lia|done| |lia].
  intros x token a Ea. destruct (L1 x token a Ea) as (a1 & Ea1 & F1 & B1 & K1).
  destruct (L2 x token a1 Ea1) as (a2 & Ea2 & F2 & B2 & K2). exists a2. split; [done|].
  split; [by eapply lent_for_trans|]. pose proof (share_nonneg p a).
  assert (0 <= (lost w - lost w1) * share_of p a) by (apply Z.mul_nonneg_nonneg; lia).
  assert (0 <= (lost w1 - lost w2) * share_of p a) by (apply Z.mul_nonneg_nonneg; lia).
  destruct (decide (x = AAddress ag)) as [->|Nx].
  - assert (a2 = a1) as -> by by apply K2. split; [lia|]. intros X. destruct X. left.
  - assert (a1 = a) as -> by (apply K1; rewrite list_elem_of_singleton; congruence). split; [lia|].
    intros X. apply K2. intros Y. apply X. by right.
Qed.
End passes.

(** C15: a plan keeps to its share of every node. Where the tenants' names are ones
    the control plane's JSON carries as they are and each agent is listed once, a pass
    leaves every agent it does not reach as it was; on the others every lease that
    was there stays, every new one is elastic, a day long, in the name of a tenant
    whose datasets asked for the cache and no larger than they are, and all that is
    newly lent is within the share of what the node said was free, and one more
    share for each answer the network loses: a grant that is not heard is not
    counted against the share. *)
Theorem plan_keeps_to_share {J} `{Journal J} (p : proposer) want agents (w w' : fleet J) r :
  sound w -> Forall clean_demand want -> NoDup (AAddress <$> agents) ->
  propose p want (Ok agents) w = (w', r) -> is_ok r = true /\
  forall x token a, at_address w !! x = Some (token, a) -> exists a', at_address w' !! x = Some (token, a') /\
    (forall id l, leases_at a !! id = Some l -> leases_at a' !! id = Some l) /\
    (forall id l, leases_at a' !! id = Some l -> leases_at a !! id = Some l \/ planned want id l) /\
    borrowed_at a <= borrowed_at a' <= borrowed_at a + (1 + lost w) * share_of p a /\
    (x ∉ AAddress <$> agents -> a' = a).
Proof.
  intros So C ND E. pose proof (propose_all p want agents w (mkTallies 0 0 []) So C ND) as S.
  assert (lost w' <= lost w /\ lent_within p want (AAddress <$> agents) w w' /\ is_ok r = true) as (Lo & L & R).
  { unfold propose in E. destruct want as [|d want].
    - injection E as <- <-. split; [lia|]. split; [by apply lent_within_same|done].
    - destruct (fold_left _ agents _) as [w1 n]. injection E as <- <-. by destruct S as (? & _ & ? & _). }
  split; [done|]. intros x token a Ea. destruct (L x token a Ea) as (a' & ? & [Sub New] & ? & ?). exists a'.
  assert (0 <= lost w' * share_of p a) by (apply Z.mul_nonneg_nonneg; [apply lost_nonneg|apply share_nonneg]).
  split_and!; try done; try lia. intros id l El. by eapply lookup_weaken.
Qed.

Definition wproposer : proposer := mkProposer "secret" (f64_div (f64_of_Z 1) (f64_of_Z 2)).
Definition wfleet : fleet FileJournal :=
  mkFleetOf {[ "10.0.0.1:9090"%string := ("secret"%string, AgentTheorems.wagent) ]}
    [(LeaseApi.Delivered, 3); (LeaseApi.Delivered, 4); (LeaseApi.Delivered, 5)].
Definition wwant : list demand := [mkDemand "data" 30; mkDemand "team" 500].
Definition wplan : fleet FileJournal * result KubeErr tallies :=
  propose wproposer wwant (Ok [mkAgentAt "node-a" "10.0.0.1:9090"]) wfleet.

Lemma wfleet_sound : sound wfleet.
Proof. intros x t a. unfold wfleet. simpl. rewrite lookup_singleton_Some. intros [_ [= <- <-]]. exists 0. exact wit_inv. Qed.

(** The same with the answer to the first grant lost: the grant stands, and the
    budget it should have come out of is asked of again. *)
Definition wlossy : fleet FileJournal :=
  mkFleetOf (at_address wfleet) [(LeaseApi.Delivered, 3); (LeaseApi.AnswerLost, 4); (LeaseApi.Delivered, 5)].
Definition wlossy_plan : fleet FileJournal * result KubeErr tallies :=
  propose wproposer wwant (Ok [mkAgentAt "node-a" "10.0.0.1:9090"]) wlossy.
Definition newly_lent (w : fleet FileJournal) : option Z :=
  match at_address w !! "10.0.0.1:9090"%string with
  | Some (_, a) => Some (borrowed_at a - borrowed_at AgentTheorems.wagent)
  | None => None
  end.

(** Of 400 free, half is given out: what the one tenant asked, and what that leaves
    of what the other did. With an answer lost, more than half is. *)
Lemma plan_keeps_to_share_witness :
  (forall x token a, at_address wfleet !! x = Some (token, a) -> exists a', at_address wplan.1 !! x = Some (token, a') /\
    borrowed_at a' <= borrowed_at a + share_of wproposer a) /\
  newly_lent wplan.1 = Some 200 /\ lost wlossy = 1 /\ newly_lent wlossy_plan.1 = Some 230.
Proof.
  pose proof (plan_keeps_to_share wproposer wwant [mkAgentAt "node-a" "10.0.0.1:9090"] wfleet wplan.1 wplan.2
    wfleet_sound) as W.
  destruct W as [_ W].
  - repeat constructor; vm_compute; congruence.
  - simpl. apply NoDup_singleton.
  - unfold wplan. by destruct (propose _ _ _ _).
  - split; [|vm_compute; split_and!; reflexivity].
    intros x token a E. destruct (W x token a E) as (a' & E' & _ & _ & B & _). exists a'. split; [done|].
    change (lost wfleet) with 0 in B. lia.
Defined.
