(* ===== verification/ReconcileTheorems.v ===== *)
(** * ReconcileTheorems: what a node and a dataset are left saying *)

From S2P Require Import Prelude GoStrings GoPath Pool Lease Backend Intent Journal Kube Controller.
From S2P Require Residency FileDriver.

Local Open Scope Z_scope.

(** ** Labels *)

(** Every label the reports name, at its level; none of ours besides; and whatever
    else the node carried. *)
Definition relabelled (report : list held) (old : gmap string string) : gmap string string :=
  labels_wanted report ∪ filter (fun kv : string * string => HasPrefix Residency.prefix kv.1 = false) old.

Lemma lookup_relabelled report old k : relabelled report old !! k =
  match labels_wanted report !! k with
  | Some v => Some v
  | None => if HasPrefix Residency.prefix k then None else old !! k
  end.
Proof.
  unfold relabelled. rewrite lookup_union, map_lookup_filter. destruct (labels_wanted report !! k); simpl.
  - by destruct (old !! k ≫= _).
  - destruct (old !! k); simpl; [|by destruct (HasPrefix _ _)].
    by destruct (HasPrefix Residency.prefix k).
Qed.

Lemma labels_wanted_level report k v : labels_wanted report !! k = Some v -> v <> ""%string.
Proof.
  unfold labels_wanted. assert (forall want : gmap string string, (forall k v, want !! k = Some v -> v <> ""%string) ->
    fold_left want_one report want !! k = Some v -> v <> ""%string) as G.
  2: { apply G. intros k' v'. by rewrite lookup_empty. }
  induction report as [|h report IH]; intros want W; [apply W|]. apply IH. clear IH. intros k' v'. unfold want_one.
  destruct (String.eqb_spec (HLevel h) ""); [apply W|]. destruct (HLabel h =? "")%string; [apply W|]. simpl.
  assert (forall x, <[HLabel h := HLevel h]> want !! x = Some v' -> v' <> ""%string) as W1.
  { intros x. rewrite lookup_insert_Some. intros [[_ <-]|[_ E]]; [done|by eapply W]. }
  destruct (HRack h =? "")%string; [apply W1|]. rewrite lookup_insert_Some. intros [[_ <-]|[_ E]]; [done|by eapply W1].
Qed.

Lemma lookup_diff have want k : (forall k v, want !! k = Some v -> v <> ""%string) ->
  diff have want !! k = match want !! k with
    | Some v => if bool_decide (have !! k = Some v) then None else Some (Some v)
    | None => if HasPrefix Residency.prefix k then (fun _ => None) <$> have !! k else None
    end.
Proof.
  intros W. unfold diff. rewrite lookup_union, lookup_merge, lookup_fmap, map_lookup_filter. unfold diag_None.
  destruct (want !! k) as [v|] eqn:Ew.
  - pose proof (W k v Ew) as Nv. destruct (have !! k) as [h|] eqn:Eh; simpl.
    + rewrite option_guard_False by (intros [_ X]; congruence). simpl.
      destruct (String.eqb_spec h v) as [->|N]; [by rewrite bool_decide_true|by rewrite bool_decide_false by congruence].
    + by destruct v.
  - destruct (have !! k) as [h|] eqn:Eh; simpl; [|by destruct (HasPrefix _ _)].
    destruct (HasPrefix Residency.prefix k) eqn:P.
    + by rewrite option_guard_True.
    + rewrite option_guard_False by (intros [X _]; congruence). done.
Qed.

Lemma patched_diff report old : patched (diff old (labels_wanted report)) old = relabelled report old.
Proof.
  apply map_eq. intros k. rewrite lookup_patched, lookup_diff, lookup_relabelled by apply labels_wanted_level.
  destruct (labels_wanted report !! k) as [v|]; [by case_bool_decide|].
  destruct (HasPrefix Residency.prefix k); [|done]. by destruct (old !! k).
Qed.

(** Labelled as it should be, a node is not written to again. *)
Lemma diff_settled report old : diff (relabelled report old) (labels_wanted report) = ∅.
Proof.
  apply map_eq. intros k. rewrite lookup_diff, lookup_relabelled, lookup_empty by apply labels_wanted_level.
  destruct (labels_wanted report !! k) as [v|]; [by rewrite bool_decide_true|].
  by destruct (HasPrefix Residency.prefix k).
Qed.

Lemma patched_empty old : patched ∅ old = old.
Proof. apply map_eq. intros k. by rewrite lookup_patched, lookup_empty. Qed.

Section labelling.
Context {S : Type} {c : Client} `{AS : ApiSpec S c} `{StatusTexts}.
Context {W : Type} `{Reports W}.
Context (ans : string -> option (list held)).
Hypothesis steady : forall x w, (ask_report x w).2 = ans x.

Definition node_url (a : Agent_) : string := path c NodeResource (ANode a).

Lemma do_ok m u b (s s' : S) a : do_ m u b s = (s', Ok a) ->
  exists code, api_do m u b s = (s', Some (code, a)) /\ ok_code code.
Proof.
  unfold do_. destruct (api_do m u b s) as [s1 [[code x]|]]; [|by intros [= _ ?]].
  destruct ((code <? 200) || (300 <=? code)) eqn:E; [by intros [= _ ?]|]. intros [= <- <-]. exists code.
  bool_to_prop. unfold ok_code. split; [done|lia].
Qed.

Lemma do_get_frame u b (s : S) : recorded (do_ GET u b s).1 = recorded s /\ labelled (do_ GET u b s).1 = labelled s.
Proof. unfold do_. pose proof (api_get u b s) as [R L]. by destruct (api_do GET u b s). Qed.

Lemma GetNode_spec name (s s' : S) r : GetNode c name s = (s', r) ->
  recorded s' = recorded s /\ labelled s' = labelled s /\
  match r with Ok n => labelled s !! path c NodeResource name = Some (NLabels n) | Err _ => True end.
Proof.
  unfold GetNode. pose proof (do_get_frame (path c NodeResource name) NoBody s) as [R L].
  destruct (do_ GET _ NoBody s) as [s1 a] eqn:E. simpl in *. intros [= <- <-]. split_and!; [done..|].
  destruct a as [[]|]; try done. apply do_ok in E as (code & E & O).
  eapply (api_node _ _ code). { by rewrite E. } done.
Qed.

Lemma PatchLabels_spec name p (s s' : S) e : PatchLabels c NodeResource name p s = (s', e) ->
  let u := path c NodeResource name in
  recorded s' = recorded s /\ (forall v, v <> u -> labelled s' !! v = labelled s !! v) /\
  match e with None => exists old, labelled s !! u = Some old /\ labelled s' = <[u := patched p old]> (labelled s) | Some _ => True end.
Proof.
  unfold PatchLabels. cbv zeta. set (u := path c NodeResource name). unfold do_.
  pose proof (api_patch_labels_other u p s) as F. pose proof (api_patch_labels u p s) as P.
  destruct (api_do PATCH u (LabelsPatch p) s) as [s1 a]. simpl in F. intros E.
  assert (s' = s1) as -> by (by destruct a as [[code x]|]; [destruct (_ || _)|]; injection E).
  split_and!; [apply (F u)|apply F|]. destruct a as [[code x]|]; [|by injection E as <-].
  destruct ((code <? 200) || (300 <=? code)) eqn:C; [by injection E as <-|]. injection E as <-.
  apply (P s1 code x eq_refl). unfold ok_code. bool_to_prop. lia.
Qed.

Lemma one_spec a (s s' : S) (w w' : W) r : one c a (s, w) = (s', w', r) ->
  recorded s' = recorded s /\ (forall v, v <> node_url a -> labelled s' !! v = labelled s !! v) /\
  match r with
  | None => True
  | Some wrote => exists report old, ans (AAddress a) = Some report /\ labelled s !! node_url a = Some old /\
      labelled s' !! node_url a = Some (relabelled report old) /\ (wrote = true <-> relabelled report old <> old)
  end.
Proof.
  unfold one. pose proof (steady (AAddress a) w) as St. destruct (ask_report (AAddress a) w) as [w1 rep]. simpl in St. subst rep.
  destruct (ans (AAddress a)) as [report|]; [|intros [= <- <- <-]; auto].
  destruct (GetNode c (ANode a) s) as [s1 n] eqn:G. apply GetNode_spec in G as (R1 & L1 & G).
  destruct n as [n|]; [|intros [= <- <- <-]; rewrite R1, L1; auto].
  pose proof (patched_diff report (NLabels n)) as Pd. case_bool_decide as D.
  - intros [= <- <- <-]. rewrite R1, L1. split_and!; [done..|]. exists report, (NLabels n). rewrite D, patched_empty in Pd.
    rewrite <- Pd. split_and!; [done..|]. by split.
  - destruct (PatchLabels c NodeResource (ANode a) _ s1) as [s2 e] eqn:P. apply PatchLabels_spec in P as (R2 & F2 & P).
    intros [= <- <- <-]. rewrite R2, R1. split_and!; [done|by intros v N; rewrite F2, L1|]. destruct e; [done|].
    destruct P as (old & Eo & El). rewrite L1, G in Eo. injection Eo as <-. exists report, (NLabels n).
    rewrite El, lookup_insert_eq, Pd. split_and!; [done..|]. split; [|done]. intros _ X. apply D.
    rewrite <- X. apply diff_settled.
Qed.

Lemma label_all_spec agents : forall (s s' : S) (w w' : W) p p', label_all c agents (s, w) p = (s', w', p') ->
  NoDup (node_url <$> agents) ->
  recorded s' = recorded s /\ (forall v, v ∉ node_url <$> agents -> labelled s' !! v = labelled s !! v) /\
  (forall n, n ∈ pfailed p -> n ∈ pfailed p') /\
  forall a, a ∈ agents -> ANode a ∈ pfailed p' \/
    exists report old, ans (AAddress a) = Some report /\ labelled s !! node_url a = Some old /\
      labelled s' !! node_url a = Some (relabelled report old).
Proof.
  induction agents as [|a agents IH]; intros s s' w w' p p'; cbn [label_all].
  { intros [= <- <- <-] _. split_and!; auto. intros a I. by inversion I. }
  destruct (one c a (s, w)) as [[s1 w1] r] eqn:O. apply one_spec in O as (R1 & F1 & O). intros E [Na ND]%NoDup_cons.
  set (p1 := match r with None => _ | Some _ => _ end) in E.
  destruct (IH s1 s' w1 w' p1 p' E ND) as (R & F & Mono & All). rewrite R, R1. split_and!; [done| | |].
  - intros v N. rewrite F, F1; [done|..]; intros X; apply N; [rewrite X; by left|by right].
  - intros n I. apply Mono. subst p1. destruct r; simpl; [done|]. apply elem_of_app. by left.
  - intros a' [-> | I]%elem_of_cons.
    + destruct r as [wrote|].
      * right. destruct O as (report & old & A & L & L' & _). exists report, old. split_and!; [done..|]. by rewrite F.
      * left. apply Mono. subst p1. apply elem_of_app. right. by left.
    + destruct (All a' I) as [?|(report & old & A & L & L')]; [by left|right]. exists report, old. split_and!; [done| |done].
      rewrite <- L. symmetry. apply F1. intros X. apply Na. rewrite <- X. by apply list_elem_of_fmap_2.
Qed.
End labelling.

(** ** Statuses *)

Section reconciling.
Context {S : Type} {c : Client} `{AS : ApiSpec S c} `{StatusTexts}.
Context {D : Type} `{Driver D} `{Quoting} `{StoreTexts}.
Context (fleet : Fleet) (floor : Floor) (ns : string).

Definition dataset_url (d : Dataset) : string := path c (with_namespace (DNamespace d) DatasetResource) (DName d).
Definition resource : Resource := with_namespace ns DatasetResource.

(** A dataset as the API server holds it. *)
Definition listed_in (s : S) (d : Dataset) : Prop := (ns = "" \/ DNamespace d = ns)%string /\
  exists fs, recorded s !! dataset_url d = Some fs /\
    match DStatus d with None => fs = None | Some st => exists f, fs = Some f /\ status_of f = Some st end.

(** A dataset's object is asked about, and the backend may learn from it. *)
Definition asked (d : Dataset) (b : Backend D) : Backend D := if bool_decide (DObject d = ""%string) then b else (SizeOf (DObject d) b).1.

(** What is declared, and the floor above it, can be had here: the words are ones
    that are published and agree, the store keeps as many copies as the stronger of
    the two asks for, and the fleet knows its racks when they must tolerate one. *)
Definition met_here (d : Dataset) (b : Backend D) : Prop :=
  let need := Z.max (rank (IDurability (WithDefaults (DIntent d)))) (rank (FDurability floor)) in
  well_formed (DIntent d) /\ (2 <= need -> Supports Replicate b = true) /\ (3 <= need -> KnowsRacks fleet = true).

(** What there is to say of a dataset: what the store answered of its object, with
    the store's own words for a refusal; whether what it declares can be had, and
    some words when not; the floor, where it asks for more than was declared; and
    the generation looked at. *)
Definition observed (d : Dataset) (b : Backend D) (st : DatasetStatus) : Prop :=
  match (SizeOf (DObject d) b).2 with
  | Ok n => Present st = true /\ Bytes st = n /\ Reason st = ""%string
  | Err e => Present st = false /\ Bytes st = 0 /\ Reason st = store_text (DObject d) e
  end /\
  (Satisfiable st = true <-> met_here d (asked d b)) /\ (Unsatisfiable_ st = ""%string <-> Satisfiable st = true) /\
  RaisedTo st = (if decide (IDurability (WithDefaults (DIntent d)) ∈ durabilities /\
                            rank (IDurability (WithDefaults (DIntent d))) < rank (FDurability floor))
                 then FDurability floor else ""%string) /\
  ObservedGeneration st = Generation d.

(** What becomes of a dataset in a pass. *)
Inductive outcome : Type := NoObject | Same | Wrote | Vanished | Unwritten.
#[global] Instance outcome_eq_dec : EqDecision outcome.
Proof. solve_decision. Defined.

(** What the API server answered when it was asked to record a status where it had
    recorded one. *)
Definition put_to (s : S) (d : Dataset) (r : option (Z * answer)) : Prop :=
  exists fs s0, recorded s0 !! dataset_url d = recorded s !! dataset_url d /\
    (api_do PATCH (dataset_url d +:+ "/status") (StatusPatch fs) s0).2 = r.

Definition left_as (s s' : S) (b : Backend D) (d : Dataset) (o : outcome) : Prop :=
  (o = NoObject <-> DObject d = ""%string) /\
  (o = NoObject \/ o = Same -> recorded s' !! dataset_url d = recorded s !! dataset_url d) /\
  (o <> NoObject -> exists st, observed d b st /\ (o = Same <-> DStatus d = Some st) /\
    (o = Wrote -> clean_status st -> exists f, recorded s' !! dataset_url d = Some (Some f) /\
       status_of f = Some (overlay (DStatus d) st))) /\
  (o = Vanished -> exists a, put_to s d (Some (404, a))) /\
  (o = Unwritten -> put_to s d None \/ exists code a, ~ ok_code code /\ code <> 404 /\ put_to s d (Some (code, a))).

(** Each dataset of a pass, asked about after the ones before it. *)
Fixpoint settled (s s' : S) (b : Backend D) (items : list Dataset) (os : list outcome) : Prop :=
  match items, os with
  | [], [] => True
  | d :: items, o :: os => left_as s s' b d o /\ settled s s' (asked d b) items os
  | _, _ => False
  end.

Definition dataset_name (d : Dataset) : string := DNamespace d +:+ "/" +:+ DName d.
(** The datasets of which some outcome came, by name. *)
Definition names_of (x : outcome) (items : list Dataset) (os : list outcome) : list string :=
  (fun p : Dataset * outcome => dataset_name p.1) <$> List.filter (fun p => bool_decide (p.2 = x)) (zip items os).

Lemma names_of_cons x d items o os :
  names_of x (d :: items) (o :: os) = (if bool_decide (o = x) then [dataset_name d] else []) ++ names_of x items os.
Proof. unfold names_of. simpl. by case_bool_decide. Qed.

Lemma status_now_spec d b : let '(b1, r) := status_now fleet floor d b in b1 = asked d b /\
  match r with
  | Err _ => DObject d = ""%string
  | Ok st => DObject d <> ""%string /\ observed d b st
  end.
Proof.
  unfold status_now, observed, asked. destruct (String.eqb_spec (DObject d) "") as [E|N].
  { rewrite E, bool_decide_true by done. unfold Resolve. by rewrite E. }
  rewrite bool_decide_false by done. destruct (SizeOf (DObject d) b) as [b1 size]. split; [done|].
  set (size' := match size with Ok n => _ | Err e => _ end). unfold Resolve.
  rewrite (proj2 (String.eqb_neq _ _) N). split; [done|].
  assert (Intent.Resolve (Apply floor (DIntent d)) (Some b1) fleet = None <-> met_here d b1) as M
    by exact (proj1 (resolves_iff_met (DIntent d) b1 fleet floor)).
  unfold ResolveIntent. cbv zeta.
  pose proof (Apply_raises floor (DIntent d)) as Ra. set (raised := if (_ =? _)%string then _ else _) in *. clearbody raised.
  cbn [fst snd]. rewrite <- M. destruct (Intent.Resolve _ _ _) as [e|] eqn:Er; simpl.
  - pose proof (IntentErr_says e). destruct size as [n|x]; subst size'; simpl; split_and!; try done.
  - destruct size as [n|x]; subst size'; simpl; split_and!; try done.
Qed.

Lemma item_url d : (ns = "" \/ DNamespace d = ns)%string -> path c (item_resource resource d) (DName d) = dataset_url d.
Proof.
  intros N. unfold dataset_url, item_resource, resource. simpl. destruct (String.eqb_spec ns ""); [done|].
  destruct N as [ | -> ]; done.
Qed.

Lemma PatchStatus_spec d st (s s' : S) e : listed_in s d ->
  PatchStatus c (item_resource resource d) (DName d) st s = (s', e) ->
  labelled s' = labelled s /\ (forall v, v <> dataset_url d -> recorded s' !! v = recorded s !! v) /\
  match e with
  | None => clean_status st -> exists f, recorded s' !! dataset_url d = Some (Some f) /\ status_of f = Some (overlay (DStatus d) st)
  | Some e => if NotFound e then exists a, put_to s d (Some (404, a))
              else put_to s d None \/ exists code a, ~ ok_code code /\ code <> 404 /\ put_to s d (Some (code, a))
  end.
Proof.
  intros (Nn & fs & R & Ds). unfold PatchStatus. rewrite item_url by done. unfold do_.
  pose proof (api_patch_status_other (dataset_url d) (status_fields st) s) as F.
  destruct (api_do PATCH (dataset_url d +:+ "/status") (StatusPatch (status_fields st)) s) as [s1 x] eqn:E. simpl in F.
  intros X. assert (s' = s1) as -> by (by destruct x as [[code x]|]; [destruct (_ || _)|]; injection X).
  split_and!; [apply (F (dataset_url d))|apply F|]. destruct x as [[code x]|]; [|injection X as <-; simpl; left; exists (status_fields st), s; by rewrite E].
  assert (put_to s d (Some (code, x))) as Pt by (exists (status_fields st), s; by rewrite E).
  destruct ((code <? 200) || (300 <=? code)) eqn:C; injection X as <-.
  - unfold statusError. destruct (match x with Refused r m => _ | _ => _ end) as [r m]. simpl.
    destruct (Z.eqb_spec code 404) as [->|N4]; [by eexists|right]. exists code, x. unfold ok_code. bool_to_prop. split_and!; [lia|done..].
  - assert (ok_code code) as O by (unfold ok_code; bool_to_prop; lia). intros Cl.
    destruct (api_patch_status _ _ _ _ _ _ E O) as (_ & old & Eo & Er). rewrite R in Eo. injection Eo as <-.
    exists (status_fields st ∪ default ∅ fs). rewrite Er, lookup_insert_eq. split; [done|]. apply status_merged; [done|].
    destruct (DStatus d); [destruct Ds as (f & -> & Ef); exact Ef|by subst].
Qed.

(** Only the one place matters. *)
Lemma left_as_frame s s1 s2 s3 b d o : recorded s1 !! dataset_url d = recorded s !! dataset_url d ->
  recorded s3 !! dataset_url d = recorded s2 !! dataset_url d -> left_as s s2 b d o -> left_as s1 s3 b d o.
Proof. unfold left_as, put_to. by intros -> ->. Qed.

Lemma settled_frame s s1 s' items : forall b os, (forall d, d ∈ items -> recorded s1 !! dataset_url d = recorded s !! dataset_url d) ->
  settled s s' b items os -> settled s1 s' b items os.
Proof.
  induction items as [|d items IH]; intros b [|o os] F; simpl; try done. intros [L St]. split.
  - eapply left_as_frame; [|done..]. apply F. by left.
  - apply IH; [|done]. intros x I. apply F. by right.
Qed.

(** One dataset, and what the pass counts of it. *)
Lemma reconcile_item_spec items d s b p : listed_in s d -> exists s1 o,
  reconcile_items c resource fleet floor (d :: items) (s, b) p =
  reconcile_items c resource fleet floor items (s1, asked d b)
    (mkPassed (written p + if bool_decide (o = Wrote) then 1 else 0)
       (pfailed p ++ if bool_decide (o = Unwritten) then [dataset_name d] else [])) /\
  labelled s1 = labelled s /\ (forall v, v <> dataset_url d -> recorded s1 !! v = recorded s !! v) /\ left_as s s1 b d o.
Proof.
  intros Ls. cbn [reconcile_items]. simpl fst. simpl snd. pose proof (status_now_spec d b) as Sn.
  destruct (status_now fleet floor d b) as [b1 [st|e]]; destruct Sn as [-> Sn].
  2: { exists s, NoObject. rewrite app_nil_r, Z.add_0_r. split_and!; [by destruct p|done..|]. unfold left_as. by split_and!. }
  destruct Sn as [N O]. assert (forall x, Changed (DStatus d) x = false <-> DStatus d = Some x) as Ch.
  { intros x. unfold Changed. destruct (DStatus d) as [w|]; [|done]. rewrite negb_false_iff, bool_decide_eq_true. naive_solver. }
  destruct (Changed (DStatus d) st) eqn:C; simpl.
  - destruct (PatchStatus c (item_resource resource d) (DName d) st s) as [s1 e] eqn:P.
    assert (DStatus d <> Some st) as Nd by (rewrite <- Ch; congruence).
    apply (PatchStatus_spec d st s s1 e Ls) in P as (Lb & Fr & Rec). destruct e as [e|].
    + destruct (NotFound e).
      * exists s1, Vanished. rewrite app_nil_r, Z.add_0_r. split_and!; [by destruct p|done..|]. unfold left_as.
        split_and!; try done; [by intros [?|?]|]. intros _. by exists st.
      * exists s1, Unwritten. rewrite Z.add_0_r. split_and!; [done..|]. unfold left_as.
        split_and!; try done; [by intros [?|?]|]. intros _. by exists st.
    + exists s1, Wrote. rewrite app_nil_r. split_and!; [done..|]. unfold left_as.
      split_and!; try done; [by intros [?|?]|]. intros _. by exists st.
  - apply Ch in C. exists s, Same. rewrite app_nil_r, Z.add_0_r. split_and!; [by destruct p|done..|]. unfold left_as.
    split_and!; try done. intros _. by exists st.
Qed.

Lemma reconcile_items_spec items : forall (s s' : S) b b' p p', NoDup (dataset_url <$> items) ->
  Forall (listed_in s) items -> reconcile_items c resource fleet floor items (s, b) p = (s', b', p') ->
  labelled s' = labelled s /\ (forall v, v ∉ dataset_url <$> items -> recorded s' !! v = recorded s !! v) /\
  exists os, settled s s' b items os /\ written p' = written p + zlen (names_of Wrote items os) /\
    pfailed p' = pfailed p ++ names_of Unwritten items os.
Proof.
  induction items as [|d items IH]; intros s s' b b' p p' ND F.
  { intros [= <- <- <-]. split_and!; [done..|]. exists []. by rewrite app_nil_r, Z.add_0_r. }
  apply NoDup_cons in ND as [Nd ND]. apply Forall_cons in F as [Fd F].
  destruct (reconcile_item_spec items d s b p Fd) as (s1 & o & -> & Lb & Fr & L). intros E.
  assert (forall x, x ∈ items -> recorded s1 !! dataset_url x = recorded s !! dataset_url x) as Fi.
  { intros x I. apply Fr. intros X. apply Nd. rewrite <- X. by apply list_elem_of_fmap_2. }
  apply IH in E as (Lb' & Fr' & os & St & W & Pf); [|done|].
  2: { apply Forall_forall. intros x I. pose proof (proj1 (Forall_forall _ _) F x I) as (Nn & fs & R & Ds).
    split; [done|]. exists fs. by rewrite Fi. }
  split_and!; [congruence| |].
  - intros v N. rewrite Fr', Fr; [done|..]; intros X; apply N; [rewrite X; by left|by right].
  - exists (o :: os). split_and!.
    + split; [eapply left_as_frame; [done| |done]; by apply Fr'|]. eapply settled_frame; [|done]. intros x I. by rewrite Fi.
    + rewrite W, names_of_cons, zlen_app. case_bool_decide; unfold zlen; simpl; lia.
    + rewrite Pf, names_of_cons. cbn [pfailed]. by rewrite app_assoc.
Qed.
End reconciling.

(** a node carries what its agent says it holds. After a labelling pass each
    node whose agent answered, and which the API server let it write, has exactly
    the labels of the report at their levels, no other label of the project's, and
    every other label it had; no other node and no status is touched. And of such a
    node there is nothing left to write. *)
Theorem labels_follow_reports {S} {c : Client} `{AS : ApiSpec S c} `{StatusTexts} {W} `{Reports W} ans
    namespace service agents (s s' : S) (w w' : W) p :
  (forall x w, (ask_report x w).2 = ans x) -> (Agents c namespace service s).2 = Ok agents ->
  NoDup (node_url (c := c) <$> agents) -> run c namespace service (s, w) = (s', w', Ok p) ->
  recorded s' = recorded s /\
  (forall u, u ∉ node_url (c := c) <$> agents -> labelled s' !! u = labelled s !! u) /\
  forall a, a ∈ agents -> ANode a ∈ pfailed p \/
    exists report old, ans (AAddress a) = Some report /\ labelled s !! node_url (c := c) a = Some old /\
      labelled s' !! node_url (c := c) a = Some (relabelled report old) /\
      diff (relabelled report old) (labels_wanted report) = ∅.
Proof.
  intros St Ag ND R. unfold run in R. simpl in R. unfold Agents, ListSlices in *.
  pose proof (do_get_frame (path c (with_namespace namespace SliceResource) "") NoBody s) as [Fr Fl].
  destruct (do_ GET _ NoBody s) as [s1 x]. simpl in *. rewrite Ag in R.
  destruct (label_all c agents (s1, w) (mkPassed 0 [])) as [[s2 w2] p2] eqn:L. injection R as <- <- <-.
  apply (label_all_spec ans St) in L as (Rec & Oth & _ & All); [|done]. split_and!; [by rewrite Rec| |].
  - intros u N. by rewrite Oth, Fl by done.
  - intros a I. destruct (All a I) as [?|(report & old & A & Lo & Ls)]; [by left|right]. exists report, old.
    rewrite Fl in Lo. split_and!; [done..|apply diff_settled].
Qed.

(** C16: what a pass observed of a dataset is what is recorded of it, but for what
    went empty. Of every listed dataset that names an object, in turn, the pass
    observes what the store says of the object and whether what is declared can be
    had under the floor; it writes that exactly when it is not what the dataset
    already said, never having been told anything included. What is written is
    recorded, each field as observed unless it is empty, when what was there before
    stays; a write the API server refuses is counted as a failure by name, unless
    the dataset is gone; and so the next pass that observes the same finds something
    to write exactly when a field went empty. *)
Theorem statuses_recorded {S} {c : Client} `{AS : ApiSpec S c} `{StatusTexts} {D} `{Driver D} `{Quoting} `{StoreTexts}
    fleet floor ns items (s s' : S) (b b' : Backend D) p :
  (ListDatasets c (resource ns) s).2 = Ok items -> NoDup (dataset_url (c := c) <$> items) ->
  Forall (fun d => ns = "" \/ DNamespace d = ns)%string items ->
  reconcile c (resource ns) fleet floor (s, b) = (s', b', Ok p) ->
  labelled s' = labelled s /\
  (forall u, u ∉ dataset_url (c := c) <$> items -> recorded s' !! u = recorded s !! u) /\
  (exists os, settled (c := c) fleet floor s s' b items os /\
    written p = zlen (names_of Wrote items os) /\ pfailed p = names_of Unwritten items os) /\
  forall was st, Changed (Some (overlay was st)) st = true <-> emptied was st.
Proof.
  intros Ls ND Nn R. unfold reconcile, ListDatasets in *. simpl in R.
  pose proof (do_get_frame (path c (resource ns) "") NoBody s) as [Fr Fl].
  destruct (do_ GET _ NoBody s) as [s1 x] eqn:E. simpl in *.
  destruct x as [[l| | | |]|e]; try done. injection Ls as ->.
  destruct (reconcile_items c (resource ns) fleet floor items (s1, b) (mkPassed 0 [])) as [[s2 b2] p2] eqn:L.
  injection R as <- <- <-. apply do_ok in E as (code & E & O).
  apply (reconcile_items_spec fleet floor ns) in L as (Lb & Oth & os & St & W & Pf); [|done|].
  - split_and!; [congruence| | |intros; apply Changed_overlay].
    + intros u N. by rewrite Oth, Fr by done.
    + exists os. split; [|done]. eapply settled_frame; [|done]. intros d _. by rewrite Fr.
  - pose proof (api_list (path c (resource ns) "") s code items) as Al. rewrite E in Al. specialize (Al eq_refl O).
    apply Forall_forall. intros d I. split; [by apply (proj1 (Forall_forall _ _) Nn)|].
    pose proof (proj1 (Forall_forall _ _) Al d I) as (fs & Rf & Ds). exists fs. by rewrite Fr.
Qed.

(** ** A small API server, for the witnesses *)

Record Kept : Type := mkKept {
  kstatuses : gmap string (option (gmap string field));
  klabels : gmap string (gmap string string);
  kdatasets : list Dataset;
  kslices : list EndpointSlice;
}.
Definition wclient : Client := mkClient "http://api" "tok" 0.

Definition with_status (s : Kept) (d : Dataset) : option Dataset :=
  let as_ st := Some (mkDataset (DName d) (DNamespace d) (Generation d) (DIntent d) (DObject d) st) in
  match kstatuses s !! dataset_url (c := wclient) d with
  | None => None
  | Some None => as_ None
  | Some (Some f) => match status_of f with Some st => as_ (Some st) | None => None end
  end.
Definition status_at (u : string) (s : Kept) : option (string * option (gmap string field)) :=
  snd <$> list_find (fun kv : string * option (gmap string field) => kv.1 +:+ "/status" = u) (map_to_list (kstatuses s)).

Definition kept_do (m : method) (u : string) (b : body) (s : Kept) : Kept * option (Z * answer) :=
  match m, b with
  | GET, _ =>
      (s, Some (match klabels s !! u with
                | Some l => (200, OneNode (mkNode "" l))
                | None => if (u =? path wclient DatasetResource "")%string then (200, Datasets (omap (with_status s) (kdatasets s)))
                          else if (u =? path wclient SliceResource "")%string then (200, Slices (kslices s))
                          else (404, Refused "NotFound" "")
                end))
  | PATCH, LabelsPatch p =>
      match klabels s !! u with
      | Some old => (mkKept (kstatuses s) (<[u := patched p old]> (klabels s)) (kdatasets s) (kslices s), Some (200, Anything))
      | None => (s, Some (404, Refused "NotFound" ""))
      end
  | PATCH, StatusPatch fs =>
      match status_at u s with
      | Some (k, old) => (mkKept (<[k := Some (fs ∪ default ∅ old)]> (kstatuses s)) (klabels s) (kdatasets s) (kslices s), Some (200, Anything))
      | None => (s, Some (404, Refused "NotFound" ""))
      end
  | PATCH, NoBody => (s, None)
  end.
#[local] Instance Kept_api : ApiServer Kept := kept_do.

Lemma status_at_Some u s k old : status_at (u +:+ "/status") s = Some (k, old) -> k = u /\ kstatuses s !! u = Some old.
Proof.
  unfold status_at. destruct (list_find _ _) as [[i kv]|] eqn:F; [|done]. intros [= ->].
  apply list_find_Some in F as (L & E & _). apply list_elem_of_lookup_2, elem_of_map_to_list in L. simpl in E.
  assert (k = u) as ->; [|done]. apply (f_equal bytes_of) in E. rewrite !bytes_of_app in E. apply app_inv_tail in E.
  apply (f_equal string_of) in E. by rewrite !string_of_list_ascii_of_string in E.
Qed.

Lemma status_at_None u s : status_at (u +:+ "/status") s = None -> kstatuses s !! u = None.
Proof.
  unfold status_at. destruct (list_find _ _) as [[i kv]|] eqn:F; [done|]. intros _. apply list_find_None in F.
  destruct (kstatuses s !! u) as [f|] eqn:E; [|done]. apply elem_of_map_to_list in E.
  by apply (proj1 (Forall_forall _ _) F) in E.
Qed.

Ltac unfold_api := unfold api_do, Kept_api, kept_do; cbn [fst snd].
#[local] Instance Kept_spec : ApiSpec Kept wclient.
Proof.
  refine {| recorded := kstatuses; labelled := klabels |}.
  - done.
  - intros u s code items. unfold_api. destruct (klabels s !! u); [done|].
    case_match; [|by case_match]. intros [= <- <-] _. apply Forall_forall. intros d (d0 & I & W)%list_elem_of_omap.
    unfold with_status in W. destruct (kstatuses s !! dataset_url (c := wclient) d0) as [[f|]|] eqn:E; [| |done].
    + destruct (status_of f) as [st|] eqn:St; [|done]. injection W as <-. exists (Some f). simpl. split; [exact E|]. by exists f.
    + injection W as <-. exists None. simpl. by split.
  - intros u s code n. unfold_api. destruct (klabels s !! u); [by intros [= <- <-]|]. case_match; [done|]. by case_match.
  - intros u p s s' code a. unfold_api. destruct (klabels s !! u) as [old|]; [|intros [= <- <- <-] O; unfold ok_code in O; lia].
    intros [= <- <- <-] _. split; [done|]. by exists old.
  - intros u p s v. unfold_api. destruct (klabels s !! u); [|done]. split; [done|]. intros N. simpl. by apply lookup_insert_ne.
  - intros u fs s s' code a. unfold_api. destruct (status_at _ s) as [[k old]|] eqn:E; [|intros [= <- <- <-] O; unfold ok_code in O; lia].
    apply status_at_Some in E as [-> E]. intros [= <- <- <-] _. split; [done|]. by exists old.
  - intros u fs s v. unfold_api. destruct (status_at _ s) as [[k old]|] eqn:E; [|done]. apply status_at_Some in E as [-> E].
    split; [done|]. intros N. simpl. by apply lookup_insert_ne.
Defined.

Definition wnode : string := "http://api/api/v1/nodes/node-a".
Definition wdataset : string := "http://api/apis/forebay.io/v1alpha1/namespaces/team/datasets/shards".
Definition wheld : list held := [mkHeldLabel "full" "forebay.io/dataset.x" "forebay.io/rack.x"].
Definition wnode_labels : gmap string string := {[ "zone" := "a"; "forebay.io/dataset.old" := "full" ]}%string.
Definition wkept : Kept :=
  {| kstatuses := {[ wdataset := Some {[ "present" := FBool false; "satisfiable" := FBool true;
                                         "reason" := FString "no such object"; "observedGeneration" := FInt 1 ]} ]}%string;
     klabels := {[ wnode := wnode_labels ]};
     kdatasets := [mkDataset "shards" "team" 2 (mkIntent "" "" "") "d/c" None];
     kslices := [mkSlice {[ service_label := "forebay-agent" ]} [mkEndpoint ["10.0.0.1"] (Some "node-a") None] [Some 9090]]%string |}.

#[local] Instance wtexts : StatusTexts := fun _ => ""%string.
#[local] Instance wreports : Reports () := fun x w => (w, if (x =? "10.0.0.1:9090")%string then Some wheld else None).
#[local] Instance wquoting : Quoting := fun s => s.
#[local] Instance wstoretexts : StoreTexts := fun o _ => o.

Definition wagents : list Agent_ := [mkAgentAt "node-a" "10.0.0.1:9090"].

(** What the agent holds is on the node, what it no longer does is not, and the
    zone is as it was. *)
Lemma labels_follow_reports_witness :
  let '(s', _, p) := run wclient "" "forebay-agent" (wkept, ()) in
  p = Ok (mkPassed 1 []) /\
  klabels s' !! wnode = Some {[ "zone" := "a"; "forebay.io/dataset.x" := "full"; "forebay.io/rack.x" := "full" ]}%string.
Proof.
  destruct (run wclient "" "forebay-agent" (wkept, ())) as [[s' w'] r] eqn:R.
  assert ((run wclient "" "forebay-agent" (wkept, ())).2 = Ok (mkPassed 1 [])) as P by (vm_compute; reflexivity).
  rewrite R in P. simpl in P. subst r. split; [done|].
  pose proof (labels_follow_reports (c := wclient) (fun x => if (x =? "10.0.0.1:9090")%string then Some wheld else None)
    "" "forebay-agent" wagents wkept s' () w' (mkPassed 1 [])) as W.
  destruct W as (_ & _ & W); [done|vm_compute; reflexivity|apply NoDup_singleton|exact R|].
  destruct (W (mkAgentAt "node-a" "10.0.0.1:9090")) as [X|(report & old & A & Lo & Ls & _)]; [by left|by inversion X|].
  assert (node_url (c := wclient) (mkAgentAt "node-a" "10.0.0.1:9090") = wnode) as Eu by (vm_compute; reflexivity).
  rewrite Eu in *. injection A as <-. unfold wkept in Lo. simpl in Lo. rewrite lookup_singleton_eq in Lo. injection Lo as <-.
  simpl in Ls. rewrite Ls. vm_compute. reflexivity.
Defined.

(** The object is there now, and the reason it once was not stays beside it. *)
Lemma statuses_recorded_witness :
  let b := Backend.mkBackend FileDriver.small_store true true FileDriver.declared None in
  let '(s', _, p) := reconcile wclient (resource "") (mkFleet true) (mkFloor "") (wkept, b) in
  p = Ok (mkPassed 1 []) /\
  exists f, kstatuses s' !! wdataset = Some (Some f) /\
    status_of f = Some (mkStatus true 3 "no such object" true "" "" 2).
Proof.
  cbv zeta. set (b := Backend.mkBackend _ _ _ _ _).
  destruct (reconcile wclient (resource "") (mkFleet true) (mkFloor "") (wkept, b)) as [[s' b'] r] eqn:R.
  assert ((reconcile wclient (resource "") (mkFleet true) (mkFloor "") (wkept, b)).2 = Ok (mkPassed 1 [])) as P
    by (vm_compute; reflexivity).
  rewrite R in P. simpl in P. subst r. split; [done|].
  set (d := mkDataset "shards" "team" 2 (mkIntent "" "" "") "d/c" (Some (mkStatus false 0 "no such object" true "" "" 1))).
  pose proof (statuses_recorded (c := wclient) (mkFleet true) (mkFloor "") "" [d] wkept s' b b' (mkPassed 1 [])) as W.
  destruct W as (_ & _ & (os & St & Wr & Pf) & _); [vm_compute; reflexivity|apply NoDup_singleton|by repeat constructor|exact R|].
  replace wdataset with (dataset_url (c := wclient) d) by (vm_compute; reflexivity).
  destruct os as [|o [|]]; [by destruct St| |by destruct St as [_ []]]. destruct St as [(_ & _ & O & _) _].
  assert (o = Wrote) as -> by by destruct o.
  destruct O as (st & (Sz & Sa & Un & Ra & Ge) & _ & L); [done|]. vm_compute in Sz. destruct Sz as (Pr & By & Re).
  assert (Satisfiable st = true) as Sat.
  { apply Sa. split_and!; [apply Intent_Validate_iff; reflexivity|vm_compute; congruence..]. }
  apply Un in Sat as Ue. vm_compute in Ra. destruct st as [pr by_ re sa un ra ge]. cbn in Pr, By, Re, Sat, Ue, Ra, Ge. subst.
  apply L; [done|]. vm_compute. repeat split; discriminate.
Defined.
