(* ===== verification/S3Driver.v ===== *)
(** * S3Driver: a driver over an object store (driver/s3driver)

    The store is behind a network: what it answers a request, what the clock says,
    and whether the caller gives up while a retry waits are the network's. A body
    is the bytes that arrive of it and whether reading it ends in an error; the two
    hashes and the decoding of XML are parameters. *)

From S2P Require Import Prelude GoStrings GoPath Backend.

Local Open Scope Z_scope.

(** ** Requests and answers *)

Record request : Type := mkRequest {
  rmethod : string;
  rhost : string;
  rpath : string;
  rquery : string;
  rheader : gmap string (list string);
  rbody : list byte;
}.
Definition set_header (k v : string) (q : request) : request :=
  mkRequest (rmethod q) (rhost q) (rpath q) (rquery q) (<[k := [v]]> (rheader q)) (rbody q).

(** [ContentLength] is -1 when the answer does not say. *)
Record response : Type := mkResponse {
  StatusCode : Z;
  ContentLength : Z;
  Body : list byte;
  cut : bool;
}.

Class Network (W : Type) : Type := {
  net_now : W -> W * time;
  net_do : request -> W -> W * option response;
  net_pause : duration -> W -> W * bool;
}.
Class Hashing : Type := {
  sha256 : list byte -> list byte;
  hmacSHA256 : list byte -> list byte -> list byte;
}.

(** What decoding a failure leaves in its code, and a listing in its two lists. *)
Class Xml : Type := {
  xml_code : list byte -> string;
  xml_listing : list byte -> option (list (string * Z) * list string);
}.

(** ** Signing (sigv4.go) *)

Definition emptyPayload : string := "e3b0c44298fc1c149afbf4c8996fb92427ae41e4649b934ca495991b7852b855".
Definition algorithm : string := "AWS4-HMAC-SHA256".
Definition terminator : string := "aws4_request".
Definition service : string := "s3".
Definition newline : string := String "010" EmptyString.

Record credentials : Type := mkCredentials {
  accessKey : string;
  secretKey : string;
  region : string;
}.

Definition escapePath (s : string) : string :=
  string_of (concat ((fun c => if unreserved c then [c] else percent c) <$> bytes_of s)).
Definition canonicalURI (path : string) : string :=
  if (path =? "")%string then "/" else Join "/" (escapePath <$> Split slash path).

(** The headers signed, by their lower-case names. *)
Definition signed_value (values : gmap string string) (h : string * list string) : gmap string string :=
  let lower := ToLower h.1 in
  if (lower =? "host")%string || (lower =? "authorization")%string then values
  else <[lower := TrimSpace (Join "," h.2)]> values.
Definition signed_values (q : request) : gmap string string :=
  fold_left signed_value (map_to_list (rheader q)) {["host"%string := rhost q]}.
Definition canonicalHeaders (q : request) : string * string :=
  let values := signed_values q in
  let names := sort_Strings (elements (dom values)) in
  (Join ";" names,
   fold_right (fun n block => n +:+ ":" +:+ default "" (values !! n) +:+ newline +:+ block) "" names).

Section signing.
Context `{Hashing}.

Definition sha256Hex (b : list byte) : string := hex_of (sha256 b).

Definition signingKey (secret day region : string) : list byte :=
  let k := hmacSHA256 (bytes_of ("AWS4" +:+ secret)) (bytes_of day) in
  let k := hmacSHA256 k (bytes_of region) in
  let k := hmacSHA256 k (bytes_of service) in
  hmacSHA256 k (bytes_of terminator).

Definition day_of (stamp : string) : string := string_of (take 8 (bytes_of stamp)).
Definition scope_of (stamp region : string) : string := Join "/" [day_of stamp; region; service; terminator].

(** What the signature is over, of a request with its two headers set. *)
Definition string_to_sign (q : request) (c : credentials) (payloadHash stamp : string) : string :=
  let '(signed, canonHeaders) := canonicalHeaders q in
  let canonical := Join newline [rmethod q; canonicalURI (rpath q); rquery q; canonHeaders; signed; payloadHash] in
  Join newline [algorithm; stamp; scope_of stamp (region c); sha256Hex (bytes_of canonical)].

Definition sign (q : request) (c : credentials) (payloadHash : string) (now : time) : request :=
  let stamp := timestamp now in
  let q := set_header "X-Amz-Content-Sha256" payloadHash (set_header "X-Amz-Date" stamp q) in
  let key := signingKey (secretKey c) (day_of stamp) (region c) in
  let sig := hex_of (hmacSHA256 key (bytes_of (string_to_sign q c payloadHash stamp))) in
  set_header "Authorization"
    (algorithm +:+ " Credential=" +:+ accessKey c +:+ "/" +:+ scope_of stamp (region c)
     +:+ ", SignedHeaders=" +:+ (canonicalHeaders q).1 +:+ ", Signature=" +:+ sig) q.
End signing.

(** ** The driver (s3driver.go) *)

Record Config : Type := mkS3Config {
  Bucket : string;
  Region : string;
  AccessKey : string;
  SecretKey : string;
  Attempts : Z;
}.

(** An endpoint, parsed. *)
Record URL : Type := mkURL {
  UScheme : string;
  UHost : string;
  UQuery : string;
}.

Record S3 (W : Type) : Type := mkS3 {
  endpoint : URL;
  bucket : string;
  creds : credentials;
  attempts : Z;
  backoff : duration;
  net : W;
}.
Arguments mkS3 {W}.
Arguments endpoint {W}.
Arguments bucket {W}.
Arguments creds {W}.
Arguments attempts {W}.
Arguments backoff {W}.
Arguments net {W}.

Inductive ConfigErr : Type := ErrEndpoint | ErrSchemeHost | ErrNoBucket | ErrNoCredentials.

(** [u] is what parsing the endpoint gave. *)
Definition New {W} (u : option URL) (c : Config) (w : W) : result ConfigErr (S3 W) :=
  match u with
  | None => Err ErrEndpoint
  | Some u =>
      if (UScheme u =? "")%string || (UHost u =? "")%string then Err ErrSchemeHost
      else if (Bucket c =? "")%string then Err ErrNoBucket
      else if (AccessKey c =? "")%string || (SecretKey c =? "")%string then Err ErrNoCredentials
      else Ok (mkS3 u (Bucket c)
                 (mkCredentials (AccessKey c) (SecretKey c) (if (Region c =? "")%string then "us-east-1" else Region c))
                 (if Attempts c <=? 0 then 3 else Attempts c) (100 * Millisecond) w)
  end.

Definition declared : Declaration :=
  mkDeclaration 1 [ReadRangeCap; ObjectSize; WriteObjectCap; DeleteObjectCap; ListObjects; WriteStream].

Definition checkObject (object : string) : bool := negb (object =? "")%string && negb (HasPrefix "/" object).

Definition transient (status : Z) : bool :=
  (status =? 429) || (status =? 500) || (status =? 502) || (status =? 503) || (status =? 504).

Section driver.
Context {W : Type} `{Network W} `{Hashing} `{Xml}.
Implicit Types d : S3 W.

Definition set_net (w : W) (d : S3 W) : S3 W := mkS3 (endpoint d) (bucket d) (creds d) (attempts d) (backoff d) w.

(** [io.ReadAll] of the first [n] bytes of a body; reading them all may fail
    before then. *)
Definition read_limited (n : Z) (r : response) : option (list byte) :=
  if n <=? zlen (Body r) then Some (ztake n (Body r)) else if cut r then None else Some (Body r).

Definition denied (status : Z) (code : string) : bool := (status =? 403) || (code =? "AccessDenied")%string.
Definition errorFor (r : response) : option DrvErr :=
  if (200 <=? StatusCode r) && (StatusCode r <? 300) then None
  else if denied (StatusCode r) (xml_code (ztake (8 * 1024) (Body r))) then Some ErrDenied else Some ErrOther.

(** The request of an object; [NewRequest] takes the host from the endpoint. *)
Definition object_path d (object : string) : string := "/" +:+ bucket d +:+ "/" +:+ object.
Definition request_ d (method path query : string) (header : gmap string (list string)) (body : list byte) : request :=
  mkRequest method (TrimSuffix ":" (UHost (endpoint d))) path query header body.

Definition do_ (q : request) (payloadHash : string) d : S3 W * option response :=
  let '(w, now) := net_now (net d) in
  let '(w, r) := net_do (sign q (creds d) payloadHash now) w in
  (set_net w d, r).

(** What is sent again: nothing arrived, or the store failed to answer. *)
Definition failed_try (r : option response) : bool :=
  match r with None => true | Some r => transient (StatusCode r) end.

(** The attempts left, the first included, and how many have been made. *)
Fixpoint tries (more made : nat) (q : request) (payloadHash : string) d : S3 W * option response :=
  match more with
  | O => (d, None)
  | S more =>
      let '(d, r) := do_ q payloadHash d in
      if negb (failed_try r) then (d, r)
      else match more with
           | O => (d, None)
           | _ =>
               let '(w, gone) := net_pause (wrap64 (Z.shiftl (backoff d) (Z.of_nat made))) (net d) in
               let d := set_net w d in
               if gone then (d, None) else tries more (S made) q payloadHash d
           end
  end.

(** [send]; [body] is [None] for a request without one. *)
Definition send (method object : string) (body : option (list byte)) (header : gmap string (list string)) d
  : S3 W * result DrvErr response :=
  let payload := match body with None => emptyPayload | Some b => sha256Hex b end in
  if negb (checkObject object) then (d, Err ErrOther)
  else
    let q := request_ d method (object_path d object) (UQuery (endpoint d)) header (default [] body) in
    let '(d, r) := tries (Z.to_nat (attempts d)) 0 q payload d in
    (d, match r with None => Err ErrOther | Some r => Ok r end).

Definition SizeOf (object : string) d : S3 W * result DrvErr Z :=
  let '(d, r) := send "HEAD" object None ∅ d in
  (d, match r with
      | Err e => Err e
      | Ok r => match errorFor r with
                | Some e => Err e
                | None => if ContentLength r <? 0 then Err ErrOther else Ok (ContentLength r)
                end
      end).

Definition range_text (first last : Z) : string := "bytes=" +:+ FormatInt first +:+ "-" +:+ FormatInt last.

Definition ReadRange (object : string) (offset length : Z) d : S3 W * result DrvErr (list byte) :=
  if length =? 0 then
    let '(d, size) := SizeOf object d in
    (d, match size with
        | Err e => Err e
        | Ok size => if size <? offset then Err ErrRange else Ok []
        end)
  else
    let '(d, r) := send "GET" object None {["Range"%string := [range_text offset (offset +! length -! 1)]]} d in
    (d, match r with
        | Err e => Err e
        | Ok r =>
            if StatusCode r =? 416 then Err ErrRange
            else match errorFor r with
            | Some e => Err e
            | None =>
                if negb (StatusCode r =? 206) then Err ErrOther
                else match read_limited length r with
                | None => Err ErrOther
                | Some buf => if zlen buf =? length then Ok buf else Err ErrRange
                end
            end
        end).

(** A call whose answer has nothing in it. *)
Definition answered (r : result DrvErr response) : result DrvErr () :=
  match r with
  | Err e => Err e
  | Ok r => match errorFor r with Some e => Err e | None => Ok () end
  end.

Definition WriteObject (object : string) (data : list byte) d : S3 W * result DrvErr () :=
  let '(d, r) := send "PUT" object (Some data) ∅ d in (d, answered r).

(** The source is read twice and is the same both times. *)
Definition WriteObjectFrom (object : string) (src : list byte) (size : Z) d : S3 W * result DrvErr () :=
  if negb (checkObject object) then (d, Err ErrOther)
  else if negb (zlen src =? size) then (d, Err ErrOther)
  else
    let q := request_ d "PUT" (object_path d object) (UQuery (endpoint d)) ∅ src in
    let '(d, r) := tries (Z.to_nat (attempts d)) 0 q (sha256Hex src) d in
    (d, answered match r with None => Err ErrOther | Some r => Ok r end).

Definition DeleteObject (object : string) d : S3 W * result DrvErr () :=
  let '(d, r) := send "DELETE" object None ∅ d in (d, answered r).

(** ** Listing *)

(** The prefix a level is under ends in the separator. *)
Definition level_prefix (pre : string) : string :=
  if negb (pre =? "")%string && negb (HasSuffix "/" pre) then pre +:+ "/" else pre.

Definition list_query (full after : string) (limit : Z) : list (string * string) :=
  [("delimiter", "/"); ("list-type", "2"); ("max-keys", FormatInt limit)]
  ++ (if (full =? "")%string then [] else [("prefix", full)])
  ++ (if (after =? "")%string then [] else [("start-after", full +:+ after)]).

Definition dir_entry (full p : string) : option Entry :=
  let name := TrimSuffix "/" (TrimPrefix full p) in
  if (name =? "")%string then None else Some (mkEntry name true 0).
Definition object_entry (full : string) (kv : string * Z) : option Entry :=
  let name := TrimPrefix full kv.1 in
  if (name =? "")%string then None else Some (mkEntry name false kv.2).

(** By name; two of one name, a directory and an object, are in an order the sort
    does not say, here the directory first. *)
Definition entry_le (x y : Entry) : Prop := str_ltb (EName y) (EName x) = false.
#[global] Instance entry_le_dec : RelDecision entry_le.
Proof. intros x y. apply bool_eq_dec. Defined.

Definition entries_of (full : string) (limit : Z) (contents : list (string * Z)) (prefixes : list string) : list Entry :=
  ztake limit (merge_sort entry_le (omap (dir_entry full) prefixes ++ omap (object_entry full) contents)).

(** The query replaces the endpoint's own; the request is sent once. *)
Definition List (pre after : string) (limit : Z) d : S3 W * result DrvErr (list Entry) :=
  let full := level_prefix pre in
  let q := request_ d "GET" ("/" +:+ bucket d) (Encode (list_query full after limit)) ∅ [] in
  let '(d, r) := do_ q emptyPayload d in
  (d, match r with
      | None => Err ErrOther
      | Some r =>
          match errorFor r with
          | Some e => Err e
          | None =>
              match read_limited (8 * 1024 * 1024) r with
              | None => Err ErrOther
              | Some body =>
                  match xml_listing body with
                  | None => Err ErrOther
                  | Some (contents, prefixes) => Ok (entries_of full limit contents prefixes)
                  end
              end
          end
      end).

#[global] Instance S3_Driver : Driver (S3 W) := {
  drv_Declare _ := declared;
  drv_ReadRange := ReadRange;
  drv_SizeOf := SizeOf;
  drv_WriteObject := WriteObject;
  drv_DeleteObject := DeleteObject;
  drv_SnapshotObject _ d := (d, Err ErrNotSupported);
  drv_CloneObject _ _ d := (d, Err ErrNotSupported);
  drv_List := Some List;
  drv_WriteObjectFrom := Some WriteObjectFrom;
}.
End driver.

Example canonicalURI_ex : canonicalURI "/bucket/a b/é+c" = "/bucket/a%20b/%C3%A9%2Bc"%string.
Proof. vm_compute. reflexivity. Qed.
