(* ===== verification/S3Theorems.v ===== *)
(** * S3Theorems: what the driver over an object store keeps

    The store's documented behaviour is a class of laws over the network the driver
    is behind; the scheme a signature is checked by is written out here, apart from
    the driver's way of making one. *)

From S2P Require Import Prelude GoStrings GoPath Backend S3Driver.

Local Open Scope Z_scope.

(** ** The signature a store checks

    A path and a query are encoded byte by byte; the headers signed are the
    request's own; the hash signed is the body's; and the key is drawn from the
    secret by the day, the region, the service and a last word, each in turn. *)

Definition line_feed : string := String "010" EmptyString.
Definition uri_plain (c : byte) : bool :=
  has_byte c "ABCDEFGHIJKLMNOPQRSTUVWXYZabcdefghijklmnopqrstuvwxyz0123456789-._~".
Definition uri_digit (z : Z) : byte := nth (Z.to_nat z) (bytes_of "0123456789ABCDEF") "0"%char.
Definition uri_hex (c : byte) : list byte := ["%"%char; uri_digit (of_byte c / 16); uri_digit (of_byte c mod 16)].
Definition uri_encode (keep_slash : bool) (s : string) : string :=
  string_of (concat ((fun c => if uri_plain c || keep_slash && Ascii.eqb c "/" then [c] else uri_hex c) <$> bytes_of s)).
Definition canonical_path (p : string) : string := if (p =? "")%string then "/" else uri_encode true p.
Definition canonical_query (q : list (string * string)) : string :=
  Join "&" ((fun kv => uri_encode false kv.1 +:+ "=" +:+ uri_encode false kv.2) <$> q).
Definition header_block (values : gmap string string) : string :=
  fold_right (fun n block => n +:+ ":" +:+ default "" (values !! n) +:+ line_feed +:+ block) ""
    (sort_Strings (elements (dom values))).

Section scheme.
Context `{Hashing}.

Definition scheme_key (secret : string) (scope : list string) : list byte :=
  fold_left (fun key part => hmacSHA256 key (bytes_of part)) scope (bytes_of ("AWS4" +:+ secret)).
Definition expected_signature (c : credentials) (q : request) (query stamp hash : string) (values : gmap string string) : string :=
  let canonical := Join line_feed [rmethod q; canonical_path (rpath q); query; header_block values;
    Join ";" (sort_Strings (elements (dom values))); hash] in
  let scope := [string_of (take 8 (bytes_of stamp)); region c; "s3"; "aws4_request"]%string in
  hex_of (hmacSHA256 (scheme_key (secretKey c) scope)
    (bytes_of (Join line_feed ["AWS4-HMAC-SHA256"; stamp; Join "/" scope; hex_of (sha256 (bytes_of canonical))]))).

(** The values are those of headers of the request, and no header is left out. *)
Record own_values (q : request) (values : gmap string string) : Prop := {
  own_host : values !! "host"%string = Some (rhost q);
  own_header n v : values !! n = Some v -> n = "host"%string \/
    exists k vs, rheader q !! k = Some vs /\ ToLower k = n /\ v = TrimSpace (Join "," vs);
  own_all k vs : rheader q !! k = Some vs -> ToLower k <> "authorization"%string -> is_Some (values !! ToLower k);
}.

Definition authentic (c : credentials) (query : list (string * string)) (q : request) : Prop :=
  exists stamp values,
    rheader q !! "X-Amz-Date"%string = Some [stamp] /\
    rheader q !! "X-Amz-Content-Sha256"%string = Some [hex_of (sha256 (rbody q))] /\ own_values q values /\
    rheader q !! "Authorization"%string = Some ["AWS4-HMAC-SHA256 Credential=" +:+ accessKey c +:+ "/"
      +:+ Join "/" [string_of (take 8 (bytes_of stamp)); region c; "s3"; "aws4_request"]
      +:+ ", SignedHeaders=" +:+ Join ";" (sort_Strings (elements (dom values)))
      +:+ ", Signature=" +:+ expected_signature c q (canonical_query query) stamp (hex_of (sha256 (rbody q))) values].
End scheme.

(** *** The driver's encodings are the scheme's *)

Lemma string_of_app a b : string_of (a ++ b) = string_of a +:+ string_of b.
Proof. induction a as [|c a IH]; [done|]. simpl. by rewrite IH. Qed.
Lemma escapePath_cons c s : escapePath (String c s) =
  string_of (if unreserved c then [c] else percent c) +:+ escapePath s.
Proof. unfold escapePath. simpl. by rewrite string_of_app. Qed.
Lemma uri_plain_unreserved c : uri_plain c = unreserved c.
Proof. destruct c as [[] [] [] [] [] [] [] []]; vm_compute; reflexivity. Qed.
Lemma uri_hex_percent c : uri_hex c = percent c.
Proof. destruct c as [[] [] [] [] [] [] [] []]; vm_compute; reflexivity. Qed.
Lemma uri_encode_cons k c s : uri_encode k (String c s) =
  string_of (if unreserved c || k && Ascii.eqb c "/" then [c] else percent c) +:+ uri_encode k s.
Proof. unfold uri_encode. simpl. by rewrite string_of_app, uri_plain_unreserved, uri_hex_percent. Qed.

Lemma QueryEscape_cons c s : QueryEscape (String c s) =
  string_of (if unreserved c then [c] else if Ascii.eqb c " " then ["+"%char] else percent c) +:+ QueryEscape s.
Proof. unfold QueryEscape. simpl. by rewrite string_of_app. Qed.

Lemma Join_escape s : Join "/" (escapePath <$> Split slash s) = uri_encode true s.
Proof.
  induction s as [|c s IH]; [done|]. rewrite uri_encode_cons. simpl Split.
  destruct (Ascii.eqb_spec c slash) as [->|N].
  - rewrite fmap_cons. simpl. destruct (Split slash s) eqn:E; [by apply Split_not_nil in E|]. rewrite <- IH. done.
  - destruct (Split slash s) as [|x l] eqn:E; [by apply Split_not_nil in E|]. rewrite !fmap_cons, escapePath_cons.
    rewrite andb_false_r, orb_false_r.
    rewrite <- IH. rewrite fmap_cons. simpl. destruct (escapePath <$> l); [done|]. apply string_app_assoc.
Qed.

Lemma canonicalURI_scheme p : canonicalURI p = canonical_path p.
Proof. unfold canonicalURI, canonical_path. by rewrite Join_escape. Qed.

(** Escaping for a form and for a signature differ on a space alone. *)
Lemma QueryEscape_scheme s : has_byte " " s = false -> QueryEscape s = uri_encode false s.
Proof.
  induction s as [|c s IH]; [done|]. simpl. rewrite orb_false_iff. intros [N Hs]. rewrite uri_encode_cons, <- IH by done.
  by rewrite QueryEscape_cons, andb_false_l, orb_false_r, N.
Qed.

Definition spaceless (kv : string * string) : Prop := has_byte " " kv.1 = false /\ has_byte " " kv.2 = false.

Lemma has_byte_Join c sep l : has_byte c sep = false -> has_byte c (Join sep l) = existsb (has_byte c) l.
Proof.
  intros S. induction l as [|x [|y l] IH]; [done|simpl; by rewrite orb_false_r|].
  change (Join sep (x :: y :: l)) with (x +:+ sep +:+ Join sep (y :: l)). by rewrite !has_byte_app, S, IH.
Qed.

Lemma percent_no_plus c : has_byte "+" (string_of (percent c)) = false.
Proof. destruct c as [[] [] [] [] [] [] [] []]; vm_compute; reflexivity. Qed.
Lemma unreserved_no_plus c : unreserved c = true -> Ascii.eqb c "+" = false.
Proof. intros U. destruct (Ascii.eqb_spec c "+") as [->|]; [vm_compute in U; discriminate|done]. Qed.

Lemma uri_encode_no_plus s : has_byte "+" (uri_encode false s) = false.
Proof.
  induction s as [|c s IH]; [done|]. rewrite uri_encode_cons, has_byte_app, IH, orb_false_r, andb_false_l, orb_false_r.
  destruct (unreserved c) eqn:U; [|apply percent_no_plus]. simpl. by rewrite (unreserved_no_plus _ U).
Qed.
Lemma QueryEscape_plus s : has_byte "+" (QueryEscape s) = has_byte " " s.
Proof.
  induction s as [|c s IH]; [done|]. rewrite QueryEscape_cons, has_byte_app, IH. cbn [has_byte]. f_equal.
  destruct (unreserved c) eqn:U.
  - simpl. rewrite (unreserved_no_plus _ U). symmetry. apply Ascii.eqb_neq. intros ->. vm_compute in U. discriminate.
  - destruct (Ascii.eqb c " "); [done|apply percent_no_plus].
Qed.

(** A query is signed as it is sent exactly when there is no space in it. *)
Lemma Encode_scheme q : Encode q = canonical_query q <-> Forall spaceless q.
Proof.
  split.
  - intros E. apply (f_equal (has_byte "+")) in E. unfold Encode, canonical_query in E.
    rewrite !has_byte_Join in E by done. revert E. clear. induction q as [|[k v] q IH]; [done|].
    rewrite !fmap_cons. cbn [existsb fst snd]. rewrite !has_byte_app, !uri_encode_no_plus, !QueryEscape_plus. simpl.
    assert (existsb (has_byte "+") ((fun kv => uri_encode false kv.1 +:+ "=" +:+ uri_encode false kv.2) <$> q) = false) as N.
    { clear. induction q as [|[k v] q IH]; [done|]. rewrite fmap_cons. cbn [existsb]. rewrite IH, !has_byte_app, !uri_encode_no_plus. done. }
    rewrite N in *. rewrite !orb_false_iff. intros [[? ?] ?]. constructor; [done|by apply IH].
  - intros F. unfold Encode, canonical_query. f_equal. induction F as [|[k v] q [Hk Hv] F IH]; [done|].
    rewrite !fmap_cons, IH. cbn [fst snd] in *. by rewrite !QueryEscape_scheme.
Qed.

(** *** Signing *)

Lemma signed_values_spec (h : list (string * list string)) : forall values n v,
  fold_left signed_value h values !! n = Some v ->
  values !! n = Some v \/
  exists k vs, (k, vs) ∈ h /\ ToLower k = n /\ v = TrimSpace (Join "," vs) /\ n <> "authorization"%string.
Proof.
  induction h as [|[k vs] h IH]; intros values n v; simpl; [by left|]. intros E. apply IH in E as [E|(k' & vs' & I & E)].
  - unfold signed_value in E. simpl in E. destruct (_ || _) eqn:O; [by left|].
    apply orb_false_iff in O as [_ O%String.eqb_neq]. apply lookup_insert_Some in E as [[<- <-]|[_ E]]; [|by left]. right. exists k, vs. split; [by left|done].
  - right. exists k', vs'. split; [by right|done].
Qed.

Lemma signed_values_keeps h : forall values n, is_Some (values !! n) -> is_Some (fold_left signed_value h values !! n).
Proof.
  induction h as [|[k vs] h IH]; intros values n S; [done|]. apply IH. unfold signed_value. simpl. destruct (_ || _); [done|].
  destruct (decide (ToLower k = n)) as [->|N]; [rewrite lookup_insert_eq; eauto|by rewrite lookup_insert_ne].
Qed.
Lemma signed_values_host h : forall values, fold_left signed_value h values !! "host"%string = values !! "host"%string.
Proof.
  induction h as [|[k vs] h IH]; intros values; [done|]. simpl. rewrite IH. unfold signed_value. simpl.
  destruct (String.eqb_spec (ToLower k) "host"); [done|]. simpl. case_match; [done|]. by rewrite lookup_insert_ne.
Qed.

Lemma signed_values_all h k vs : (k, vs) ∈ h -> ToLower k <> "authorization"%string -> forall values,
  is_Some (values !! "host"%string) -> is_Some (fold_left signed_value h values !! ToLower k).
Proof.
  intros I N. induction h as [|[k0 vs0] h IH]; [by inversion I|]. intros values Hh. simpl. apply elem_of_cons in I as [[= <- <-]|I].
  - apply signed_values_keeps. unfold signed_value. simpl. destruct (String.eqb_spec (ToLower k) "host") as [->|]; [done|].
    rewrite (proj2 (String.eqb_neq _ _) N). simpl. rewrite lookup_insert_eq. eauto.
  - apply IH; [done|]. unfold signed_value. simpl. destruct (String.eqb_spec (ToLower k0) "host"); [done|]. simpl.
    case_match; [done|]. by rewrite lookup_insert_ne.
Qed.

Lemma own_values_signed q (a : string) : own_values (set_header "Authorization" a q) (signed_values q).
Proof.
  constructor.
  - simpl. unfold signed_values. rewrite signed_values_host. apply lookup_singleton_eq.
  - intros n v E. apply signed_values_spec in E as [[<- _]%lookup_singleton_Some|(k & vs & I & <- & -> & N)]; [by left|right].
    exists k, vs. split_and!; [|done..]. simpl. rewrite lookup_insert_ne; [by apply elem_of_map_to_list|]. by intros <-.
  - intros k vs. simpl. intros E N. rewrite lookup_insert_Some in E. destruct E as [[<- _]|[_ E]]; [by destruct N|].
    unfold signed_values. eapply signed_values_all; [by apply elem_of_map_to_list|done|]. rewrite lookup_singleton_eq. eauto.
Qed.

Lemma sign_authentic `{Hashing} c q payload now query : payload = hex_of (sha256 (rbody q)) -> rquery q = canonical_query query ->
  authentic c query (sign q c payload now).
Proof.
  intros Hp Hq. unfold authentic, sign.
  set (q1 := set_header "X-Amz-Content-Sha256" payload (set_header "X-Amz-Date" (timestamp now) q)).
  exists (timestamp now), (signed_values q1). split_and!.
  - simpl. rewrite lookup_insert_ne, lookup_insert_ne, lookup_insert_eq by done. done.
  - simpl. rewrite lookup_insert_ne, lookup_insert_eq by done. by rewrite <- Hp.
  - apply own_values_signed.
  - change (rheader (set_header ?k ?v q1)) with (<[k := [v]]> (rheader q1)). simpl rheader. rewrite lookup_insert_eq.
    unfold string_to_sign, expected_signature, scope_of, day_of, sha256Hex, header_block. simpl rmethod. simpl rpath. simpl rquery.
    simpl rbody. rewrite canonicalURI_scheme, Hq, Hp. done.
Qed.

(** ** What a store does

    [st_trouble] is how many more requests it will fail to answer, and a healthy one
    then answers whatever it can check the signature of. Nobody else writes to it. *)

Definition ok_status (r : response) : Prop := 200 <= StatusCode r < 300.
Definition key_path (bkt o : string) : string := "/" +:+ bkt +:+ "/" +:+ o.
(** The part of an object a range names. *)
Definition ranged (a b : Z) (bytes : list byte) : list byte := slice a (Z.min (b + 1) (zlen bytes)) bytes.
Definition no_answer (r : option response) : Prop := failed_try r = true.

Class StoreSpec (W : Type) `{Network W} `{Hashing} (bkt : string) (c : credentials) : Type := {
  st_objects : W -> gmap string (list byte);
  st_sent : W -> nat;
  st_trouble : W -> nat;
  st_healthy : W -> Prop;
  st_now w : st_objects (net_now w).1 = st_objects w /\ st_sent (net_now w).1 = st_sent w /\
    st_trouble (net_now w).1 = st_trouble w /\ (st_healthy w -> st_healthy (net_now w).1);
  st_pause p w : st_objects (net_pause p w).1 = st_objects w /\ st_sent (net_pause p w).1 = st_sent w /\
    st_trouble (net_pause p w).1 = st_trouble w /\ (st_healthy w -> st_healthy (net_pause p w).1 /\ (net_pause p w).2 = false);
  st_count q w : st_sent (net_do q w).1 = S (st_sent w) /\ st_trouble (net_do q w).1 = pred (st_trouble w) /\
    (st_healthy w -> st_healthy (net_do q w).1);
  st_failing q w : (0 < st_trouble w)%nat -> no_answer (net_do q w).2;
  st_reads q w : rmethod q = "GET"%string \/ rmethod q = "HEAD"%string -> st_objects (net_do q w).1 = st_objects w;
  (** Part of an object is answered to a range that makes sense, of what it holds. *)
  st_partial q w o r : rmethod q = "GET"%string -> rpath q = key_path bkt o -> (net_do q w).2 = Some r -> StatusCode r = 206 ->
    exists a b bytes, rheader q !! "Range"%string = Some [range_text a b] /\ is_int64 a /\ is_int64 b /\ 0 <= a <= b /\
      st_objects w !! o = Some bytes /\ a < zlen bytes /\
      exists rest, ranged a b bytes = Body r ++ rest /\ (cut r = false -> rest = []);
  st_unsatisfied q w o r a b bytes : rmethod q = "GET"%string -> rpath q = key_path bkt o -> (net_do q w).2 = Some r ->
    rheader q !! "Range"%string = Some [range_text a b] -> 0 <= a <= b -> is_int64 b ->
    StatusCode r = 416 -> st_objects w !! o = Some bytes -> zlen bytes <= a;
  st_head q w o r : rmethod q = "HEAD"%string -> rpath q = key_path bkt o -> (net_do q w).2 = Some r -> ok_status r ->
    0 <= ContentLength r -> exists bytes, st_objects w !! o = Some bytes /\ ContentLength r = zlen bytes;
  st_put q w o : rmethod q = "PUT"%string -> rpath q = key_path bkt o ->
    (st_objects (net_do q w).1 = st_objects w \/ st_objects (net_do q w).1 = <[o := rbody q]> (st_objects w)) /\
    (forall r, (net_do q w).2 = Some r -> ok_status r -> st_objects (net_do q w).1 = <[o := rbody q]> (st_objects w));
  st_delete q w o : rmethod q = "DELETE"%string -> rpath q = key_path bkt o ->
    (st_objects (net_do q w).1 = st_objects w \/ st_objects (net_do q w).1 = delete o (st_objects w)) /\
    (forall r, (net_do q w).2 = Some r -> ok_status r -> st_objects (net_do q w).1 = delete o (st_objects w));
  st_well q w o query : st_healthy w -> st_trouble w = 0%nat -> authentic c query q -> rquery q = canonical_query query ->
    rpath q = key_path bkt o ->
    (rmethod q = "PUT"%string \/ rmethod q = "DELETE"%string -> exists r, (net_do q w).2 = Some r /\ ok_status r) /\
    (forall bytes, st_objects w !! o = Some bytes ->
      (rmethod q = "HEAD"%string -> exists r, (net_do q w).2 = Some r /\ ok_status r /\ ContentLength r = zlen bytes) /\
      (forall a b, rmethod q = "GET"%string -> rheader q !! "Range"%string = Some [range_text a b] -> 0 <= a <= b -> is_int64 b ->
        exists r, (net_do q w).2 = Some r /\
          if a <? zlen bytes then StatusCode r = 206 /\ cut r = false else StatusCode r = 416));
}.

Section driver.
Context {W : Type} `{Network W} `{HH : Hashing} `{XX : Xml} {bkt : string} {c : credentials}.
Context {SS : StoreSpec W bkt c}.
Hypothesis empty_hash : hex_of (sha256 []) = emptyPayload.
Implicit Types d : S3 W.

Definition same_config d d' : Prop :=
  endpoint d' = endpoint d /\ bucket d' = bucket d /\ creds d' = creds d /\ attempts d' = attempts d.
Definition at_bucket d : Prop := bucket d = bkt /\ creds d = c /\ 0 < attempts d.

(** What trying a request comes to. [keep] is whatever every try keeps of the
    objects. *)
Lemma tries_spec (keep : gmap string (list byte) -> Prop) q payload : forall n made d d' r,
  (forall now w, keep (st_objects w) -> keep (st_objects (net_do (sign q (creds d) payload now) w).1)) ->
  keep (st_objects (net d)) -> tries n made q payload d = (d', r) ->
  same_config d d' /\ keep (st_objects (net d')) /\ (st_sent (net d') <= st_sent (net d) + n)%nat /\
  (forall resp, r = Some resp -> exists w now, keep (st_objects w) /\
     st_objects (net d') = st_objects (net_do (sign q (creds d) payload now) w).1 /\
     (net_do (sign q (creds d) payload now) w).2 = Some resp /\ (st_healthy (net d) -> st_healthy w /\ st_trouble w = 0%nat)) /\
  (st_healthy (net d) -> (st_trouble (net d) < n)%nat ->
     (forall now w, keep (st_objects w) -> st_healthy w -> st_trouble w = 0%nat ->
        ~ no_answer (net_do (sign q (creds d) payload now) w).2) -> is_Some r).
Proof.
  induction n as [|n IH]; intros made d d' r K Kd; cbn [tries].
  { intros [= <- <-]. split_and!; [done|done|lia|done|lia]. }
  unfold do_. destruct (st_now (net d)) as (N1 & N2 & N3 & N4). destruct (net_now (net d)) as [w0 now]. simpl in *.
  set (q' := sign q (creds d) payload now). destruct (st_count q' w0) as (C1 & C2 & C3).
  pose proof (st_failing q' w0) as Fl. pose proof (K now w0 ltac:(by rewrite N1)) as K1. fold q' in K1.
  destruct (net_do q' w0) as [w1 resp] eqn:E. simpl in *. rewrite N2, N3 in *.
  destruct (failed_try resp) eqn:F; simpl.
  - destruct n as [|n].
    { intros [= <- <-]. simpl. split_and!; [done|done|lia|done|]. intros Hh T G. exfalso.
      apply (G now w0); [by rewrite N1|by apply N4|lia|]. fold q'. by rewrite E. }
    destruct (st_pause (wrap64 (Z.shiftl (backoff d) (Z.of_nat made))) w1) as (P1 & P2 & P3 & P4).
    destruct (net_pause _ w1) as [w2 gone]. simpl in *.
    destruct gone.
    + intros [= <- <-]. simpl. split_and!; [done|by rewrite P1|lia|done|]. intros Hh. by destruct (P4 (C3 (N4 Hh))).
    + intros T. apply (IH _ (set_net w2 (set_net w1 d))) in T as (Cf & Kd' & St & So & Li); [|done|by simpl; rewrite P1].
      simpl in *. split_and!; [done|done|lia| |].
      * intros x Hx. destruct (So x Hx) as (w & nw & ? & ? & ? & Hh). exists w, nw. split_and!; [done..|].
        intros Hd. apply Hh, P4, C3, N4, Hd.
      * intros Hh T G. apply Li; [by apply P4, C3, N4|lia|done].
  - intros [= <- <-]. simpl. split_and!; [done|done|lia| |].
    + intros x ->. exists w0, now. fold q'. rewrite N1, E. split_and!; [done..|]. intros Hh. split; [by apply N4|].
      destruct (st_trouble w0) eqn:T; [done|]. assert (no_answer (Some x)) as X by (apply Fl; lia). unfold no_answer in X. congruence.
    + intros _ _ _. destruct resp; [done|discriminate F].
Qed.

(** A request for an object, signed as the store checks it when the endpoint has no
    query of its own. *)
Record asks (plain : Prop) (method o : string) (range : option (list string)) (body : list byte) (q : request) : Prop := {
  ask_method : rmethod q = method;
  ask_path : rpath q = key_path bkt o;
  ask_range : rheader q !! "Range"%string = range;
  ask_body : rbody q = body;
  ask_signed : plain -> authentic c [] q /\ rquery q = canonical_query [];
}.
Definition plain_endpoint d : Prop := UQuery (endpoint d) = ""%string.

Lemma sign_asks d method o header body payload now : bucket d = bkt -> payload = hex_of (sha256 body) ->
  asks (plain_endpoint d) method o (header !! "Range"%string) body
    (sign (request_ d method (object_path d o) (UQuery (endpoint d)) header body) c payload now).
Proof.
  intros B P. constructor; try done.
  - unfold sign. simpl. unfold key_path, object_path. by rewrite B.
  - unfold sign. simpl. by rewrite !lookup_insert_ne by done.
  - intros E. split; [apply sign_authentic; [done|exact E]|exact E].
Qed.

(** What sending comes to, over whatever [keep] every such request keeps. *)
Lemma send_spec (keep : gmap string (list byte) -> Prop) method o body header d d' res : at_bucket d ->
  let asked := asks (plain_endpoint d) method o (header !! "Range"%string) (default [] body) in
  (forall q w, asked q -> keep (st_objects w) -> keep (st_objects (net_do q w).1)) ->
  keep (st_objects (net d)) -> send method o body header d = (d', res) ->
  same_config d d' /\ keep (st_objects (net d')) /\ (st_sent (net d') <= st_sent (net d) + Z.to_nat (attempts d))%nat /\
  match res with
  | Err e => e = ErrOther /\ (checkObject o = true -> st_healthy (net d) -> (st_trouble (net d) < Z.to_nat (attempts d))%nat ->
      ~ forall q w, asked q -> keep (st_objects w) -> st_healthy w -> st_trouble w = 0%nat -> ~ no_answer (net_do q w).2)
  | Ok r => exists q w, asked q /\ keep (st_objects w) /\ st_objects (net d') = st_objects (net_do q w).1 /\
      (net_do q w).2 = Some r /\ (st_healthy (net d) -> st_healthy w /\ st_trouble w = 0%nat)
  end.
Proof.
  intros (B & C & A) asked K Kd. unfold send. set (payload := match body with None => _ | Some _ => _ end).
  assert (payload = hex_of (sha256 (default [] body))) as P by (unfold payload; destruct body; done).
  destruct (checkObject o); simpl negb; cbv iota.
  2: { intros [= <- <-]. split_and!; try done; lia. }
  set (q := request_ _ _ _ _ _ _). assert (forall now, asked (sign q (creds d) payload now)) as As.
  { intros now. rewrite C. by apply sign_asks. }
  destruct (tries _ 0 q payload d) as [d1 r] eqn:T.
  apply (tries_spec keep) in T as (Cf & Kd' & St & So & Li); [|by intros now w; apply K|done].
  intros [= <- <-]. split_and!; [done..|]. destruct r as [r|].
  - destruct (So r eq_refl) as (w & now & ? & ? & ? & ?). exists (sign q (creds d) payload now), w. by split_and!.
  - split; [done|]. intros _ Hh T N. destruct (Li Hh T) as [? [=]]. intros now w. by apply N.
Qed.

Lemma errorFor_None r : errorFor r = None <-> ok_status r.
Proof.
  unfold errorFor, ok_status. destruct (Z.leb_spec 200 (StatusCode r)), (Z.ltb_spec (StatusCode r) 300); simpl;
    try destruct (denied _ _); split; intros; try done; lia.
Qed.
Lemma errorFor_range r : errorFor r <> Some ErrRange.
Proof. unfold errorFor. destruct (_ && _); [done|]. by destruct (denied _ _). Qed.
Lemma answers_ok r : ok_status r -> ~ no_answer (Some r).
Proof.
  unfold ok_status, no_answer, failed_try, transient. intros O. rewrite !orb_true_iff, !Z.eqb_eq. lia.
Qed.

(** What reading leaves alone. *)
Definition untouched d d' : Prop :=
  same_config d d' /\ st_objects (net d') = st_objects (net d) /\
  (st_sent (net d') <= st_sent (net d) + Z.to_nat (attempts d))%nat.
(** A store that will answer before the driver stops asking. *)
Definition answering o d : Prop :=
  checkObject o = true /\ plain_endpoint d /\ st_healthy (net d) /\ (st_trouble (net d) < Z.to_nat (attempts d))%nat.

Lemma SizeOf_spec o d d' r : at_bucket d -> SizeOf o d = (d', r) -> untouched d d' /\
  match r with Ok n => exists bytes, st_objects (net d) !! o = Some bytes /\ n = zlen bytes | Err e => e <> ErrRange end /\
  (answering o d -> forall bytes, st_objects (net d) !! o = Some bytes -> r = Ok (zlen bytes)).
Proof.
  intros A. unfold SizeOf. destruct (send "HEAD" o None ∅ d) as [d1 res] eqn:S. intros [= <- <-].
  apply (send_spec (fun m => m = st_objects (net d))) in S as (Cf & Kd & St & S); [|done| |done].
  2: { intros q w Q <-. apply st_reads. right. by destruct Q. }
  split; [done|]. destruct res as [x|e].
  - destruct S as (q & w & Q & Ow & _ & E & Hh). destruct Q as [Qm Qp _ _ Qs]. split.
    + destruct (errorFor x) as [e|] eqn:Ef; [intros ->; by apply errorFor_range in Ef|]. apply errorFor_None in Ef.
      destruct (Z.ltb_spec (ContentLength x) 0); [done|]. rewrite <- Ow. by apply (st_head q w o x).
    + intros (_ & P & Hd & _) bytes B. destruct (Hh Hd) as [Hw Tw]. destruct (Qs P) as [Qa Qq].
      destruct (st_well q w o [] Hw Tw Qa Qq Qp) as [_ We]. rewrite <- Ow in B. destruct (We bytes B) as [We' _].
      destruct (We' Qm) as (x' & E' & O & L). rewrite E in E'. injection E' as <-.
      apply errorFor_None in O. rewrite O, L. destruct (Z.ltb_spec (zlen bytes) 0); [unfold zlen in *; lia|done].
  - destruct S as [-> S]. split; [done|]. intros (Ck & P & Hd & T) bytes B. exfalso. apply S; [done..|].
    intros q w Q Ow Hw Tw. destruct Q as [Qm Qp _ _ Qs]. destruct (Qs P) as [Qa Qq].
    destruct (st_well q w o [] Hw Tw Qa Qq Qp) as [_ We]. rewrite <- Ow in B. destruct (We bytes B) as [We' _].
    destruct (We' Qm) as (x & -> & O & _). by apply answers_ok.
Qed.
End driver.

(** Ranges are told apart by their text. *)
Lemma range_text_inj a b a' b' : 0 <= a <= MaxInt64 -> 0 <= a' <= MaxInt64 -> is_int64 b -> is_int64 b' ->
  range_text a b = range_text a' b' -> a = a' /\ b = b'.
Proof.
  intros Ia Ia' Ib Ib'. unfold range_text. intros E. apply (f_equal (Split "-")) in E.
  assert (forall x y, Split "-" ("bytes=" +:+ FormatInt x +:+ "-" +:+ FormatInt y) = Split "-" ("bytes=" +:+ FormatInt x) ++ Split "-" (FormatInt y)) as R.
  { intros x y. rewrite <- string_app_assoc. change ("-" +:+ FormatInt y) with (String "-" (FormatInt y)). apply Split_app. }
  rewrite !R in E.
  assert (forall x, 0 <= x -> Split "-" ("bytes=" +:+ FormatInt x) = ["bytes=" +:+ FormatInt x]) as O.
  { intros x Hx. apply Split_no_byte. rewrite has_byte_app. simpl. unfold FormatInt. rewrite (proj2 (Z.ltb_ge _ _) Hx).
    by apply has_byte_FormatUint. }
  rewrite !O in E by lia. injection E as E1 E2. split.
  - assert (ParseInt (FormatInt a) = ParseInt (FormatInt a')) as P by (f_equal; exact E1).
    rewrite !ParseInt_FormatInt in P by (unfold is_int64, MinInt64, MaxInt64 in *; lia). congruence.
  - apply (f_equal (Join (String "-" EmptyString))) in E2. rewrite !Join_Split in E2.
    assert (ParseInt (FormatInt b) = ParseInt (FormatInt b')) as P by by rewrite E2.
    rewrite !ParseInt_FormatInt in P by done. congruence.
Qed.

Section reading.
Context {W : Type} `{Network W} `{HH : Hashing} `{XX : Xml} {bkt : string} {c : credentials}.
Context {SS : StoreSpec W bkt c}.
Hypothesis empty_hash : hex_of (sha256 []) = emptyPayload.
Implicit Types d : S3 W.

Lemma zlen_ranged a b bytes : 0 <= a -> a < zlen bytes -> a <= b -> zlen (ranged a b bytes) = Z.min (b + 1) (zlen bytes) - a.
Proof. intros. unfold ranged. rewrite zlen_slice; lia. Qed.

(** What is made of part of an object. *)
Lemma read_partial off len b bytes r rest : 0 <= off -> off < zlen bytes -> off <= b -> 0 < len ->
  ranged off b bytes = Body r ++ rest -> (cut r = false -> rest = []) ->
  (len <= b - off + 1 -> cut r = false -> off + len <= zlen bytes -> read_limited len r = Some (slice off (off + len) bytes)) /\
  (len = b - off + 1 -> cut r = false -> zlen bytes < off + len -> exists buf, read_limited len r = Some buf /\ zlen buf <> len) /\
  forall buf, read_limited len r = Some buf ->
    (zlen buf = len -> off + len <= zlen bytes /\ buf = slice off (off + len) bytes) /\
    (len = b - off + 1 -> zlen buf <> len -> zlen bytes < off + len).
Proof.
  intros O1 O2 O3 L R C. pose proof (zlen_ranged off b bytes O1 O2 O3) as Z. rewrite R, zlen_app in Z.
  assert (0 <= zlen rest) as Zr by (unfold zlen; lia).
  assert (len <= zlen (Body r) -> ztake len (Body r) = slice off (off + len) bytes) as T.
  { intros Le. transitivity (ztake len (ranged off b bytes)).
    - rewrite R. unfold ztake. rewrite take_app_le; [done|]. unfold zlen in Le. lia.
    - unfold ranged, slice, ztake. rewrite take_take. f_equal. lia. }
  unfold read_limited. split_and!.
  - intros Lb Cr Le. rewrite (C Cr) in Z. change (zlen []) with 0 in Z. destruct (Z.leb_spec len (zlen (Body r))); [by rewrite T|lia].
  - intros -> Cr Lt. rewrite (C Cr) in Z. change (zlen []) with 0 in Z.
    destruct (Z.leb_spec (b - off + 1) (zlen (Body r))); [lia|]. rewrite Cr. exists (Body r). split; [done|lia].
  - intros buf. destruct (Z.leb_spec len (zlen (Body r))) as [Le|Lt].
    + intros [= <-]. rewrite T by done. split; [intros _; split; [lia|done]|]. intros -> N. exfalso. apply N.
      rewrite zlen_slice; lia.
    + destruct (cut r) eqn:Cr; [done|]. intros [= <-]. rewrite (C eq_refl) in Z. change (zlen []) with 0 in Z. split; intros; lia.
Qed.

(** What the answer to a ranged request holds. *)
Lemma asked_part plain q w o off b x : asks (bkt := bkt) (c := c) plain "GET" o (Some [range_text off b]) [] q -> 0 <= off <= MaxInt64 ->
  is_int64 b -> (net_do q w).2 = Some x -> StatusCode x = 206 ->
  exists bytes, st_objects w !! o = Some bytes /\ off <= b /\ off < zlen bytes /\
    exists rest, ranged off b bytes = Body x ++ rest /\ (cut x = false -> rest = []).
Proof.
  intros [Qm Qp Qr _ _] Io Ib E S. destruct (st_partial q w o x Qm Qp E S) as (a' & b' & bytes & R & Ia & Ib' & L & B & Lz & Re).
  assert (range_text off b = range_text a' b') as R' by congruence.
  apply range_text_inj in R' as [<- <-]; [|unfold is_int64 in *; lia..]. exists bytes. by split_and!; try lia.
Qed.

(** What a read of [len] bytes of [o] from [off] on [d] comes to. *)
Definition range_read o off len (d : S3 W) (r : result DrvErr (list byte)) : Prop :=
  match r with
  | Ok data => exists bytes, st_objects (net d) !! o = Some bytes /\ off + len <= zlen bytes /\ data = slice off (off + len) bytes
  | Err ErrRange => off + len <= MaxInt64 -> forall bytes, st_objects (net d) !! o = Some bytes -> zlen bytes < off + len
  | Err _ => True
  end /\
  (answering o d -> off + len <= MaxInt64 -> forall bytes, st_objects (net d) !! o = Some bytes ->
     r = if off + len <=? zlen bytes then Ok (slice off (off + len) bytes) else Err ErrRange).

Lemma S3_ReadRange_nothing o off d d' r : at_bucket (bkt := bkt) (c := c) d ->
  ReadRange o off 0 d = (d', r) -> untouched d d' /\ range_read o off 0 d r.
Proof.
  intros A. unfold ReadRange. cbn [Z.eqb].
  destruct (SizeOf o d) as [d1 size] eqn:S. apply (SizeOf_spec empty_hash) in S as (U & S & L); [|done].
  intros [= <- <-]. split; [done|]. unfold range_read. rewrite Z.add_0_r. split.
  - destruct size as [n|e].
    + destruct S as (bytes & B & ->). destruct (Z.ltb_spec (zlen bytes) off).
      * intros _ bytes' B'. rewrite B in B'. by injection B' as <-.
      * exists bytes. by rewrite slice_nil.
    + destruct e; try done.
  - intros An _ bytes B. rewrite (L An bytes B). destruct (Z.ltb_spec (zlen bytes) off), (Z.leb_spec off (zlen bytes)); try lia; [done|].
    by rewrite slice_nil.
Qed.

Lemma S3_ReadRange_spec o off len d d' r : at_bucket (bkt := bkt) (c := c) d -> 0 <= off <= MaxInt64 -> 0 <= len ->
  ReadRange o off len d = (d', r) -> untouched d d' /\ range_read o off len d r.
Proof.
  intros A Io Il. destruct (Z.eqb_spec len 0) as [->|Nz]; [by apply S3_ReadRange_nothing|].
  unfold ReadRange. rewrite (proj2 (Z.eqb_neq _ _) Nz).
  set (b := off +! len -! 1). assert (is_int64 b) as Ib by apply wrap64_range.
  assert (off + len <= MaxInt64 -> b = off + len - 1) as Eb by (intros; unfold b; int64_lia). clearbody b.
  destruct (send "GET" o None _ d) as [d1 res] eqn:S. intros [= <- <-].
  apply (send_spec empty_hash (fun m => m = st_objects (net d))) in S as (Cf & Kd & St & S); [|done| |done].
  2: { intros q w Q <-. apply st_reads. left. by destruct Q. }
  split; [done|]. destruct res as [x|e].
  - destruct S as (q & w & Q & Ow & _ & E & Hh). simpl lookup in Q. rewrite lookup_singleton_eq in Q.
    pose proof (asked_part _ q w o off b x Q Io Ib E) as Part. destruct Q as [Qm Qp Qr _ Qs]. rewrite Ow in Part.
    split.
    + destruct (Z.eqb_spec (StatusCode x) 416) as [S|S].
      * intros Lo bytes B. rewrite <- Ow in B. pose proof (st_unsatisfied q w o x off b bytes Qm Qp E Qr ltac:(lia) Ib S B). lia.
      * destruct (errorFor x) as [e|] eqn:Ef; [destruct e; try done; by apply errorFor_range in Ef|].
        destruct (Z.eqb_spec (StatusCode x) 206) as [S'|]; simpl; [|done].
        destruct (Part S') as (bytes & B & Lb & Lz & rest & R & C). destruct (read_limited len x) as [buf|] eqn:Rl; [|done].
        destruct (read_partial off len b bytes x rest ltac:(lia) Lz Lb ltac:(lia) R C) as (_ & _ & P). destruct (P buf Rl) as [P1 P2].
        destruct (Z.eqb_spec (zlen buf) len) as [Lb'|Nb]; [exists bytes; by destruct (P1 Lb')|].
        intros Lo bytes' B'. rewrite B in B'. injection B' as <-. apply P2; [lia|done].
    + intros (_ & P & Hd & _) Lo bytes B. destruct (Hh Hd) as [Hw Tw]. destruct (Qs P) as [Qa Qq]. pose proof B as B0. rewrite <- Ow in B0.
      destruct (proj2 (st_well q w o [] Hw Tw Qa Qq Qp) bytes B0) as [_ We].
      destruct (We off b Qm Qr ltac:(lia) Ib) as (x' & E' & We'). rewrite E in E'. injection E' as <-.
      destruct (Z.ltb_spec off (zlen bytes)) as [Lz|Lz].
      * destruct We' as [S Cu]. rewrite S. cbn [Z.eqb Pos.eqb negb].
        assert (errorFor x = None) as -> by (apply errorFor_None; unfold ok_status; lia).
        destruct (Part S) as (bytes' & B' & Lb & _ & rest & R & C). rewrite B in B'. injection B' as <-.
        destruct (read_partial off len b bytes x rest ltac:(lia) Lz Lb ltac:(lia) R C) as (P1 & P2 & _).
        destruct (Z.leb_spec (off + len) (zlen bytes)) as [Le|Lt].
        -- rewrite P1 by (try done; lia). rewrite zlen_slice by lia. by rewrite (proj2 (Z.eqb_eq _ _)) by lia.
        -- destruct P2 as (buf & -> & Nb); [lia|done|done|]. by rewrite (proj2 (Z.eqb_neq _ _) Nb).
      * rewrite We'. cbn [Z.eqb Pos.eqb]. by rewrite (proj2 (Z.leb_gt _ _)) by lia.
  - destruct S as [-> S]. split; [done|]. intros (Ck & P & Hd & T) Lo bytes B. exfalso. apply S; [done..|].
    intros q w Q Ow Hw Tw. destruct Q as [Qm Qp Qr _ Qs]. simpl in Qr. rewrite lookup_singleton_eq in Qr. destruct (Qs P) as [Qa Qq].
    rewrite <- Ow in B. destruct (proj2 (st_well q w o [] Hw Tw Qa Qq Qp) bytes B) as [_ We].
    destruct (We off b Qm Qr ltac:(lia) Ib) as (x & -> & We'). unfold no_answer, failed_try.
    destruct (off <? zlen bytes); [destruct We' as [-> _]|rewrite We']; done.
Qed.
End reading.

Section writing.
Context {W : Type} `{Network W} `{HH : Hashing} `{XX : Xml} {bkt : string} {c : credentials}.
Context {SS : StoreSpec W bkt c}.
Hypothesis empty_hash : hex_of (sha256 []) = emptyPayload.
Implicit Types d : S3 W.

(** A change made once or not at all, and made when the driver says so. *)
Definition changed (f : gmap string (list byte) -> gmap string (list byte)) d d' (r : result DrvErr ()) : Prop :=
  same_config d d' /\ (st_sent (net d') <= st_sent (net d) + Z.to_nat (attempts d))%nat /\
  (st_objects (net d') = st_objects (net d) \/ st_objects (net d') = f (st_objects (net d))) /\
  (r = Ok () -> st_objects (net d') = f (st_objects (net d))).

Lemma send_change method o body (f : gmap string (list byte) -> gmap string (list byte)) d d' res :
  at_bucket (bkt := bkt) (c := c) d -> method = "PUT"%string \/ method = "DELETE"%string -> (forall m, f (f m) = f m) ->
  (forall q w, rmethod q = method -> rpath q = key_path bkt o -> rbody q = default [] body ->
     (st_objects (net_do q w).1 = st_objects w \/ st_objects (net_do q w).1 = f (st_objects w)) /\
     (forall r, (net_do q w).2 = Some r -> ok_status r -> st_objects (net_do q w).1 = f (st_objects w))) ->
  send method o body ∅ d = (d', res) -> changed f d d' (answered res) /\ (answering o d -> answered res = Ok ()).
Proof.
  intros A M F P S.
  apply (send_spec empty_hash (fun m' => m' = st_objects (net d) \/ m' = f (st_objects (net d)))) in S as (Cf & Kd & St & S); [|done| |by left].
  2: { intros q w [Qm Qp _ Qb _] K. destruct (proj1 (P q w Qm Qp Qb)) as [-> | ->]; [done|right]. destruct K as [-> | ->]; auto. }
  unfold changed. destruct res as [x|e].
  - destruct S as (q & w & [Qm Qp _ Qb Qs] & Ow & On & E & Hh). split; [split_and!; [done..|]|].
    + unfold answered. destruct (errorFor x) eqn:Ef; [done|]. apply errorFor_None in Ef. intros _.
      rewrite On, (proj2 (P q w Qm Qp Qb) x E Ef). destruct Ow as [-> | ->]; auto.
    + intros (_ & Pl & Hd & _). destruct (Hh Hd) as [Hw Tw]. destruct (Qs Pl) as [Qa Qq].
      destruct (proj1 (st_well q w o [] Hw Tw Qa Qq Qp)) as (x' & E' & O); [by rewrite Qm|]. rewrite E in E'. injection E' as <-.
      unfold answered. apply errorFor_None in O. by rewrite O.
  - destruct S as [-> S]. split; [by split_and!|]. intros (Ck & Pl & Hd & T). exfalso. apply S; [done..|].
    intros q w [Qm Qp _ Qb Qs] _ Hw Tw. destruct (Qs Pl) as [Qa Qq].
    destruct (proj1 (st_well q w o [] Hw Tw Qa Qq Qp)) as (x & -> & O); [by rewrite Qm|]. by apply answers_ok.
Qed.

Lemma WriteObject_spec o data d d' r : at_bucket (bkt := bkt) (c := c) d -> WriteObject o data d = (d', r) ->
  changed (insert o data) d d' r /\ (answering o d -> r = Ok ()).
Proof.
  intros A. unfold WriteObject. destruct (send "PUT" o (Some data) ∅ d) as [d1 res] eqn:S. intros [= <- <-].
  eapply send_change; [done|by left| | |exact S]; [intros; apply insert_insert_eq|]. intros q w Qm Qp Qb. simpl in Qb. subst data. by apply st_put.
Qed.

Lemma DeleteObject_spec o d d' r : at_bucket (bkt := bkt) (c := c) d -> DeleteObject o d = (d', r) ->
  changed (delete o) d d' r /\ (answering o d -> r = Ok ()).
Proof.
  intros A. unfold DeleteObject. destruct (send "DELETE" o None ∅ d) as [d1 res] eqn:S. intros [= <- <-].
  eapply send_change; [done|by right| | |exact S]; [intros; apply delete_delete_eq|]. intros q w Qm Qp _. by apply st_delete.
Qed.

(** A stream of the declared length is written as its bytes would be. *)
Lemma WriteObjectFrom_eq o src size d : WriteObjectFrom o src size d =
  if checkObject o && (zlen src =? size) then WriteObject o src d else (d, Err ErrOther).
Proof.
  unfold WriteObjectFrom, WriteObject, send. destruct (checkObject o); simpl; [|done]. destruct (zlen src =? size); simpl; [|done].
  by destruct (tries _ _ _ _ _).
Qed.
End writing.

(** ** Properties *)

(** C25: the driver reads what the bucket holds. Whatever requests the store fails to
    answer, whatever bodies are cut off and whenever the caller gives up, a read
    that succeeds returns exactly the bytes of the object in the range, a range
    error says truly that the object ends before it, and a size is the object's;
    nothing in the bucket changes and no more requests are sent than the attempts
    allow. And when the store fails fewer requests than that and nobody gives up,
    every read inside an object and every size is answered. *)
Theorem s3_reads_exact {W} `{Network W} `{HH : Hashing} `{XX : Xml} {bkt c} `{SS : !StoreSpec W bkt c} (d : S3 W) o off len :
  hex_of (sha256 []) = emptyPayload -> at_bucket (bkt := bkt) (c := c) d -> 0 <= off <= MaxInt64 -> 0 <= len ->
  (let '(d', r) := ReadRange o off len d in untouched d d' /\
   match r with
   | Ok data => exists bytes, st_objects (net d) !! o = Some bytes /\ off + len <= zlen bytes /\ data = slice off (off + len) bytes
   | Err ErrRange => off + len <= MaxInt64 -> forall bytes, st_objects (net d) !! o = Some bytes -> zlen bytes < off + len
   | Err _ => True
   end /\
   (answering o d -> off + len <= MaxInt64 -> forall bytes, st_objects (net d) !! o = Some bytes ->
      r = if off + len <=? zlen bytes then Ok (slice off (off + len) bytes) else Err ErrRange)) /\
  let '(d', r) := SizeOf o d in untouched d d' /\
  match r with Ok n => exists bytes, st_objects (net d) !! o = Some bytes /\ n = zlen bytes | Err e => e <> ErrRange end /\
  (answering o d -> forall bytes, st_objects (net d) !! o = Some bytes -> r = Ok (zlen bytes)).
Proof.
  intros He A Io Il. split.
  - destruct (ReadRange o off len d) as [d' r] eqn:R. by apply (S3_ReadRange_spec He o off len d d' r A).
  - destruct (SizeOf o d) as [d' r] eqn:R. by apply (SizeOf_spec He o d d' r A).
Qed.

(** C26: the driver writes an object once and whole. However often a write or a
    delete is sent again, the bucket is afterwards as it was or as if it had been
    sent once, every other object untouched, and it is the latter when the driver
    says so, which it does when the store fails fewer requests than the attempts
    allow; a stream that is not as long as declared is not sent at all. *)
Theorem s3_writes_once {W} `{Network W} `{HH : Hashing} `{XX : Xml} {bkt c} `{SS : !StoreSpec W bkt c} (d : S3 W) o data size :
  hex_of (sha256 []) = emptyPayload -> at_bucket (bkt := bkt) (c := c) d ->
  (let '(d', r) := WriteObject o data d in changed (insert o data) d d' r /\ (answering o d -> r = Ok ())) /\
  (let '(d', r) := DeleteObject o d in changed (delete o) d d' r /\ (answering o d -> r = Ok ())) /\
  let '(d', r) := WriteObjectFrom o data size d in
  if zlen data =? size then changed (insert o data) d d' r /\ (answering o d -> r = Ok ()) else d' = d /\ r = Err ErrOther.
Proof.
  intros He A. assert (let '(d', r) := WriteObject o data d in changed (insert o data) d d' r /\ (answering o d -> r = Ok ())) as Wr.
  { destruct (WriteObject o data d) as [d' r] eqn:R. by apply (WriteObject_spec He o data d d' r A). }
  split_and!; [exact Wr| |].
  - destruct (DeleteObject o d) as [d' r] eqn:R. by apply (DeleteObject_spec He o d d' r A).
  - rewrite WriteObjectFrom_eq. destruct (zlen data =? size); [|by rewrite andb_false_r]. rewrite andb_true_r.
    destruct (checkObject o) eqn:Ck; [exact Wr|]. split; [split_and!; [done|lia|by left|done]|]. by intros [Ck' _]; congruence.
Qed.
