(* ===== verification/S3Listing.v ===== *)
(** * S3Listing: what a listing of a bucket shows of a level

    A store lists keys in order, past a key, and rolls what shares a name and a
    separator into one prefix; the driver makes names of the answer. *)

From S2P Require Import Prelude GoStrings GoPath Backend S3Driver S3Theorems.

Local Open Scope Z_scope.

(** ** What the store answers *)

Inductive item : Type := Key (k : string) | Common (p : string).

Fixpoint rolled (full : string) (seen : list string) (keys : list string) : list item :=
  match keys with
  | [] => []
  | k :: keys =>
      let '(name, _, deeper) := Cut slash (TrimPrefix full k) in
      if deeper then
        let p := full +:+ name +:+ "/" in
        if bool_decide (p ∈ seen) then rolled full seen keys else Common p :: rolled full (p :: seen) keys
      else Key k :: rolled full seen keys
  end.

Definition keys_after (objs : gmap string (list byte)) (full after : string) : list string :=
  filter (fun k => HasPrefix full k = true /\ (after = "" \/ str_ltb (full +:+ after) k = true))%string
    (sort_Strings (elements (dom objs))).
Definition items (objs : gmap string (list byte)) (full after : string) : list item := rolled full [] (keys_after objs full after).
Definition as_key (objs : gmap string (list byte)) (i : item) : option (string * Z) :=
  match i with Key k => Some (k, zlen (default [] (objs !! k))) | Common _ => None end.
Definition as_common (i : item) : option string := match i with Common p => Some p | Key _ => None end.
Definition rollup (objs : gmap string (list byte)) (full after : string) (limit : Z) : list (string * Z) * list string :=
  let page := ztake limit (items objs full after) in (omap (as_key objs) page, omap as_common page).

(** ** What a level holds, past a name *)

Definition past (full after k : string) : Prop := (after = "" \/ str_ltb (full +:+ after) k = true)%string.
Definition a_name (n : string) : Prop := n <> ""%string /\ has_byte slash n = false.
Definition listed (objs : gmap string (list byte)) (full after : string) (e : Entry) : Prop :=
  a_name (EName e) /\
  if EDir e then EBytes e = 0 /\ exists rest, is_Some (objs !! (full +:+ EName e +:+ "/" +:+ rest)) /\
    past full after (full +:+ EName e +:+ "/" +:+ rest)
  else exists bytes, objs !! (full +:+ EName e) = Some bytes /\ EBytes e = zlen bytes /\ past full after (full +:+ EName e).

(** ** Lemmas *)

Lemma TrimPrefix_app p r : TrimPrefix p (p +:+ r) = r.
Proof. unfold TrimPrefix. by rewrite (proj2 (CutPrefix_Some p (p +:+ r) r) eq_refl). Qed.
Lemma TrimSuffix_app a x : TrimSuffix x (a +:+ x) = a.
Proof.
  unfold TrimSuffix. rewrite bytes_of_app, rev_app_distr.
  rewrite (proj2 (strip_prefix_Some _ _ (rev (bytes_of a))) eq_refl), rev_involutive. apply string_of_list_ascii_of_string.
Qed.

Section level.
Context (full : string).

Definition deeper (k name : string) : Prop := has_byte slash name = false /\ exists rest, k = full +:+ name +:+ "/" +:+ rest.

Lemma Cut_of_key k : HasPrefix full k = true -> exists name r b, Cut slash (TrimPrefix full k) = (name, r, b) /\
  has_byte slash name = false /\ if b then k = full +:+ name +:+ "/" +:+ r else k = full +:+ name.
Proof.
  intros [x ->]%HasPrefix_iff. rewrite TrimPrefix_app. destruct (Cut slash x) as [[name r] b] eqn:E. exists name, r, b.
  apply Cut_spec in E as [N E]. split_and!; [done..|]. destruct b; [by rewrite E|]. by destruct E as [-> _].
Qed.

Lemma append_inj (a b : string) : full +:+ a = full +:+ b -> a = b.
Proof. intros E. apply (f_equal (TrimPrefix full)) in E. by rewrite !TrimPrefix_app in E. Qed.

Lemma Cut_plain n : has_byte slash n = false -> Cut slash (TrimPrefix full (full +:+ n)) = (n, EmptyString, false).
Proof. intros N. rewrite TrimPrefix_app. by apply Cut_none. Qed.
Lemma Cut_deeper n r : has_byte slash n = false -> Cut slash (TrimPrefix full (full +:+ n +:+ "/" +:+ r)) = (n, r, true).
Proof. intros N. rewrite TrimPrefix_app. by apply (Cut_found slash n r). Qed.

Lemma plain_not_deeper n m r : has_byte slash n = false -> has_byte slash m = false ->
  full +:+ n = full +:+ m +:+ "/" +:+ r -> False.
Proof. intros Hn Hm E. pose proof (Cut_plain n Hn) as C. rewrite E, Cut_deeper in C by done. discriminate. Qed.
Lemma deeper_inj n m r q : has_byte slash n = false -> has_byte slash m = false ->
  full +:+ n +:+ "/" +:+ r = full +:+ m +:+ "/" +:+ q -> n = m.
Proof. intros Hn Hm E. pose proof (Cut_deeper n r Hn) as C. rewrite E, Cut_deeper in C by done. congruence. Qed.

Lemma rolled_key keys : Forall (fun k => HasPrefix full k = true) keys -> forall seen k,
  Key k ∈ rolled full seen keys <-> k ∈ keys /\ exists n, has_byte slash n = false /\ k = full +:+ n.
Proof.
  induction 1 as [|x keys P F IH]; intros seen k; simpl; [rewrite !elem_of_nil; naive_solver|].
  destruct (Cut_of_key x P) as (name & r & b & -> & N & X). destruct b; [case_bool_decide|]; rewrite ?elem_of_cons, IH.
  1,2: split; [naive_solver|]; intros [[-> |I] (n & Hn & E)]; [exfalso|naive_solver];
    apply (plain_not_deeper n name r Hn N); congruence.
  split; [|intros [[-> |I] E]; auto]. intros [[= ->]|[I E]]; [|naive_solver]. split; [by left|]. by exists name.
Qed.

Lemma rolled_common keys : Forall (fun k => HasPrefix full k = true) keys -> forall seen p,
  Common p ∈ rolled full seen keys <-> p ∉ seen /\ exists k n, k ∈ keys /\ deeper k n /\ p = full +:+ n +:+ "/".
Proof.
  induction 1 as [|x keys P F IH]; intros seen p; simpl.
  { rewrite elem_of_nil. split; [done|]. intros (_ & k & n & I & _). by inversion I. }
  destruct (Cut_of_key x P) as (name & r & b & -> & N & X). destruct b; [case_bool_decide as S|]; rewrite ?elem_of_cons, IH.
  - split; [intros (Np & k & n & I & D); split; [done|]; exists k, n; split; [by right|done]|].
    intros (Np & k & n & I & D & ->). split; [done|]. apply elem_of_cons in I as [-> |I]; [|by exists k, n].
    exfalso. destruct D as (Hn & rest & E). assert (n = name) as -> by (apply (deeper_inj n name rest r Hn N); congruence). done.
  - rewrite not_elem_of_cons. split.
    + intros [[= ->]|((_ & Np) & k & n & I & D)].
      * split; [done|]. exists x, name. split_and!; [by left|split; [done|by exists r]|done].
      * split; [done|]. exists k, n. split; [by right|done].
    + intros (Np & k & n & I & D & E). destruct (decide (p = full +:+ name +:+ "/")) as [->|Ne]; [by left|right].
      split; [done|]. exists k, n. split; [|done]. apply elem_of_cons in I as [-> |I]; [|done]. exfalso. apply Ne.
      destruct D as (Hn & rest & Ex). assert (n = name) as -> by (apply (deeper_inj n name rest r Hn N); congruence). done.
  - split.
    + intros [[=]|(Np & k & n & I & D)]. split; [done|]. exists k, n. split; [by right|done].
    + intros (Np & k & n & I & D & E). right. split; [done|]. exists k, n. split; [|done]. apply elem_of_cons in I as [-> |I]; [|done].
      exfalso. destruct D as (Hn & rest & Ex). apply (plain_not_deeper name n rest N Hn). congruence.
Qed.

Lemma rolled_NoDup keys : Forall (fun k => HasPrefix full k = true) keys -> NoDup keys -> forall seen, NoDup (rolled full seen keys).
Proof.
  induction 1 as [|x keys P F IH]; intros ND seen; simpl; [constructor|]. apply NoDup_cons in ND as [Nx ND].
  destruct (Cut_of_key x P) as (name & r & b & -> & N & X). destruct b; [case_bool_decide as S|].
  - by apply IH.
  - constructor; [|by apply IH]. rewrite rolled_common by done. intros [Np _]. apply Np. by left.
  - constructor; [|by apply IH]. rewrite rolled_key by done. by intros [I _].
Qed.
End level.

(** The names made of the store's answer. *)
Definition entry_of (objs : gmap string (list byte)) (full : string) (i : item) : option Entry :=
  match i with
  | Common p => dir_entry full p
  | Key k => object_entry full (k, zlen (default [] (objs !! k)))
  end.

Lemma keys_after_elem objs full after k : k ∈ keys_after objs full after <->
  HasPrefix full k = true /\ past full after k /\ is_Some (objs !! k).
Proof.
  unfold keys_after. rewrite list_elem_of_filter, elem_of_sort_Strings, elem_of_elements, elem_of_dom. unfold past. tauto.
Qed.
Lemma keys_after_prefixed objs full after : Forall (fun k => HasPrefix full k = true) (keys_after objs full after).
Proof. apply Forall_forall. intros k Hk. by apply keys_after_elem in Hk as [? _]. Qed.
Lemma keys_after_NoDup objs full after : NoDup (keys_after objs full after).
Proof. apply NoDup_filter. rewrite sort_Strings_Permutation. apply NoDup_elements. Qed.

(** An item makes the entry of what the level holds. *)
Lemma item_listed objs full after i e : i ∈ items objs full after -> entry_of objs full i = Some e -> listed objs full after e.
Proof.
  intros I. unfold items in I. destruct i as [k|p]; simpl.
  - apply rolled_key in I as [I (n & Hn & ->)]; [|apply keys_after_prefixed]. unfold object_entry. simpl. rewrite TrimPrefix_app.
    destruct (String.eqb_spec n "") as [->|Ne]; [done|]. intros [= <-]. apply keys_after_elem in I as (_ & P & [bytes B]).
    split; [by split|]. simpl. exists bytes. by rewrite B.
  - apply rolled_common in I as (_ & k & n & I & (Hn & rest & ->) & ->); [|apply keys_after_prefixed].
    unfold dir_entry. rewrite TrimPrefix_app, TrimSuffix_app. destruct (String.eqb_spec n "") as [->|Ne]; [done|]. intros [= <-].
    apply keys_after_elem in I as (_ & P & B). split; [by split|]. simpl. split; [done|]. by exists rest.
Qed.

Lemma listed_item objs full after e : listed objs full after e -> exists i, i ∈ items objs full after /\ entry_of objs full i = Some e.
Proof.
  destruct e as [n [] z]; intros [[Ne Hn] L]; simpl in *; unfold items.
  - destruct L as (-> & rest & B & P). exists (Common (full +:+ n +:+ "/")). split.
    + rewrite rolled_common by apply keys_after_prefixed. split; [apply not_elem_of_nil|]. eexists _, n. split_and!; [|split; [done|by exists rest]|done].
      apply keys_after_elem. split_and!; [apply HasPrefix_iff; eauto|done|done].
    + simpl. unfold dir_entry. rewrite TrimPrefix_app, TrimSuffix_app. by rewrite (proj2 (String.eqb_neq _ _) Ne).
  - destruct L as (bytes & B & -> & P). exists (Key (full +:+ n)). split.
    + rewrite rolled_key by apply keys_after_prefixed. split; [|eauto]. apply keys_after_elem. split_and!; [apply HasPrefix_iff; eauto|done|eauto].
    + simpl. unfold object_entry. simpl. rewrite TrimPrefix_app, B. simpl. by rewrite (proj2 (String.eqb_neq _ _) Ne).
Qed.

(** An item is told by its entry. *)
Lemma item_of_entry objs full after i e : i ∈ items objs full after -> entry_of objs full i = Some e ->
  i = if EDir e then Common (full +:+ EName e +:+ "/") else Key (full +:+ EName e).
Proof.
  intros I. unfold items in I. destruct i as [k|p]; simpl.
  - apply rolled_key in I as [_ (n & Hn & ->)]; [|apply keys_after_prefixed]. unfold object_entry. simpl. rewrite TrimPrefix_app.
    destruct (n =? "")%string; [done|]. by intros [= <-].
  - apply rolled_common in I as (_ & k & n & _ & _ & ->); [|apply keys_after_prefixed].
    unfold dir_entry. rewrite TrimPrefix_app, TrimSuffix_app. destruct (n =? "")%string; [done|]. by intros [= <-].
Qed.

Lemma NoDup_omap_inj {A B} (f : A -> option B) (l : list A) :
  (forall x y z, x ∈ l -> y ∈ l -> f x = Some z -> f y = Some z -> x = y) -> NoDup l -> NoDup (omap f l).
Proof.
  intros I N. induction N as [|x l Nx N IH]; simpl; [constructor|].
  assert (NoDup (omap f l)) as N' by (apply IH; intros a b z Ha Hb; apply I; by right).
  destruct (f x) as [z|] eqn:E; [|done]. constructor; [|done]. intros (y & Hy & Ey)%list_elem_of_omap.
  apply Nx. rewrite (I x y z); [done|by left|by right|done|done].
Qed.

#[global] Instance entry_le_trans : Transitive entry_le.
Proof.
  intros x y z. unfold entry_le. intros A B. destruct (str_ltb (EName z) (EName x)) eqn:E; [|done].
  destruct (decide (EName x = EName y)) as [Ex|N]; [rewrite Ex in E; congruence|].
  destruct (str_ltb_total _ _ N) as [L|L]; [|congruence]. by rewrite (str_ltb_trans _ _ _ E L) in B.
Qed.
#[global] Instance entry_le_total : Total entry_le.
Proof. intros x y. unfold entry_le. destruct (str_ltb (EName y) (EName x)) eqn:E; [right|by left]. by apply str_ltb_asym. Qed.

Lemma halves_Permutation objs full l :
  omap (dir_entry full) (omap as_common l) ++ omap (object_entry full) (omap (as_key objs) l) ≡ₚ omap (entry_of objs full) l.
Proof.
  induction l as [|[k|p] l IH]; simpl; [done| |].
  - destruct (object_entry full _); simpl; [|done]. rewrite <- IH. symmetry. apply Permutation_middle.
  - destruct (dir_entry full p); simpl; [|done]. by rewrite IH.
Qed.

Lemma entries_of_spec objs full after limit : 0 < limit ->
  let es := entries_of full limit (rollup objs full after limit).1 (rollup objs full after limit).2 in
  es ≡ₚ omap (entry_of objs full) (ztake limit (items objs full after)) /\ StronglySorted entry_le es.
Proof.
  intros L. cbv zeta. unfold entries_of, rollup. cbn [fst snd]. set (page := ztake limit (items objs full after)).
  pose proof (halves_Permutation objs full page) as P. set (es := _ ++ _) in *.
  assert (zlen (merge_sort entry_le es) <= limit) as Le.
  { unfold zlen. rewrite merge_sort_Permutation, P. assert (length (omap (entry_of objs full) page) <= length page)%nat.
    { clear. induction page as [|i page IH]; simpl; [done|]. destruct (entry_of objs full i); [by apply le_n_S|by apply le_S]. }
    assert (length page <= Z.to_nat limit)%nat by (unfold page, ztake; rewrite length_take; lia). lia. }
  assert (ztake limit (merge_sort entry_le es) = merge_sort entry_le es) as ->.
  { unfold ztake. apply take_ge. unfold zlen in Le. lia. }
  split; [by rewrite merge_sort_Permutation|]. apply StronglySorted_merge_sort; apply _.
Qed.

Section listing.
Context {W : Type} `{Network W} `{HH : Hashing} `{XX : Xml}.

Definition list_request (d : S3 W) (pre after : string) (limit : Z) : request :=
  request_ d "GET" ("/" +:+ bucket d) (Encode (list_query (level_prefix pre) after limit)) ∅ [].
(** The store answers the listing asked for with what it holds. *)
Definition answers_listing (objs : gmap string (list byte)) (d : S3 W) (pre after : string) (limit : Z) : Prop :=
  let '(w, now) := net_now (net d) in
  exists r body, (net_do (sign (list_request d pre after limit) (creds d) emptyPayload now) w).2 = Some r /\
    ok_status r /\ read_limited (8 * 1024 * 1024) r = Some body /\
    xml_listing body = Some (rollup objs (level_prefix pre) after limit).
End listing.

Lemma str_ltb_app p a b : str_ltb (p +:+ a) (p +:+ b) = str_ltb a b.
Proof.
  induction p as [|c p IH]; [done|]. rewrite <- IH. unfold str_ltb. simpl. unfold Ascii.compare. by rewrite N.compare_refl.
Qed.
Lemma str_ltb_longer p b : b <> ""%string -> str_ltb p (p +:+ b) = true.
Proof.
  intros N. induction p as [|c p IH]; [by destruct b|]. rewrite <- IH. unfold str_ltb. simpl. unfold Ascii.compare.
  by rewrite N.compare_refl.
Qed.

(** C28: a listing shows the level. When the store answers a listing, what the driver
    makes of it is in order of names, no more than asked for, nothing twice. Each is
    the name of an object directly under the prefix, past the name asked from, with
    its size; or of a directory, one with an object in it whose key is past that
    name, which a directory asked from always is while it holds anything. When the
    answer was not cut off none is missing. *)
Theorem listing_shows_level {W} `{Network W} `{Hashing} `{Xml} (d : S3 W) objs pre after limit :
  0 < limit -> answers_listing objs d pre after limit ->
  exists es, (List pre after limit d).2 = Ok es /\ StronglySorted entry_le es /\ zlen es <= limit /\ NoDup es /\
    (forall e, e ∈ es -> listed objs (level_prefix pre) after e /\
       (EDir e = false -> after = ""%string \/ str_ltb after (EName e) = true)) /\
    (zlen (items objs (level_prefix pre) after) <= limit -> (forall e, listed objs (level_prefix pre) after e -> e ∈ es) /\
       forall rest, a_name after -> is_Some (objs !! (level_prefix pre +:+ after +:+ "/" +:+ rest)) -> mkEntry after true 0 ∈ es).
Proof.
  intros L A. unfold answers_listing in A. unfold List, do_. destruct (net_now (net d)) as [w now].
  destruct A as (r & body & E & O & Rl & Li). fold (list_request d pre after limit). set (full := level_prefix pre) in *.
  destruct (net_do _ w) as [w' r']. simpl in E. subst r'. simpl. apply errorFor_None in O. rewrite O, Rl, Li.
  destruct (rollup objs full after limit) as [contents prefixes] eqn:Ro.
  destruct (entries_of_spec objs full after limit L) as [P S]. rewrite Ro in P, S. cbn [fst snd] in *.
  exists (entries_of full limit contents prefixes). set (es := entries_of _ _ _ _) in *.
  assert (forall e, e ∈ es <-> exists i, i ∈ ztake limit (items objs full after) /\ entry_of objs full i = Some e) as El.
  { intros e. rewrite P. apply list_elem_of_omap. }
  assert (forall i, i ∈ ztake limit (items objs full after) -> i ∈ items objs full after) as Sub.
  { intros i (j & I & _)%elem_of_take. by apply list_elem_of_lookup_2 in I. }
  split_and!; [done|done| | | |].
  - unfold es, entries_of, ztake, zlen. rewrite length_take. lia.
  - rewrite P. apply NoDup_omap_inj.
    + intros x y e Ix Iy Ex Ey. rewrite (item_of_entry _ _ _ _ _ (Sub _ Ix) Ex). symmetry. by apply (item_of_entry objs full after); [apply Sub|].
    + unfold ztake. apply (NoDup_app _ (drop (Z.to_nat limit) (items objs full after))). rewrite take_drop.
      apply rolled_NoDup; [apply keys_after_prefixed|apply keys_after_NoDup].
  - intros e (i & I & Ei)%El. assert (listed objs full after e) as Le by (eapply item_listed; [by apply Sub|exact Ei]).
    split; [done|]. intros Ed. destruct Le as [_ Le]. rewrite Ed in Le. destruct Le as (bytes & _ & _ & [?|P']); [by left|right].
    by rewrite str_ltb_app in P'.
  - intros Le. assert (forall e, listed objs full after e -> e ∈ es) as All.
    { intros e (i & I & Ei)%listed_item. apply El. exists i. split; [|done]. unfold ztake. rewrite take_ge; [done|]. unfold zlen in Le. lia. }
    split; [done|]. intros rest An B. apply All. split; [done|]. simpl. split; [done|]. exists rest. split; [done|]. right.
    rewrite str_ltb_app. by apply str_ltb_longer.
Qed.

(** C29: what the driver signs is what a store checks. A request for an object, of any
    name, carries the signature the scheme asks for: over its method, its path
    encoded byte by byte, the headers it has, and the hash of its body. So does a
    listing whose prefix and starting name have no space in them; with one, the
    query is not sent in the form it is checked in. *)
Theorem requests_verify {W} `{HH : Hashing} (d : S3 W) method o header body payload now pre after limit :
  payload = hex_of (sha256 body) -> UQuery (endpoint d) = ""%string -> hex_of (sha256 []) = emptyPayload ->
  authentic (creds d) [] (sign (request_ d method (object_path d o) (UQuery (endpoint d)) header body) (creds d) payload now) /\
  let query := list_query (level_prefix pre) after limit in
  let q := sign (list_request d pre after limit) (creds d) emptyPayload now in
  (Forall spaceless query -> authentic (creds d) query q) /\ (rquery q = canonical_query query <-> Forall spaceless query).
Proof.
  intros P U He. split; [by apply sign_authentic|]. cbv zeta. split; [|exact (Encode_scheme _)].
  intros F. apply sign_authentic; [symmetry; exact He|]. by apply Encode_scheme.
Qed.
