(* ===== verification/Conformance.v ===== *)
(** * Conformance: the suite a driver has to pass (driver/conformance)

    The suite drives a driver, mostly through a backend that holds it to its
    declaration, and collects what it found wrong. The fixture's driver and the
    backend's are one object, so there is one state. The run's name, which is the
    clock's, is an argument. *)

From S2P Require Import Prelude GoStrings Backend.

Local Open Scope Z_scope.

Record Fixture : Type := mkFixture {
  FObject : string;
  FContent : list byte;
  FWritablePrefix : string;
}.

(** What the suite reports, an error each. *)
Inductive finding : Type :=
  | TooShort (n : Z)
  | Opening (e : DrvErr)
  | BadContract (n : Z)
  | ClaimedUnknown
  | ReadFailed (case : string) (e : DrvErr)
  | ReadDiffers (case : string) (got want : list byte)
  | ReadPastEnd
  | ReadTooMuch
  | NegativeOffset (e : option DrvErr)
  | SizeFailed (e : DrvErr)
  | SizeDiffers (got want : Z)
  | UndeclaredSucceeded (c : Capability)
  | UndeclaredFailed (c : Capability) (e : DrvErr)
  | WriteFailed (e : DrvErr)
  | ReadBackFailed (e : DrvErr)
  | ReadBackDiffers (got want : list byte)
  | DeleteFailed (e : DrvErr)
  | SurvivedDelete
  | StreamNotRefused (e : option DrvErr)
  | StreamFailed (e : DrvErr)
  | StreamReadFailed (e : DrvErr)
  | StreamDiffers (got want : list byte)
  | StreamSizeDiffers (got want : Z)
  | WrongSizeAccepted (case : string)
  | ListNotRefused (e : option DrvErr)
  | ListedZero
  | RootFailed (e : DrvErr)
  | RootEmpty
  | EmptyName
  | DeepName (n : string)
  | OutOfOrder
  | ListOneFailed (e : DrvErr)
  | ListOneReturned (n : Z)
  | ListAfterFailed (e : DrvErr)
  | NotAfter (after n : string)
  | NowhereFailed (e : DrvErr).

Section suite.
Context {D : Type} `{Driver D}.
Variable f : Fixture.
(** What the run is called, from the clock. *)
Variable name : string.

Record session : Type := mkSession {
  backend : Backend D;
  made : list string;
}.

Definition set_backend (b : Backend D) (s : session) : session := mkSession b (made s).
Definition make (o : string) (s : session) : session := mkSession (backend s) (made s ++ [o]).

Definition scratch (n : Z) : string := FWritablePrefix f +:+ "-" +:+ name +:+ "-" +:+ FormatInt n.

(** A call on the backend. *)
Definition on {A} (call : Backend D -> Backend D * result DrvErr A) (s : session) : session * result DrvErr A :=
  let '(b, r) := call (backend s) in (set_backend b s, r).

(** A call on the driver itself, past the backend. *)
Definition direct {A} (call : D -> D * result DrvErr A) (s : session) : session * option DrvErr :=
  let '(d, r) := call (driver (backend s)) in (set_backend (set_driver d (backend s)) s, to_error r).

Definition cleanup (s : session) : session :=
  if negb (Supports DeleteObjectCap (backend s)) then s
  else fold_left (fun s o => (on (DeleteObject o) s).1) (made s) s.

(** ** The checks *)

Definition check : Type := session -> session * list finding.

(** [sort.SliceIsSorted] *)
Fixpoint in_order (es : list Entry) : bool :=
  match es with
  | a :: (b :: _) as t => negb (str_ltb (EName b) (EName a)) && in_order t
  | _ => true
  end.

Definition name_findings (e : Entry) : list finding :=
  (if (EName e =? "")%string then [EmptyName] else []) ++
  (if has_byte slash (EName e) then [DeepName (EName e)] else []).

(** Asking for the rest after the one name a listing of one gave. *)
Definition list_after (first : list Entry) (s : session) : session * list finding :=
  match first with
  | [e] =>
      let '(s, r) := on (List "" (EName e) 1000) s in
      let failed := match r with Err err => [ListAfterFailed err] | Ok _ => [] end in
      let next := match r with Ok es => es | Err _ => [] end in
      (s, failed ++ omap (fun e' => if str_leb (EName e') (EName e) then Some (NotAfter (EName e) (EName e')) else None) next)
  | _ => (s, [ListOneReturned (zlen first)])
  end.

Definition listing : check := fun s =>
  if negb (Supports ListObjects (backend s)) then
    let '(s, r) := on (List "" "" 10) s in
    (s, match to_error r with Some ErrNotSupported => [] | e => [ListNotRefused e] end)
  else
    let '(s, r) := on (List "" "" 0) s in
    let found := if is_ok r then [ListedZero] else [] in
    let '(s, root) := on (List "" "" 1000) s in
    match root with
    | Err e => (s, found ++ [RootFailed e])
    | Ok [] => (s, found ++ [RootEmpty])
    | Ok root =>
        let found := found ++ concat (name_findings <$> root) ++ (if in_order root then [] else [OutOfOrder]) in
        let '(s, first) := on (List "" "" 1) s in
        match first with
        | Err e => (s, found ++ [ListOneFailed e])
        | Ok first =>
            let '(s, more) := list_after first s in
            let '(s, r) := on (List (scratch 9000 +:+ "-nowhere") "" 10) s in
            (s, found ++ more ++ match r with Err e => [NowhereFailed e] | Ok _ => [] end)
        end
    end.

Definition declaration : check := fun s =>
  let d := declare (backend s) in
  (s, (if Contract d <=? 0 then [BadContract (Contract d)] else []) ++
      (if Supports "something-invented-later" (backend s) then [ClaimedUnknown] else [])).

Definition cases : list (string * (Z * Z)) :=
  let size := zlen (FContent f) in
  [("whole object", (0, size)); ("first byte", (0, 1)); ("last byte", (size - 1, 1));
   ("middle", (1, size - 2)); ("empty range", (0, 0))]%string.

Definition read_case (c : string * (Z * Z)) : check := fun s =>
  let '(n, (off, len)) := c in
  let '(s, r) := on (ReadRange (FObject f) off len) s in
  (s, match r with
      | Err e => [ReadFailed n e]
      | Ok got =>
          let want := slice off (off + len) (FContent f) in
          if bool_decide (got = want) then [] else [ReadDiffers n got want]
      end).

(** One check after another, and what they found together. *)
Fixpoint in_turn (cs : list check) : check := fun s =>
  match cs with
  | [] => (s, [])
  | c :: cs =>
      let '(s, x) := c s in
      let '(s, y) := in_turn cs s in
      (s, x ++ y)
  end.

Definition past_end : check := fun s =>
  let size := zlen (FContent f) in
  let '(s, r1) := on (ReadRange (FObject f) size 1) s in
  let '(s, r2) := on (ReadRange (FObject f) 0 (size + 1)) s in
  let '(s, r3) := on (ReadRange (FObject f) (-1) 1) s in
  (s, (if is_ok r1 then [ReadPastEnd] else []) ++ (if is_ok r2 then [ReadTooMuch] else []) ++
      match to_error r3 with Some ErrRange => [] | e => [NegativeOffset e] end).

Definition ranges : check := in_turn ((read_case <$> cases) ++ [past_end]).

Definition sizes : check := fun s =>
  if negb (Supports ObjectSize (backend s)) then (s, [])
  else
    let '(s, r) := on (SizeOf (FObject f)) s in
    (s, match r with
        | Err e => [SizeFailed e]
        | Ok got => if got =? zlen (FContent f) then [] else [SizeDiffers got (zlen (FContent f))]
        end).

(** What is tried of a driver that does not declare it, and what it may leave. *)
Definition attempts : list (Capability * (session -> session * option DrvErr)) :=
  [(WriteObjectCap, fun s => direct (drv_WriteObject (scratch 1) (bytes_of "x")) (make (scratch 1) s));
   (DeleteObjectCap, direct (drv_DeleteObject (scratch 1)));
   (ObjectSize, direct (drv_SizeOf (FObject f)));
   (Snapshot, direct (drv_SnapshotObject (FObject f)));
   (CloneCap, fun s => direct (drv_CloneObject (FObject f) (scratch 2)) (make (scratch 2) s))].

Definition refusal (decl : Declaration) (a : Capability * (session -> session * option DrvErr)) : check := fun s =>
  if decl_Supports a.1 decl then (s, [])
  else
    let '(s, err) := a.2 s in
    (s, match err with
        | None => [UndeclaredSucceeded a.1]
        | Some ErrNotSupported => []
        | Some e => [UndeclaredFailed a.1 e]
        end).

Definition refusals : check := fun s =>
  in_turn (refusal (drv_Declare (driver (backend s))) <$> attempts) s.

Definition streamBody : list byte := bytes_of "streamed by the conformance suite, without being held".
Definition writeBody : list byte := bytes_of "written by the conformance suite".

(** A source whose size is not what was declared of it. *)
Definition wrong_size (case object : string) (size : Z) : check := fun s =>
  let '(s, r) := on (WriteObjectFrom object streamBody size) s in
  if is_ok r then (make object s, [WrongSizeAccepted case]) else (s, []).

(** The size of what was streamed; a failure to say is not a finding. *)
Definition streamed_size (object : string) : check := fun s =>
  if negb (Supports ObjectSize (backend s)) then (s, [])
  else
    let '(s, r) := on (SizeOf object) s in
    (s, match r with
        | Ok size => if size =? zlen streamBody then [] else [StreamSizeDiffers size (zlen streamBody)]
        | Err _ => []
        end).

Definition streamed : check := fun s =>
  if negb (Supports WriteStream (backend s)) then
    let '(s, r) := on (WriteObjectFrom (scratch 5) (bytes_of "x") 1) s in
    (s, match to_error r with Some ErrNotSupported => [] | e => [StreamNotRefused e] end)
  else
    let object := scratch 5 in
    let s := make object s in
    let '(s, r) := on (WriteObjectFrom object streamBody (zlen streamBody)) s in
    match r with
    | Err e => (s, [StreamFailed e])
    | Ok _ =>
        let '(s, r) := on (ReadRange object 0 (zlen streamBody)) s in
        match r with
        | Err e => (s, [StreamReadFailed e])
        | Ok got =>
            let '(s, more) := in_turn [streamed_size object;
                                       wrong_size "shorter than" (scratch 6) (zlen streamBody + 64);
                                       wrong_size "longer than" (scratch 7) (zlen streamBody - 8)] s in
            (s, (if bool_decide (got = streamBody) then [] else [StreamDiffers streamBody got]) ++ more)
        end
    end.

Definition deleted (object : string) : check := fun s =>
  if negb (Supports DeleteObjectCap (backend s)) then (s, [])
  else
    let '(s, r1) := on (DeleteObject object) s in
    let '(s, r2) := on (ReadRange object 0 1) s in
    (s, match r1 with Err e => [DeleteFailed e] | Ok _ => [] end ++ (if is_ok r2 then [SurvivedDelete] else [])).

Definition declared : check := fun s =>
  if negb (Supports WriteObjectCap (backend s)) then (s, [])
  else
    let object := scratch 3 in
    let s := make object s in
    let '(s, r) := on (WriteObject object writeBody) s in
    match r with
    | Err e => (s, [WriteFailed e])
    | Ok _ =>
        let '(s, r) := on (ReadRange object 0 (zlen writeBody)) s in
        match r with
        | Err e => (s, [ReadBackFailed e])
        | Ok got =>
            let '(s, more) := in_turn [deleted object; streamed] s in
            (s, (if bool_decide (got = writeBody) then [] else [ReadBackDiffers got writeBody]) ++ more)
        end
    end.

Definition checks : list check := [declaration; ranges; sizes; refusals; declared; listing].

(** The suite: what it leaves of the driver, and what it found. *)
Definition Check (d : D) : D * list finding :=
  if zlen (FContent f) <? 4 then (d, [TooShort (zlen (FContent f))])
  else match Open d with
       | Err e => (d, [Opening e])
       | Ok b =>
           let '(s, found) := in_turn checks (mkSession b []) in
           (driver (backend (cleanup s)), found)
       end.
End suite.
