(* ===== verification/S3Serve.v ===== *)
(** * S3Serve: the data server over a bucket

    The driver keeps the contract the data server asks of one, so what the server
    answers from is the bucket; and a small bucket, for the witnesses. *)

From S2P Require Import Prelude GoStrings GoPath Backend Tier DataServer DataServerProofs DataServerTheorems.
From S2P Require Import S3Driver S3Theorems S3Listing.
From S2P Require FileDriver FastTier Conformance.

Local Open Scope Z_scope.

Section contract.
Context {W : Type} `{Network W} `{HH : Hashing} `{XX : Xml} {bkt : string} {c : credentials}.
Context {SS : StoreSpec W bkt c}.
Context (empty_hash : hex_of (sha256 []) = emptyPayload) (objs : gmap string (list byte)).

(** The driver's own state: it is at the bucket, which holds the objects. *)
Definition holds (d : S3 W) : Prop := at_bucket (bkt := bkt) (c := c) d /\ st_objects (net d) = objs.

Lemma untouched_holds d d' : untouched d d' -> holds d -> holds d'.
Proof. intros ((_ & Eb & Ec & Ea) & O & _) [(A1 & A2 & A3) E]. split; [split_and!; congruence|congruence]. Qed.

#[local] Instance S3_Spec : DriverSpec (S3 W) (fun o => objs !! o).
Proof.
  refine {| drv_inv := holds |}; simpl.
  - intros o off len d I. destruct (ReadRange o off len d) as [d' r] eqn:E. simpl.
    apply (untouched_holds d); [|done]. revert E. unfold ReadRange. destruct I as [A _]. destruct (len =? 0).
    + destruct (SizeOf o d) as [d1 s] eqn:S. apply (SizeOf_spec empty_hash) in S as [U _]; [|done]. by intros [= <- <-].
    + destruct (send _ _ _ _ d) as [d1 s] eqn:S.
      apply (send_spec empty_hash (fun m => m = st_objects (net d))) in S as (Cf & Kd & St & _); [by intros [= <- <-]|done| |done].
      intros q w Q <-. apply st_reads. left. by destruct Q.
  - intros o d [A E]. destruct (SizeOf o d) as [d' r] eqn:S. apply (SizeOf_spec empty_hash) in S as [U _]; [|done].
    by apply (untouched_holds d).
  - intros o off len d data [A <-] Io Il R. destruct (ReadRange o off len d) as [d' r] eqn:S. simpl in R. subst r.
    by apply (S3_ReadRange_spec empty_hash) in S as (_ & S & _).
  - intros o off len d bytes [A <-] Io Il Lo R. destruct (ReadRange o off len d) as [d' r] eqn:S. simpl in R. subst r.
    apply (S3_ReadRange_spec empty_hash) in S as (_ & S & _); [|done|lia|done]. by apply S.
  - intros o d n [A <-] R. destruct (SizeOf o d) as [d' r] eqn:S. simpl in R. subst r.
    by apply (SizeOf_spec empty_hash) in S as (_ & S & _).
  - intros o d [A <-] R. destruct (SizeOf o d) as [d' r] eqn:S. simpl in R. subst r.
    by apply (SizeOf_spec empty_hash) in S as (_ & S & _).
Defined.
End contract.

(** C27: a data server over a bucket answers with what the bucket holds. Over any
    cache that keeps its contract and any store that answers as documented, however
    many requests fail and bodies are cut off, every request to the data server is
    answered with exactly the object's bytes in the range, with a true range error,
    or with an error of the driver's. *)
Theorem bucket_served {T W} `{TS : TierSpec T} `{Network W} `{HH : Hashing} `{XX : Xml} {bkt creds} `{SS : !StoreSpec W bkt creds}
    (objs : gmap string (list byte)) (t : T) (b : Backend.Backend (S3 W)) c clk ctx s ops
    (He : hex_of (sha256 []) = emptyPayload) :
  DataServer.New t b c clk ctx = Some s ->
  tier_ok (content_of (fun o => objs !! o) (CBackend c) (tier_BlockSize t)) (costs (tier_BlockSize t) ops) t ->
  holds (bkt := bkt) (c := creds) objs (driver b) -> Forall (in_reach (tier_BlockSize t)) ops ->
  (serve ops s).2.*1 = ops /\ Forall (owed (DS := S3_Spec (bkt := bkt) (c := creds) He objs) (fun o => objs !! o) s) (serve ops s).2.
Proof.
  intros N Ht Hd R. rewrite <- (Nat.add_0_r (costs _ _)) in Ht. set (DS := S3_Spec He objs).
  destruct (New_sinv (DS := DS) (fun o => objs !! o) t b c clk ctx s _ N Ht Hd) as (I & Eb & _).
  rewrite <- Eb in *. by destruct (serve_spec (DS := DS) (fun o => objs !! o) ops 0 s I R) as (_ & _ & ? & ?).
Qed.

(** ** A small bucket

    It fails its next requests with a 503 and checks no signature. *)

Record Small : Type := mkSmall {
  contents : gmap string (list byte);
  failing : nat;
  asked : nat;
}.

Definition range_of (h : string) : option (Z * Z) :=
  let '(x, y, _) := Cut "-" (TrimPrefix "bytes=" h) in
  let '(a, b) := ((ParseInt x).1, (ParseInt y).1) in
  if bool_decide (h = range_text a b) && (0 <=? a) && (a <=? b) && (b <=? MaxInt64) then Some (a, b) else None.

Definition small_get (bytes : list byte) (h : option (list string)) : response :=
  match h with
  | Some [h] =>
      match range_of h with
      | Some (a, b) => if a <? zlen bytes then mkResponse 206 (-1) (ranged a b bytes) false else mkResponse 416 (-1) [] false
      | None => mkResponse 400 (-1) [] false
      end
  | _ => mkResponse 200 (zlen bytes) bytes false
  end.

Definition small_answer (q : request) (m : gmap string (list byte)) : gmap string (list byte) * response :=
  match CutPrefix "/b/" (rpath q) with
  | None => (m, mkResponse 200 (-1) [] false)
  | Some o =>
      if (rmethod q =? "PUT")%string then (<[o := rbody q]> m, mkResponse 200 0 [] false)
      else if (rmethod q =? "DELETE")%string then (delete o m, mkResponse 204 0 [] false)
      else match m !! o with
           | None => (m, mkResponse 404 (-1) [] false)
           | Some bytes => (m, if (rmethod q =? "HEAD")%string then mkResponse 200 (zlen bytes) [] false
                               else small_get bytes (rheader q !! "Range"%string))
           end
  end.
Definition small_do (q : request) (w : Small) : Small * option response :=
  match failing w with
  | S n => (mkSmall (contents w) n (S (asked w)), Some (mkResponse 503 (-1) [] false))
  | O => let '(m, r) := small_answer q (contents w) in (mkSmall m 0 (S (asked w)), Some r)
  end.

#[local] Instance Small_Network : Network Small := {
  net_now w := (w, 0);
  net_do := small_do;
  net_pause _ w := (w, false);
}.

(** Hashes of nothing but their length. *)
Definition empty_digest : list byte := bytes_list
  [227; 176; 196; 66; 152; 252; 28; 20; 154; 251; 244; 200; 153; 111; 185; 36; 39; 174; 65; 228; 100; 155; 147; 76; 164; 149;
   153; 27; 120; 82; 184; 85].
#[local] Instance Small_Hashing : Hashing := { sha256 _ := empty_digest; hmacSHA256 k _ := k }.

Lemma small_empty_hash : hex_of (sha256 []) = emptyPayload.
Proof. vm_compute. reflexivity. Qed.

Lemma range_of_text a b : 0 <= a <= b -> is_int64 b -> range_of (range_text a b) = Some (a, b).
Proof.
  intros L Ib. unfold range_of, range_text. rewrite TrimPrefix_app.
  change ("-" +:+ FormatInt b) with (String "-" (FormatInt b)). rewrite Cut_found.
  2: { unfold FormatInt. rewrite (proj2 (Z.ltb_ge _ _)) by lia. by apply has_byte_FormatUint. }
  rewrite !ParseInt_FormatInt by (unfold is_int64, MinInt64, MaxInt64 in *; lia). cbn [fst snd].
  rewrite bool_decide_true by done. unfold is_int64 in Ib.
  by rewrite (proj2 (Z.leb_le 0 a)), (proj2 (Z.leb_le a b)), (proj2 (Z.leb_le b MaxInt64)) by lia.
Qed.
Lemma range_of_Some h a b : range_of h = Some (a, b) -> h = range_text a b /\ 0 <= a <= b /\ b <= MaxInt64.
Proof.
  unfold range_of. destruct (Cut "-" _) as [[x y] f]. case_bool_decide as E; [|done]. simpl.
  destruct (Z.leb_spec 0 (ParseInt x).1), (Z.leb_spec (ParseInt x).1 (ParseInt y).1), (Z.leb_spec (ParseInt y).1 MaxInt64);
    simpl; try done. by intros [= <- <-].
Qed.

Lemma small_key q o : rpath q = key_path "b" o -> CutPrefix "/b/" (rpath q) = Some o.
Proof. intros ->. by apply CutPrefix_Some. Qed.

Ltac small q w := unfold net_do, Small_Network, small_do; destruct (failing w) eqn:?; [|try done].

#[local] Instance Small_Spec c : StoreSpec Small "b" c.
Proof.
  refine {| st_objects := contents; st_sent := asked; st_trouble := failing; st_healthy _ := True |}; try done.
  - intros q w. small q w. by destruct (small_answer q _).
  - intros q w. small q w. lia.
  - intros q w M. small q w. unfold small_answer. destruct (CutPrefix _ _); [|done].
    assert (rmethod q =? "PUT" = false /\ rmethod q =? "DELETE" = false)%string as [-> ->] by (destruct M as [-> | ->]; done).
    by destruct (contents w !! _).
  - intros q w o r M P. small q w; [|by intros [= <-]]. unfold small_answer. rewrite (small_key q o P), M. simpl.
    destruct (contents w !! o) as [bytes|] eqn:B; simpl; [|by intros [= <-]]. intros [= <-]. unfold small_get.
    destruct (rheader q !! _) as [[|h [|]]|]; simpl; try done. destruct (range_of h) as [[a b]|] eqn:R; [|done].
    apply range_of_Some in R as (-> & L & Lb). destruct (Z.ltb_spec a (zlen bytes)); [|done]. intros _. exists a, b, bytes.
    unfold is_int64, MinInt64, MaxInt64 in *. split_and!; try done; try lia. exists []. by rewrite app_nil_r.
  - intros q w o r a b bytes M P E R L Ib. revert E. small q w; [|by intros [= <-]]. unfold small_answer.
    rewrite (small_key q o P), M. simpl. intros E S B. rewrite B in E. injection E as <-. unfold small_get in S.
    rewrite R, range_of_text in S by done. by destruct (Z.ltb_spec a (zlen bytes)).
  - intros q w o r M P. small q w; [|by intros [= <-] ?; unfold ok_status in *; simpl in *; lia]. unfold small_answer.
    rewrite (small_key q o P), M. simpl. destruct (contents w !! o) as [bytes|]; simpl; intros [= <-] O L; [by exists bytes|].
    unfold ok_status in O. simpl in O. lia.
  - intros q w o M P. small q w; [|split; [by left|intros r [= <-] O; unfold ok_status in O; simpl in O; lia]].
    unfold small_answer. rewrite (small_key q o P), M. simpl. split; [by right|done].
  - intros q w o M P. small q w; [|split; [by left|intros r [= <-] O; unfold ok_status in O; simpl in O; lia]].
    unfold small_answer. rewrite (small_key q o P), M. simpl. split; [by right|done].
  - intros q w o query _ T _ _ P. unfold net_do, Small_Network, small_do. rewrite T. unfold small_answer. rewrite (small_key q o P).
    split; [intros [-> | ->]; simpl; eexists; split; [done|unfold ok_status; simpl; lia|done|unfold ok_status; simpl; lia]|].
    intros bytes B. split.
    + intros ->. simpl. rewrite B. simpl. eexists. split; [done|]. split; [unfold ok_status; simpl; lia|done].
    + intros a b -> R L Ib. simpl. rewrite B. simpl. unfold small_get. rewrite R, range_of_text by done. eexists. split; [done|].
      by destruct (a <? zlen bytes).
Defined.

Definition wbucket : S3 Small :=
  mkS3 (mkURL "http" "store:9000" "") "b" (mkCredentials "key" "secret" "us-east-1") 3 (100 * Millisecond)
    (mkSmall {[ "d/c"%string := bytes_of "abc" ]} 2 0).
Definition wobjects : gmap string (list byte) :=
  list_to_map ((fun k => (k, bytes_of k)) <$> ["a.txt"; "a/x"; "a/y/z"; "b"; "d/"; "d/x"; "d/y"]%string).
#[local] Instance wxml : Xml := { xml_code _ := ""%string; xml_listing _ := Some (rollup wobjects "" "" 10) }.

Lemma wbucket_at : at_bucket (bkt := "b") (c := creds wbucket) wbucket.
Proof. by split. Qed.

(** Two requests fail, and the third is answered. *)
Lemma s3_reads_exact_witness :
  (ReadRange "d/c" 1 2 wbucket).2 = Ok (bytes_of "bc") /\ asked (net (ReadRange "d/c" 1 2 wbucket).1) = 3%nat /\
  (SizeOf "d/c" wbucket).2 = Ok 3.
Proof.
  assert (contents (net wbucket) !! "d/c"%string = Some (bytes_of "abc")) as B by (simpl; apply lookup_singleton_eq).
  assert (answering (SS := Small_Spec (creds wbucket)) "d/c" wbucket) as A by (split_and!; [vm_compute; reflexivity|done..|simpl; lia]).
  pose proof (s3_reads_exact (SS := Small_Spec (creds wbucket)) wbucket "d/c" 1 2 small_empty_hash wbucket_at
    ltac:(unfold MaxInt64; lia) ltac:(lia)) as [R S].
  assert (asked (net (ReadRange "d/c" 1 2 wbucket).1) = 3%nat) as E by (vm_compute; reflexivity).
  destruct (ReadRange "d/c" 1 2 wbucket) as [d1 r]. destruct (SizeOf "d/c" wbucket) as [d2 n].
  destruct R as (_ & _ & R), S as (_ & _ & S). split_and!.
  - simpl. rewrite (R A ltac:(unfold MaxInt64; lia) _ B). vm_compute. reflexivity.
  - exact E.
  - simpl. by rewrite (S A _ B).
Defined.

Lemma s3_writes_once_witness :
  (WriteObjectFrom "d/n" (bytes_of "new") 3 wbucket).2 = Ok () /\
  contents (net (WriteObjectFrom "d/n" (bytes_of "new") 3 wbucket).1) = <["d/n"%string := bytes_of "new"]> (contents (net wbucket)).
Proof.
  assert (answering (SS := Small_Spec (creds wbucket)) "d/n" wbucket) as A by (split_and!; [vm_compute; reflexivity|done..|simpl; lia]).
  pose proof (s3_writes_once (SS := Small_Spec (creds wbucket)) wbucket "d/n" (bytes_of "new") 3 small_empty_hash wbucket_at)
    as (_ & _ & S).
  destruct (WriteObjectFrom "d/n" (bytes_of "new") 3 wbucket) as [d r]. simpl in S. destruct S as ((_ & _ & _ & S) & L).
  simpl. split; [by apply L|]. by apply S, L.
Defined.

Lemma listing_shows_level_witness :
  (List "" "" 10 (set_net (mkSmall ∅ 0 0) wbucket)).2 =
    Ok [mkEntry "a" true 0; mkEntry "a.txt" false 5; mkEntry "b" false 1; mkEntry "d" true 0] /\
  forall e, e ∈ [mkEntry "a" true 0; mkEntry "a.txt" false 5; mkEntry "b" false 1; mkEntry "d" true 0] <-> listed wobjects "" "" e.
Proof.
  destruct (listing_shows_level (set_net (mkSmall ∅ 0 0) wbucket) wobjects "" "" 10) as (es & E & _ & _ & _ & L & A); [lia| |].
  - simpl. eexists _, []. split; [reflexivity|]. split; [unfold ok_status; simpl; lia|]. split; vm_compute; reflexivity.
  - assert ((List "" "" 10 (set_net (mkSmall ∅ 0 0) wbucket)).2 =
      Ok [mkEntry "a" true 0; mkEntry "a.txt" false 5; mkEntry "b" false 1; mkEntry "d" true 0]) as E' by (vm_compute; reflexivity).
    rewrite E in E'. injection E' as ->. split; [exact E|]. intros e. split; [apply L|]. apply A. vm_compute. discriminate.
Defined.

(** Asked for one name at a time, past the last one seen, the pages of a level go
    round: the store lists past a key, and a level's keys are past its name. *)
Example pages_go_round :
  let page after := let '(c, p) := rollup wobjects "" after 1 in EName <$> entries_of "" 1 c p in
  page ""%string = ["a.txt"]%string /\ page "a.txt"%string = ["a"]%string /\ page "a"%string = ["a.txt"]%string.
Proof. vm_compute. split_and!; reflexivity. Qed.

(** A marker of the level itself is counted by the store and dropped by the driver,
    so a page may be short with more to come. *)
Example marker_shortens_page :
  let page after := let '(c, p) := rollup wobjects "d/" after 2 in EName <$> entries_of "d/" 2 c p in
  page ""%string = ["x"]%string /\ page "x"%string = ["y"]%string.
Proof. vm_compute. split_and!; reflexivity. Qed.

Definition wbacked : Backend.Backend (S3 Small) := Backend.mkBackend wbucket true true S3Driver.declared None.
Definition wserving : option (Server FaultyCache (S3 Small)) := DataServer.New wtier wbacked wconfig [] [].

(** The last read runs past the end of the object. *)
Lemma bucket_served_witness :
  exists s, wserving = Some s /\ (serve wops s).2.*1 = wops /\
    last (serve wops s).2 = Some (Request "t" "d/c" 2 2, Some (Err (ErrDriver Backend.ErrRange))).
Proof.
  destruct wserving as [s|] eqn:E; [|discriminate]. exists s. split_and!; [done| |].
  - apply (bucket_served (SS := Small_Spec (creds wbucket)) {[ "d/c"%string := bytes_of "abc" ]} wtier wbacked wconfig [] [] s wops
      small_empty_hash E).
    + apply wtier_ok. vm_compute. discriminate.
    + split; [apply wbucket_at|done].
    + repeat constructor; vm_compute; discriminate.
  - unfold wserving in E. vm_compute in E. injection E as <-. vm_compute. reflexivity.
Defined.

Lemma requests_verify_witness :
  authentic (creds wbucket) [] (sign (request_ wbucket "PUT" (object_path wbucket "a b/c") "" ∅ (bytes_of "x")) (creds wbucket)
    (hex_of (sha256 (bytes_of "x"))) 0) /\
  Encode (list_query (level_prefix "a b") "" 10) <> canonical_query (list_query (level_prefix "a b") "" 10).
Proof.
  destruct (requests_verify wbucket "PUT" "a b/c" ∅ (bytes_of "x") (hex_of (sha256 (bytes_of "x"))) 0 "a b" "" 10 eq_refl eq_refl
    small_empty_hash) as (A & _ & E).
  split; [exact A|]. intros X. apply E in X. destruct (proj1 (Forall_forall _ _) X ("prefix", "a b/")%string) as [_ N];
    [right; right; right; left|discriminate N].
Defined.

(** * A bucket the suite fails over

    The suite asks for one name, and then for what is past it. A store lists past a
    key, and what is in a level is past the level's name: over a bucket whose first
    name is a level the driver gives the same name again, which the suite refuses. *)

(** A bucket whose first name is a level. The store answers listings as one does: by
    key, past a key, what shares a name and a separator as one prefix. *)
Definition lobjects : gmap string (list byte) := list_to_map [("d/c"%string, bytes_of "abcdefgh"); ("w-1-5"%string, Conformance.streamBody)].
Definition small_listing (q : request) (w : Small) : Small * option response :=
  if (rpath q =? "/b")%string then (w, Some (mkResponse 200 (-1) (bytes_of (rquery q)) false)) else small_do q w.
#[local] Existing Instance Small_Hashing.
#[local] Instance Listed_Network : Network Small := {
  net_now w := (w, 0);
  net_do := small_listing;
  net_pause _ w := (w, false);
}.
(** The answer to a query is spelled by the query. *)
#[local] Instance lxml : Xml := {
  xml_code _ := ""%string;
  xml_listing b :=
    head (omap (fun '(full, after, limit) => if bool_decide (b = bytes_of (Encode (list_query full after limit)))
                                             then Some (rollup lobjects full after limit) else None)
      [("", "", 1000); ("", "", 1); ("", "d", 1000); ("w-1-9000-nowhere/", "", 10)]%string);
}.
Definition lbucket : S3 Small := set_net (mkSmall {[ "d/c"%string := bytes_of "abcdefgh" ]} 0 0) wbucket.
Example level_first_fails :
  (Conformance.Check (Conformance.mkFixture "d/c" (bytes_of "abcdefgh") "w") "1" lbucket).2 = [Conformance.NotAfter "d" "d"].
Proof. vm_compute. reflexivity. Qed.
