(* ===== verification/ConformanceTheorems.v ===== *)
(** * ConformanceTheorems: which drivers pass the suite

    A driver that does what it declares and refuses the rest passes, and is left
    holding what it held. The driver over a directory is one; the driver over an
    object store is not one over every bucket. *)

From S2P Require Import Prelude GoStrings Backend Conformance.
From S2P Require FileDriver.

Local Open Scope Z_scope.

Abbreviation entry_lt := FileDriver.entry_lt.

(** ** A driver that keeps its word *)

(** Names of the run's with different numbers. *)
Ltac apart H := repeat (apply elem_of_cons in H as [-> |H]; [vm_compute; discriminate|]); by apply elem_of_nil in H.

Section honest.
Context {D : Type} `{Driver D}.
(** What the driver holds, where it is well, and what it declares. *)
Context (obj : D -> string -> option (list byte)) (well : D -> Prop) (decl : Declaration).
Context (f : Fixture) (name : string).

Abbreviation ours o := (exists n, o = scratch f name n).
Abbreviation declares c := (decl_Supports c decl = true).
Abbreviation undeclared c := (decl_Supports c decl = false).

(** A call leaves every object as it was, [but] perhaps one. *)
Definition leaves (but : option (string * option (list byte))) (d d' : D) : Prop :=
  well d' /\ forall o, obj d' o = match but with Some (x, v) => if decide (o = x) then v else obj d o | None => obj d o end.

Definition answers_read (d : D) (o : string) (off len : Z) (r : result DrvErr (list byte)) : Prop :=
  match obj d o with
  | Some b => if off + len <=? zlen b then r = Ok (slice off (off + len) b) else is_ok r = false
  | None => is_ok r = false
  end.

Definition a_page (d : D) (after : string) (limit : Z) (es : list Entry) : Prop :=
  StronglySorted entry_lt es /\ zlen es <= limit /\
  (forall e, e ∈ es -> EName e <> ""%string /\ has_byte slash (EName e) = false /\
     (after = ""%string \/ str_ltb after (EName e) = true)) /\
  (after = ""%string -> forall o, is_Some (obj d o) -> es <> []).

Definition refuses {A} (c : Capability) (call : D -> D * result DrvErr A) : Prop := forall d,
  undeclared c -> well d -> leaves None d (call d).1 /\ (call d).2 = Err ErrNotSupported.

Record Honest : Prop := {
  h_valid : decl_Validate decl = None;
  h_known : undeclared "something-invented-later";
  h_declare d : well d -> drv_Declare d = decl;
  h_read d o off len : well d -> 0 <= off -> 0 <= len -> off + len <= MaxInt64 ->
    leaves None d (drv_ReadRange o off len d).1 /\ answers_read d o off len (drv_ReadRange o off len d).2;
  h_size d o b : declares ObjectSize -> well d -> obj d o = Some b ->
    leaves None d (drv_SizeOf o d).1 /\ (drv_SizeOf o d).2 = Ok (zlen b);
  h_no_write o data : refuses WriteObjectCap (drv_WriteObject o data);
  h_no_delete o : refuses DeleteObjectCap (drv_DeleteObject o);
  h_no_size o : refuses ObjectSize (drv_SizeOf o);
  h_no_snapshot o : refuses Snapshot (drv_SnapshotObject o);
  h_no_clone o to : refuses CloneCap (drv_CloneObject o to);
  h_write d o data : declares WriteObjectCap -> well d -> ours o -> obj d o = None ->
    leaves (Some (o, Some data)) d (drv_WriteObject o data d).1 /\ (drv_WriteObject o data d).2 = Ok ();
  h_delete d o : declares DeleteObjectCap -> well d -> ours o ->
    leaves (Some (o, None)) d (drv_DeleteObject o d).1 /\ (drv_DeleteObject o d).2 <> Err ErrDenied /\
    (is_Some (obj d o) -> (drv_DeleteObject o d).2 = Ok ());
  h_streams : declares WriteStream -> is_Some (drv_WriteObjectFrom (D := D));
  h_stream w d o src size : drv_WriteObjectFrom = Some w -> declares WriteStream -> well d -> ours o -> obj d o = None ->
    0 <= size < MaxInt64 ->
    if size =? zlen src then leaves (Some (o, Some src)) d (w o src size d).1 /\ (w o src size d).2 = Ok ()
    else leaves None d (w o src size d).1 /\ exists e, (w o src size d).2 = Err e /\ e <> ErrDenied;
  h_lists : declares ListObjects -> is_Some (drv_List (D := D));
  h_list l d after limit : drv_List = Some l -> declares ListObjects -> well d -> 0 < limit ->
    leaves None d (l "" after limit d).1 /\
    exists es, (l "" after limit d).2 = Ok es /\ a_page d after limit es;
  h_nowhere l d : drv_List = Some l -> declares ListObjects -> well d ->
    let pre := scratch f name 9000 +:+ "-nowhere" in
    leaves None d (l pre "" 10 d).1 /\ is_ok (l pre "" 10 d).2 = true;
}.

Context (HO : Honest).
(** What the store held before the run, nothing of it the run's. *)
Context (base : string -> option (list byte)) (fresh : forall n, base (scratch f name n) = None).
Context (here : base (FObject f) = Some (FContent f)) (long : 4 <= zlen (FContent f) < MaxInt64).

Record holds (s : session (D := D)) : Prop := {
  at_well : well (driver (backend s));
  at_open : denied (backend s) = None /\ declare (backend s) = decl /\
    lister (backend s) = decl_Supports ListObjects decl /\ streamer (backend s) = decl_Supports WriteStream decl;
  at_ours : Forall (fun o => ours o) (made s);
  at_base o : o ∉ made s -> obj (driver (backend s)) o = base o;
}.

(** A check that finds nothing, and makes at most these. *)
Definition quiet_at (l : list string) (c : check) (s : session (D := D)) : Prop :=
  (c s).2 = [] /\ holds (c s).1 /\ made (c s).1 ⊆ made s ++ l.
Definition quiet (l : list string) (c : check) : Prop := forall s, holds s -> quiet_at l c s.

Lemma Supports_decl s c : holds s -> Supports c (backend s) = decl_Supports c decl.
Proof. intros [_ (Dn & De & _) _ _]. unfold Supports, is_denied. by rewrite Dn, De. Qed.

(** ** Calls on the backend *)

(** What a call that is not denied makes of a session. *)
Definition moved (d : D) (s : session (D := D)) : session := set_backend (set_driver d (backend s)) s.

Lemma moved_holds but d s : holds s -> leaves but (driver (backend s)) d ->
  (match but with Some (o, _) => o ∈ made s | None => True end) -> holds (moved d s).
Proof.
  intros [W O M B] [W' L] I. constructor; [done..|]. intros o No. simpl in *. rewrite L, <- (B o No).
  destruct but as [[x v]|]; [|done]. case_decide; [by subst|done].
Qed.
Lemma obj_moved d s o : obj (driver (backend (moved d s))) o = obj d o. Proof. done. Qed.

Lemma on_guarded {A} c (call : D -> D * result DrvErr A) s : (call (driver (backend s))).2 <> Err ErrDenied ->
  on (guarded c call) s = (moved (call (driver (backend s))).1 s, (call (driver (backend s))).2).
Proof.
  unfold on, guarded. destruct (call (driver (backend s))) as [d r]. simpl. intros N.
  by destruct r as [a|[]].
Qed.

Lemma on_ReadRange o off len s : holds s -> 0 <= off -> 0 <= len -> off + len <= MaxInt64 ->
  exists d r, on (ReadRange o off len) s = (moved d s, r) /\ leaves None (driver (backend s)) d /\
    answers_read (driver (backend s)) o off len r.
Proof.
  intros Hs Ho Hl Hm. destruct (h_read HO (driver (backend s)) o off len) as [L A]; [apply Hs|done..|].
  unfold on, ReadRange. rewrite (proj2 (Z.ltb_ge off 0)), (proj2 (Z.ltb_ge len 0)) by lia. simpl.
  destruct (drv_ReadRange o off len (driver (backend s))) as [d r]. by exists d, r.
Qed.

Lemma on_supported {A} c (call : D -> D * result DrvErr A) s : holds s -> declares c ->
  (call (driver (backend s))).2 <> Err ErrDenied ->
  on (fun b => if negb (Supports c b) then (b, Err ErrNotSupported) else guarded c call b) s =
    (moved (call (driver (backend s))).1 s, (call (driver (backend s))).2).
Proof.
  intros Hs Dc N. rewrite <- (on_guarded c) by done. unfold on. by rewrite (Supports_decl s c Hs), Dc.
Qed.

Lemma fixture_held s : holds s -> obj (driver (backend s)) (FObject f) = Some (FContent f).
Proof.
  intros Hs. rewrite (at_base s Hs); [done|]. intros I. pose proof (at_ours s Hs) as F.
  rewrite Forall_forall in F. destruct (F _ I) as [n E]. rewrite E, fresh in here. done.
Qed.

Lemma make_holds o s : ours o -> holds s -> holds (make o s).
Proof.
  intros O [W C M B]. constructor; [done..| |].
  - simpl. apply Forall_app. by split; [|constructor].
  - simpl. intros x N. apply B. set_solver.
Qed.

(** ** The checks, one by one *)

Lemma quiet_weaken l l' c : l ⊆ l' -> quiet l c -> quiet l' c.
Proof. intros L Q s Hs. destruct (Q s Hs) as (? & ? & M). split_and!; [done..|set_solver]. Qed.

Lemma in_turn_quiet l cs : Forall (quiet l) cs -> quiet l (in_turn cs).
Proof.
  intros F. induction F as [|c cs Q F IH]; intros s Hs; [split_and!; [done..|set_solver]|]. unfold quiet_at. simpl.
  destruct (Q s Hs) as (E & H1 & M1). destruct (c s) as [s1 x]. simpl in *. subst x.
  destruct (IH s1 H1) as (E & H2 & M2). destruct (in_turn cs s1) as [s2 y]. simpl in *. subst y.
  split_and!; [done..|set_solver].
Qed.

Lemma declaration_quiet : quiet [] declaration.
Proof.
  intros s Hs. unfold quiet_at, declaration. simpl. rewrite (Supports_decl s _ Hs), (h_known HO).
  destruct (at_open s Hs) as (_ & -> & _). pose proof (h_valid HO) as V. unfold decl_Validate in V.
  destruct (Contract decl <=? 0); [done|]. split_and!; [done..|set_solver].
Qed.

(** A call that leaves what the driver holds leaves the session's hold on it. *)
Lemma moved_quiet d s : holds s -> leaves None (driver (backend s)) d -> holds (moved d s).
Proof. intros Hs L. by apply (moved_holds None). Qed.

Lemma read_case_quiet c : c ∈ cases f -> quiet [] (read_case f c).
Proof.
  intros I s Hs. destruct c as [n [off len]].
  assert (0 <= off /\ 0 <= len /\ off + len <= zlen (FContent f)) as (Io & Il & Le).
  { unfold cases in I. repeat (apply elem_of_cons in I as [I|I]; [injection I as _ -> ->; lia|]). by apply elem_of_nil in I. }
  destruct (on_ReadRange (FObject f) off len s Hs) as (d & r & E & L & A); [lia..|]. unfold quiet_at. simpl. rewrite E. simpl.
  unfold answers_read in A. rewrite (fixture_held s Hs), (proj2 (Z.leb_le _ _) Le) in A. subst r. rewrite bool_decide_true by done.
  split_and!; [done|by apply moved_quiet|set_solver].
Qed.

Lemma past_end_quiet : quiet [] (past_end f).
Proof.
  intros s Hs. unfold quiet_at, past_end.
  destruct (on_ReadRange (FObject f) (zlen (FContent f)) 1 s Hs) as (d1 & r1 & E1 & L1 & A1); [lia..|]. rewrite E1.
  assert (holds (moved d1 s)) as H1 by by apply moved_quiet.
  destruct (on_ReadRange (FObject f) 0 (zlen (FContent f) + 1) (moved d1 s) H1) as (d2 & r2 & E2 & L2 & A2); [lia..|]. rewrite E2.
  assert (holds (moved d2 (moved d1 s))) as H2 by by apply moved_quiet.
  unfold answers_read in A1, A2. rewrite (fixture_held _ Hs) in A1. rewrite (fixture_held _ H1) in A2.
  rewrite (proj2 (Z.leb_gt (zlen (FContent f) + 1) _)) in A1 by lia.
  rewrite (proj2 (Z.leb_gt (0 + (zlen (FContent f) + 1)) _)) in A2 by lia. rewrite A1, A2. split_and!; [done|exact H2|set_solver].
Qed.

Lemma ranges_quiet : quiet [] (ranges f).
Proof.
  apply in_turn_quiet, Forall_app. split; [|apply Forall_singleton, past_end_quiet].
  apply Forall_fmap, Forall_forall. intros c. apply read_case_quiet.
Qed.

Lemma sizes_quiet : quiet [] (sizes f).
Proof.
  intros s Hs. unfold quiet_at, sizes. rewrite (Supports_decl s _ Hs).
  destruct (decl_Supports ObjectSize decl) eqn:Dc; cbn [negb]; [|split_and!; [done..|set_solver]].
  destruct (h_size HO (driver (backend s)) (FObject f) (FContent f) Dc) as [L R]; [apply Hs|by apply fixture_held|].
  unfold SizeOf. rewrite on_supported by (done || by rewrite R). rewrite R, Z.eqb_refl.
  split_and!; [done|by apply moved_quiet|set_solver].
Qed.

Lemma direct_refused {A} c (call : D -> D * result DrvErr A) s : refuses c call -> undeclared c -> holds s ->
  exists d, direct call s = (moved d s, Some ErrNotSupported) /\ holds (moved d s).
Proof.
  intros R U Hs. destruct (R (driver (backend s)) U) as [L E]; [apply Hs|]. unfold direct.
  destruct (call (driver (backend s))) as [d r]. simpl in *. subst r. exists d. split; [done|]. by apply moved_quiet.
Qed.

Lemma refusal_quiet a : a ∈ attempts f name -> quiet [scratch f name 1; scratch f name 2] (refusal decl a).
Proof.
  intros I s Hs. unfold quiet_at, refusal. destruct (decl_Supports a.1 decl) eqn:U; [split_and!; [done..|set_solver]|].
  assert (forall n, holds (make (scratch f name n) s)) as Hm by (intros n; apply make_holds; [by exists n|done]).
  assert (exists s', a.2 s = (s', Some ErrNotSupported) /\ holds s' /\ made s' ⊆ made s ++ [scratch f name 1; scratch f name 2]) as K.
  { unfold attempts in I. repeat (apply elem_of_cons in I as [-> |I]; [|]); [| | | | |by apply elem_of_nil in I]; cbn [fst snd] in U |- *.
    - destruct (direct_refused _ _ _ (h_no_write HO (scratch f name 1) (bytes_of "x")) U (Hm 1)) as (d & E & Hd).
      rewrite E. eexists. split_and!; [done..|simpl; set_solver].
    - destruct (direct_refused _ _ _ (h_no_delete HO (scratch f name 1)) U Hs) as (d & E & Hd).
      rewrite E. eexists. split_and!; [done..|simpl; set_solver].
    - destruct (direct_refused _ _ _ (h_no_size HO (FObject f)) U Hs) as (d & E & Hd).
      rewrite E. eexists. split_and!; [done..|simpl; set_solver].
    - destruct (direct_refused _ _ _ (h_no_snapshot HO (FObject f)) U Hs) as (d & E & Hd).
      rewrite E. eexists. split_and!; [done..|simpl; set_solver].
    - destruct (direct_refused _ _ _ (h_no_clone HO (FObject f) (scratch f name 2)) U (Hm 2)) as (d & E & Hd).
      rewrite E. eexists. split_and!; [done..|simpl; set_solver]. }
  destruct K as (s' & E & H' & M). rewrite E. by split_and!.
Qed.

Lemma refusals_quiet : quiet [scratch f name 1; scratch f name 2] (refusals f name).
Proof.
  intros s Hs. pose proof (h_declare HO _ (at_well s Hs)) as E.
  change (quiet_at [scratch f name 1; scratch f name 2]
            (in_turn (refusal (drv_Declare (driver (backend s))) <$> attempts f name)) s).
  rewrite E. clear E. revert s Hs.
  apply in_turn_quiet, Forall_fmap, Forall_forall. intros a. apply refusal_quiet.
Qed.

(** ** What the run writes *)

(** A call that makes, or removes, an object of the run's. *)
Lemma moved_wrote o v d s : holds s -> o ∈ made s -> leaves (Some (o, v)) (driver (backend s)) d ->
  holds (moved d s) /\ obj (driver (backend (moved d s))) o = v.
Proof.
  intros Hs I L. split; [by apply (moved_holds (Some (o, v)))|]. destruct L as [_ L]. rewrite obj_moved, L.
  by rewrite decide_True.
Qed.

Lemma not_made n s : holds s -> scratch f name n ∉ made s -> obj (driver (backend s)) (scratch f name n) = None.
Proof. intros Hs I. by rewrite (at_base s Hs). Qed.

Lemma on_stream w o src size s : drv_WriteObjectFrom = Some w -> declares WriteStream -> holds s -> 0 <= size ->
  (w o src size (driver (backend s))).2 <> Err ErrDenied ->
  on (WriteObjectFrom o src size) s = (moved (w o src size (driver (backend s))).1 s, (w o src size (driver (backend s))).2).
Proof.
  intros Ew Dc Hs Sz N. rewrite <- (on_guarded WriteStream) by done. unfold on, WriteObjectFrom.
  rewrite Ew, (Supports_decl s _ Hs), Dc. destruct (at_open s Hs) as (_ & _ & _ & ->). by rewrite Dc, (proj2 (Z.ltb_ge _ _)).
Qed.

Lemma on_list l pre after limit s : drv_List = Some l -> declares ListObjects -> holds s -> 0 < limit ->
  (l pre after limit (driver (backend s))).2 <> Err ErrDenied ->
  on (List pre after limit) s = (moved (l pre after limit (driver (backend s))).1 s, (l pre after limit (driver (backend s))).2).
Proof.
  intros El Dc Hs Lm N. rewrite <- (on_guarded ListObjects) by done. unfold on, List.
  rewrite El, (Supports_decl s _ Hs), Dc. destruct (at_open s Hs) as (_ & _ & -> & _). by rewrite Dc, (proj2 (Z.leb_gt _ _)).
Qed.

Lemma wrong_size_quiet case n size s : 0 <= size < MaxInt64 -> size <> zlen streamBody -> holds s ->
  declares WriteStream -> scratch f name n ∉ made s -> quiet_at [] (wrong_size case (scratch f name n) size) s.
Proof.
  intros Sz Ne Hs Dc I. unfold quiet_at, wrong_size. destruct (h_streams HO Dc) as [w Ew].
  pose proof (h_stream HO w (driver (backend s)) (scratch f name n) streamBody size Ew Dc (at_well s Hs)
    ltac:(by eexists) (not_made n s Hs I) Sz) as W.
  rewrite (proj2 (Z.eqb_neq _ _) Ne) in W. destruct W as (L & e & R & Nd).
  rewrite (on_stream w) by (done || lia || rewrite R; congruence). rewrite R.
  split_and!; [done|by apply moved_quiet|set_solver].
Qed.

(** Reading back the whole of what was just written. *)
Lemma on_read_back o b s : holds s -> obj (driver (backend s)) o = Some b -> zlen b <= MaxInt64 ->
  exists d, on (ReadRange o 0 (zlen b)) s = (moved d s, Ok b) /\ holds (moved d s) /\
    obj (driver (backend (moved d s))) o = Some b.
Proof.
  intros Hs E Le. pose proof (zlen_nonneg b). destruct (on_ReadRange o 0 (zlen b) s Hs) as (d & r & E' & L & A); [lia..|].
  unfold answers_read in A. rewrite E, Z.add_0_l, Z.leb_refl, slice_all in A. subst r. exists d. split_and!; [done|by apply moved_quiet|].
  destruct L as [_ L]. by rewrite obj_moved, L.
Qed.

Lemma streamed_size_quiet o s : holds s -> obj (driver (backend s)) o = Some streamBody -> quiet_at [] (streamed_size o) s.
Proof.
  intros Hs E. unfold quiet_at, streamed_size. rewrite (Supports_decl s _ Hs).
  destruct (decl_Supports ObjectSize decl) eqn:Dc; cbn [negb]; [|split_and!; [done..|set_solver]].
  destruct (h_size HO (driver (backend s)) o streamBody Dc (at_well s Hs) E) as [L R].
  unfold SizeOf. rewrite on_supported by (done || by rewrite R). rewrite R, Z.eqb_refl.
  split_and!; [done|by apply moved_quiet|set_solver].
Qed.

Lemma in_turn_cons l1 l c cs s : quiet_at l1 c s -> l1 ⊆ l ->
  (forall s', holds s' -> made s' ⊆ made s ++ l1 -> quiet_at l (in_turn cs) s') -> quiet_at l (in_turn (c :: cs)) s.
Proof.
  intros (E & H1 & M1) Sub K. unfold quiet_at. simpl. destruct (c s) as [s1 x]. simpl in *. subst x.
  destruct (K s1 H1 M1) as (E & H2 & M2). destruct (in_turn cs s1) as [s2 y]. simpl in *. subst y.
  split_and!; [done..|set_solver].
Qed.

Lemma scratch_ne n m : FormatInt n <> FormatInt m -> scratch f name n <> scratch f name m.
Proof. intros N E. apply N. unfold scratch in E. by do 4 apply string_app_inj in E. Qed.

Lemma make_fresh n s : holds s -> scratch f name n ∉ made s ->
  holds (make (scratch f name n) s) /\ obj (driver (backend (make (scratch f name n) s))) (scratch f name n) = None.
Proof. intros Hs I. split; [apply make_holds; [by eexists|done]|exact (not_made n s Hs I)]. Qed.

Lemma streamed_quiet s : holds s -> (forall n, n ∈ [5; 6; 7] -> scratch f name n ∉ made s) ->
  quiet_at [scratch f name 5] (streamed f name) s.
Proof.
  intros Hs I. unfold quiet_at, streamed. rewrite (Supports_decl s _ Hs).
  destruct (decl_Supports WriteStream decl) eqn:Dc; cbn [negb].
  2: { assert (on (WriteObjectFrom (scratch f name 5) (bytes_of "x") 1) s = (s, Err ErrNotSupported)) as ->.
       { unfold on, WriteObjectFrom. rewrite (Supports_decl s _ Hs), Dc.
         destruct drv_WriteObjectFrom; by destruct s. }
       split_and!; [done..|set_solver]. }
  destruct (make_fresh 5 s Hs (I 5 ltac:(set_solver))) as [H1 F1]. set (s1 := make _ s) in *.
  destruct (h_streams HO Dc) as [w Ew].
  pose proof (h_stream HO w (driver (backend s1)) (scratch f name 5) streamBody (zlen streamBody) Ew Dc (at_well s1 H1)
    ltac:(by eexists) F1 ltac:(vm_compute; split; congruence)) as W. rewrite Z.eqb_refl in W. destruct W as [L R].
  rewrite (on_stream w) by (done || rewrite R; congruence). rewrite R.
  destruct (moved_wrote (scratch f name 5) (Some streamBody) _ s1 H1 ltac:(simpl; set_solver) L) as [H2 O2].
  destruct (on_read_back _ _ _ H2 O2 ltac:(vm_compute; congruence)) as (d3 & -> & H3 & O3).
  set (s3 := moved d3 _) in *. assert (made s3 = made s ++ [scratch f name 5]) as M3 by done.
  assert (forall n, n ∈ [6; 7] -> scratch f name n ∉ made s3) as I3.
  { intros n Hn. rewrite M3. specialize (I n). assert (scratch f name n <> scratch f name 5) by (apply scratch_ne; apart Hn). set_solver. }
  assert (quiet_at [] (in_turn [streamed_size (scratch f name 5);
      wrong_size "shorter than" (scratch f name 6) (zlen streamBody + 64);
      wrong_size "longer than" (scratch f name 7) (zlen streamBody - 8)]) s3) as (E & H4 & M4).
  { apply (in_turn_cons []); [by apply streamed_size_quiet|done|]. intros s4 H4 M4.
    apply (in_turn_cons []); [apply wrong_size_quiet; (done || (vm_compute; (split; congruence) || congruence) || set_solver)|done|]. intros s5 H5 M5.
    apply (in_turn_cons []); [apply wrong_size_quiet; (done || (vm_compute; (split; congruence) || congruence) || set_solver)|done|]. intros s6 H6 M6.
    split_and!; [done..|set_solver]. }
  destruct (in_turn _ s3) as [s4 more]. simpl in E, H4, M4. subst more. rewrite bool_decide_true by done.
  split_and!; [done..|]. simpl. set_solver.
Qed.

Lemma deleted_quiet o s : ours o -> holds s -> o ∈ made s -> is_Some (obj (driver (backend s)) o) -> quiet_at [] (deleted o) s.
Proof.
  intros Oo Hs I S. unfold quiet_at, deleted. rewrite (Supports_decl s _ Hs).
  destruct (decl_Supports DeleteObjectCap decl) eqn:Dc; cbn [negb]; [|split_and!; [done..|set_solver]].
  destruct (h_delete HO (driver (backend s)) o Dc (at_well s Hs) Oo) as (L & Nd & R).
  unfold DeleteObject. rewrite on_supported by done. rewrite (R S).
  destruct (moved_wrote o None _ s Hs I L) as [H1 O1]. set (s1 := moved _ s) in *.
  destruct (on_ReadRange o 0 1 s1 H1) as (d & r & -> & L2 & A); [lia..|done|].
  unfold answers_read in A. rewrite O1 in A. rewrite A. split_and!; [done|by apply moved_quiet|set_solver].
Qed.

Lemma declared_quiet s : holds s -> (forall n, n ∈ [3; 5; 6; 7] -> scratch f name n ∉ made s) ->
  quiet_at [scratch f name 3; scratch f name 5] (declared f name) s.
Proof.
  intros Hs I. unfold quiet_at, declared. rewrite (Supports_decl s _ Hs).
  destruct (decl_Supports WriteObjectCap decl) eqn:Dc; cbn [negb]; [|split_and!; [done..|set_solver]].
  destruct (make_fresh 3 s Hs (I 3 ltac:(set_solver))) as [H1 F1]. set (s1 := make _ s) in *.
  destruct (h_write HO (driver (backend s1)) (scratch f name 3) writeBody Dc (at_well s1 H1) ltac:(by eexists) F1) as [L R].
  unfold WriteObject. rewrite on_supported by (done || by rewrite R). rewrite R.
  destruct (moved_wrote (scratch f name 3) (Some writeBody) _ s1 H1 ltac:(simpl; set_solver) L) as [H2 O2].
  destruct (on_read_back _ _ _ H2 O2 ltac:(vm_compute; congruence)) as (d3 & -> & H3 & O3).
  set (s3 := moved d3 _) in *. assert (made s3 = made s ++ [scratch f name 3]) as M3 by done.
  assert (quiet_at [scratch f name 5] (in_turn [deleted (scratch f name 3); streamed f name]) s3) as (E & H4 & M4).
  { apply (in_turn_cons []).
    - apply deleted_quiet; [by eexists|done|rewrite M3; set_solver|by rewrite O3].
    - set_solver.
    - intros s4 H4 M4. apply (in_turn_cons [scratch f name 5]); [|done|intros s5 H5 M5; split_and!; [done..|set_solver]].
      apply streamed_quiet; [done|]. intros n Hn. specialize (I n).
      assert (scratch f name n <> scratch f name 3) by (apply scratch_ne; apart Hn).
      set_solver. }
  destruct (in_turn _ s3) as [s4 more]. simpl in E, H4, M4. subst more. rewrite bool_decide_true by done.
  split_and!; [done..|]. simpl. set_solver.
Qed.

(** ** What the suite asks of a listing *)

Lemma in_order_sorted es : StronglySorted entry_lt es -> in_order es = true.
Proof.
  intros S. induction S as [|a es S IH F]; [done|]. destruct es as [|b es]; [done|].
  change (in_order (a :: b :: es)) with (negb (str_ltb (EName b) (EName a)) && in_order (b :: es)).
  rewrite IH, andb_true_r. inversion F as [|? ? L _]; subst. unfold FileDriver.entry_lt in L. by rewrite (str_ltb_asym _ _ L).
Qed.

Lemma page_names d after limit es : a_page d after limit es -> concat (name_findings <$> es) = [].
Proof.
  intros (_ & _ & N & _). induction es as [|e es IH]; [done|]. rewrite fmap_cons. cbn [concat]. rewrite IH by (intros; apply N; set_solver).
  destruct (N e ltac:(set_solver)) as (Ne & Ns & _). unfold name_findings. apply String.eqb_neq in Ne. by rewrite Ne, Ns.
Qed.

Lemma page_past d after limit es : after <> ""%string -> a_page d after limit es ->
  omap (fun e' => if str_leb (EName e') after then Some (NotAfter after (EName e')) else None) es = [].
Proof.
  intros Na (_ & _ & N & _). induction es as [|e es IH]; [done|]. simpl.
  destruct (N e ltac:(set_solver)) as (_ & _ & [|L]); [done|]. unfold str_leb. rewrite L. simpl. apply IH.
  intros; apply N; set_solver.
Qed.

Lemma on_root_list l after limit s : drv_List = Some l -> declares ListObjects -> holds s -> 0 < limit ->
  exists d es, on (List "" after limit) s = (moved d s, Ok es) /\ holds (moved d s) /\
    a_page (driver (backend s)) after limit es.
Proof.
  intros El Dc Hs L. destruct (h_list HO l (driver (backend s)) after limit El Dc (at_well s Hs) L) as (Lv & es & R & P).
  rewrite (on_list l) by (done || by rewrite R). rewrite R. eexists _, es. split_and!; [done|by apply moved_quiet|done].
Qed.

Lemma list_after_quiet l first s : drv_List = Some l -> declares ListObjects -> holds s ->
  a_page (driver (backend s)) "" 1 first -> quiet_at [] (list_after first) s.
Proof.
  intros El Dc Hs P. destruct first as [|e [|]].
  - destruct P as (_ & _ & _ & N). destruct (N eq_refl (FObject f)); [by rewrite (fixture_held s Hs)|done].
  - unfold quiet_at, list_after. destruct (on_root_list l (EName e) 1000 s El Dc Hs) as (d & es & -> & Hd & P'); [lia|].
    rewrite (page_past _ _ _ _ ltac:(apply (proj1 (proj2 (proj2 P)) e); set_solver) P'). split_and!; [done|done|set_solver].
  - destruct P as (_ & Le & _). rewrite !zlen_cons in Le. pose proof (zlen_nonneg l0). lia.
Qed.

Lemma listing_quiet : quiet [] (listing f name).
Proof.
  intros s Hs. unfold quiet_at, listing. rewrite (Supports_decl s _ Hs).
  destruct (decl_Supports ListObjects decl) eqn:Dc; cbn [negb].
  2: { assert (on (List "" "" 10) s = (s, Err ErrNotSupported)) as ->.
       { unfold on, List. rewrite (Supports_decl s _ Hs), Dc. destruct drv_List; by destruct s. }
       split_and!; [done..|set_solver]. }
  destruct (h_lists HO Dc) as [l El].
  assert (on (List "" "" 0) s = (s, Err ErrNotSupported)) as ->.
  { unfold on, List. rewrite El. destruct (_ || _); by destruct s. }
  destruct (on_root_list l "" 1000 s El Dc Hs) as (d1 & root & -> & H1 & P1); [lia|]. cbn [is_ok].
  destruct root as [|e root].
  { destruct P1 as (_ & _ & _ & N). destruct (N eq_refl (FObject f)); [by rewrite (fixture_held s Hs)|done]. }
  rewrite (page_names _ _ _ _ P1), (in_order_sorted _ (proj1 P1)).
  destruct (on_root_list l "" 1 _ El Dc H1) as (d2 & first & -> & H2 & P2); [lia|].
  assert (a_page (driver (backend (moved d2 (moved d1 s)))) "" 1 first) as P2'.
  { destruct P2 as (? & ? & ? & N). split_and!; [done..|]. intros _ o So. apply (N eq_refl (FObject f)). by rewrite (fixture_held _ H1). }
  destruct (list_after_quiet l first _ El Dc H2 P2') as (E & H3 & M3). destruct (list_after first _) as [s3 more].
  simpl in E, H3, M3. subst more.
  destruct (h_nowhere HO l (driver (backend s3)) El Dc (at_well s3 H3)) as [Lv R].
  rewrite (on_list l) by (done || by destruct (l _ _ _ _) as [? []]). split_and!.
  - by destruct (l _ _ _ _) as [? []].
  - by apply moved_quiet.
  - set_solver.
Qed.

(** ** The run *)

Lemma start_holds d : well d -> (forall o, obj d o = base o) ->
  exists b, Open d = Ok b /\ driver b = d /\ holds (mkSession b []).
Proof.
  intros W B. unfold Open. rewrite (h_declare HO d W), (h_valid HO).
  assert (forall A c (o : option A), (declares c -> is_Some o) -> decl_Supports c decl && negb (bool_decide (is_Some o)) = false) as K.
  { intros A c o I. destruct (decl_Supports c decl); [|done]. by rewrite bool_decide_true by by apply I. }
  rewrite !K by apply HO. eexists. split_and!; [done..|]. by constructor.
Qed.

Lemma cleanup_spec s : holds s -> declares DeleteObjectCap ->
  well (driver (backend (cleanup s))) /\ forall o, obj (driver (backend (cleanup s))) o = base o.
Proof.
  intros Hs Dc. unfold cleanup. rewrite (Supports_decl s _ Hs), Dc. cbn [negb].
  assert (forall l s, holds s -> l ⊆ made s -> (forall o, o ∈ made s -> o ∉ l -> obj (driver (backend s)) o = base o) ->
    let s' := fold_left (fun s o => (on (DeleteObject o) s).1) l s in
    well (driver (backend s')) /\ forall o, obj (driver (backend s')) o = base o) as G.
  2: { apply G; [done..|]. set_solver. }
  clear s Hs. intros l. induction l as [|x l IH]; intros s Hs Sub B; simpl.
  - split; [apply Hs|]. intros o. destruct (decide (o ∈ made s)) as [I|I]; [apply B; set_solver|by apply (at_base s Hs)].
  - pose proof (at_ours s Hs) as F. rewrite Forall_forall in F. destruct (F x ltac:(set_solver)) as [n E].
    destruct (h_delete HO (driver (backend s)) x Dc (at_well s Hs) ltac:(by exists n)) as (L & Nd & _).
    assert ((on (DeleteObject x) s).1 = moved (drv_DeleteObject x (driver (backend s))).1 s) as ->
      by (unfold DeleteObject; by rewrite on_supported).
    destruct (moved_wrote x None _ s Hs ltac:(set_solver) L) as [H1 O1]. apply IH; [done|set_solver|].
    intros o I No. destruct (decide (o = x)) as [->|N]; [by rewrite O1, E, fresh|].
    rewrite obj_moved. destruct L as [_ ->]. rewrite decide_False by done. apply B; [done|set_solver].
Qed.

Lemma honest_passes d : well d -> (forall o, obj d o = base o) ->
  (Check f name d).2 = [] /\
  (declares DeleteObjectCap -> forall o, obj (Check f name d).1 o = base o).
Proof.
  intros W B. unfold Check. rewrite (proj2 (Z.ltb_ge _ _)) by lia. destruct (start_holds d W B) as (b & -> & Eb & Hs).
  assert (quiet_at [scratch f name 1; scratch f name 2; scratch f name 3; scratch f name 5]
    (in_turn (checks f name)) (mkSession b [])) as (E & H' & _).
  { unfold checks. apply (in_turn_cons []); [by apply declaration_quiet|set_solver|]. intros s1 H1 M1.
    apply (in_turn_cons []); [by apply ranges_quiet|set_solver|]. intros s2 H2 M2.
    apply (in_turn_cons []); [by apply sizes_quiet|set_solver|]. intros s3 H3 M3.
    apply (in_turn_cons [scratch f name 1; scratch f name 2]); [by apply refusals_quiet|set_solver|]. intros s4 H4 M4.
    apply (in_turn_cons [scratch f name 3; scratch f name 5]); [apply declared_quiet; [done|]|set_solver|].
    - intros n Hn. assert (scratch f name n <> scratch f name 1 /\ scratch f name n <> scratch f name 2) as [N1 N2].
      { split; apply scratch_ne; apart Hn. }
      clear Hn. simpl in *. set_solver.
    - intros s5 H5 M5. apply (in_turn_cons []); [by apply listing_quiet|set_solver|]. intros s6 H6 M6.
      split_and!; [done..|set_solver]. }
  destruct (in_turn _ _) as [s found]. simpl in *. subst found. split; [done|]. intros Dc. by apply cleanup_spec.
Qed.
End honest.

(** ** The driver over a directory passes *)

Section directory.
Import FileDriver.
Context (f : Fixture) (name : string).

(** The level the run's names are in, and what one is called there. *)
Definition above : list string := removelast (Split slash (FWritablePrefix f)).
Definition leaf (n : Z) : string :=
  default EmptyString (last (Split slash (FWritablePrefix f))) +:+ "-" +:+ name +:+ "-" +:+ FormatInt n.

Definition a_segment (s : string) : Prop := bad_segment s = false /\ has_byte slash s = false.

(** A tree as a filesystem has one: below a file there is nothing. *)
Record tree_ok (t : fs) : Prop := {
  tree_parents q n : is_Some (t !! (q ++ [n])) -> at_path q t = Some Dir;
  tree_names p : is_Some (t !! p) -> Forall a_segment p;
}.

(** Nothing fails, no file is where the run needs a level, and no level where it
    needs a name. *)
Record room (d : FileStore) : Prop := {
  room_calm : faults d = [] /\ ctx_done d = false;
  room_tree : tree_ok (tree d);
  room_above q b : q <> [] -> q `prefix_of` above -> tree d !! q <> Some (File b);
  room_names n : tree d !! (above ++ [leaf n]) <> Some Dir;
}.

Context (Hname : has_byte slash name = false) (Habove : existsb bad_segment above = false).

Lemma dashed_segment x s : bad_segment (x +:+ "-" +:+ s) = false.
Proof.
  assert (has_byte "-" (x +:+ "-" +:+ s) = true) as N by (rewrite has_byte_app; simpl; by rewrite orb_true_r).
  unfold bad_segment. set (y := x +:+ "-" +:+ s) in *. clearbody y.
  by repeat (match goal with |- context [(y =? ?z)%string] => destruct (String.eqb_spec y z) as [->|_]; [done|] end).
Qed.

Lemma path_dashed s : has_byte slash s = false ->
  path (FWritablePrefix f +:+ "-" +:+ s) = Some (above ++ [default EmptyString (last (Split slash (FWritablePrefix f))) +:+ "-" +:+ s]).
Proof.
  intros N. unfold path. destruct (String.eqb_spec (FWritablePrefix f +:+ "-" +:+ s) "") as [E|_].
  { destruct (FWritablePrefix f); discriminate. }
  rewrite Split_app_plain by by rewrite has_byte_app, N. fold above.
  rewrite existsb_app, Habove. cbn [existsb]. by rewrite dashed_segment.
Qed.

Lemma scratch_path n : path (scratch f name n) = Some (above ++ [leaf n]).
Proof.
  unfold scratch. rewrite path_dashed; [done|]. rewrite !has_byte_app, Hname. by rewrite has_byte_FormatInt.
Qed.

Lemma segments_of o p : path o = Some p -> Forall a_segment p.
Proof.
  unfold path. destruct (o =? "")%string; [done|]. destruct (existsb bad_segment (Split "/" o)) eqn:E; [done|]. intros [= <-].
  pose proof (Split_segments slash o) as S. rewrite Forall_forall in *. intros x Hx. split; [|by apply S].
  destruct (bad_segment x) eqn:B; [|done]. rewrite <- not_true_iff_false, existsb_exists in E. destruct E. exists x.
  split; [by apply list_elem_of_In|done].
Qed.

(** *** Levels and files in a tree *)

Lemma tree_insert t q n nd : tree_ok t -> at_path q t = Some Dir -> a_segment n -> Forall a_segment q -> t !! (q ++ [n]) = None ->
  tree_ok (<[q ++ [n] := nd]> t).
Proof.
  intros [P S] D A Aq N. split.
  - intros q' n' I. rewrite at_path_insert by by destruct q. case_decide as E.
    + subst q'. assert (is_Some (t !! ((q ++ [n]) ++ [n']))) as I'.
      { rewrite lookup_insert_ne in I; [done|]. intros E. apply (f_equal length) in E. rewrite !length_app in E. simpl in E. lia. }
      apply P in I'. destruct q; simpl in *; congruence.
    + destruct (decide (q' ++ [n'] = q ++ [n])) as [E'|N']; [by apply app_inj_tail in E' as [-> _]|].
      rewrite lookup_insert_ne in I by done. by apply (P q' n').
  - intros p I. destruct (decide (p = q ++ [n])) as [->|Np]; [by apply Forall_app; split; [|apply Forall_singleton]|].
    rewrite lookup_insert_ne in I by done. by apply S.
Qed.

Lemma tree_delete t p b : tree_ok t -> t !! p = Some (File b) -> tree_ok (delete p t).
Proof.
  intros [P S] F. split.
  - intros q n [x I]. apply lookup_delete_Some in I as [Ne I]. pose proof (P q n ltac:(by eexists)) as D.
    destruct q as [|y q]; [done|]. simpl in *. rewrite lookup_delete_ne; [done|]. congruence.
  - intros q [x I]. apply lookup_delete_Some in I as [Ne I]. apply S. by eexists.
Qed.

Lemma mkdir_all_ok todo : forall done_ t, tree_ok t -> at_path done_ t = Some Dir -> Forall a_segment (done_ ++ todo) ->
  (forall q b, q <> [] -> q `prefix_of` todo -> t !! (done_ ++ q) <> Some (File b)) ->
  exists t', mkdir_all done_ todo t = Some t' /\ tree_ok t' /\ at_path (done_ ++ todo) t' = Some Dir /\
    forall q, t' !! q = t !! q \/ t' !! q = Some Dir /\ exists k, k `prefix_of` todo /\ q = done_ ++ k.
Proof.
  induction todo as [|n todo IH]; intros done_ t Tk D A N; simpl.
  - exists t. rewrite app_nil_r. by split_and!; [..|auto].
  - assert (t !! (done_ ++ [n]) = Some Dir \/ t !! (done_ ++ [n]) = None) as K.
    { pose proof (fun b => N [n] b ltac:(done) ltac:(by exists todo)) as N'. destruct (t !! (done_ ++ [n])) as [[b|]|]; [by destruct (N' b)|auto..]. }
    assert (forall t1, tree_ok t1 -> t1 !! (done_ ++ [n]) = Some Dir -> (forall q, q <> done_ ++ [n] -> t1 !! q = t !! q) ->
      exists t', mkdir_all (done_ ++ [n]) todo t1 = Some t' /\ tree_ok t' /\ at_path (done_ ++ n :: todo) t' = Some Dir /\
        forall q, t' !! q = t !! q \/ t' !! q = Some Dir /\ exists k, k `prefix_of` n :: todo /\ q = done_ ++ k) as G.
    { intros t1 T1 D1 S1. destruct (IH (done_ ++ [n]) t1) as (t' & E & T' & D' & C); [done| | | |].
      - destruct (done_ ++ [n]) eqn:E; [by destruct done_|exact D1].
      - by rewrite <- app_assoc.
      - intros q b Nq Pq. rewrite <- app_assoc. simpl. rewrite S1.
        + apply N; [done|]. by apply prefix_cons.
        + intros E. apply app_inv_head in E. destruct q; [done|discriminate].
      - exists t'. rewrite <- app_assoc in D'. split_and!; [done..|]. intros q. destruct (C q) as [Cq|(Cq & k & Pk & ->)].
        + destruct (decide (q = done_ ++ [n])) as [->|Ne]; [|left; by rewrite Cq, S1].
          right. split; [by rewrite Cq|]. exists [n]. split; [by exists todo|done].
        + right. split; [done|]. exists (n :: k). split; [by apply prefix_cons|]. by rewrite <- app_assoc. }
    destruct K as [E|E]; rewrite E.
    + apply G; [done..|]. done.
    + apply G; [|apply lookup_insert_eq|intros q Nq; by rewrite lookup_insert_ne].
      apply Forall_app in A as [A1 A2]. apply Forall_cons in A2 as [A2 _]. by apply tree_insert.
Qed.

(** *** What each operation leaves *)

Abbreviation leaves := (leaves (fun d o => object_at (tree d) o) room).

Lemma room_same d d' : room d -> tree d' = tree d -> faults d' = [] -> ctx_done d' = false -> leaves None d d'.
Proof. intros [C T A N] E F X. split; [|intros o; by rewrite E]. by constructor; rewrite ?E. Qed.

Lemma room_fault d : room d -> next_fault d = NoFault.
Proof. intros [[F _] _ _ _]. unfold next_fault. by rewrite F. Qed.

Lemma room_step d t : room d -> faults (step t d) = [] /\ ctx_done (step t d) = false.
Proof. intros [[F X] _ _ _]. simpl. by rewrite F. Qed.

Lemma path_inj o o' p : path o = Some p -> path o' = Some p -> o = o'.
Proof.
  assert (forall x q, path x = Some q -> x = Join "/" q) as J.
  { intros x q. unfold path. destruct (x =? "")%string; [done|]. cbv zeta.
    destruct (existsb bad_segment (Split "/" x)); [done|]. intros [= <-]. symmetry. exact (Join_Split slash x). }
  intros E E'. by rewrite (J o p E), (J o' p E').
Qed.

Lemma no_name d n : room d -> object_at (tree d) (scratch f name n) = None -> tree d !! (above ++ [leaf n]) = None.
Proof.
  intros R. unfold object_at. rewrite scratch_path. pose proof (room_names d R n) as N.
  destruct (above ++ [leaf n]) as [|x p] eqn:E; [by destruct above|]. simpl. by destruct (tree d !! _) as [[b|]|].
Qed.

Lemma prefix_short (q : list string) n : q `prefix_of` above -> q <> above ++ [n].
Proof. intros P E. apply prefix_length in P. rewrite E, length_app in P. simpl in P. lia. Qed.

(** A file at one of the run's names: where it goes, and what is left with it there
    and with it gone again. *)
Lemma create_room d n : room d -> object_at (tree d) (scratch f name n) = None ->
  exists t, create (above ++ [leaf n]) NoFault (tree d) = (t, true) /\
    (forall data d', tree d' = <[above ++ [leaf n] := File data]> t -> faults d' = [] -> ctx_done d' = false ->
       leaves (Some (scratch f name n, Some data)) d d') /\
    (forall d', tree d' = delete (above ++ [leaf n]) t -> faults d' = [] -> ctx_done d' = false -> leaves None d d').
Proof.
  intros R N. pose proof (no_name d n R N) as Np. set (p := above ++ [leaf n]) in *.
  destruct (mkdir_all_ok above [] (tree d)) as (t1 & M & T1 & D1 & C1); [apply R|done| |intros q b ? ?; by apply R|].
  { pose proof (segments_of _ _ (scratch_path n)) as S. by apply Forall_app in S as [S _]. }
  assert (t1 !! p = None) as N1.
  { destruct (C1 p) as [->|(_ & k & Pk & E)]; [done|]. by destruct (prefix_short k (leaf n) Pk). }
  assert (create p NoFault (tree d) = (<[p := File []]> t1, true)) as E.
  { unfold create, p. rewrite removelast_last, M. fold p. by rewrite N1. }
  exists (<[p := File []]> t1). pose proof (create_objects _ _ _ _ _ _ (scratch_path n) E) as (Same & _ & _).
  rewrite (scratch_path n) in Same. fold p in Same.
  assert (forall t d', (forall q, q <> p -> t !! q = t1 !! q) -> tree_ok t -> t !! p <> Some Dir ->
    tree d' = t -> faults d' = [] -> ctx_done d' = false -> room d') as Room.
  { intros t d' S Tk Nd Et F X. constructor; rewrite ?Et; [done|done| |].
    - intros q b Nq Pq. rewrite S by by apply prefix_short. destruct (C1 q) as [->|[-> _]]; [by apply R|done].
    - intros m. destruct (decide (above ++ [leaf m] = p)) as [->|Ne]; [done|]. rewrite S by done.
      destruct (C1 (above ++ [leaf m])) as [->|(_ & k & Pk & Ek)]; [apply R|]. by destruct (prefix_short k (leaf m) Pk). }
  assert (forall o t, o <> scratch f name n -> (forall q, q <> p -> t !! q = <[p := File []]> t1 !! q) ->
    object_at t o = object_at (tree d) o) as Other.
  { intros o t No S. assert (path o <> Some p) as Np' by (intros E'; apply No; by apply (path_inj _ _ p); [|apply scratch_path]).
    rewrite <- Same by done. apply (object_at_other (scratch f name n) o p); [apply scratch_path|by rewrite scratch_path|done]. }
  assert (Forall a_segment (above ++ [leaf n])) as Seg by (eapply segments_of, scratch_path).
  apply Forall_app in Seg as [Sa Sl]. rewrite Forall_singleton in Sl. split_and!; [done| |].
  - intros data d' Et F X. rewrite insert_insert_eq in Et. split.
    + apply (Room (tree d') d'); rewrite ?Et; [intros q Nq; by rewrite lookup_insert_ne|by apply (tree_insert t1 above (leaf n))|by rewrite lookup_insert_eq|done..].
    + intros o. case_decide as Eo; [subst o; rewrite Et; apply object_at_insert, scratch_path|].
      apply Other; [done|]. intros q Nq. by rewrite Et, !lookup_insert_ne.
  - intros d' Et F X. rewrite delete_insert_eq, delete_id in Et by done. split.
    + apply (Room (tree d') d'); rewrite ?Et; [done|done|by rewrite N1|done..].
    + intros o. destruct (decide (o = scratch f name n)) as [->|No].
      * rewrite N. unfold object_at. rewrite scratch_path. fold p. destruct p eqn:Ep; [by destruct above|]. simpl. by rewrite Et, N1.
      * apply Other; [done|]. intros q Nq. by rewrite Et, lookup_insert_ne.
Qed.

Lemma delete_room d n : room d ->
  leaves (Some (scratch f name n, None)) d (DeleteObject (scratch f name n) d).1 /\
  (DeleteObject (scratch f name n) d).2 <> Err ErrDenied /\
  (is_Some (object_at (tree d) (scratch f name n)) -> (DeleteObject (scratch f name n) d).2 = Ok ()).
Proof.
  intros R. unfold DeleteObject. rewrite scratch_path, (room_fault d R). set (p := above ++ [leaf n]).
  destruct (room_step d (tree d) R) as [F0 X0]. destruct (room_step d (delete p (tree d)) R) as [F1 X1].
  assert (object_at (tree d) (scratch f name n) = match tree d !! p with Some (File b) => Some b | _ => None end) as Eo.
  { unfold object_at. rewrite scratch_path. fold p. destruct p eqn:E; [by destruct above|done]. }
  assert (at_path p (tree d) = tree d !! p) as -> by (destruct p eqn:E; [by destruct above|done]).
  pose proof (room_names d R n) as Nd. fold p in Nd. destruct (tree d !! p) as [[b|]|] eqn:E; [|done|]; simpl.
  - split_and!; [|done..]. split.
    + constructor; simpl; [by split| | |].
      * eapply tree_delete; [apply R|exact E].
      * intros q b' Nq Pq. rewrite lookup_delete_ne; [by apply R|]. intros Eq. by destruct (prefix_short q (leaf n) Pq).
      * intros m. destruct (decide (above ++ [leaf m] = p)) as [->|Ne]; [by rewrite lookup_delete_eq|].
        rewrite lookup_delete_ne by done. apply R.
    + intros o. simpl. case_decide as Ec; [subst o; by apply object_at_delete, scratch_path|].
      apply (object_at_other (scratch f name n) o p); [apply scratch_path| |intros q Nq; by rewrite lookup_delete_ne].
      rewrite scratch_path. intros E'. apply Ec. by apply (path_inj _ _ p); [|apply scratch_path].
  - destruct (room_same d (step (tree d) d) R eq_refl F0 X0) as [Rm Ob].
    split_and!; [|done|rewrite Eo; by intros [? ?]].
    split; [exact Rm|]. intros o. case_decide as Ec; [by subst o|done].
Qed.

(** *** Listings *)

Lemma ancestor_there t p q : tree_ok t -> p <> [] -> is_Some (t !! (p ++ q)) -> is_Some (t !! p).
Proof.
  intros T Np. induction q as [|n q IH] using rev_ind; [by rewrite app_nil_r|]. rewrite app_assoc. intros I. apply IH.
  pose proof (tree_parents t T _ _ I) as D. destruct (p ++ q) eqn:E; [by destruct p|]. simpl in D. by rewrite D.
Qed.

Lemma root_lists d after limit : room d -> 0 < limit ->
  leaves None d (List "" after limit d).1 /\
  exists es, (List "" after limit d).2 = Ok es /\ a_page (fun d o => object_at (tree d) o) d after limit es.
Proof.
  intros R L. destruct (room_step d (tree d) R) as [F X]. split; [by apply room_same|].
  assert (exists es, (List "" after limit d).2 = Ok es) as [es E].
  { unfold List. simpl. rewrite (room_fault d R). destruct (room_calm d R) as [_ ->]. by eexists. }
  exists es. split; [done|]. destruct (List_Ok "" after limit d es L E) as (p & [= <-] & ->).
  destruct (level_spec [] (tree d)) as [S El]. unfold level_after. set (l := filter _ (level [] (tree d))).
  assert (StronglySorted entry_lt l) as Sl by by apply StronglySorted_filter.
  assert (forall e, e ∈ l <-> str_ltb after (EName e) = true /\ e ∈ level [] (tree d)) as Hl.
  { intros e. unfold l. by rewrite list_elem_of_filter. }
  split_and!.
  - unfold ztake. rewrite <- (take_drop (Z.to_nat limit) l) in Sl. by apply StronglySorted_app_1_l in Sl.
  - unfold ztake, zlen. rewrite length_take. lia.
  - intros e (i & Hi & _)%elem_of_take. apply list_elem_of_lookup_2, Hl in Hi as [Ha Hi]. apply El in Hi as (_ & nd & Hn & _).
    pose proof (tree_names _ (room_tree d R) ([] ++ [EName e]) ltac:(by eexists)) as G. apply Forall_singleton in G as [B Sg].
    split_and!; [|done|by right]. intros En. rewrite En in B. done.
  - intros E0 o [b Ob]. unfold object_at in Ob. destruct (path o) as [[|x p]|] eqn:Ep; [done| |done].
    destruct (at_path (x :: p) (tree d)) as [[b'|]|] eqn:Ea; try done. simpl in Ea.
    destruct (ancestor_there (tree d) [x] p (room_tree d R)) as [nd Hn]; [done|by eexists|].
    assert (entry_of (x, nd) ∈ l) as I.
    { apply Hl. split; [|apply El; split; [done|by exists nd]].
      pose proof (segments_of o _ Ep) as G. apply Forall_cons in G as [[B _] _]. rewrite E0. by destruct x. }
    intros En. assert (l = []) as Ln; [|rewrite Ln in I; by apply elem_of_nil in I].
    destruct l; [done|]. unfold ztake in En. destruct (Z.to_nat limit) eqn:Z; [lia|done].
Qed.

Lemma nowhere_lists d : room d ->
  let pre := scratch f name 9000 +:+ "-nowhere" in
  leaves None d (List pre "" 10 d).1 /\ is_ok (List pre "" 10 d).2 = true.
Proof.
  intros R pre. assert (pre = FWritablePrefix f +:+ "-" +:+ (name +:+ "-" +:+ FormatInt 9000 +:+ "-nowhere")) as E.
  { unfold pre, scratch. by rewrite !string_app_assoc. }
  assert (exists p, level_path pre = Some p) as [p Ep].
  { unfold level_path. rewrite E, path_dashed; [by case_if; eexists|]. rewrite !has_byte_app, Hname. by vm_compute. }
  destruct (room_step d (tree d) R) as [F X]. unfold List. rewrite Ep. simpl. split; [by apply room_same|].
  rewrite (room_fault d R). destruct (room_calm d R) as [_ ->]. by destruct (at_path p (tree d)) as [[|]|].
Qed.

(** *** The directory keeps its word *)

Lemma directory_reads d o off len : room d -> 0 <= off -> 0 <= len -> off + len <= MaxInt64 ->
  leaves None d (ReadRange o off len d).1 /\
  answers_read (fun d o => object_at (tree d) o) d o off len (ReadRange o off len d).2.
Proof.
  intros R Ho Hl Hm. destruct (room_step d (tree d) R) as [F X]. split.
  - unfold ReadRange. destruct (path o); [by apply room_same|]. by split.
  - unfold ReadRange, answers_read, object_at. destruct (path o) as [p|]; [|done]. simpl. rewrite (room_fault d R).
    destruct (at_path p (tree d)) as [[b|]|]; [|done..]. rewrite wrap64_id by int64_lia.
    destruct (Z.ltb_spec (zlen b) (off + len)), (Z.leb_spec (off + len) (zlen b)); try lia; [done|].
    unfold read_full. rewrite zlen_slice by lia. replace (off + len - off) with len by lia. by rewrite Z.eqb_refl.
Qed.

Lemma directory_streams d n src size : room d -> object_at (tree d) (scratch f name n) = None -> 0 <= size < MaxInt64 ->
  let '(d', r) := WriteObjectFrom (scratch f name n) src size d in
  if size =? zlen src then leaves (Some (scratch f name n, Some src)) d d' /\ r = Ok ()
  else leaves None d d' /\ exists e, r = Err e /\ e <> ErrDenied.
Proof.
  intros R N Sz. unfold WriteObjectFrom. rewrite scratch_path, (room_fault d R).
  destruct (create_room d n R N) as (t & -> & W & Dl). simpl. rewrite wrap64_id by int64_lia.
  destruct (room_step d (delete (above ++ [leaf n]) t) R) as [F1 X1].
  destruct (Z.eqb_spec size (zlen src)) as [->|Ne].
  - assert (ztake (zlen src + 1) src = src) as -> by (unfold ztake, zlen; apply take_ge; lia).
    rewrite Z.eqb_refl. simpl. destruct (room_calm d R) as [C ->]. split; [|done].
    destruct (room_step d (<[above ++ [leaf n] := File src]> t) R) as [F2 X2]. by apply (W src).
  - assert (zlen (ztake (size + 1) src) <> size) as Nz.
    { unfold ztake, zlen in *. rewrite length_take. lia. }
    rewrite (proj2 (Z.eqb_neq _ _) Nz). simpl. split; [by apply Dl|by eexists].
Qed.

Lemma directory_honest : Honest (fun d o => object_at (tree d) o) room FileDriver.declared f name.
Proof.
  split; try done.
  - intros d o off len. apply directory_reads.
  - intros d o b _ R E. destruct (room_step d (tree d) R) as [F X]. simpl. unfold SizeOf. unfold object_at in E.
    destruct (path o) as [p|]; [|done]. destruct (at_path p (tree d)) as [[b'|]|]; try done. injection E as ->.
    rewrite (room_fault d R). split; [by apply room_same|done].
  - intros d o data _ R [n ->] N. simpl. unfold WriteObject. rewrite scratch_path, (room_fault d R).
    destruct (create_room d n R N) as (t & -> & W & _). simpl. split; [|done].
    destruct (room_step d (<[above ++ [leaf n] := File data]> t) R) as [F X]. by apply (W data).
  - intros d o _ R [n ->]. by apply delete_room.
  - intros w d o src size [= <-] _ R [n ->] N Sz. pose proof (directory_streams d n src size R N Sz) as W.
    by destruct (WriteObjectFrom (scratch f name n) src size d).
  - intros l d after limit [= <-] _ R L. by apply root_lists.
  - intros l d [= <-] _ R. by apply nowhere_lists.
Qed.
End directory.

(** C30: the driver over a directory passes the suite it ships with, and is left as
    it was. Over any tree that holds the fixture and has room for the run's names,
    where nothing fails, the suite finds nothing; and afterwards every object there
    was is there, with what it held, and none besides. *)
Theorem directory_passes (f : Fixture) (name : string) (d : FileDriver.FileStore) :
  4 <= zlen (FContent f) < MaxInt64 -> FileDriver.object_at (FileDriver.tree d) (FObject f) = Some (FContent f) ->
  has_byte slash name = false -> existsb FileDriver.bad_segment (above f) = false -> room f name d ->
  (forall n, FileDriver.object_at (FileDriver.tree d) (scratch f name n) = None) ->
  (Check f name d).2 = [] /\
  forall o, FileDriver.object_at (FileDriver.tree (Check f name d).1) o = FileDriver.object_at (FileDriver.tree d) o.
Proof.
  intros L E Hn Ha R N.
  destruct (honest_passes (fun d o => FileDriver.object_at (FileDriver.tree d) o) (room f name) FileDriver.declared f name
    (directory_honest f name Hn Ha) (FileDriver.object_at (FileDriver.tree d)) N E L d R) as [P Q]; [done|].
  split; [exact P|]. by apply Q.
Qed.

(** One object, and the run's names a level down. *)
Definition wfixture : Fixture := mkFixture "o" (bytes_of "abcdefgh") "made/w".
Definition wdirectory : FileDriver.FileStore :=
  FileDriver.mkFileStore {[ ["o"%string] := FileDriver.File (bytes_of "abcdefgh") ]} [] false.

Lemma wroom : room wfixture "1" wdirectory.
Proof.
  assert (forall q x, FileDriver.tree wdirectory !! q = Some x -> q = ["o"%string] /\ x = FileDriver.File (bytes_of "abcdefgh")) as T.
  { intros q x I. simpl in I. apply lookup_singleton_Some in I as [<- <-]. done. }
  constructor; [done| | |].
  - split.
    + intros q n [x I]. apply T in I as [I _]. destruct q as [|y [|]]; [done|discriminate..].
    + intros p [x I]. apply T in I as [-> _]. by repeat constructor.
  - intros q b Nq P I. apply T in I as [-> _]. destruct P as [k P]. vm_compute in P. discriminate.
  - intros n I. by apply T in I as [_ I].
Qed.

(** The directory the run made for its names stays. *)
Lemma directory_passes_witness :
  (Check wfixture "1" wdirectory).2 = [] /\ FileDriver.tree (Check wfixture "1" wdirectory).1 !! ["made"%string] = Some FileDriver.Dir /\
  FileDriver.object_at (FileDriver.tree (Check wfixture "1" wdirectory).1) "made/w-1-5" = None.
Proof.
  destruct (directory_passes wfixture "1" wdirectory) as [P Q].
  - vm_compute. split; congruence.
  - vm_compute. reflexivity.
  - reflexivity.
  - reflexivity.
  - exact wroom.
  - intros n. unfold FileDriver.object_at. rewrite (scratch_path wfixture "1" eq_refl eq_refl).
    change (above wfixture ++ [leaf wfixture "1" n]) with ["made"%string; leaf wfixture "1" n]. simpl.
    by rewrite lookup_singleton_ne.
  - split_and!; [exact P|vm_compute; reflexivity|]. rewrite Q. vm_compute. reflexivity.
Defined.

(** ** What the suite catches *)

(** A driver that says it deletes and does not, and does what it does not say. *)
Example suite_catches_lies :
  (Check (H := {| drv_Declare := fun _ => mkDeclaration 1 [ReadRangeCap; WriteObjectCap; DeleteObjectCap];
                  drv_ReadRange := drv_ReadRange; drv_SizeOf := drv_SizeOf; drv_WriteObject := drv_WriteObject;
                  drv_DeleteObject := fun _ d => (d, Ok ()); drv_SnapshotObject := drv_SnapshotObject;
                  drv_CloneObject := fun _ _ d => (d, Ok ()); drv_List := None; drv_WriteObjectFrom := None |})
     wfixture "1" wdirectory).2 = [UndeclaredSucceeded ObjectSize; UndeclaredSucceeded CloneCap; SurvivedDelete].
Proof. vm_compute. reflexivity. Qed.

