(* ===== verification/Views.v ===== *)
(** * Views: what a user names and where it is (internal/dataset)

    A reference is a dataset, a version and an object; the object view serves it at
    a key, the file view at a path under the root of an export, and a backend at the
    address of whatever version its bytes are placed in. *)

From S2P Require Import Prelude GoStrings GoPath Backend.

Local Open Scope string_scope.

(** ** References (address.go) *)

Record Ref : Type := mkRef {
  RDataset : string;
  RVersion : string;
  RObject : string;
}.
#[global] Instance Ref_eq_dec : EqDecision Ref.
Proof. solve_decision. Defined.

Inductive RefErr : Type := ErrEmpty | ErrSeparator | ErrNoResolver | ErrUnknown | ErrNotUnderRoot.

Definition Validate (r : Ref) : option RefErr :=
  if (RDataset r =? "") || (RVersion r =? "") || (RObject r =? "") then Some ErrEmpty
  else if Contains "/" (RDataset r) || Contains "/" (RVersion r) then Some ErrSeparator
  else None.

Definition Ref_String (r : Ref) : string := RDataset r +:+ "/" +:+ RVersion r +:+ "/" +:+ RObject r.

Record Placement : Type := mkPlacement {
  PDataset : string;
  PVersion : string;
}.
Definition Resolver : Type := string -> string -> option Placement.

(** [Backend]; there may be no resolver. *)
Definition Address (r : Ref) (res : option Resolver) : result RefErr string :=
  match Validate r with
  | Some e => Err e
  | None =>
      match res with
      | None => Err ErrNoResolver
      | Some res =>
          match res (RDataset r) (RVersion r) with
          | None => Err ErrUnknown
          | Some p => Ok (PDataset p +:+ "/" +:+ PVersion p +:+ "/" +:+ RObject r)
          end
      end
  end.

(** ** Views (views.go) *)

Definition FilePath (root : string) (r : Ref) : string := path_Join [root; RDataset r; RVersion r; RObject r].
Definition ObjectKey (r : Ref) : string := Ref_String r.

(** [strings.SplitN] in three. *)
Definition split3 (s : string) : option (string * string * string) :=
  let '(a, rest, f) := Cut slash s in
  if f then let '(b, o, f) := Cut slash rest in if f then Some (a, b, o) else None else None.

Definition ParseObjectKey (key : string) : result RefErr Ref :=
  match split3 (TrimPrefix "/" key) with
  | None => Err ErrEmpty
  | Some (a, b, o) => let r := mkRef a b o in match Validate r with Some e => Err e | None => Ok r end
  end.

Definition ParseFilePath (root p : string) : result RefErr Ref :=
  let clean := Clean p in
  let cleanRoot := Clean root in
  if negb (cleanRoot =? ".") && negb (cleanRoot =? "/") then
    match CutPrefix (cleanRoot +:+ "/") clean with
    | None => Err ErrNotUnderRoot
    | Some rest => ParseObjectKey rest
    end
  else ParseObjectKey clean.

(** ** Cloning (clone.go) *)

Inductive CloneErr : Type := ErrNoBackend | ErrSnapshotOnly | ErrNeither.
Definition CanClone {D} `{Driver D} (b : option (Backend D)) : option CloneErr :=
  match b with
  | None => Some ErrNoBackend
  | Some b =>
      if Supports CloneCap b then None
      else if Supports Snapshot b then Some ErrSnapshotOnly
      else Some ErrNeither
  end.

(** ** Lemmas *)

Lemma Contains_slash s : Contains "/" s = has_byte slash s.
Proof.
  induction s as [|c s IH]; [done|]. cbn [Contains has_byte]. rewrite IH. unfold HasPrefix. cbn [CutPrefix].
  rewrite (Ascii.eqb_sym slash c). destruct (Ascii.eqb c slash); [by destruct s|done].
Qed.

Record valid (r : Ref) : Prop := {
  v_dataset : RDataset r <> "" /\ has_byte slash (RDataset r) = false;
  v_version : RVersion r <> "" /\ has_byte slash (RVersion r) = false;
  v_object : RObject r <> "";
}.
Lemma Validate_valid r : Validate r = None <-> valid r.
Proof.
  unfold Validate. rewrite !Contains_slash. destruct (String.eqb_spec (RDataset r) ""), (String.eqb_spec (RVersion r) ""),
    (String.eqb_spec (RObject r) ""), (has_byte slash (RDataset r)) eqn:E1, (has_byte slash (RVersion r)) eqn:E2; simpl;
    (split; [intros X; try discriminate X; by split|intros [[] [] ?]; congruence]).
Qed.

(** A key is read back in its three parts. *)
Lemma split3_String r : valid r -> split3 (Ref_String r) = Some (RDataset r, RVersion r, RObject r).
Proof.
  intros [[_ D] [_ V] _]. unfold split3. change (Ref_String r) with (RDataset r +:+ String slash (RVersion r +:+ String slash (RObject r))).
  by rewrite (Cut_found _ _ _ D), (Cut_found _ _ _ V).
Qed.

Lemma TrimPrefix_String r : valid r -> TrimPrefix "/" (Ref_String r) = Ref_String r.
Proof.
  intros [[Ne D] _ _]. unfold TrimPrefix. destruct (CutPrefix "/" (Ref_String r)) as [x|] eqn:E; [|done].
  apply CutPrefix_Some in E. unfold Ref_String in E. destruct (RDataset r) as [|c s]; [done|].
  injection E as -> _. discriminate D.
Qed.

Lemma ParseObjectKey_String r : valid r -> ParseObjectKey (Ref_String r) = Ok r.
Proof.
  intros V. unfold ParseObjectKey. rewrite TrimPrefix_String, split3_String by done. cbv zeta.
  assert (mkRef (RDataset r) (RVersion r) (RObject r) = r) as -> by by destruct r. by rewrite (proj2 (Validate_valid _) V).
Qed.

Lemma ParseObjectKey_Ok k r : ParseObjectKey k = Ok r -> valid r /\ Ref_String r = TrimPrefix "/" k.
Proof.
  unfold ParseObjectKey, split3. destruct (Cut slash (TrimPrefix "/" k)) as [[a rest] f] eqn:C1. destruct f; [|done].
  destruct (Cut slash rest) as [[b o] f] eqn:C2. destruct f; [|done]. cbv beta iota zeta.
  destruct (Validate (mkRef a b o)) eqn:V; [done|]. intros [= <-]. split; [by apply Validate_valid|].
  apply Cut_spec in C1 as [_ ->], C2 as [_ ->]. done.
Qed.

(** *** Paths *)

Definition plain_path (s : string) : bool := forallb plain_segment (Split slash s).
(** The path of segments from the root. *)
Definition path_of (l : list string) : string := "/" +:+ Join "/" l.

Lemma Clean_rooted s : Clean (String slash s) = clean_rooted (String slash s).
Proof. by destruct s. Qed.

Lemma Clean_path_of l : Forall (fun x => has_byte slash x = false) l -> forallb plain_segment l = true -> l <> [] ->
  Clean (path_of l) = path_of l.
Proof.
  intros N P Ne. unfold path_of at 1. change ("/" +:+ Join "/" l) with (String slash (Join "/" l)). rewrite Clean_rooted.
  unfold clean_rooted, path_of. f_equal. f_equal. change (Split "/" (String slash (Join "/" l))) with ("" :: Split slash (Join "/" l)). cbn [fold_left].
  rewrite (Split_Join slash) by done. by apply clean_plain.
Qed.

Lemma rooted_cons root : rooted root = true -> exists s, root = String slash s.
Proof.
  unfold rooted. destruct root as [|c s]; [discriminate|]. cbn [String.prefix].
  destruct (Ascii.ascii_dec slash c) as [<-|]; [eauto|discriminate].
Qed.

Lemma FilePath_segments root r : rooted root = true -> valid r -> plain_path (Ref_String r) = true ->
  FilePath root r = path_of (clean_segments root ++ Split slash (Ref_String r)).
Proof.
  intros [s ->]%rooted_cons V P. destruct (V) as [[D _] [V' _] O]. unfold FilePath, path_Join. simpl List.filter.
  rewrite (proj2 (String.eqb_neq _ _) D), (proj2 (String.eqb_neq _ _) V'), (proj2 (String.eqb_neq _ _) O). cbn [negb].
  change (Join "/" [String slash s; RDataset r; RVersion r; RObject r]) with (String slash s +:+ "/" +:+ Ref_String r).
  change (String slash s +:+ "/" +:+ Ref_String r) with (String slash (s +:+ "/" +:+ Ref_String r)). rewrite Clean_rooted.
  unfold clean_rooted, path_of. f_equal. f_equal. change (Split "/" (String slash (s +:+ "/" +:+ Ref_String r))) with (Split slash (String slash s +:+ String slash (Ref_String r))).
  rewrite Split_app, fold_left_app. by apply clean_plain.
Qed.

Lemma clean_segments_noslash s : Forall (fun x => has_byte slash x = false) (clean_segments s).
Proof.
  unfold clean_segments. pose proof (Split_segments slash s) as F. revert F. generalize (Split slash s). intros l F.
  assert (Forall (fun x => has_byte slash x = false) []) as G by constructor. revert G. generalize (@nil string).
  induction F as [|x l Hx F IH]; intros out G; [done|]. apply IH. unfold clean_step. destruct (_ || _); [done|].
  destruct (x =? ".."); [|apply Forall_app; split; [done|by constructor]].
  rewrite Forall_forall in *. intros y Hy. by apply G, removelast_elem.
Qed.


Lemma append_nil_r (x : string) : "/" +:+ x = "/" -> x = "".
Proof. by intros [=]. Qed.

Lemma Join_app sep a b : a <> [] -> b <> [] -> Join sep (a ++ b) = Join sep a +:+ sep +:+ Join sep b.
Proof.
  intros Na Nb. induction a as [|x [|y a] IH]; [done| |].
  - simpl. destruct b; [done|]. done.
  - change (Join sep ((x :: y :: a) ++ b)) with (x +:+ sep +:+ Join sep ((y :: a) ++ b)). rewrite IH by done.
    change (Join sep (x :: y :: a)) with (x +:+ sep +:+ Join sep (y :: a)). by rewrite <- !string_app_assoc.
Qed.

Lemma TrimPrefix_slash s : TrimPrefix "/" ("/" +:+ s) = s.
Proof. unfold TrimPrefix. by rewrite (proj2 (CutPrefix_Some "/" ("/" +:+ s) s) eq_refl). Qed.

(** What the file view serves is read back, and is under the root. *)
Lemma ParseFilePath_FilePath root r : rooted root = true -> valid r -> plain_path (Ref_String r) = true ->
  ParseFilePath root (FilePath root r) = Ok r /\
  exists rest, FilePath root r = path_of (clean_segments root) +:+ rest.
Proof.
  intros R V P. rewrite (FilePath_segments root r R V P). set (A := clean_segments root). set (B := Split slash (Ref_String r)).
  assert (B <> []) as Nb by apply Split_not_nil.
  assert (Join "/" B = Ref_String r) as JB by apply (Join_Split slash).
  assert (Clean (path_of (A ++ B)) = path_of (A ++ B)) as Cp.
  { apply Clean_path_of.
    - apply Forall_app. split; [apply clean_segments_noslash|apply Split_segments].
    - rewrite forallb_app. apply andb_true_intro. split; [|exact P]. apply forallb_forall. intros x Hx.
      apply (proj1 (Forall_forall _ _) (clean_segments_plain root)). by apply list_elem_of_In.
    - intros X. apply Nb. by destruct (app_eq_nil _ _ X). }
  assert (Clean root = path_of A) as Cr.
  { destruct (rooted_cons _ R) as [s E]. unfold A. rewrite E, Clean_rooted. done. }
  unfold ParseFilePath. rewrite Cp, Cr. pose proof (clean_segments_plain root) as PA.
  change (clean_segments root) with A in PA. clearbody A. destruct A as [|a A].
  - split; [|exists (Ref_String r); simpl; unfold path_of; by rewrite JB].
    simpl. unfold path_of. rewrite JB. unfold ParseObjectKey. rewrite TrimPrefix_slash.
    rewrite <- (TrimPrefix_String r V). by apply ParseObjectKey_String.
  - assert (path_of ((a :: A) ++ B) = (path_of (a :: A) +:+ "/") +:+ Ref_String r) as E.
    { unfold path_of. rewrite Join_app, JB by done. by rewrite <- !string_app_assoc. }
    rewrite E. split; [|exists ("/" +:+ Ref_String r); by rewrite <- string_app_assoc].
    rewrite (proj2 (CutPrefix_Some _ _ (Ref_String r)) eq_refl).
    rewrite (ParseObjectKey_String r V). apply Forall_cons in PA as [Pa _].
    assert (path_of (a :: A) <> "/") as N.
    { unfold path_of. intros X. apply append_nil_r in X. destruct a as [|x a]; [by vm_compute in Pa|].
      destruct A; discriminate X. }
    by rewrite (proj2 (String.eqb_neq _ _) N).
Qed.

(** Names a resolver may place a version under. *)
Definition sound_placements (res : Resolver) : Prop := forall d v p, res d v = Some p ->
  (PDataset p <> "" /\ has_byte slash (PDataset p) = false) /\ PVersion p <> "" /\ has_byte slash (PVersion p) = false.

Lemma Ref_String_inj r1 r2 : valid r1 -> valid r2 -> Ref_String r1 = Ref_String r2 -> r1 = r2.
Proof.
  intros V1 V2 E. apply (f_equal split3) in E. rewrite !split3_String in E by done. destruct r1, r2. simpl in E. congruence.
Qed.

(** C40: the two views and the name are one thing. A reference that is accepted is
    read back from the key it is served at, and what a key is read as is accepted
    and served at that key; two are served at one key only when they are the same.
    From the path under an export's absolute root it is read back too, and the path is
    under the root, when no part of the reference is empty, a dot or a dot-dot (with
    one it may lead out of the root: [dot_dot_escapes]). And, where a resolver places
    versions under names with no separator in them, two references are at one address
    of a backend exactly when their versions are placed together and they name one
    object. *)
Theorem views_agree :
  (forall r, Validate r = None -> ParseObjectKey (ObjectKey r) = Ok r) /\
  (forall k r, ParseObjectKey k = Ok r -> Validate r = None /\ ObjectKey r = TrimPrefix "/" k) /\
  (forall r1 r2, Validate r1 = None -> Validate r2 = None -> ObjectKey r1 = ObjectKey r2 -> r1 = r2) /\
  (forall root r, Validate r = None -> rooted root = true -> plain_path (ObjectKey r) = true ->
     ParseFilePath root (FilePath root r) = Ok r /\ exists rest, FilePath root r = Clean root +:+ rest) /\
  (forall res r1 r2 a1 a2, sound_placements res -> Address r1 (Some res) = Ok a1 -> Address r2 (Some res) = Ok a2 ->
     a1 = a2 <-> res (RDataset r1) (RVersion r1) = res (RDataset r2) (RVersion r2) /\ RObject r1 = RObject r2).
Proof.
  split_and!.
  - intros r V%Validate_valid. by apply ParseObjectKey_String.
  - intros k r [V E]%ParseObjectKey_Ok. by rewrite Validate_valid.
  - intros r1 r2 V1%Validate_valid V2%Validate_valid. by apply Ref_String_inj.
  - intros root r V%Validate_valid R P. destruct (ParseFilePath_FilePath root r R V P) as [E U]. split; [done|].
    destruct (rooted_cons _ R) as [s ->]. by rewrite Clean_rooted.
  - intros res r1 r2 a1 a2 S. unfold Address. destruct (Validate r1) eqn:V1; [done|]. destruct (Validate r2) eqn:V2; [done|].
    apply Validate_valid in V1, V2. destruct (res (RDataset r1) _) as [p1|] eqn:E1; [|done]. destruct (res (RDataset r2) _) as [p2|] eqn:E2; [|done].
    intros [= <-] [= <-]. split; [|by intros [[= ->] ->]]. intros E.
    assert (mkRef (PDataset p1) (PVersion p1) (RObject r1) = mkRef (PDataset p2) (PVersion p2) (RObject r2)) as [= ? ? ?].
    { apply Ref_String_inj; [..|exact E]; (split; [apply (S _ _ _ E1)||apply (S _ _ _ E2)..|apply V1||apply V2]). }
    split; [|done]. destruct p1, p2. simpl in *. congruence.
Qed.

Lemma views_agree_witness :
  ParseObjectKey (ObjectKey (mkRef "imagenet" "v17" "train/shard-0")) = Ok (mkRef "imagenet" "v17" "train/shard-0") /\
  ParseFilePath "/export//data/" (FilePath "/export//data/" (mkRef "imagenet" "v17" "train/shard-0"))
    = Ok (mkRef "imagenet" "v17" "train/shard-0").
Proof.
  destruct views_agree as (K & _ & _ & F & _). split; [apply K; reflexivity|].
  apply (F "/export//data/" (mkRef "imagenet" "v17" "train/shard-0")); vm_compute; reflexivity.
Defined.

(** A dataset may be called dot-dot, and its path is then outside the export. *)
Example dot_dot_escapes :
  Validate (mkRef ".." "etc" "passwd") = None /\ FilePath "/export" (mkRef ".." "etc" "passwd") = "/etc/passwd" /\
  ParseFilePath "/export" "/etc/passwd" = Err ErrNotUnderRoot.
Proof. vm_compute. split_and!; reflexivity. Qed.
