(* ===== verification/Reporter.v ===== *)
(** * Reporter: what an agent reports of its cache (cmd/forebay-agent/residency.go)

    How much of each dataset the cache holds, as the levels the controller labels
    the node with. The order the runtime walks a map in is here that of its list;
    the only thing it decides is the order the store is asked in. *)

From S2P Require Import Prelude GoStrings Float64 Backend FastTier Residency.
From S2P Require Controller FileDriver DataServerTheorems Tier.

Local Open Scope Z_scope.

Record residencyOf : Type := mkResidencyOf {
  Tenant : string;
  RObject : string;
  Level_ : string;
  Blocks : Z;
  Bytes : Z;
  Total : Z;
  Label : string;
  Rack : string;
  Fraction_ : float64;
}.

Definition nul : string := String "000" EmptyString.
Definition trackKey (h : Held) : string := HTenant h +:+ nul +:+ HObject h.

Section reporter.
Context {D : Type} `{Driver D}.

Record residencyReporter : Type := mkReporter {
  rtier : Cache;
  rbackend : Backend.Backend D;
  levels : gmap string Z;
  sizes : gmap string Z;
}.
Implicit Types r : residencyReporter.

Definition newResidencyReporter (tier : Cache) (b : Backend.Backend D) : residencyReporter :=
  mkReporter tier b NewTracker ∅.
Definition set_levels (t : gmap string Z) r : residencyReporter := mkReporter (rtier r) (rbackend r) t (sizes r).

Definition sizeOf (object : string) r : residencyReporter * option Z :=
  match sizes r !! object with
  | Some n => (r, Some n)
  | None =>
      let '(b, n) := Backend.SizeOf object (rbackend r) in
      match n with
      | Ok n => if n <=? 0 then (mkReporter (rtier r) b (levels r) (sizes r), None)
                else (mkReporter (rtier r) b (levels r) (<[object := n]> (sizes r)), Some n)
      | Err _ => (mkReporter (rtier r) b (levels r) (sizes r), None)
      end
  end.

(** What fell out of the cache stops being published. *)
Definition forgotten (held : gmap Held Z) (t : gmap string Z) : gmap string Z :=
  let still := trackKey <$> (map_to_list held).*1 in
  fold_left (fun t kl => if bool_decide (kl.1 ∈ still) then t else Forget kl.1 t) (map_to_list (Levels t)) t.

(** [min] of what is held and the whole. *)
Definition held_bytes (blocks block total : Z) : Z := Z.min (wrap64 (blocks * block)) total.

Definition report_one (block : Z) (ro : residencyReporter * list residencyOf) (hn : Held * Z)
  : residencyReporter * list residencyOf :=
  let '(r, out) := ro in
  let '(h, blocks) := hn in
  let '(r, total) := sizeOf (HObject h) r in
  match total with
  | None => (r, out)
  | Some total =>
      let bytes := held_bytes blocks block total in
      match Fraction bytes total with
      | Err _ => (r, out)
      | Ok fraction =>
          let '(t, level) := Update (trackKey h) fraction (levels r) in
          (set_levels t r,
           out ++ [mkResidencyOf (HTenant h) (HObject h) (Level_String level) blocks bytes total
                     (Residency.Key (HTenant h) (HObject h)) (RackKey (HTenant h) (HObject h)) fraction])
      end
  end.

Definition of_le (x y : residencyOf) : Prop :=
  (if (Tenant x =? Tenant y)%string then str_ltb (RObject y) (RObject x) else str_ltb (Tenant y) (Tenant x)) = false.
#[global] Instance of_le_dec : RelDecision of_le.
Proof. intros x y. apply bool_eq_dec. Defined.

Definition report r : residencyReporter * list residencyOf :=
  let held := HeldBlocks (rtier r) in
  let r := set_levels (forgotten held (levels r)) r in
  let '(r, out) := fold_left (report_one (BlockSize (tcfg (rtier r)))) (map_to_list held) (r, []) in
  (r, merge_sort of_le out).
End reporter.
Arguments residencyReporter D : clear implicits.

(** * What a node's labels say of its cache

    From the blocks in the cache and the sizes in the store, through the agent's
    report, to the labels the controller wants on the node. *)

(** The line a dataset's blocks come to. *)
Definition line (block : Z) (h : Held) (n total : Z) (was : Z) : residencyOf :=
  let bytes := held_bytes n block total in
  let f := f64_div (f64_of_Z bytes) (f64_of_Z total) in
  mkResidencyOf (HTenant h) (HObject h) (Level_String (Next was f)) n bytes total
    (Residency.Key (HTenant h) (HObject h)) (RackKey (HTenant h) (HObject h)) f.

(** What the tracker knows a line's dataset by. *)
Definition line_track (e : residencyOf) : string := Tenant e +:+ nul +:+ RObject e.

Section reports.
Context {D : Type} (obj : string -> option (list byte)) `{DS : DriverSpec D obj}.
Implicit Types r : residencyReporter D.

(** The store keeps its contract, and a size that is remembered is the object's. *)
Definition honest r : Prop :=
  drv_inv (driver (rbackend r)) /\
  forall o n, sizes r !! o = Some n -> exists bytes, obj o = Some bytes /\ n = zlen bytes /\ 0 < n.

(** Every object asked about is there, and the store may be asked and answers. *)
Definition can_say r (objects : list string) : Prop :=
  store_live (obj := obj) /\ Supports ObjectSize (rbackend r) = true /\
  forall o, o ∈ objects -> exists bytes, obj o = Some bytes /\ bytes <> [].

Lemma Supports_driver c d (b : Backend.Backend D) : Supports c (set_driver d b) = Supports c b.
Proof. done. Qed.

Lemma sizeOf_spec o r r' t : honest r -> sizeOf o r = (r', t) ->
  honest r' /\ rtier r' = rtier r /\ levels r' = levels r /\
  match t with Some n => exists bytes, obj o = Some bytes /\ n = zlen bytes /\ 0 < n | None => True end /\
  forall objects, o ∈ objects -> can_say r objects -> can_say r' objects /\ is_Some t.
Proof.
  intros [Id Hs]. unfold sizeOf. destruct (sizes r !! o) as [n|] eqn:E.
  { intros [= <- <-]. split_and!; [by split|done..|by apply Hs|eauto]. }
  unfold Backend.SizeOf. destruct (Supports ObjectSize (rbackend r)) eqn:Su; simpl negb; cbv iota.
  2: { intros [= <- <-]. split_and!; [by split|done..|]. intros objects _ (_ & X & _). congruence. }
  unfold guarded. pose proof (drv_SizeOf_inv o (driver (rbackend r)) Id) as Id'.
  pose proof (drv_SizeOf_Ok o (driver (rbackend r))) as Ok_. destruct (drv_SizeOf o _) as [d1 n] eqn:S. simpl in *.
  assert (forall objects, o ∈ objects -> can_say r objects -> exists bytes, obj o = Some bytes /\ n = Ok (zlen bytes) /\ bytes <> []) as Live.
  { intros objects I (L & _ & O). destruct (O o I) as (bytes & B & Nb). exists bytes. split_and!; [done| |done].
    destruct (L (driver (rbackend r)) o bytes Id B) as [R _]. by rewrite S in R. }
  destruct n as [n|e].
  - destruct (Ok_ n Id eq_refl) as (bytes & B & ->). destruct (Z.leb_spec (zlen bytes) 0) as [Le|Gt].
    + intros [= <- <-]. split_and!; [by split|done..|]. intros objects I C. destruct (Live objects I C) as (by_ & B' & _ & Nb).
      rewrite B in B'. injection B' as <-. destruct bytes; [done|unfold zlen in Le; simpl in Le; lia].
    + intros [= <- <-]. split_and!; [split; [done|]|done..|by exists bytes|].
      * simpl. intros o' n' [[<- <-]|[_ H']]%lookup_insert_Some; [by exists bytes|by apply Hs].
      * intros objects I (L & _ & O). split; [|eauto]. by split_and!.
  - intros [= <- <-]. split_and!; [split; [|done]|done..|].
    + simpl. by destruct e.
    + intros objects I C. by destruct (Live objects I C) as (bytes & _ & [=] & _).
Qed.

Definition fits (block : Z) (l : list (Held * Z)) : Prop := Forall (fun hn => 0 <= hn.2 * block <= MaxInt64) l.
Definition tracks (l : list (Held * Z)) : list string := trackKey <$> l.*1.

Lemma Update_lookup k f (t : gmap string Z) k' : default None_ ((Update k f t).1 !! k') =
  if (k =? k')%string then Next (default None_ (t !! k)) f else default None_ (t !! k').
Proof.
  unfold Update. destruct (Z.eqb_spec (Next (default None_ (t !! k)) f) None_) as [E|E]; simpl;
    destruct (String.eqb_spec k k') as [->|N];
    rewrite ?lookup_delete_eq, ?lookup_delete_ne, ?lookup_insert_eq, ?lookup_insert_ne by done; done.
Qed.
Lemma Update_level k f (t : gmap string Z) : (Update k f t).2 = Next (default None_ (t !! k)) f.
Proof. unfold Update. destruct (Z.eqb_spec (Next (default None_ (t !! k)) f) None_); simpl; congruence. Qed.

Lemma Fraction_held block n total : 0 < total -> 0 <= n * block <= MaxInt64 ->
  Fraction (held_bytes n block total) total = Ok (f64_div (f64_of_Z (held_bytes n block total)) (f64_of_Z total)).
Proof.
  intros T F. assert (0 <= held_bytes n block total <= total) as B by (unfold held_bytes; int64_lia).
  unfold Fraction. destruct (Z.leb_spec total 0), (Z.ltb_spec (held_bytes n block total) 0), (Z.ltb_spec total (held_bytes n block total));
    try lia. done.
Qed.

(** One dataset: its line is added and its level tracked, or nothing is known. *)
Lemma report_one_spec block h n r out r1 out1 : honest r -> 0 <= n * block <= MaxInt64 ->
  report_one block (r, out) (h, n) = (r1, out1) ->
  honest r1 /\ rtier r1 = rtier r /\
  (out1 = out /\ levels r1 = levels r /\ (forall objects, HObject h ∈ objects -> ~ can_say r objects) \/
   exists bytes, obj (HObject h) = Some bytes /\ bytes <> [] /\
     let e := line block h n (zlen bytes) (default None_ (levels r !! trackKey h)) in
     out1 = out ++ [e] /\ levels r1 = (Update (trackKey h) (Fraction_ e) (levels r)).1 /\
     forall objects, HObject h ∈ objects -> can_say r objects -> can_say r1 objects).
Proof.
  intros Ho F. unfold report_one. destruct (sizeOf (HObject h) r) as [r0 t] eqn:S.
  apply sizeOf_spec in S as (Ho' & Et & El & B & Li); [|done]. destruct t as [t|].
  - destruct B as (bytes & B & -> & Pz). rewrite Fraction_held, El by done. cbv zeta.
    set (f := f64_div _ _). pose proof (Update_level (trackKey h) f (levels r)) as Ul.
    destruct (Update (trackKey h) f (levels r)) as [tr lv] eqn:U. simpl in Ul. subst lv. intros [= <- <-].
    split; [exact Ho'|]. split; [exact Et|]. right. exists bytes. split; [done|]. split; [by intros ->|].
    split; [done|]. split; [simpl; by fold f; rewrite U|]. intros objects I C. by destruct (Li objects I C).
  - intros [= <- <-]. split; [done|]. split; [done|]. left. split_and!; [done..|]. intros objects I C.
    by destruct (Li objects I C) as [_ [? [=]]].
Qed.

(** The loop over what is held. *)
Lemma report_loop block l : forall r out r' out', honest r -> fits block l -> NoDup (tracks l) ->
  fold_left (report_one block) l (r, out) = (r', out') ->
  honest r' /\ rtier r' = rtier r /\ exists es, out' = out ++ es /\
  (forall e, e ∈ es -> exists h n bytes, (h, n) ∈ l /\ obj (HObject h) = Some bytes /\ bytes <> [] /\
     e = line block h n (zlen bytes) (default None_ (levels r !! trackKey h)) /\
     default None_ (levels r' !! trackKey h) = Next (default None_ (levels r !! trackKey h)) (Fraction_ e)) /\
  (forall k, k ∉ tracks l -> default None_ (levels r' !! k) = default None_ (levels r !! k)) /\
  (forall k, default None_ (levels r' !! k) = default None_ (levels r !! k) \/ exists e, e ∈ es /\ k = line_track e) /\
  NoDup ((fun e => (Tenant e, RObject e)) <$> es) /\
  forall objects, ((fun hn => HObject hn.1) <$> l) ⊆ objects -> can_say r objects -> 
    (fun e => (Tenant e, RObject e)) <$> es = (fun hn => (HTenant hn.1, HObject hn.1)) <$> l.
Proof.
  induction l as [|[h n] l IH]; intros r out r' out' Ho F N; cbn [fold_left].
  { intros [= <- <-]. split_and!; [done..|]. exists []. rewrite app_nil_r. split_and!; try done; [|auto|constructor].
    intros e I. by inversion I. }
  apply Forall_cons in F as [Fh F]. apply NoDup_cons in N as [Nh N]. fold (tracks l) in N, Nh. simpl in Fh, Nh.
  destruct (report_one block (r, out) (h, n)) as [r1 out1] eqn:O.
  destruct (report_one_spec block h n r out r1 out1 Ho Fh O) as (Ho1 & Et1 & C). intros L.
  destruct (IH r1 out1 r' out' Ho1 F N L) as (Ho' & Et' & es & -> & Es & Fr & Kp & Nd & Li). split; [done|].
  split; [congruence|].
  assert (forall k, k <> trackKey h -> default None_ (levels r1 !! k) = default None_ (levels r !! k)) as Other.
  { intros k Nk. destruct C as [(_ & -> & _)|(bytes & _ & _ & _ & -> & _)]; [done|]. rewrite Update_lookup.
    by rewrite (proj2 (String.eqb_neq _ _)) by done. }
  assert (forall h' n', (h', n') ∈ l -> trackKey h' <> trackKey h) as Apart.
  { intros h' n' I E. apply Nh. rewrite <- E. apply list_elem_of_fmap_2, (list_elem_of_fmap_2 fst _ (h', n')), I. }
  assert (forall e, e ∈ es -> exists h' n' bytes, (h', n') ∈ (h, n) :: l /\ obj (HObject h') = Some bytes /\ bytes <> [] /\
     e = line block h' n' (zlen bytes) (default None_ (levels r !! trackKey h')) /\
     default None_ (levels r' !! trackKey h') = Next (default None_ (levels r !! trackKey h')) (Fraction_ e)) as Tail.
  { intros e I. destruct (Es e I) as (h' & n' & bytes & I' & B & Nb & E & Lv). exists h', n', bytes.
    rewrite (Other _ (Apart _ _ I')) in *. split_and!; [by right|done..]. }
  assert (forall k, k ∉ trackKey h :: tracks l -> default None_ (levels r' !! k) = default None_ (levels r !! k)) as Rest.
  { intros k [Nk Nl]%not_elem_of_cons. rewrite Fr by done. by apply Other. }
  destruct C as [(-> & El & Un)|(bytes & B & Nb & -> & El & Cs)].
  - exists es. split_and!; [done|exact Tail|exact Rest|by rewrite <- El|done|]. intros objects Sub Can. exfalso. apply (Un objects); [|done].
    apply Sub. left.
  - set (e := line block h n (zlen bytes) _) in *. exists (e :: es). rewrite <- app_assoc. split_and!; [done| |exact Rest| | |].
    + intros e' [-> |I]%elem_of_cons; [|by apply Tail]. exists h, n, bytes. split_and!; [by left|done..|].
      rewrite Fr by done. rewrite El, Update_lookup, String.eqb_refl. done.
    + intros k. destruct (Kp k) as [-> |(x & I & ->)]; [|right; exists x; split; [by right|done]].
      destruct (decide (k = trackKey h)) as [->|N0]; [right; exists e; split; [by left|done]|left; by apply Other].
    + rewrite fmap_cons. constructor; [|done]. intros (e' & Ee & I)%list_elem_of_fmap. destruct (Es e' I) as (h' & n' & b' & I' & _ & _ & -> & _).
      simpl in Ee. injection Ee as Et Eo. apply (Apart h' n' I'). unfold trackKey. congruence.
    + intros objects Sub Can. rewrite !fmap_cons. simpl. f_equal. apply (Li objects); [|apply Cs; [|done]; apply Sub; left].
      intros x I. apply Sub. by right.
Qed.
End reports.

Lemma forgotten_spec held (t : gmap string Z) k : forgotten held t !! k =
  if bool_decide (k ∈ tracks (map_to_list held)) then t !! k else None.
Proof.
  unfold forgotten, tracks, Levels, Forget. set (still := trackKey <$> _).
  set (step := fun (t : gmap string Z) (kl : string * Z) => if bool_decide (kl.1 ∈ still) then t else delete kl.1 t).
  assert (k ∈ still -> forall l t0, fold_left step l t0 !! k = t0 !! k) as In.
  { intros S. induction l as [|[x z] l IH]; intros t0; [done|]. cbn [fold_left]. rewrite IH. unfold step. simpl.
    case_bool_decide as X; [done|]. apply lookup_delete_ne. by intros ->. }
  assert (k ∉ still -> forall l t0, k ∈ l.*1 \/ t0 !! k = None -> fold_left step l t0 !! k = None) as Out.
  { intros S. induction l as [|[x z] l IH]; intros t0 I; cbn [fold_left]; [by destruct I as [I|]; [inversion I|]|].
    apply IH. unfold step. simpl. rewrite fmap_cons, elem_of_cons in I. simpl in I.
    case_bool_decide as X; [destruct I as [[-> |I]|I]; auto; done|]. destruct (decide (x = k)) as [->|N]; [right; apply lookup_delete_eq|].
    rewrite lookup_delete_ne by done. destruct I as [[-> |I]|I]; auto; done. }
  case_bool_decide as S; [by apply In|]. apply Out; [done|]. destruct (t !! k) as [z|] eqn:E; [left|by right].
  apply list_elem_of_fmap. exists (k, z). split; [done|]. by apply elem_of_map_to_list.
Qed.

#[global] Instance of_le_trans : Transitive of_le.
Proof.
  intros x y z. unfold of_le. intros A B.
  destruct (String.eqb_spec (Tenant x) (Tenant y)) as [E1|N1], (String.eqb_spec (Tenant y) (Tenant z)) as [E2|N2].
  - rewrite (proj2 (String.eqb_eq _ _)) by congruence.
    destruct (str_ltb (RObject z) (RObject x)) eqn:E; [|done]. destruct (decide (RObject x = RObject y)) as [Ex|N]; [rewrite Ex in E; congruence|].
    destruct (str_ltb_total _ _ N) as [L|L]; [|congruence]. by rewrite (str_ltb_trans _ _ _ E L) in B.
  - rewrite E1. by rewrite (proj2 (String.eqb_neq _ _) N2).
  - rewrite <- E2. by rewrite (proj2 (String.eqb_neq _ _) N1).
  - destruct (str_ltb_total _ _ N1) as [L1|L1]; [|congruence]. destruct (str_ltb_total _ _ N2) as [L2|L2]; [|congruence].
    pose proof (str_ltb_trans _ _ _ L1 L2) as L. destruct (String.eqb_spec (Tenant x) (Tenant z)) as [E|N].
    + rewrite E, str_ltb_irrefl in L. discriminate.
    + by apply str_ltb_asym.
Qed.
#[global] Instance of_le_total : base.Total of_le.
Proof.
  intros x y. unfold of_le. rewrite (String.eqb_sym (Tenant y)). destruct (Tenant x =? Tenant y)%string.
  - destruct (str_ltb (RObject y) (RObject x)) eqn:E; [right|by left]. by apply str_ltb_asym.
  - destruct (str_ltb (Tenant y) (Tenant x)) eqn:E; [right|by left]. by apply str_ltb_asym.
Qed.

(** ** What the controller makes of a report *)

Definition as_held (e : residencyOf) : Controller.held := Controller.mkHeldLabel (Level_ e) (Label e) (Rack e).

Lemma want_others k (es : list residencyOf) : forall want, (forall e, e ∈ es -> Rack e <> k /\ (Label e = k -> Level_ e = ""%string)) ->
  fold_left Controller.want_one (as_held <$> es) want !! k = want !! k.
Proof.
  induction es as [|e es IH]; intros want A; [done|]. rewrite fmap_cons. cbn [fold_left]. rewrite IH; [|intros e' I; apply A; by right].
  destruct (A e) as [Nr Nl]; [by left|]. unfold Controller.want_one, as_held. simpl.
  destruct (String.eqb_spec (Level_ e) "") as [|Ne]; [done|]. simpl. destruct (Label e =? "")%string; [done|].
  destruct (decide (Label e = k)) as [E|N]; [destruct Ne; auto|].
  destruct (Rack e =? "")%string; by rewrite ?lookup_insert_ne.
Qed.

Lemma want_line e (es : list residencyOf) : forall want, e ∈ es -> NoDup (Label <$> es) -> (forall x, x ∈ es -> Rack x <> Label e) ->
  Label e <> ""%string -> Level_ e <> ""%string ->
  fold_left Controller.want_one (as_held <$> es) want !! Label e = Some (Level_ e).
Proof.
  induction es as [|x es IH]; intros want I Nd R Nl Nv; [by inversion I|]. rewrite fmap_cons. cbn [fold_left].
  rewrite fmap_cons in Nd. apply NoDup_cons in Nd as [Nx Nd]. apply elem_of_cons in I as [<- |I].
  - rewrite want_others.
    + unfold Controller.want_one, as_held. simpl. rewrite (proj2 (String.eqb_neq _ _) Nv), (proj2 (String.eqb_neq _ _) Nl). simpl.
      destruct (Rack e =? "")%string; rewrite ?lookup_insert_ne by (apply R; by left); apply lookup_insert_eq.
    + intros x I. split; [apply R; by right|]. intros E. destruct Nx. rewrite <- E. by apply list_elem_of_fmap_2.
  - apply IH; try done. intros y Iy. apply R. by right.
Qed.

Lemma Label_not_Rack t o t' o' : RackKey t' o' <> Residency.Key t o.
Proof.
  intros E. apply (f_equal strlen) in E. destruct (Key_fits t o) as [K _], (Key_fits t' o') as [_ R]. lia.
Qed.
Lemma Label_nonempty t o : Residency.Key t o <> ""%string.
Proof. done. Qed.

(** ** What a node is labelled with *)

(** Datasets the tracker's key and the label's hash tell apart; and blocks that come
    to an [int64] of bytes. *)
Definition told_apart (held : gmap Held Z) : Prop := forall h1 h2, is_Some (held !! h1) -> is_Some (held !! h2) ->
  trackKey h1 = trackKey h2 \/ Residency.Key (HTenant h1) (HObject h1) = Residency.Key (HTenant h2) (HObject h2) -> h1 = h2.
Definition countable (block : Z) (held : gmap Held Z) : Prop := forall h n, held !! h = Some n -> 0 <= n * block <= MaxInt64.
Definition levelled (t : gmap string Z) : Prop := forall k, level (default None_ (t !! k)).

Lemma tracks_NoDup held : told_apart held -> NoDup (tracks (map_to_list held)).
Proof.
  intros A. unfold tracks. apply NoDup_fmap_2_strong; [|apply NoDup_fst_map_to_list].
  intros h1 h2 ([x1 n1] & -> & I1)%list_elem_of_fmap ([x2 n2] & -> & I2)%list_elem_of_fmap E.
  apply elem_of_map_to_list in I1, I2. simpl in *. apply A; eauto.
Qed.

Lemma Level_String_None l : level l -> (Level_String l = "" <-> l = None_)%string.
Proof. intros [-> | [-> | ->]]; by split. Qed.

(** What the report makes of the datasets held. *)
Definition tells {D} (r r' : residencyReporter D) (out : list residencyOf) (h : Held) (n : Z) (bytes : list byte) : Prop :=
  let block := BlockSize (tcfg (rtier r)) in
  let was := default None_ (levels r !! trackKey h) in
  let now := Next was (f64_div (f64_of_Z (held_bytes n block (zlen bytes))) (f64_of_Z (zlen bytes))) in
  line block h n (zlen bytes) was ∈ out /\ default None_ (levels r' !! trackKey h) = now /\
  Controller.labels_wanted (as_held <$> out) !! Residency.Key (HTenant h) (HObject h) =
    if now =? None_ then None else Some (Level_String now).

(** ** What a report's lines say of what is held *)

Section said.
Context (obj : string -> option (list byte)) (held : gmap Held Z) (block : Z) (t t' : gmap string Z).
Context (A : told_apart held) (Lv : levelled t).

(** [e] is the line of something held, and the level kept for it is the one [e] carries. *)
Definition said (e : residencyOf) : Prop := exists h n bytes, held !! h = Some n /\ obj (HObject h) = Some bytes /\ bytes <> [] /\
  e = line block h n (zlen bytes) (default None_ (t !! trackKey h)) /\
  default None_ (t' !! trackKey h) = Next (default None_ (t !! trackKey h)) (Fraction_ e).

Lemma said_apart e1 e2 : said e1 -> said e2 -> Label e1 = Label e2 -> e1 = e2.
Proof.
  intros (h1 & n1 & b1 & H1 & B1 & _ & -> & _) (h2 & n2 & b2 & H2 & B2 & _ & -> & _) E.
  simpl in E. assert (h1 = h2) as -> by (apply A; eauto). congruence.
Qed.

Lemma said_labels es : (forall e, e ∈ es -> said e) -> NoDup ((fun e => (Tenant e, RObject e)) <$> es) -> NoDup (Label <$> es).
Proof. intros Es Nd. apply NoDup_fmap_2_strong; [|by eapply NoDup_fmap_1]. eauto using said_apart. Qed.

Lemma said_held es h n : (forall e, e ∈ es -> said e) ->
  (fun e => (Tenant e, RObject e)) <$> es = (fun hn => (HTenant hn.1, HObject hn.1)) <$> map_to_list held ->
  held !! h = Some n -> exists bytes, obj (HObject h) = Some bytes /\ bytes <> [] /\
  line block h n (zlen bytes) (default None_ (t !! trackKey h)) ∈ es /\
  default None_ (t' !! trackKey h) = Next (default None_ (t !! trackKey h))
    (f64_div (f64_of_Z (held_bytes n block (zlen bytes))) (f64_of_Z (zlen bytes))).
Proof.
  intros Es Li I. assert ((HTenant h, HObject h) ∈ (fun e => (Tenant e, RObject e)) <$> es) as M.
  { rewrite Li. apply (list_elem_of_fmap_2 (fun hn : Held * Z => (HTenant hn.1, HObject hn.1)) _ (h, n)). by apply elem_of_map_to_list. }
  apply list_elem_of_fmap in M as (e & Ee & Ie). destruct (Es e Ie) as (h' & n' & bytes & I' & B & Nb & -> & Lv').
  simpl in Ee. injection Ee as Et' Eo'. assert (h' = h) as ->.
  { apply A; eauto. left. unfold trackKey. congruence. }
  rewrite I in I'. injection I' as <-. by exists bytes.
Qed.

Lemma said_wanted out h n bytes : (forall e, e ∈ out -> said e) -> NoDup (Label <$> out) ->
  held !! h = Some n -> obj (HObject h) = Some bytes ->
  let now := Next (default None_ (t !! trackKey h))
    (f64_div (f64_of_Z (held_bytes n block (zlen bytes))) (f64_of_Z (zlen bytes))) in
  line block h n (zlen bytes) (default None_ (t !! trackKey h)) ∈ out ->
  Controller.labels_wanted (as_held <$> out) !! Residency.Key (HTenant h) (HObject h) =
    if now =? None_ then None else Some (Level_String now).
Proof.
  intros Es Nl I B now. unfold Controller.labels_wanted. set (e := line _ _ _ _ _). intros Il.
  assert (level now) as Ln by (by apply Next_level). assert (Level_ e = Level_String now) as Ev by done.
  assert (forall x, x ∈ out -> Rack x <> Label e) as Ra.
  { intros x Ix. destruct (Es x Ix) as (h' & n' & b' & _ & _ & _ & -> & _). apply Label_not_Rack. }
  destruct (Z.eqb_spec now None_) as [Z0|Nz].
  - rewrite want_others; [apply lookup_empty|]. intros x Ix. split; [by apply Ra|]. intros Ex.
    assert (x = e) as -> by (apply said_apart; auto). rewrite Ev. by apply Level_String_None.
  - rewrite <- Ev. apply (want_line e); [done..|apply Label_nonempty|]. rewrite Ev. by rewrite Level_String_None.
Qed.
End said.


Definition wblock (i : Z) : FastTier.Key := mkKey "team" (mkBlockRef "files" "d/c" i).
Definition wplace : placement := mkPlacement 0 0 2 0 0.
Definition wreporter : residencyReporter FileDriver.FileStore :=
  newResidencyReporter (set_resident (<[wblock 0 := wplace]> {[wblock 1 := wplace]}) (Tier.fcache DataServerTheorems.wtier))
    DataServerTheorems.wbackend.

