(* ===== verification/VolumesApi.v ===== *)
(** * VolumesApi: telling an agent which volumes are served (internal/volumes/http.go)

    The node plugin reports, over a network that may lose a report or its answer; the
    agent keeps the registry of CsiNode.v. *)

From S2P Require Import Prelude GoStrings GoPath Journal CsiNode.
From S2P Require Checkpoint GrpcWire Kube LeaseApi.

Local Open Scope Z_scope.

Record Report : Type := mkReport {
  RID : string;
  RBytes : Z;
}.

(** Whether a report's encoding is within the 4 KiB read of it. *)
Class ReportSize := report_fits : Report -> bool.

(** ** The agent's side *)

(** [DELETE] is of the path as it is sent; a body that does not decode is [None]. *)
Inductive vrequest : Type :=
  | PostVolume (body : option Report)
  | DeleteVolume (escaped : string)
  | ListVolumes.
Inductive vresponse : Type :=
  | VStatus (code : Z)
  | VListing (count bytes : Z).

(** [url.PathUnescape] of what [PathEscape] makes. *)
Fixpoint path_unescape (b : list byte) : list byte :=
  match b with
  | c :: (h :: l :: b') as rest =>
      if Ascii.eqb c "%" then
        match GrpcWire.hex_value h, GrpcWire.hex_value l with
        | Some h, Some l => byte_of (16 * h + l) :: path_unescape b'
        | _, _ => c :: path_unescape rest
        end
      else c :: path_unescape rest
  | c :: b => c :: path_unescape b
  | [] => []
  end.

(** [ServeMux]'s cleaning of a path. *)
Definition cleanPath (p : string) : string :=
  let np := Clean p in
  if GoPath.HasSuffix "/" p && negb (np =? "/")%string then np +:+ "/" else np.

Definition published (body : option Report) (n : Node) : Node * vresponse :=
  match body with
  | None => (n, VStatus 400)
  | Some rep => if (RID rep =? "")%string then (n, VStatus 400) else (Registry_Published (RID rep) (RBytes rep) n, VStatus 204)
  end.
Definition unpublished (id : string) (n : Node) : Node * vresponse :=
  if (id =? "")%string then (n, VStatus 400) else (Registry_Unpublished id n, VStatus 204).
Definition list_volumes (n : Node) : Node * vresponse := let '(count, size) := Requested n in (n, VListing count size).

(** The mux sends a path that is not clean to the clean one, which the client asks
    for with a [GET]: the listing, or nothing that answers one. *)
Definition volumes_Handler (token given : string) (r : vrequest) (n : Node) : Node * vresponse :=
  let guard (next : Node * vresponse) := if negb (Checkpoint.trim_bearer given =? token)%string then (n, VStatus 401) else next in
  match r with
  | PostVolume body => guard (published body n)
  | ListVolumes => guard (list_volumes n)
  | DeleteVolume escaped =>
      let path := "/volumes/" +:+ escaped in
      if (cleanPath path =? path)%string then guard (unpublished (string_of (path_unescape (bytes_of escaped))) n)
      else if (cleanPath path =? "/volumes")%string then guard (list_volumes n)
      else (n, VStatus 405)
  end.

(** ** The node plugin's side *)

Section client.
Context `{ReportSize}.

Definition vsend (token ctoken : string) (f : LeaseApi.fate) (r : vrequest) (n : Node) : Node * bool :=
  match f with
  | LeaseApi.RequestLost => (n, false)
  | _ =>
      let '(n, answer) := volumes_Handler token (Checkpoint.bearer +:+ ctoken) r n in
      (n, match f, answer with
          | LeaseApi.Delivered, VStatus code => code / 100 =? 2
          | LeaseApi.Delivered, VListing _ _ => true
          | _, _ => false
          end)
  end.

Definition report_published (token ctoken : string) (f : LeaseApi.fate) (id : string) (size : Z) (n : Node) : Node * bool :=
  let rep := mkReport (json_string id) size in
  vsend token ctoken f (PostVolume (if report_fits rep then Some rep else None)) n.
Definition escaped_id (id : string) : string := Join "/" (Kube.PathEscape <$> Split slash id).
Definition report_unpublished (token ctoken : string) (f : LeaseApi.fate) (id : string) (n : Node) : Node * bool :=
  vsend token ctoken f (DeleteVolume (escaped_id id)) n.

(** ** Properties *)

(** A name survives being sent in a path. *)
Lemma unescape_plain c b : Ascii.eqb c "%" = false -> path_unescape (c :: b) = c :: path_unescape b.
Proof. intros N. destruct b as [|h [|l b]]; [reflexivity..|]. cbn [path_unescape]. by rewrite N. Qed.
Lemma safe_plain c : Kube.path_safe c = true -> Ascii.eqb c "%" = false.
Proof. intros S. apply Ascii.eqb_neq. intros ->. vm_compute in S. discriminate. Qed.
Lemma unescape_percent c b : path_unescape (["%"%char; GrpcWire.hex_digit (of_byte c / 16); GrpcWire.hex_digit (of_byte c mod 16)] ++ b)
  = c :: path_unescape b.
Proof.
  assert (GrpcWire.hex_value (GrpcWire.hex_digit (of_byte c / 16)) = Some (of_byte c / 16) /\
    GrpcWire.hex_value (GrpcWire.hex_digit (of_byte c mod 16)) = Some (of_byte c mod 16) /\
    byte_of (16 * (of_byte c / 16) + of_byte c mod 16) = c) as (E1 & E2 & E3).
  { destruct c as [[] [] [] [] [] [] [] []]; vm_compute; split_and!; reflexivity. }
  cbn [app path_unescape]. rewrite Ascii.eqb_refl, E1, E2. by rewrite E3.
Qed.
Lemma unescape_PathEscape s b : path_unescape (bytes_of (Kube.PathEscape s) ++ b) = bytes_of s ++ path_unescape b.
Proof.
  unfold Kube.PathEscape. rewrite list_ascii_of_string_of_list_ascii. induction s as [|c s IH]; [done|]. simpl bytes_of.
  rewrite fmap_cons. cbn [concat]. rewrite <- app_assoc. cbn [app]. destruct (Kube.path_safe c) eqn:S.
  - cbn [app]. rewrite unescape_plain by by apply safe_plain. f_equal. exact IH.
  - rewrite unescape_percent. f_equal. exact IH.
Qed.

Lemma unescape_escaped id : string_of (path_unescape (bytes_of (escaped_id id))) = id.
Proof.
  assert (forall l, path_unescape (bytes_of (Join "/" (Kube.PathEscape <$> l))) = bytes_of (Join "/" l)) as G.
  { induction l as [|x [|y l] IH]; [done| |].
    - simpl. rewrite <- (app_nil_r (bytes_of (Kube.PathEscape x))), unescape_PathEscape. by rewrite app_nil_r.
    - rewrite !fmap_cons in *. change (Join "/" (?a :: ?b :: ?m)) with (a +:+ "/" +:+ Join "/" (b :: m)).
      rewrite !bytes_of_app, unescape_PathEscape. f_equal. change (bytes_of "/") with ["/"%char]. cbn [app].
      rewrite unescape_plain by done. by rewrite IH. }
  unfold escaped_id. rewrite G, (Join_Split slash). apply string_of_list_ascii_of_string.
Qed.

(** A volume that the mux takes as it is sent. *)
Definition routed (id : string) : Prop := cleanPath ("/volumes/" +:+ escaped_id id) = "/volumes/" +:+ escaped_id id.

(** Reported as gone, and answered so, a volume is no longer counted, and no other
    is touched; and reported as served, it is counted for its size once. *)
Theorem reports_take_effect token id size f n : id <> ""%string -> json_string id = id -> report_fits (mkReport id size) = true ->
  routed id ->
  (let '(n', ok) := report_published token token f id size n in
   n' = n /\ ok = false \/ byID n' = <[id := Z.max 0 size]> (byID n)) /\
  (let '(n', ok) := report_unpublished token token f id n in n' = n /\ ok = false \/ byID n' = delete id (byID n)) /\
  (report_published token token LeaseApi.Delivered id size n).2 = true /\
  (report_unpublished token token LeaseApi.Delivered id n).2 = true.
Proof.
  intros Ne J F R. unfold report_published, report_unpublished, vsend, volumes_Handler. cbv zeta. rewrite J, F, R, String.eqb_refl.
  rewrite LeaseApi.trim_bearer_own, String.eqb_refl, unescape_escaped. unfold published, unpublished, Registry_Published, Registry_Unpublished. simpl.
  rewrite (proj2 (String.eqb_neq _ _) Ne).
  assert ((if size <? 0 then 0 else size) = Z.max 0 size) as E by (destruct (Z.ltb_spec size 0); lia).
  destruct f; simpl; rewrite ?E; split_and!; auto.
Qed.
End client.

(** A handle that is a dot is reported gone, answered so, and still counted. *)
Example dot_volume_stays `{ReportSize} n :
  let '(n', ok) := report_unpublished "t" "t" LeaseApi.Delivered "." (set_byID {[ "."%string := 7 ]} n) in
  ok = true /\ byID n' !! "."%string = Some 7.
Proof. vm_compute. split; reflexivity. Qed.
