(* ===== verification/Bench.v ===== *)
(** * Bench: one arm of a comparison against another (internal/bench/bench.go)

    A plan is split into blocks, which the workers read between them, each every so
    many. The order the workers' reads fall in is a schedule: which worker reads
    next. What a read answers is an argument, and may depend on every read before. *)

From S2P Require Import Prelude GoStrings Float64.
From S2P Require Residency Pressure.

Local Open Scope Z_scope.

Record Plan : Type := mkPlan {
  PObject : string;
  PSize : Z;
  PBlock : Z;
  PWorkers : Z;
}.

Inductive BenchErr (E : Type) : Type :=
  | NoObject
  | BadSize (n : Z)
  | BadBlock (n : Z)
  | BadWorkers (n : Z)
  | ReaderCount (readers workers : Z)
  | ReadsFailed (errs : list (Z * E))
  | ShortTotal (total size : Z).
Arguments NoObject {E}.
Arguments BadSize {E}.
Arguments BadBlock {E}.
Arguments BadWorkers {E}.
Arguments ReaderCount {E}.
Arguments ReadsFailed {E}.
Arguments ShortTotal {E}.

Definition Plan_Validate {E} (p : Plan) : option (BenchErr E) :=
  if (PObject p =? "")%string then Some NoObject
  else if PSize p <=? 0 then Some (BadSize (PSize p))
  else if PBlock p <=? 0 then Some (BadBlock (PBlock p))
  else if PWorkers p <=? 0 then Some (BadWorkers (PWorkers p))
  else None.

(** The blocks from an offset on: each takes a byte at least, so the size is fuel
    enough while the offset does not wrap. *)
Fixpoint blocks_from (fuel : nat) (size block off : Z) : list (Z * Z) :=
  match fuel with
  | O => []
  | S fuel =>
      if size <=? off then []
      else (off, Z.min block (size -! off)) :: blocks_from fuel size block (off +! block)
  end.
Definition blocks (p : Plan) : list (Z * Z) := blocks_from (Z.to_nat (PSize p)) (PSize p) (PBlock p) 0.

Record Result : Type := mkResult {
  Arm : string;
  RWorkers : Z;
  RBytes : Z;
  RElapsed : duration;
  Checksum : Z;
}.

Definition Rate (r : Result) : float64 :=
  if RElapsed r <=? 0 then f64_of_Z 0
  else f64_div (f64_div (f64_of_Z (RBytes r)) (Pressure.Seconds (RElapsed r))) (f64_of_Z 1048576).

(** ** Running a plan *)

Section run.
Context {W E : Type}.
(** What worker [w]'s reader answers. *)
Variable read : nat -> string -> Z -> Z -> W -> W * result E (list byte).

(** Where a worker is: the block it reads next, or the error that stopped it. *)
Record running : Type := mkRunning {
  world : W;
  parts : list (option (list byte));
  nexts : list nat;
  errs : list (option (Z * E));
}.

Definition started (p : Plan) (w : W) : running :=
  mkRunning w (replicate (length (blocks p)) None) (seq 0 (Z.to_nat (PWorkers p)))
    (replicate (Z.to_nat (PWorkers p)) None).

(** The next turn of one worker's loop; a worker that is done, or stopped, does nothing. *)
Definition turn (p : Plan) (s : running) (w : nat) : running :=
  match nexts s !! w, errs s !! w with
  | Some i, Some None =>
      match blocks p !! i with
      | None => s
      | Some (off, len) =>
          let '(wd, r) := read w (PObject p) off len (world s) in
          match r with
          | Ok b => mkRunning wd (<[i := Some b]> (parts s)) (<[w := (i + Z.to_nat (PWorkers p))%nat]> (nexts s)) (errs s)
          | Err e => mkRunning wd (parts s) (nexts s) (<[w := Some (off, e)]> (errs s))
          end
      end
  | _, _ => s
  end.

(** [wg.Wait]: every worker has come to the end of its blocks, or to an error. *)
Definition finished (p : Plan) (s : running) : bool :=
  forallb (fun ie : nat * option (Z * E) => Nat.leb (length (blocks p)) ie.1 || bool_decide (is_Some ie.2))
    (zip (nexts s) (errs s)).

Definition ran (p : Plan) (w : W) (schedule : list nat) : running := fold_left (turn p) schedule (started p w).

(** What is made of it, once every worker is done. *)
Definition summed (arm : string) (p : Plan) (elapsed : duration) (s : running) : result (BenchErr E) Result :=
  match omap id (errs s) with
  | [] =>
      let bs := default [] <$> parts s in
      let sum := fold_left Residency.fnv_write bs Residency.fnv_offset in
      let total := fold_left (fun t b => t +! zlen b) bs 0 in
      if negb (total =? PSize p) then Err (ShortTotal total (PSize p))
      else Ok (mkResult arm (PWorkers p) total elapsed sum)
  | es => Err (ReadsFailed es)
  end.

Definition Run (arm : string) (readers : Z) (p : Plan) (w : W) (schedule : list nat) (elapsed : duration)
  : result (BenchErr E) Result :=
  match Plan_Validate p with
  | Some e => Err e
  | None =>
      if negb (readers =? PWorkers p) then Err (ReaderCount readers (PWorkers p))
      else summed arm p elapsed (ran p w schedule)
  end.
End run.

(** [Median]: the middle by time; [sort.Slice] may order equal times either way. *)
Definition elapsed_le (r s : Result) : Prop := RElapsed r <= RElapsed s.
#[global] Instance elapsed_le_dec r s : Decision (elapsed_le r s).
Proof. unfold elapsed_le. apply _. Defined.
Definition Median (rs : list Result) : Result :=
  let sorted := merge_sort elapsed_le rs in
  default (mkResult "" 0 0 0 0) (sorted !! Z.to_nat (zlen sorted / 2)).

(** * A run reads the object, whatever order its reads fall in *)

(** ** The blocks of an object *)

Definition block_of (obj : list byte) (ol : Z * Z) : list byte := slice ol.1 (ol.1 + ol.2) obj.

Lemma blocks_from_cover fuel obj block : 0 < block -> zlen obj + block <= MaxInt64 -> forall off,
  0 <= off -> zlen obj - off <= Z.of_nat fuel ->
  concat (block_of obj <$> blocks_from fuel (zlen obj) block off) = zdrop off obj /\
  Forall (fun ol => 0 <= ol.1 /\ 0 < ol.2 /\ ol.1 + ol.2 <= zlen obj) (blocks_from fuel (zlen obj) block off).
Proof.
  intros Hb Hm. pose proof (zlen_nonneg obj) as No.
  assert (forall off, zlen obj <= off -> zdrop off obj = []) as Past.
  { intros off L. unfold zdrop, zlen in *. apply drop_ge. lia. }
  induction fuel as [|fuel IH]; intros off Ho Hf; simpl.
  - split; [|constructor]. symmetry. apply Past. lia.
  - destruct (Z.leb_spec (zlen obj) off); [split; [by rewrite Past|constructor]|].
    rewrite !wrap64_id by (unfold is_int64, MinInt64, MaxInt64 in *; lia).
    destruct (IH (off + block)) as [C F]; [lia..|]. rewrite fmap_cons. cbn [concat]. rewrite C. split.
    + unfold block_of. cbn [fst snd]. unfold slice.
      replace (off + Z.min block (zlen obj - off) - off) with (Z.min block (zlen obj - off)) by lia.
      destruct (Z.min_spec block (zlen obj - off)) as [[L ->]|[L ->]].
      * unfold ztake, zdrop. rewrite Z2Nat.inj_add, <- drop_drop by lia. apply take_drop.
      * rewrite (Past (off + block)), app_nil_r by lia. unfold ztake, zdrop, zlen. apply take_ge. rewrite length_drop. lia.
    + constructor; [cbn [fst snd]; lia|done].
Qed.

Lemma blocks_cover p obj : 0 < PBlock p -> PSize p = zlen obj -> zlen obj + PBlock p <= MaxInt64 ->
  concat (block_of obj <$> blocks p) = obj /\
  Forall (fun ol => 0 <= ol.1 /\ 0 < ol.2 /\ ol.1 + ol.2 <= zlen obj) (blocks p).
Proof.
  intros Hb Es Hm. unfold blocks. rewrite Es. destruct (blocks_from_cover (Z.to_nat (zlen obj)) obj (PBlock p) Hb Hm 0) as [C F]; [lia..|].
  by rewrite C.
Qed.

(** Two numbers less than [m] apart that leave the same over [m] are one. *)
Lemma mod_within m i j : (i <= j)%nat -> (j < i + m)%nat -> (j mod m = i mod m)%nat -> j = i.
Proof.
  intros L U E. pose proof (Nat.div_mod_eq j m) as Dj. pose proof (Nat.div_mod_eq i m) as Di. rewrite E in Dj.
  revert Dj Di. generalize (j / m)%nat (i / m)%nat. intros a b Dj Di.
  assert (a < b + 1)%nat by nia. assert (b <= a)%nat by nia. assert (a = b) as -> by lia. lia.
Qed.

(** ** A run *)

Section run.
Context {W E : Type} (read : nat -> string -> Z -> Z -> W -> W * result E (list byte)).
Context (p : Plan) (obj : list byte).
Context (Hv : Plan_Validate (E := E) p = None) (Hsize : PSize p = zlen obj) (Hroom : zlen obj + PBlock p <= MaxInt64).
(** A read that succeeds gives what the object holds in the range. *)
Context (Hread : forall w off len wd b, 0 <= off -> 0 < len -> off + len <= zlen obj ->
  (read w (PObject p) off len wd).2 = Ok b -> b = slice off (off + len) obj).

Abbreviation n := (length (blocks p)).
Abbreviation step := (Z.to_nat (PWorkers p)).

Lemma valid : 0 < PBlock p /\ (0 < step)%nat.
Proof.
  unfold Plan_Validate in Hv. destruct (_ =? _)%string; [done|]. destruct (PSize p <=? 0); [done|].
  destruct (Z.leb_spec (PBlock p) 0); [done|]. destruct (Z.leb_spec (PWorkers p) 0); [done|]. lia.
Qed.

(** Where the workers have got to: what is read is the object's, and each has read
    all its blocks before the one it is at. *)
Record running_ok (s : running (W := W) (E := E)) : Prop := {
  ok_lengths : length (parts s) = n /\ length (nexts s) = step /\ length (errs s) = step;
  ok_parts i b ol : parts s !! i = Some (Some b) -> blocks p !! i = Some ol -> b = block_of obj ol;
  ok_nexts w k : nexts s !! w = Some k -> (k mod step = w)%nat /\
    forall i, (i < n)%nat -> (i mod step = w)%nat -> (i < k)%nat -> exists b, parts s !! i = Some (Some b);
  ok_errs w off e : errs s !! w = Some (Some (off, e)) ->
    exists w' len wd, (read w' (PObject p) off len wd).2 = Err e;
}.

Lemma started_ok wd : running_ok (started p wd).
Proof.
  destruct valid as [Hb Hs]. constructor; simpl.
  - by rewrite !length_replicate, length_seq.
  - intros i b ol I. apply lookup_replicate in I as [? _]. done.
  - intros w k I. apply lookup_seq in I as [-> L]. simpl. rewrite Nat.mod_small by done. split; [done|].
    intros i _ Hi Lt. rewrite Nat.mod_small in Hi by lia. lia.
  - intros w off e I. apply lookup_replicate in I as [? _]. done.
Qed.

Lemma turn_ok s w : running_ok s -> running_ok (turn read p s w).
Proof.
  intros [Ln Pt Nx Er]. destruct valid as [Hb Hs]. unfold turn. destruct (nexts s !! w) as [i|] eqn:Ei; [|done].
  destruct (errs s !! w) as [[[]|]|] eqn:Ee; [done| |done]. destruct (blocks p !! i) as [[off len]|] eqn:Eb; [|done].
  destruct (read w (PObject p) off len (world s)) as [wd r] eqn:R.
  destruct (blocks_cover p obj Hb Hsize Hroom) as [_ F]. rewrite Forall_lookup in F. specialize (F _ _ Eb) as (F1 & F2 & F3).
  cbn [fst snd] in *. assert (i < n)%nat as Li by by eapply lookup_lt_Some.
  destruct r as [b|e]; constructor; cbn [parts nexts errs].
  - rewrite !length_insert. done.
  - intros j b' ol Hj Ho. destruct (decide (i = j)) as [<-|Ne].
    + rewrite list_lookup_insert_eq in Hj by lia. injection Hj as <-. rewrite Eb in Ho. injection Ho as <-.
      apply (Hread w off len (world s)); [done..|]. by rewrite R.
    + rewrite list_lookup_insert_ne in Hj by done. by eapply Pt.
  - intros w' k Hk. assert (forall j b', parts s !! j = Some (Some b') -> exists b'', <[i := Some b]> (parts s) !! j = Some (Some b'')) as Keep.
    { intros j b' Hj. destruct (decide (i = j)) as [<-|Ne]; [rewrite list_lookup_insert_eq by lia|rewrite list_lookup_insert_ne by done]; eauto. }
    destruct (decide (w = w')) as [<-|Ne].
    + rewrite list_lookup_insert_eq in Hk by (apply lookup_lt_Some in Ei; lia). injection Hk as <-.
      destruct (Nx w i Ei) as [M P]. split.
      * rewrite <- M. replace (i + step)%nat with (i + 1 * step)%nat by lia. by apply Nat.Div0.mod_add.
      * intros j Lj Mj Lt. destruct (decide (j < i)%nat) as [L|G]; [destruct (P j Lj Mj L) as [b' B]; by eapply Keep|].
        assert (j = i) as ->; [|rewrite list_lookup_insert_eq by lia; eauto].
        apply (mod_within step); [lia..|by rewrite M].
    + rewrite list_lookup_insert_ne in Hk by done. destruct (Nx w' k Hk) as [M P]. split; [done|].
      intros j Lj Mj Lt. destruct (P j Lj Mj Lt) as [b' B]. by eapply Keep.
  - done.
  - by rewrite length_insert.
  - done.
  - done.
  - intros w' off' e' Hw. destruct (decide (w = w')) as [<-|Ne].
    + rewrite list_lookup_insert_eq in Hw by (apply lookup_lt_Some in Ee; lia). injection Hw as <- <-.
      exists w, len, (world s). by rewrite R.
    + rewrite list_lookup_insert_ne in Hw by done. by eapply Er.
Qed.

Lemma fold_ok schedule : forall s, running_ok s -> running_ok (fold_left (turn read p) schedule s).
Proof. induction schedule as [|w l IH]; intros s Hs; simpl; [done|]. by apply IH, turn_ok. Qed.

(** How far a worker's turns take it: to the end of its blocks, or as many blocks as
    it had turns, unless an error stopped it. *)
Definition done_by (c : nat) (s : running (W := W) (E := E)) (v : nat) : Prop :=
  exists k x, nexts s !! v = Some k /\ errs s !! v = Some x /\ (is_Some x \/ (n <= k)%nat \/ (c <= k)%nat).

Lemma turn_done c s w v : done_by c s v -> done_by ((if decide (v = w) then 1 else 0) + c) (turn read p s w) v.
Proof.
  destruct valid as [_ Hs]. intros (k & x & Ek & Ex & Dn). unfold turn. destruct (decide (v = w)) as [<-|Nv].
  - rewrite Ek, Ex. destruct x as [oe|]; [exists k, (Some oe); split_and!; eauto|].
    destruct (blocks p !! k) as [[off len]|] eqn:Eb.
    2: { exists k, None. split_and!; [done..|]. right. left. by apply lookup_ge_None in Eb. }
    apply lookup_lt_Some in Eb. destruct Dn as [[? ?]|Dn]; [done|].
    destruct (read v (PObject p) off len (world s)) as [wd [b|e]].
    + exists (k + step)%nat, None. simpl. rewrite list_lookup_insert_eq by by eapply lookup_lt_Some. split_and!; [done..|]. lia.
    + exists k, (Some (off, e)). simpl. rewrite list_lookup_insert_eq by by eapply lookup_lt_Some. split_and!; eauto.
  - exists k, x. destruct (nexts s !! w) as [i|]; [|done]. destruct (errs s !! w) as [[|]|]; [done| |done].
    destruct (blocks p !! i) as [[off len]|]; [|done].
    destruct (read w (PObject p) off len (world s)) as [wd [b|e]]; simpl; by rewrite ?list_lookup_insert_ne by done.
Qed.

Lemma fold_done v schedule : forall c s, done_by c s v ->
  done_by (length (filter (fun w => v = w) schedule) + c) (fold_left (turn read p) schedule s) v.
Proof.
  induction schedule as [|w l IH]; intros c s Dn; [done|]. cbn [fold_left]. apply (turn_done c s w v), IH in Dn.
  rewrite filter_cons. destruct (decide (v = w)); simpl in *; [|done].
  by replace (S (length (filter (fun w => v = w) l) + c)) with (length (filter (fun w => v = w) l) + S c)%nat by lia.
Qed.

(** Every worker has as many turns as there are blocks. *)
Definition fair (schedule : list nat) : Prop :=
  forall w, (w < step)%nat -> (n <= length (filter (fun v => w = v) schedule))%nat.

Lemma fair_finishes schedule wd : fair schedule -> finished p (ran read p wd schedule) = true.
Proof.
  intros F. unfold finished. apply forallb_forall. intros [k x] I. apply list_elem_of_In in I.
  apply list_elem_of_lookup in I as [v I]. rewrite lookup_zip_with_Some in I. destruct I as (k' & x' & [= -> ->] & Ek & Ex).
  pose proof (ok_lengths _ (fold_ok schedule _ (started_ok wd))) as (_ & Ln & _).
  assert (v < step)%nat as Lv by (rewrite <- Ln; by eapply lookup_lt_Some).
  assert (done_by 0 (started p wd) v) as Dn.
  { exists v, None. unfold started. simpl. rewrite lookup_seq_lt, lookup_replicate_2 by done. split_and!; [done..|]. lia. }
  apply (fold_done v schedule) in Dn as (k1 & x1 & Ek1 & Ex1 & Dn). unfold ran in *. simplify_eq. specialize (F v Lv). simpl.
  destruct Dn as [Sx|Dn]; [rewrite (bool_decide_true _ Sx); by rewrite orb_true_r|].
  rewrite (proj2 (Nat.leb_le _ _)); [done|lia].
Qed.

Lemma summed_total (l : list (list byte)) : forall a, 0 <= a -> a + zlen (concat l) <= MaxInt64 ->
  fold_left (fun t b => t +! zlen b) l a = a + zlen (concat l).
Proof.
  induction l as [|b l IH]; intros a Ha Le; cbn [fold_left concat]; [unfold zlen; simpl; lia|].
  cbn [concat] in Le. rewrite zlen_app in *. pose proof (zlen_nonneg b). pose proof (zlen_nonneg (concat l)).
  rewrite wrap64_id by (unfold is_int64, MinInt64, MaxInt64 in *; lia). rewrite IH; lia.
Qed.
Lemma fnv_concat (l : list (list byte)) : forall h, fold_left Residency.fnv_write l h = Residency.fnv_write h (concat l).
Proof. induction l as [|b l IH]; intros h; [done|]. cbn [fold_left concat]. rewrite IH. unfold Residency.fnv_write. by rewrite fold_left_app. Qed.

(** Once every worker is done and none was stopped, the parts are the object. *)
Lemma all_parts s : running_ok s -> finished p s = true -> omap id (errs s) = [] -> concat (default [] <$> parts s) = obj.
Proof.
  intros Ok Fin Ne. destruct valid as [Hb Hs]. destruct (blocks_cover p obj Hb Hsize Hroom) as [C _]. rewrite <- C. f_equal. clear C.
  destruct (ok_lengths s Ok) as (Lp & Ln & Le). apply list_eq. intros i. rewrite !list_lookup_fmap.
  destruct (blocks p !! i) as [ol|] eqn:Eb.
  2: { apply lookup_ge_None in Eb. by rewrite (lookup_ge_None_2 (parts s)) by lia. }
  assert (i < n)%nat as Li by by eapply lookup_lt_Some.
  assert (i mod step < step)%nat as Lm by (apply Nat.mod_upper_bound; lia).
  destruct (lookup_lt_is_Some_2 (nexts s) (i mod step)) as [k Ek]; [lia|].
  destruct (lookup_lt_is_Some_2 (errs s) (i mod step)) as [x Ex]; [lia|].
  assert (x = None) as ->.
  { destruct x as [oe|]; [|done]. apply list_elem_of_lookup_2 in Ex. assert (oe ∈ omap id (errs s)) as I; [|rewrite Ne in I; by apply elem_of_nil in I].
    apply list_elem_of_omap. by exists (Some oe). }
  assert (n <= k)%nat as Lk.
  { unfold finished in Fin. rewrite forallb_forall in Fin. specialize (Fin (k, None)). simpl in Fin. rewrite orb_false_r in Fin.
    apply Nat.leb_le, Fin, list_elem_of_In, list_elem_of_lookup. exists (i mod step)%nat. by apply lookup_zip_with_Some; eauto. }
  destruct (ok_nexts s Ok _ k Ek) as [_ P]. destruct (P i Li eq_refl ltac:(lia)) as [b B]. rewrite B. simpl. f_equal.
  by apply (ok_parts s Ok i b ol).
Qed.
End run.

(** an arm measures the object, whatever order its reads fall in. Over any number
    of workers, any interleaving of their reads that gives each its turns, and any
    reader that tells the truth when it answers, a run that reports a rate has read
    every byte of the object once, under the object's own checksum, so that two arms
    that report can be compared; and one that does not report heard an error from a
    reader. *)
Theorem arms_read_alike {W E} (read : nat -> string -> Z -> Z -> W -> W * result E (list byte)) p obj arm wd schedule elapsed :
  Plan_Validate (E := E) p = None -> PSize p = zlen obj -> zlen obj + PBlock p <= MaxInt64 ->
  (forall w off len wd b, 0 <= off -> 0 < len -> off + len <= zlen obj ->
     (read w (PObject p) off len wd).2 = Ok b -> b = slice off (off + len) obj) ->
  fair p schedule ->
  match Run read arm (PWorkers p) p wd schedule elapsed with
  | Ok r => RBytes r = zlen obj /\ Checksum r = Residency.fnv_write Residency.fnv_offset obj /\ RWorkers r = PWorkers p
  | Err (ReadsFailed es) => es <> [] /\ Forall (fun oe => exists w len wd, (read w (PObject p) oe.1 len wd).2 = Err oe.2) es
  | Err _ => False
  end.
Proof.
  intros Hv Hs Hr Hh F. unfold Run. rewrite Hv, Z.eqb_refl. simpl.
  pose proof (fair_finishes read p obj Hv Hs Hr Hh schedule wd F) as Fin.
  pose proof (fold_ok read p obj Hv Hs Hr Hh schedule _ (started_ok read p obj Hv wd)) as Ok. fold (ran read p wd schedule) in Ok.
  unfold summed. destruct (omap id (errs (ran read p wd schedule))) as [|oe es] eqn:Es.
  - pose proof (all_parts read p obj Hv Hs Hr _ Ok Fin Es) as A. pose proof (zlen_nonneg obj).
    assert (0 < PBlock p) by by destruct (valid p Hv).
    rewrite summed_total by (rewrite ?A; lia). rewrite A, fnv_concat, A, Hs, Z.eqb_refl. done.
  - split; [done|]. rewrite <- Es. apply Forall_forall. intros [off e] I. apply list_elem_of_omap in I as (x & I & Ex).
    unfold id in Ex. subst x. apply list_elem_of_lookup in I as [v I]. by apply (ok_errs _ _ _ _ Ok v).
Qed.

(** Two workers and a short last block, the second worker reading first. *)
Definition wobject : list byte := bytes_of "abcdefg".
Definition wread (_ : nat) (_ : string) (off len : Z) (_ : ()) : () * result () (list byte) :=
  ((), Ok (slice off (off + len) wobject)).
Definition wplan : Plan := mkPlan "o" 7 3 2.

Lemma arms_read_alike_witness :
  exists r, Run wread "arm" 2 wplan () [1; 1; 1; 0; 0; 0]%nat Second = Ok r /\ RBytes r = 7 /\
    Checksum r = Residency.fnv_write Residency.fnv_offset wobject.
Proof.
  pose proof (arms_read_alike wread wplan wobject "arm" () [1; 1; 1; 0; 0; 0]%nat Second eq_refl eq_refl
    ltac:(vm_compute; discriminate)
    ltac:(intros w off len wd b _ _ _ [= <-]; reflexivity)
    ltac:(intros [|[|w]] L; [vm_compute; lia..|vm_compute in L; lia])) as A.
  destruct (Run wread "arm" (PWorkers wplan) wplan () [1; 1; 1; 0; 0; 0]%nat Second) as [r|e] eqn:E0; [|vm_compute in E0; discriminate].
  exists r. split; [exact E0|]. destruct A as (? & ? & _). by split.
Defined.
