(* ===== verification/Workload.v ===== *)
(** * Workload: a steady writer and what it achieved (internal/workload/workload.go)

    The writer's file and the clock are lists of what they answer: a write is how
    much went in, when it began and when it was done. *)

From S2P Require Import Prelude GoStrings Float64.
From S2P Require Pressure.

Local Open Scope Z_scope.

Record Sample : Type := mkSample {
  SStart : duration;
  SBytes : Z;
  SElapsed : duration;
  SSlowest : duration;
}.
Definition no_sample : Sample := mkSample 0 0 0 0.

Definition Rate (s : Sample) : float64 :=
  if SElapsed s <=? 0 then f64_of_Z 0
  else f64_div (f64_div (f64_of_Z (SBytes s)) (Pressure.Seconds (SElapsed s))) (f64_of_Z 1048576).

Record Config : Type := mkConfig {
  CDir : string;
  CName : string;
  CBlock : Z;
  CInterval : duration;
  CLimit : Z;
}.

Inductive WorkloadErr : Type :=
  | NoDirectory
  | BadBlock (n : Z)
  | BadInterval (d : duration)
  | SmallLimit (limit block : Z)
  | NotOpened
  | WriteFailed (at_ : Z).

Definition Config_Validate (c : Config) : option WorkloadErr :=
  if (CDir c =? "")%string then Some NoDirectory
  else if CBlock c <=? 0 then Some (BadBlock (CBlock c))
  else if CInterval c <=? 0 then Some (BadInterval (CInterval c))
  else if CLimit c <? CBlock c then Some (SmallLimit (CLimit c) (CBlock c))
  else None.

(** ** The sampler *)

Record sampler : Type := mkSampler {
  start : time;
  open_ : time;
  interval : duration;
  cur : Sample;
  samples : list Sample;
}.

Definition newSampler (start : time) (interval : duration) : sampler := mkSampler start start interval no_sample [].

(** The interval that is open, closed at a moment. *)
Definition banked (elapsed : duration) (s : sampler) : Sample :=
  mkSample (time_Sub (open_ s) (start s)) (SBytes (cur s)) elapsed (SSlowest (cur s)).

Definition record (n : Z) (took : duration) (now : time) (s : sampler) : sampler :=
  let c := mkSample (SStart (cur s)) (SBytes (cur s) +! n) (SElapsed (cur s))
             (if SSlowest (cur s) <? took then took else SSlowest (cur s)) in
  let s := mkSampler (start s) (open_ s) (interval s) c (samples s) in
  let elapsed := time_Sub now (open_ s) in
  if interval s <=? elapsed
  then mkSampler (start s) now (interval s) no_sample (samples s ++ [banked elapsed s])
  else s.

Definition close (now : time) (s : sampler) : list Sample :=
  if 0 <? SBytes (cur s) then samples s ++ [banked (time_Sub now (open_ s)) s] else samples s.

(** ** The writer *)

(** What a turn of the loop meets: the run is over, at a time; or a write, from one
    time to another, of so many bytes or failed. *)
Inductive moment : Type :=
  | Over (now : time)
  | Write (began done_ : time) (n : option Z).

(** Where the next write goes: from the start again where it would pass the limit. *)
Definition place (c : Config) (at_ : Z) : Z := if CLimit c <? at_ +! CBlock c then 0 else at_.

(** Running out of moments is a run still going on. *)
Fixpoint write_loop (c : Config) (at_ : Z) (s : sampler) (ms : list moment) : option (list Sample * option WorkloadErr) :=
  match ms with
  | [] => None
  | Over now :: _ => Some (close now s, None)
  | Write began done_ n :: ms =>
      let at_ := place c at_ in
      match n with
      | None => Some (close done_ s, Some (WriteFailed at_))
      | Some n => write_loop c (at_ +! n) (record n (time_Sub done_ began) done_ s) ms
      end
  end.

(** The file is opened and the buffer made before the clock is looked at. *)
Definition Run (c : Config) (opened : bool) (begin : time) (ms : list moment) : option (list Sample * option WorkloadErr) :=
  match Config_Validate c with
  | Some e => Some ([], Some e)
  | None => if negb opened then Some ([], Some NotOpened) else write_loop c 0 (newSampler begin (CInterval c)) ms
  end.

(** ** Reading the samples *)

Definition Between (ss : list Sample) (from to : duration) : list Sample :=
  if to <=? from then []
  else filter (fun s => from < SStart s +! SElapsed s /\ SStart s < to) ss.

Definition Phases (ss : list Sample) (from to : duration) : list Sample * list Sample * list Sample :=
  (Between ss 0 from, Between ss from to, Between ss to (2 ^ 62)).

Definition f64_le (x y : float64) : Prop := f64_ltb y x = false.
#[global] Instance f64_le_dec x y : Decision (f64_le x y).
Proof. unfold f64_le. apply _. Defined.
Definition MedianRate (ss : list Sample) : float64 :=
  match ss with
  | [] => f64_of_Z 0
  | _ =>
      let rates := merge_sort f64_le (Rate <$> ss) in
      default (f64_of_Z 0) (rates !! Z.to_nat (zlen rates / 2))
  end.

Definition WorstStall (ss : list Sample) : duration :=
  fold_left (fun worst s => if worst <? SSlowest s then SSlowest s else worst) ss 0.

(** ** What the sampler keeps *)

(** A write as the sampler is told of it: how much, how long, and when it was done. *)
Record told : Type := mkTold { tn : Z; ttook : duration; tnow : time }.
Definition recorded (ts : list told) (s : sampler) : sampler := fold_left (fun s t => record (tn t) (ttook t) (tnow t) s) ts s.

Definition worst (ds : list duration) : duration := fold_left (fun w d => if w <? d then d else w) ds 0.

Lemma stall_from ds : forall a, 0 <= a -> fold_left (fun w d => if w <? d then d else w) ds a = Z.max a (worst ds).
Proof.
  unfold worst. induction ds as [|d ds IH]; intros a Ha; simpl; [lia|].
  destruct (Z.ltb_spec a d), (Z.ltb_spec 0 d); rewrite ?(IH a), ?(IH d) by lia; try lia; rewrite (IH 0) by lia; lia.
Qed.
Lemma worst_app ds es : worst (ds ++ es) = Z.max (worst ds) (worst es).
Proof.
  unfold worst at 1. rewrite fold_left_app. fold (worst ds). apply stall_from.
  pose proof (stall_from ds 0 ltac:(lia)). unfold worst in *. lia.
Qed.
Lemma worst_nonneg ds : 0 <= worst ds.
Proof. pose proof (stall_from ds 0 ltac:(lia)). unfold worst in *. lia. Qed.
Lemma WorstStall_worst ss : WorstStall ss = worst (SSlowest <$> ss).
Proof. unfold WorstStall, worst. generalize 0. induction ss as [|s ss IH]; intros w; simpl; [done|]. apply IH. Qed.

(** One interval begins where the one before it ended, from the start of the run. *)
Fixpoint end_to_end (at_ : duration) (ss : list Sample) : Prop :=
  match ss with
  | [] => True
  | s :: ss => SStart s = at_ /\ end_to_end (at_ + SElapsed s) ss
  end.
Definition ends (ss : list Sample) : duration := Zsum (SElapsed <$> ss).

Lemma end_to_end_app ss ss' : forall at_, end_to_end at_ (ss ++ ss') <-> end_to_end at_ ss /\ end_to_end (at_ + ends ss) ss'.
Proof.
  unfold ends. induction ss as [|s ss IH]; intros at_; simpl; [rewrite Z.add_0_r; naive_solver|].
  rewrite IH, Z.add_assoc. naive_solver.
Qed.

(** A run whose clock goes forward and whose writes are of some bytes. *)
Record steady (begin : time) (ts : list told) (over : time) : Prop := {
  steady_clock : StronglySorted Z.le (begin :: (tnow <$> ts) ++ [over]);
  steady_writes : Forall (fun t => 0 < tn t) ts;
  steady_fits : Zsum (tn <$> ts) <= MaxInt64 /\ over - begin <= MaxInt64;
}.

(** What the sampler holds after some writes: the closed intervals, end to end from
    the start, and the open one, with every byte and the slowest write in one of them. *)
Record keeps (begin : time) (i : duration) (ts : list told) (now : time) (s : sampler) : Prop := {
  keeps_start : start s = begin /\ interval s = i /\ begin <= open_ s <= now;
  keeps_ends : end_to_end 0 (samples s) /\ ends (samples s) = open_ s - begin;
  keeps_bytes : Zsum (SBytes <$> samples s) + SBytes (cur s) = Zsum (tn <$> ts) /\ 0 <= SBytes (cur s) /\
    Forall (fun x => 0 < SBytes x) (samples s);
  keeps_slow : Z.max (worst (SSlowest <$> samples s)) (SSlowest (cur s)) = worst (ttook <$> ts) /\ 0 <= SSlowest (cur s) /\
    (SBytes (cur s) = 0 -> SSlowest (cur s) = 0);
  keeps_long : Forall (fun x => i <= SElapsed x) (samples s);
}.

Lemma keeps_new begin i : keeps begin i [] begin (newSampler begin i).
Proof. split; simpl; [lia|unfold ends; simpl; lia|split_and!; [done|lia|constructor]|unfold worst; simpl; lia|constructor]. Qed.

Lemma keeps_later begin i ts now now' s : now <= now' -> keeps begin i ts now s -> keeps begin i ts now' s.
Proof. intros L [A B C D F]. split; [lia|done..]. Qed.

Lemma Zsum_snoc {A} (f : A -> Z) l x : Zsum (f <$> l ++ [x]) = Zsum (f <$> l) + f x.
Proof. rewrite fmap_app, Zsum_app. unfold Zsum at 2. simpl. lia. Qed.
Lemma worst_snoc {A} (f : A -> Z) l x : worst (f <$> l ++ [x]) = Z.max (worst (f <$> l)) (f x).
Proof.
  rewrite fmap_app, worst_app. pose proof (worst_nonneg (f <$> l)). unfold worst at 2. simpl.
  destruct (Z.ltb_spec 0 (f x)); lia.
Qed.

Lemma record_keeps begin i ts t s : keeps begin i ts (tnow t) s -> 0 < tn t -> Zsum (tn <$> ts) + tn t <= MaxInt64 ->
  tnow t - begin <= MaxInt64 -> keeps begin i (ts ++ [t]) (tnow t) (record (tn t) (ttook t) (tnow t) s).
Proof.
  intros [(As & Ai & Ao) B (C & Cn & CF) (D & Dn & Dz) F] Np Le Lt. assert (0 <= Zsum (SBytes <$> samples s)) as Nn.
  { apply Zsum_nonneg. apply Forall_fmap. eapply Forall_impl; [exact CF|]. intros x; simpl; lia. }
  assert (SBytes (cur s) +! tn t = SBytes (cur s) + tn t) as Eb by (apply wrap64_id; unfold is_int64, MinInt64, MaxInt64 in *; lia).
  assert (time_Sub (tnow t) (open_ s) = tnow t - open_ s) as Et
    by (apply time_Sub_exact; unfold is_int64, MinInt64, MaxInt64 in *; lia).
  assert (time_Sub (open_ s) (start s) = open_ s - begin) as Eo
    by (rewrite As; apply time_Sub_exact; unfold is_int64, MinInt64, MaxInt64 in *; lia).
  set (slow := if SSlowest (cur s) <? ttook t then ttook t else SSlowest (cur s)).
  assert (0 <= slow /\ slow = Z.max (SSlowest (cur s)) (ttook t)) as [Ns Es] by (unfold slow; destruct (Z.ltb_spec (SSlowest (cur s)) (ttook t)); lia).
  assert (Z.max (worst (SSlowest <$> samples s)) slow = worst (ttook <$> (ts ++ [t]))) as Ew.
  { rewrite worst_snoc, <- D. lia. }
  assert (Zsum (tn <$> (ts ++ [t])) = Zsum (tn <$> ts) + tn t) as Ez by apply Zsum_snoc.
  unfold record. cbn [cur open_ interval samples start SBytes SSlowest SStart SElapsed]. fold slow. rewrite Et.
  destruct (Z.leb_spec (interval s) (tnow t - open_ s)).
  - split; cbn [cur open_ interval samples start].
    + lia.
    + destruct B as [B1 B2]. unfold banked. cbn [open_ start cur SBytes SSlowest]. rewrite Eo. split.
      * apply end_to_end_app. split; [done|]. simpl. split; [lia|done].
      * unfold ends in *. rewrite Zsum_snoc. simpl. lia.
    + unfold banked. cbn [open_ start cur SBytes SSlowest]. rewrite Zsum_snoc. cbn [SBytes]. rewrite Eb. simpl. split_and!; [lia..|].
      apply Forall_app. split; [done|]. constructor; [simpl; lia|constructor].
    + unfold banked. cbn [open_ start cur SBytes SSlowest]. rewrite worst_snoc, <- Ew. simpl. pose proof (worst_nonneg (SSlowest <$> samples s)). lia.
    + apply Forall_app. split; [done|]. constructor; [simpl; lia|constructor].
  - split; cbn [cur open_ interval samples start SBytes SSlowest]; [lia|done| |split_and!; [done|lia|rewrite Eb; lia]|done].
    rewrite Eb. split_and!; [lia..|done].
Qed.

Lemma steady_last begin ts t over : steady begin (ts ++ [t]) over ->
  steady begin ts (tnow t) /\ 0 < tn t /\ Zsum (tn <$> ts) + tn t <= MaxInt64 /\ tnow t - begin <= MaxInt64 /\ tnow t <= over.
Proof.
  intros [S F [Le Lo]]. rewrite Zsum_snoc in Le. apply Forall_app in F as [F Ft]. apply Forall_cons in Ft as [Ft _].
  assert (0 <= Zsum (tn <$> ts)) as Nn.
  { apply Zsum_nonneg, Forall_fmap. eapply Forall_impl; [exact F|]. intros x; simpl; lia. }
  rewrite fmap_app, <- app_assoc in S. simpl in S.
  assert (StronglySorted Z.le ((begin :: (tnow <$> ts) ++ [tnow t]) ++ [over])) as S' by (simpl; by rewrite <- app_assoc).
  assert (tnow t <= over) as Lt.
  { eapply (StronglySorted_app_1_elem_of _ (begin :: (tnow <$> ts) ++ [tnow t]) [over]); [exact S'|set_solver|set_solver]. }
  apply StronglySorted_app_1_l in S'. split_and!; [|done|lia..]. split; [done|done|]. split; [lia|].
  lia.
Qed.

Lemma recorded_keeps begin i ts : forall over, steady begin ts over ->
  exists now, now <= over /\ keeps begin i ts now (recorded ts (newSampler begin i)).
Proof.
  induction ts as [|t ts IH] using rev_ind; intros over St.
  - exists begin. split; [|apply keeps_new]. destruct St as [S _ _]. simpl in S. inversion S as [|? ? _ F]; subst.
    by apply Forall_cons in F as [? _].
  - destruct (steady_last _ _ _ _ St) as (S1 & Np & Le & Lt & Lo). destruct (IH _ S1) as (now & Ln & K).
    exists (tnow t). split; [done|]. unfold recorded. rewrite fold_left_app. simpl.
    apply record_keeps; [by eapply keeps_later|done..].
Qed.

(** nothing a writer did is lost to its summary. Over a run whose clock goes
    forward, the intervals are end to end from the start, each but the last as long
    as was asked; they hold between them every byte that was written; and the worst
    stall among them is the slowest write there was. *)
Theorem sampler_keeps_all begin i ts over : steady begin ts over ->
  let ss := close over (recorded ts (newSampler begin i)) in
  end_to_end 0 ss /\ Zsum (SBytes <$> ss) = Zsum (tn <$> ts) /\ WorstStall ss = worst (ttook <$> ts) /\
  Forall (fun s => 0 < SBytes s) ss /\ Forall (fun s => i <= SElapsed s) (removelast ss) /\ ends ss <= over - begin.
Proof.
  intros St. destruct (recorded_keeps begin i ts over St) as (now & Ln & [(As & Ai & Ao) [B1 B2] (C & Cn & CF) (D & Dn & Dz) F]).
  destruct St as [_ _ [_ Lo]]. set (s := recorded ts _) in *. unfold close. rewrite WorstStall_worst.
  assert (time_Sub over (open_ s) = over - open_ s) as Et by (apply time_Sub_exact; unfold is_int64, MinInt64, MaxInt64 in *; lia).
  assert (time_Sub (open_ s) (start s) = open_ s - begin) as Eo
    by (rewrite As; apply time_Sub_exact; unfold is_int64, MinInt64, MaxInt64 in *; lia).
  destruct (Z.ltb_spec 0 (SBytes (cur s))) as [P|P].
  - unfold banked. rewrite Eo, Et. split_and!.
    + apply end_to_end_app. split; [done|]. simpl. split; [lia|done].
    + rewrite Zsum_snoc. simpl. lia.
    + rewrite worst_snoc. simpl. lia.
    + apply Forall_app. split; [done|]. by repeat constructor.
    + by rewrite removelast_last.
    + unfold ends in *. rewrite Zsum_snoc. simpl. lia.
  - assert (SBytes (cur s) = 0) as Z0 by lia. specialize (Dz Z0). split_and!; [done|lia|pose proof (worst_nonneg (SSlowest <$> samples s)); lia|done| |lia].
    destruct (samples s) as [|x l _] using rev_ind; [constructor|]. rewrite removelast_last. by apply Forall_app in F as [F _].
Qed.

(** Every interval of a run is in a phase of it: those an event partly covers are in
    its own, and a run that ends part way still has an after. *)
Theorem phases_cover ss from to s : 0 <= from <= to -> to < 2 ^ 62 -> s ∈ ss -> 0 <= SStart s < 2 ^ 62 -> 0 < SElapsed s < 2 ^ 62 ->
  let '(before, during, after) := Phases ss from to in
  s ∈ before \/ s ∈ during \/ s ∈ after.
Proof.
  intros L T I S0 S1. assert (SStart s +! SElapsed s = SStart s + SElapsed s) as E by (apply wrap64_id; unfold is_int64, MinInt64, MaxInt64; lia).
  assert (forall a b, a < b -> a < SStart s + SElapsed s -> SStart s < b -> s ∈ Between ss a b) as In.
  { intros a b Lab La Lb. unfold Between. rewrite (proj2 (Z.leb_gt _ _)) by lia. apply list_elem_of_filter. rewrite E. by split. }
  unfold Phases. destruct (decide (SStart s < from)); [left; apply In; lia|].
  destruct (decide (to < SStart s + SElapsed s)); [right; right; apply In; lia|right; left; apply In; lia].
Qed.

(** The file the writer rewrites stays within its limit. *)
Lemma place_within c at_ : Config_Validate c = None -> is_int64 (CLimit c) -> 0 <= at_ <= CLimit c -> CLimit c + CBlock c <= MaxInt64 ->
  0 <= place c at_ /\ place c at_ + CBlock c <= CLimit c.
Proof.
  unfold Config_Validate, place. destruct (_ =? _)%string; [done|]. destruct (Z.leb_spec (CBlock c) 0); [done|].
  destruct (Z.leb_spec (CInterval c) 0); [done|]. destruct (Z.ltb_spec (CLimit c) (CBlock c)); [done|]. intros _ I A M.
  rewrite wrap64_id by (unfold is_int64, MinInt64, MaxInt64 in *; lia). destruct (Z.ltb_spec (CLimit c) (at_ + CBlock c)); lia.
Qed.
