(* ===== verification/Freed.v ===== *)
(** * Freed: when released space is seen (internal/freed/freed.go)

    What the filesystem and the clock answer is a list, one entry for each time round
    the wait: what free space read, how long it is since the release by the clock, and
    whether the deadline is past. A list that ends is a wait still going on. *)

From S2P Require Import Prelude GoStrings.

Local Open Scope Z_scope.

Record Result : Type := mkResult {
  Unlink : duration;
  Visible : duration;
  Saw : Z;
  Polls : Z;
}.
Definition no_Result : Result := mkResult 0 0 0 0.

Inductive FreedErr : Type :=
  | BadWant (n : Z)
  | BadPatience (every patience : duration)
  | CannotRead
  | CannotRelease
  | ErrNotSeen (saw want : Z) (after : duration)
  | ErrConfounded (went : Z).

Record reading : Type := mkReading {
  rfree : option Z;
  rsince : duration;
  rlate : bool;
}.

Fixpoint wait (want before peak : Z) (r : Result) (rs : list reading) : option (Result * option FreedErr) :=
  match rs with
  | [] => None
  | x :: rs =>
      match rfree x with
      | None => Some (r, Some CannotRead)
      | Some now =>
          let got := now -! before in
          let at_ saw := mkResult (Unlink r) (rsince x) saw (Polls r +! 1) in
          if want <=? got then Some (at_ got, None)
          else if now <? peak then Some (at_ got, Some (ErrConfounded (peak -! now)))
          else if rlate x then Some (at_ got, Some (ErrNotSeen got want (rsince x)))
          else wait want before now (mkResult (Unlink r) (Visible r) (Saw r) (Polls r +! 1)) rs
      end
  end.

(** [free] is read once before; [released] is whether the release worked, and how long
    it took. *)
Definition Watch (before : option Z) (released : bool) (unlink : duration) (want : Z) (every patience : duration)
    (rs : list reading) : option (Result * option FreedErr) :=
  if want <=? 0 then Some (no_Result, Some (BadWant want))
  else if (every <=? 0) || (patience <=? 0) then Some (no_Result, Some (BadPatience every patience))
  else match before with
       | None => Some (no_Result, Some CannotRead)
       | Some b =>
           if negb released then Some (no_Result, Some CannotRelease)
           else wait want b b (mkResult unlink 0 0 0) rs
       end.

(** ** What a verdict rests on *)

(** Free space as it was read, up to some point, never falling and never enough. *)
Definition rising (want before : Z) (rs : list reading) (now : Z) : Prop :=
  exists fs, rfree <$> rs = Some <$> fs /\ Sorted Z.le (before :: fs) /\ now = default before (last fs) /\
    Forall (fun f => f - before < want) fs.

Lemma Sorted_snoc (l : list Z) x y : Sorted Z.le (x :: l) -> default x (last l) <= y -> Sorted Z.le (x :: l ++ [y]).
Proof.
  revert x. induction l as [|z l IH]; intros x S L; [by repeat constructor|]. simpl. inversion S as [|? ? S' H]; subst.
  constructor; [|by inversion H; constructor]. apply IH; [done|]. rewrite last_cons in L. by destruct (last l).
Qed.

Lemma wait_spec want b rs : forall seen peak r out, Forall (fun x => forall f, rfree x = Some f -> is_int64 (f - b)) rs ->
  rising want b seen peak -> Polls r = zlen seen -> zlen seen + zlen rs <= MaxInt64 ->
  wait want b peak r rs = Some out ->
  exists pre x post, rs = pre ++ x :: post /\ exists peak', rising want b (seen ++ pre) peak' /\
    match rfree x with
    | None => out.2 = Some CannotRead
    | Some now =>
        Polls out.1 = zlen (seen ++ pre) + 1 /\ Saw out.1 = now - b /\ Visible out.1 = rsince x /\ Unlink out.1 = Unlink r /\
        match out.2 with
        | None => want <= now - b
        | Some (ErrConfounded went) => now - b < want /\ now < peak' /\ went = peak' -! now
        | Some (ErrNotSeen saw w d) => now - b < want /\ peak' <= now /\ rlate x = true /\ saw = now - b /\ w = want /\ d = rsince x
        | Some _ => False
        end
    end.
Proof.
  induction rs as [|x rs IH]; intros seen peak r out F Rs Ep Lm; [done|]. apply Forall_cons in F as [Fx F]. simpl.
  rewrite zlen_cons in Lm. pose proof (zlen_nonneg rs). pose proof (zlen_nonneg seen).
  destruct (rfree x) as [now|] eqn:Ex.
  2: { intros [= <-]. exists [], x, rs. split; [done|]. exists peak. rewrite app_nil_r, Ex. done. }
  specialize (Fx now eq_refl). rewrite (wrap64_id (now - b)) by done.
  assert (Polls r +! 1 = zlen seen + 1) as Ep' by (rewrite Ep; apply wrap64_id; unfold is_int64, MinInt64, MaxInt64 in *; lia).
  destruct (Z.leb_spec want (now - b)) as [Wn|Wn]; [|destruct (Z.ltb_spec now peak) as [Pk|Pk]; [|destruct (rlate x) eqn:El]].
  - intros [= <-]. exists [], x, rs. split; [done|]. exists peak. rewrite app_nil_r, Ex. done.
  - intros [= <-]. exists [], x, rs. split; [done|]. exists peak. rewrite app_nil_r, Ex. done.
  - intros [= <-]. exists [], x, rs. split; [done|]. exists peak. rewrite app_nil_r, Ex. done.
  - intros E. destruct (IH (seen ++ [x]) now (mkResult (Unlink r) (Visible r) (Saw r) (Polls r +! 1)) out F) with (4 := E) as (pre & y & post & -> & peak' & Rp & V).
    + destruct Rs as (fs & Ef & Sf & Eq & Ff). exists (fs ++ [now]). rewrite !fmap_app, Ef. simpl. rewrite Ex. split_and!.
      * done.
      * apply Sorted_snoc; [done|lia].
      * by rewrite last_snoc.
      * apply Forall_app. split; [done|]. by repeat constructor.
    + simpl. rewrite zlen_app, Ep'. done.
    + rewrite zlen_app. unfold zlen at 2. simpl. lia.
    + exists (x :: pre), y, post. split; [done|]. exists peak'. rewrite <- app_assoc in *. done.
Qed.

(** a measurement blames the filesystem only for the filesystem. Every verdict is of
    the reading it ends at, counted: space is said to have appeared at the first
    reading that shows it all; it is said not to have only past the patience given,
    while free space never fell below any reading before; and where it fell, the run
    is called confounded. *)
Theorem verdict_is_of_the_reading before unlink want every patience rs r e :
  Forall (fun x => forall f, rfree x = Some f -> is_int64 (f - before)) rs -> zlen rs <= MaxInt64 ->
  0 < want -> 0 < every -> 0 < patience ->
  Watch (Some before) true unlink want every patience rs = Some (r, e) ->
  exists pre x post, rs = pre ++ x :: post /\ exists peak, rising want before pre peak /\
    match rfree x with
    | None => e = Some CannotRead
    | Some now =>
        Polls r = zlen pre + 1 /\ Saw r = now - before /\ Visible r = rsince x /\ Unlink r = unlink /\
        match e with
        | None => want <= now - before
        | Some (ErrConfounded went) => now - before < want /\ now < peak /\ went = peak -! now
        | Some (ErrNotSeen saw w d) => now - before < want /\ peak <= now /\ rlate x = true /\ saw = now - before /\ w = want /\ d = rsince x
        | Some _ => False
        end
    end.
Proof.
  intros F Lm Hw He Hp. unfold Watch.
  rewrite (proj2 (Z.leb_gt _ _)), (proj2 (Z.leb_gt every 0)), (proj2 (Z.leb_gt patience 0)) by lia. simpl. intros E.
  destruct (wait_spec want before rs [] before (mkResult unlink 0 0 0) (r, e) F) with (4 := E) as (pre & x & post & -> & peak & Rp & V).
  - exists []. split_and!; [done|by repeat constructor|done|constructor].
  - done.
  - unfold zlen at 1. simpl. lia.
  - exists pre, x, post. split; [done|]. by exists peak.
Qed.

(** It always ends: at a reading that fails, or at the first past the deadline. *)
Theorem watch_ends before unlink want every patience pre x post :
  rlate x = true -> is_Some (Watch before true unlink want every patience (pre ++ x :: post)).
Proof.
  intros L. unfold Watch. destruct (want <=? 0); [eauto|]. destruct (_ || _); [eauto|]. destruct before as [b|]; [|eauto]. simpl.
  generalize (mkResult unlink 0 0 0). generalize b at 2. intros peak r. revert r peak. induction pre as [|y pre IH]; intros r peak; simpl.
  - destruct (rfree x) as [now|]; [|eauto]. destruct (_ <=? _); [eauto|]. destruct (now <? peak); [eauto|]. rewrite L. eauto.
  - destruct (rfree y) as [now|]; [|eauto]. destruct (_ <=? _); [eauto|]. destruct (now <? peak); [eauto|]. destruct (rlate y); eauto.
Qed.

(** A writer that takes less than the release gave back is told from a filesystem that
    is slow. *)
Example confounded :
  Watch (Some 100) true 5 50 1 10 [mkReading (Some 100) 0 false; mkReading (Some 130) 1 false; mkReading (Some 120) 2 false] =
    Some (mkResult 5 2 20 3, Some (ErrConfounded 10)).
Proof. reflexivity. Qed.

(** * Releases, measured (cmd/forebay-freed)

    Extents are laid down in a directory, released, and free space watched, as many
    times as asked. The directory is its files by name; which calls to it fail, and
    what free space and the clock read, are arguments. *)

Record freed_flags : Type := mkFreedFlags {
  fDir : string;
  fSize : Z;
  fExtents : Z;
  fRepeat : Z;
  fEvery : duration;
  fPatience : duration;
}.

Inductive FlagErr : Type := NoDir | NotPositive | NoPolling | LooksOnce (every patience : duration).

Definition checkFlags (f : freed_flags) : option FlagErr :=
  if (fDir f =? "")%string then Some NoDir
  else if (fSize f <=? 0) || (fExtents f <=? 0) || (fRepeat f <=? 0) then Some NotPositive
  else if (fEvery f <=? 0) || (fPatience f <=? 0) then Some NoPolling
  else if fPatience f <=? fEvery f then Some (LooksOnce (fEvery f) (fPatience f))
  else None.

(** ** The directory *)

(** Its files and their sizes, and whether each call to come succeeds. *)
Record disk : Type := mkDisk {
  files : gmap string Z;
  calls : list bool;
}.
Definition works (d : disk) : bool := default true (head (calls d)).
Definition called (d : disk) : disk := mkDisk (files d) (tail (calls d)).
Definition put (name : string) (n : Z) (d : disk) : disk := mkDisk (<[name := n]> (files d)) (calls d).

(** [os.Remove]; there being none is not a failure to its callers. *)
Definition Remove (name : string) (d : disk) : disk * bool :=
  if works d then (mkDisk (delete name (files d)) (tail (calls d)), true) else (called d, false).

(** [allocate]: a new file, its blocks and a sync of it. *)
Definition allocate (name : string) (size : Z) (d : disk) : disk * bool :=
  if negb (works d) || bool_decide (is_Some (files d !! name)) then (called d, false)
  else
    let d := put name 0 (called d) in
    if negb (works d) then ((Remove name (called d)).1, false)
    else
      let d := put name size (called d) in
      (called d, works d).

(** [remove]: up to one that cannot be. *)
Fixpoint remove (names : list string) (d : disk) : disk * bool :=
  match names with
  | [] => (d, true)
  | n :: names =>
      let '(d, ok) := Remove n d in
      if ok then remove names d else (d, false)
  end.

Definition extent_name (round i : Z) : string := "freed-" +:+ FormatInt round +:+ "-" +:+ FormatInt i +:+ ".extent".

(** [fill]: as many as asked, or none of those before the one that failed. *)
Fixpoint fill_from (n : nat) (round i size : Z) (made : list string) (d : disk) : disk * option (list string) :=
  match n with
  | O => (d, Some made)
  | S n =>
      let name := extent_name round i in
      let '(d, ok) := allocate name size d in
      if ok then fill_from n round (i + 1) size (made ++ [name]) d else ((remove made d).1, None)
  end.
Definition fill (size : Z) (n : Z) (round : Z) (d : disk) : disk * option (list string) :=
  fill_from (Z.to_nat n) round 0 size [] d.

(** ** The run *)

(** What free space reads once the extents are down, how long their release takes, and
    the readings after it. *)
Record watched : Type := mkWatched {
  before : option Z;
  unlink : duration;
  readings : list reading;
}.

(** A row for each measurement, one that gave up with its reason; [None] of a watch is
    one still going on. *)
Fixpoint rounds (f : freed_flags) (n : nat) (i : Z) (ws : list watched) (d : disk)
  : disk * list (option (Result * option FreedErr)) * bool :=
  match n, ws with
  | S n, w :: ws =>
      let '(d, names) := fill (fSize f) (fExtents f) i d in
      match names with
      | None => (d, [], false)
      | Some names =>
          let total := fSize f *! fExtents f in
          (* A watch that cannot start releases nothing. *)
          let '(d, released) := match before w with
                                | Some _ => if (total <=? 0) || (fEvery f <=? 0) || (fPatience f <=? 0) then (d, false) else remove names d
                                | None => (d, false)
                                end in
          let r := Watch (before w) released (unlink w) total (fEvery f) (fPatience f) (readings w) in
          let '(d, rows, ok) := rounds f n (i + 1) ws d in
          (d, r :: rows, ok)
      end
  | _, _ => (d, [], true)
  end.
Definition run (f : freed_flags) (ws : list watched) (d : disk) : disk * list (option (Result * option FreedErr)) * option FlagErr :=
  match checkFlags f with
  | Some e => (d, [], Some e)
  | None => let '(d, rows, _) := rounds f (Z.to_nat (fRepeat f)) 0 ws d in (d, rows, None)
  end.

(** ** What is left behind *)

Definition quiet (d : disk) : Prop := calls d = [].

Lemma quiet_works d : quiet d -> works d = true.
Proof. unfold quiet, works. by intros ->. Qed.
Lemma quiet_called d : quiet d -> quiet (called d).
Proof. unfold quiet, called. simpl. by intros ->. Qed.

Lemma remove_quiet names : forall d, quiet d -> quiet (remove names d).1 /\ (remove names d).2 = true /\
  forall x, files (remove names d).1 !! x = if bool_decide (x ∈ names) then None else files d !! x.
Proof.
  induction names as [|n names IH]; intros d Q; [by split_and!|]. cbn [remove]. unfold Remove. rewrite quiet_works by done.
  destruct (IH (mkDisk (delete n (files d)) (tail (calls d)))) as (Q' & Ok & L); [by unfold quiet; cbn; rewrite Q|].
  split_and!; [done..|]. intros x. rewrite L. cbn [files]. case_bool_decide as I.
  - by rewrite bool_decide_true by by right.
  - destruct (decide (x = n)) as [->|N].
    + rewrite lookup_delete_eq. by rewrite bool_decide_true by by left.
    + rewrite lookup_delete_ne by congruence. rewrite bool_decide_false; [done|]. by intros [?|?]%elem_of_cons.
Qed.

Lemma FormatInt_inj a b : is_int64 a -> is_int64 b -> FormatInt a = FormatInt b -> a = b.
Proof. intros A B E. apply (f_equal ParseInt) in E. rewrite !ParseInt_FormatInt in E by done. congruence. Qed.

Lemma extent_name_inj round i j : is_int64 i -> is_int64 j -> extent_name round i = extent_name round j -> i = j.
Proof.
  unfold extent_name. intros A B E. apply (f_equal bytes_of) in E. rewrite !bytes_of_app in E.
  do 3 apply app_inv_head in E. apply app_inv_tail in E. apply (f_equal string_of) in E.
  rewrite !string_of_list_ascii_of_string in E. by apply FormatInt_inj in E.
Qed.

Lemma fill_from_spec n round size : forall i made d, quiet d -> 0 <= i -> i + Z.of_nat n <= MaxInt64 ->
  (forall j, i <= j < i + Z.of_nat n -> files d !! extent_name round j = None) ->
  let '(d', r) := fill_from n round i size made d in
  quiet d' /\ r = Some (made ++ (extent_name round <$> seqZ i (Z.of_nat n))) /\
  forall x, files d' !! x = if bool_decide (x ∈ extent_name round <$> seqZ i (Z.of_nat n)) then Some size else files d !! x.
Proof.
  induction n as [|n IH]; intros i made d Q Ip Im Fr; cbn [fill_from].
  - change (Z.of_nat 0) with 0. rewrite seqZ_nil by lia. rewrite app_nil_r. by split_and!.
  - set (name := extent_name round i). assert (files d !! name = None) as Fi by (apply Fr; lia).
    unfold allocate. rewrite quiet_works, Fi, bool_decide_false by (done || by intros [? [=]]). cbn [negb orb]. rewrite quiet_works by (unfold quiet, put, called; cbn; by rewrite Q). cbn [negb].
    set (d1 := called (put name size (called (put name 0 (called d))))).
    assert (quiet d1) as Q1 by (unfold quiet, d1, put, called; cbn; by rewrite Q).
    replace (works _) with true by (unfold works, put, called; cbn; by rewrite Q).
    assert (forall x, files d1 !! x = if decide (x = name) then Some size else files d !! x) as F1.
    { intros x. unfold d1, put, called. cbn. rewrite insert_insert_eq. destruct (decide (x = name)) as [->|N];
        [by rewrite lookup_insert_eq|by rewrite lookup_insert_ne by congruence]. }
    specialize (IH (i + 1) (made ++ [name]) d1 Q1 ltac:(lia) ltac:(lia)).
    destruct (fill_from n round (i + 1) size (made ++ [name]) d1) as [d' r].
    destruct IH as (Q' & -> & L).
    { intros j Hj. rewrite F1. destruct (decide _) as [E|N]; [|apply Fr; lia].
      apply extent_name_inj in E; [lia|unfold is_int64, MinInt64, MaxInt64 in *; lia..]. }
    rewrite (seqZ_cons i) by lia. replace (Z.pred (Z.of_nat (S n))) with (Z.of_nat n) by lia. change (Z.succ i) with (i + 1). split_and!; [done| |].
    + rewrite fmap_cons. by rewrite <- app_assoc.
    + intros x. rewrite L, F1, fmap_cons. fold name. destruct (decide (x = name)) as [->|N].
      * rewrite (bool_decide_true (name ∈ name :: _)) by by left. by case_bool_decide.
      * case_bool_decide as I; [by rewrite bool_decide_true by by right|].
        rewrite bool_decide_false; [done|]. by intros [?|?]%elem_of_cons.
Qed.

(** A round leaves the directory as it was. In one without its files, where every call
    succeeds, it lays down as many extents as asked, each of the size asked, and the
    release that is measured takes every one of them away and nothing else. *)
Theorem round_leaves_nothing size n round d : quiet d -> 0 <= n <= MaxInt64 ->
  (forall j, 0 <= j < n -> files d !! extent_name round j = None) ->
  let '(d', r) := fill size n round d in
  exists names, r = Some names /\ zlen names = n /\ NoDup names /\
    (forall x, x ∈ names -> files d' !! x = Some size) /\ (forall x, x ∉ names -> files d' !! x = files d !! x) /\
    files (remove names d').1 = files d /\ (remove names d').2 = true.
Proof.
  intros Q Hn Fr. unfold fill. pose proof (fill_from_spec (Z.to_nat n) round size 0 [] d Q ltac:(lia)) as Fs.
  rewrite Z2Nat.id in Fs by lia. specialize (Fs ltac:(lia) ltac:(intros j Hj; apply Fr; lia)).
  destruct (fill_from (Z.to_nat n) round 0 size [] d) as [d' r]. destruct Fs as (Q' & -> & L). rewrite app_nil_l.
  set (names := extent_name round <$> seqZ 0 n) in *. exists names. destruct (remove_quiet names d' Q') as (_ & Ok & Rm).
  assert (forall x, x ∈ names -> files d !! x = None) as Fn.
  { intros x (j & -> & Hj)%list_elem_of_fmap. apply elem_of_seqZ in Hj. apply Fr. lia. }
  split_and!; [done| | | | | |done].
  - unfold names, zlen. rewrite length_fmap, length_seqZ. lia.
  - unfold names. apply NoDup_fmap_2_strong; [|apply NoDup_seqZ]. intros a b Ha%elem_of_seqZ Hb%elem_of_seqZ E.
    apply extent_name_inj in E; [done|unfold is_int64, MinInt64, MaxInt64 in *; lia..].
  - intros x I. rewrite L. by rewrite bool_decide_true.
  - intros x I. rewrite L. by rewrite bool_decide_false.
  - apply map_eq. intros x. rewrite Rm, L. case_bool_decide as I; [by rewrite Fn|done].
Qed.

(** An extent whose sync failed is nobody's: it stays. *)
Example unsynced_stays :
  let '(d, r) := fill 8 2 0 (mkDisk ∅ [true; true; true; true; true; false]) in
  (map_to_list (files d), r) = ([("freed-0-1.extent", 8)]%string, None).
Proof. vm_compute. reflexivity. Qed.
