(* ===== verification/KvSpill.v ===== *)
(** * KvSpill: whether reading a block back beats recomputing it
    (internal/kvspill/kvspill.go)

    Every number is a [float64] that somebody measured. The text of an explanation is
    left to whoever prints it; which of the three it is, and its numbers, are here. *)

From S2P Require Import Prelude Float64.
From S2P Require Pressure.

Local Open Scope Z_scope.

Record Cost : Type := mkCost {
  PrefillTokensPerSecond : float64;
  ReadLatency : duration;
  ReadBytesPerSecond : float64;
  BytesPerToken : float64;
}.

Inductive CostErr : Type := BadPrefill | BadRead | BadToken | BadLatency.

Definition f64_zero : float64 := f64_of_Z 0.

Definition Cost_Validate (c : Cost) : option CostErr :=
  if f64_leb (PrefillTokensPerSecond c) f64_zero then Some BadPrefill
  else if f64_leb (ReadBytesPerSecond c) f64_zero then Some BadRead
  else if f64_leb (BytesPerToken c) f64_zero then Some BadToken
  else if ReadLatency c <? 0 then Some BadLatency
  else None.

Definition Recompute (tokens : Z) (c : Cost) : duration :=
  int64_of_f64 (f64_mul (f64_div (f64_of_Z tokens) (PrefillTokensPerSecond c)) (f64_of_Z Second)).

Definition Read (tokens : Z) (c : Cost) : duration :=
  let transfer := f64_div (f64_mul (f64_of_Z tokens) (BytesPerToken c)) (ReadBytesPerSecond c) in
  ReadLatency c +! int64_of_f64 (f64_mul transfer (f64_of_Z Second)).

(** [int(math.Ceil(x))]: the ceiling is exact, and one that does not fit is what the
    conversion makes of it, as in [int64_of_f64]. *)
Definition ceil (m : positive) (e : Z) : Z :=
  if 0 <=? e then Zpos m * 2 ^ e else - (- Zpos m / 2 ^ (- e)).
Definition int_of_ceil (x : float64) : Z :=
  match x with
  | S754_zero _ => 0
  | S754_finite s m e =>
      let z := if s then (if 0 <=? e then - (Zpos m * 2 ^ e) else - (Zpos m / 2 ^ (- e))) else ceil m e in
      if bool_decide (is_int64 z) then z else MinInt64
  | S754_infinity _ | S754_nan => MinInt64
  end.

Record Gate : Type := mkGate {
  cost : Cost;
  breakEven_ : Z;
  exists_ : bool;
}.

(** What a token saves, and where what it saves has paid for the read. *)
Definition perToken (c : Cost) : float64 :=
  f64_sub (f64_div (f64_of_Z 1) (PrefillTokensPerSecond c)) (f64_div (BytesPerToken c) (ReadBytesPerSecond c)).
Definition crossing (c : Cost) : float64 := f64_div (Pressure.Seconds (ReadLatency c)) (perToken c).

Definition MaxInt32 : Z := 2147483647.

Definition breakEven (c : Cost) : Z * bool :=
  if f64_leb (perToken c) f64_zero then (0, false)
  else if f64_ltb (f64_of_Z MaxInt32) (crossing c) then (0, false)
  else (let n := int_of_ceil (crossing c) in if n <? 1 then 1 else n, true).

Definition New (c : Cost) : result CostErr Gate :=
  match Cost_Validate c with
  | Some e => Err e
  | None => let '(n, ok) := breakEven c in Ok (mkGate c n ok)
  end.

Definition BreakEven (g : Gate) : Z * bool := (breakEven_ g, exists_ g).
Definition Worth (tokens : Z) (g : Gate) : bool := exists_ g && (breakEven_ g <=? tokens).

Inductive explanation : Type :=
  | NeverWins (bytes rate prefill : float64)
  | NotYet (tokens : Z) (read recompute : duration) (turns : Z)
  | Wins (tokens : Z) (read recompute : duration).

Definition Explain (tokens : Z) (g : Gate) : explanation :=
  let c := cost g in
  if negb (exists_ g) then NeverWins (BytesPerToken c) (ReadBytesPerSecond c) (PrefillTokensPerSecond c)
  else if negb (Worth tokens g) then NotYet tokens (Read tokens c) (Recompute tokens c) (breakEven_ g)
  else Wins tokens (Read tokens c) (Recompute tokens c).

(** ** What the gate lets through *)

(** The number a float stands for is at most a whole number. *)
Definition at_most (x : float64) (t : Z) : Prop :=
  match x with
  | S754_zero _ => 0 <= t
  | S754_finite false m e => if 0 <=? e then Zpos m * 2 ^ e <= t else Zpos m <= t * 2 ^ (- e)
  | _ => False
  end.

Lemma ceil_at_most m e t : ceil m e <= t <-> at_most (S754_finite false m e) t.
Proof.
  unfold ceil, at_most. destruct (Z.leb_spec 0 e); [done|]. assert (0 < 2 ^ (- e)) by (apply Z.pow_pos_nonneg; lia).
  pose proof (Z.div_mod (- Zpos m) (2 ^ (- e)) ltac:(lia)) as D. pose proof (Z.mod_pos_bound (- Zpos m) (2 ^ (- e)) ltac:(lia)).
  split; intros L; nia.
Qed.

(** a fetch is let through exactly when the crossing is behind it. A gate that was
    made of a latency and a saving that cross at a whole number of nanoseconds or
    not lets a prefix through when each token saves time, the crossing is within
    reach, and the prefix is of a token at least and as many as the crossing; so a
    longer prefix is let through wherever a shorter one is. *)
Theorem worth_exact c g t : New c = Ok g ->
  match crossing c with S754_zero _ => True | S754_finite false m e => is_int64 (ceil m e) | _ => False end ->
  (Worth t g = true <-> f64_leb (perToken c) f64_zero = false /\ f64_ltb (f64_of_Z MaxInt32) (crossing c) = false /\
     1 <= t /\ at_most (crossing c) t) /\
  (forall t', t <= t' -> Worth t g = true -> Worth t' g = true).
Proof.
  unfold New. destruct (Cost_Validate c); [done|]. destruct (breakEven c) as [n ok] eqn:B. intros [= <-] Cr. unfold Worth. cbn [exists_ breakEven_].
  split; [|intros t' L; rewrite !andb_true_iff, !Z.leb_le; intuition lia]. unfold breakEven in B.
  destruct (f64_leb (perToken c) f64_zero); [injection B as <- <-; split; [done|naive_solver]|].
  destruct (f64_ltb (f64_of_Z MaxInt32) (crossing c)); [injection B as <- <-; split; [done|intros (_ & X & _); discriminate X]|].
  injection B as <- <-. cbn [andb]. rewrite Z.leb_le. destruct (crossing c) as [s| | |[] m e]; try done.
  - simpl. split; [intros; split_and!; auto; lia|intros (_ & _ & ? & _); lia].
  - rewrite <- ceil_at_most. unfold int_of_ceil. rewrite bool_decide_true by done.
    destruct (Z.ltb_spec (ceil m e) 1); split; try (intros (_ & _ & ? & ?); lia); intros; split_and!; auto; lia.
Qed.

(** A node that recomputes 10,000 tokens a second, and reads two gigabytes a second a
    tenth of a millisecond after being asked, at 160 KiB a token. *)
Example gate_ex :
  match New (mkCost (f64_of_Z 10000) 100000 (f64_of_Z 2000000000) (f64_of_Z 163840)) with
  | Ok g => (BreakEven g, Worth 5 g, Worth 6 g, Read 5 (cost g) <=? Recompute 5 (cost g), Read 6 (cost g) <=? Recompute 6 (cost g))
  | Err _ => ((0, false), false, false, false, false)
  end = ((6, true), false, true, false, true).
Proof. vm_compute. reflexivity. Qed.

(** A rate that was never measured, as nothing over nothing, passes the check, and
    the gate made of it lets every prefix through. *)
Example unmeasured_is_worth_it :
  match New (mkCost (f64_div f64_zero f64_zero) 100000 (f64_of_Z 2000000000) (f64_of_Z 163840)) with
  | Ok g => (BreakEven g, Worth 1 g)
  | Err _ => ((0, false), false)
  end = ((1, true), true).
Proof. vm_compute. reflexivity. Qed.
