(* ===== verification/Headroom.v ===== *)
(** * Headroom: how far free space falls before a reclaim (cmd/forebay-headroom)

    What the filesystem answers each time it is sampled, and when, is a list. The
    watch and the writers run beside the tracker; what the writers reported is an
    argument of the report. *)

From S2P Require Import Prelude GoStrings Float64 Pool Lease Agent.
From S2P Require Workload LeaseApi.

Local Open Scope Z_scope.

Record options : Type := mkOptions {
  Borrowed : string;
  Journal_ : string;
  Capacity_ : Z;
  OLend : Z;
  Budget : Z;
  TargetUnder : Z;
  OLeases : Z;
  Writers : Z;
  Block : Z;
  Interval : duration;
  Sampling : duration;
  RunFor : duration;
}.

Inductive FlagErr : Type :=
  | NoPaths
  | NotPositive
  | NotCrossed (under budget : Z)
  | NoLeases
  | LendsTooMuch (lend capacity : Z)
  | TooCoarse (sample interval : duration).

Definition checkFlags (o : options) : option FlagErr :=
  if (Borrowed o =? "")%string || (Journal_ o =? "")%string then Some NoPaths
  else if (Capacity_ o <=? 0) || (OLend o <=? 0) || (Budget o <=? 0) || (TargetUnder o <=? 0) then Some NotPositive
  else if Budget o <=? TargetUnder o then Some (NotCrossed (TargetUnder o) (Budget o))
  else if OLeases o <=? 0 then Some NoLeases
  else if Capacity_ o <? OLend o then Some (LendsTooMuch (OLend o) (Capacity_ o))
  else if Interval o <=? Sampling o then Some (TooCoarse (Sampling o) (Interval o))
  else None.

(** The line, or that there is nothing under what is free. *)
Definition targetFor (start under : Z) : result (Z * Z) Z :=
  let target := start -! under in
  if target <=? 0 then Err (under, start) else Ok target.

(** ** Tracking *)

Record tracked : Type := mkTracked {
  worst : Bytes;
  below : duration;
  count : Z;
  lastAt : option time;
}.
Definition nothing_tracked : tracked := mkTracked 0 0 0 None.

(** One sample: when, and what free space read, if it could be. *)
Definition sample (target : Bytes) (t : tracked) (x : time * option Bytes) : tracked :=
  let '(at_, got) := x in
  match got with
  | None => t
  | Some got =>
      let n := count t +! 1 in
      if got <? target then
        let d := target -! got in
        mkTracked (if worst t <? d then d else worst t)
          (match lastAt t with Some l => below t +! time_Sub at_ l | None => below t end) n (Some at_)
      else mkTracked (worst t) (below t) n None
  end.
Definition track (target : Bytes) (xs : list (time * option Bytes)) : tracked := fold_left (sample target) xs nothing_tracked.

(** ** The run *)

Section run.
Context {J : Type} `{Journal J}.

(** Lending what the watch will have to take back, as so many leases. *)
Fixpoint lend_out (name : string) (class : Class_) (n : nat) (i : Z) (each : Bytes) (now : time) (a : Agent J)
  : Agent J * option (string * AgentErr) :=
  match n with
  | O => (a, None)
  | S n =>
      let id := name +:+ "-" +:+ FormatInt i in
      match Grant (mkLease id "" class each LeaseApi.zero_time Hour) now a with
      | (a, Some e) => (a, Some (id, e))
      | (a, None) => lend_out name class n (i + 1) each now a
      end
  end.

(** What the writers achieved and took, summed as they report. *)
Record report : Type := mkReport {
  RStart : Bytes;
  RTarget : Bytes;
  Deficit : Bytes;
  Below : duration;
  Samples : Z;
  Wrote : float64;
  Took : Bytes;
}.

Definition took (ss : list Workload.Sample) : Z := wsum (Workload.SBytes <$> ss).
Definition wrote (runs : list (list Workload.Sample)) : float64 :=
  fold_left (fun r ss => f64_add r (Workload.MedianRate ss)) runs (f64_of_Z 0).

Inductive MeasureErr : Type := Granting (id : string) (e : AgentErr) | CannotMeasure | NothingLeft (under start : Z).

(** [measure], of an agent that opened: [xs] is what the tracker samples, and [runs]
    what each writer did, in the order they report. *)
Definition measure (o : options) (now : time) (start : option Bytes) (xs : list (time * option Bytes))
    (runs : list (list Workload.Sample)) (a : Agent J) : Agent J * result MeasureErr report :=
  let each := Z.quot (OLend o) (OLeases o) in
  match lend_out "headroom" Elastic (Z.to_nat (OLeases o)) 0 each now a with
  | (a, Some (id, e)) => (a, Err (Granting id e))
  | (a, None) =>
      match start with
      | None => (a, Err CannotMeasure)
      | Some start =>
          match targetFor start (TargetUnder o) with
          | Err (under, start) => (a, Err (NothingLeft under start))
          | Ok target =>
              let t := track target xs in
              (a, Ok (mkReport start target (worst t) (below t) (count t) (wrote runs) (wsum (took <$> runs))))
          end
      end
  end.

(** Whether the deficit is the budget's rather than the watch's. *)
Definition bounded_by_budget (o : options) (r : report) : bool := Budget o <=? Took r.
End run.

(** ** What the tracker says *)

(** The readings that could be made. *)
Definition readings (xs : list (time * option Bytes)) : list (time * Bytes) := omap (fun x => (fun g => (x.1, g)) <$> x.2) xs.
Definition deficit (target : Bytes) (r : time * Bytes) : Z := Z.max 0 (target - r.2).
(** The time between each two readings in a row that are both below. *)
Fixpoint stretches (target : Bytes) (rs : list (time * Bytes)) : Z :=
  match rs with
  | x :: (y :: _) as t => (if (x.2 <? target) && (y.2 <? target) then y.1 - x.1 else 0) + stretches target t
  | _ => 0
  end.
Definition largest (ds : list Z) : Z := foldr Z.max 0 ds.

Lemma stretches_snoc target rs x y : stretches target (rs ++ [x; y]) =
  stretches target (rs ++ [x]) + (if (x.2 <? target) && (y.2 <? target) then y.1 - x.1 else 0).
Proof.
  induction rs as [|z rs IH]; [simpl; lia|]. destruct rs as [|w rs]; [simpl; lia|].
  change ((z :: w :: rs) ++ [x; y]) with (z :: (w :: rs) ++ [x; y]). change ((z :: w :: rs) ++ [x]) with (z :: (w :: rs) ++ [x]).
  simpl in *. rewrite IH. lia.
Qed.
Lemma largest_snoc ds d : largest (ds ++ [d]) = Z.max (largest ds) (Z.max d 0).
Proof. unfold largest. induction ds as [|x ds IH]; simpl; lia. Qed.
Lemma largest_nonneg ds : 0 <= largest ds.
Proof. unfold largest. induction ds; simpl; lia. Qed.
Lemma stretches_bounds target rs : forall x y, StronglySorted Z.le (x :: (rs.*1 ++ [y])) -> 0 <= stretches target rs <= y - x.
Proof.
  induction rs as [|[a g] rs IH]; intros x y S; simpl in *.
  - inversion S as [|? ? _ F]; subst. apply Forall_cons in F as [? _]. lia.
  - inversion S as [|? ? S' F]; subst. apply Forall_cons in F as [? _]. destruct rs as [|[b h] rs]; [|].
    + inversion S' as [|? ? _ F']; subst. apply Forall_cons in F' as [? _]. simpl. lia.
    + simpl in *. inversion S' as [|? ? S2 F']; subst. apply Forall_cons in F' as [L _]. pose proof (IH b y) as B. simpl in B.
      assert (StronglySorted Z.le (b :: b :: rs.*1 ++ [y])) as Sb.
      { constructor; [done|]. constructor; [lia|]. by inversion S2. }
      specialize (B Sb). destruct (_ && _); lia.
Qed.

Lemma track_snoc target xs x : track target (xs ++ [x]) = sample target (track target xs) x.
Proof. unfold track. by rewrite fold_left_app. Qed.
Lemma readings_snoc xs x : readings (xs ++ [x]) = readings xs ++ readings [x].
Proof. unfold readings. apply omap_app. Qed.

Lemma readings_length xs : (length (readings xs) <= length xs)%nat.
Proof. induction xs as [|[a [g|]] xs IH]; unfold readings, omap in *; simpl in *; lia. Qed.

(** Of times in order, those up to the last but one. *)
Lemma sorted_last lo (r : list (time * Bytes)) r0 at_ : StronglySorted Z.le (lo :: (r ++ [r0]).*1 ++ [at_]) ->
  lo <= r0.1 <= at_ /\ StronglySorted Z.le (lo :: (r ++ [r0]).*1 ++ [r0.1]).
Proof.
  rewrite fmap_app. simpl. intros S. assert (lo <= r0.1 <= at_) as L.
  { split.
    - inversion S as [|? ? _ G]; subst. rewrite Forall_forall in G. apply G. set_solver.
    - eapply (StronglySorted_app_1_elem_of _ (lo :: r.*1 ++ [r0.1]) [at_]); [by simpl|set_solver|set_solver]. }
  split; [done|]. inversion S as [|? ? Sa Fa]; subst. apply StronglySorted_app_1_l in Sa as Sb. constructor.
  - apply StronglySorted_app_2; [|done|by repeat constructor].
    intros u v Hu Hv%list_elem_of_singleton. subst v.
    apply elem_of_app in Hu as [Hu|Hu%list_elem_of_singleton]; [|subst u; lia].
    eapply (StronglySorted_app_1_elem_of _ r.*1 [r0.1]); [exact Sb|done|set_solver].
  - apply Forall_app in Fa as [Fa _]. apply Forall_app. split; [done|]. constructor; [lia|constructor].
Qed.

(** What the tracker reports is what the readings say: how far under the line the
    lowest was, how many there were, and the time between each two in a row that were
    both under it. A reading that could not be made is passed over, and the time
    across it counted. *)
Theorem track_exact target xs lo hi : 0 <= target <= MaxInt64 -> zlen xs <= MaxInt64 -> hi - lo <= MaxInt64 ->
  Forall (fun x => is_int64 (target - x.2)) (readings xs) -> StronglySorted Z.le (lo :: ((readings xs).*1 ++ [hi])) ->
  worst (track target xs) = largest (deficit target <$> readings xs) /\
  count (track target xs) = zlen (readings xs) /\
  below (track target xs) = stretches target (readings xs) /\ 0 <= below (track target xs) <= hi - lo.
Proof.
  intros T Lx Ls F S.
  cut (lastAt (track target xs) = (last (readings xs) ≫= fun r => if r.2 <? target then Some r.1 else None) /\
    worst (track target xs) = largest (deficit target <$> readings xs) /\
    count (track target xs) = zlen (readings xs) /\ below (track target xs) = stretches target (readings xs)).
  { intros (_ & -> & -> & ->). split_and!; [done..| |]; apply (stretches_bounds target _ lo hi S). }
  revert hi Ls S. induction xs as [|[at_ got] xs IH] using rev_ind; intros hi Ls S; [done|].
  rewrite track_snoc, readings_snoc in *. unfold zlen in Lx. rewrite length_app in Lx. simpl in Lx.
  apply Forall_app in F as [F Fx]. destruct got as [g|]; simpl in *; [|rewrite !app_nil_r in *; apply (IH ltac:(unfold zlen; lia) F hi Ls S)].
  rewrite fmap_app, <- app_assoc in S. simpl in S. apply Forall_cons in Fx as [Fx _]. simpl in Fx.
  assert (StronglySorted Z.le ((lo :: (readings xs).*1 ++ [at_]) ++ [hi])) as S' by (simpl; by rewrite <- app_assoc).
  assert (at_ <= hi) as Lh by (eapply (StronglySorted_app_1_elem_of _ (lo :: (readings xs).*1 ++ [at_]) [hi]); [exact S'|set_solver|set_solver]).
  apply StronglySorted_app_1_l in S'. destruct (IH ltac:(unfold zlen; lia) F at_ ltac:(lia) S') as (Il & Iw & Ic & Ib).
  assert (0 <= stretches target (readings xs) <= at_ - lo) as Bd by (by apply stretches_bounds).
  assert (zlen (readings xs) <= zlen xs) as Lr.
  { unfold zlen. pose proof (readings_length xs). lia. }
  assert (count (track target xs) +! 1 = zlen (readings xs ++ [(at_, g)])) as Ec.
  { rewrite Ic, zlen_app. unfold zlen in *. simpl. rewrite wrap64_id; [done|]. unfold is_int64, MinInt64, MaxInt64 in *. lia. }
  rewrite last_snoc, fmap_app, Ec. simpl. rewrite largest_snoc. unfold deficit at 2. simpl.
  rewrite (wrap64_id (target - g)) by done. pose proof (largest_nonneg (deficit target <$> readings xs)) as Nl.
  destruct (Z.ltb_spec g target) as [Lt|Ge]; simpl.
  - split_and!; [done| |done|].
    + rewrite Iw. destruct (Z.ltb_spec (largest (deficit target <$> readings xs)) (target - g)); lia.
    + destruct (readings xs) as [|r0 r _] using rev_ind; [rewrite Il; simpl in *; lia|].
      rewrite last_snoc in Il. simpl in Il. rewrite Il. rewrite <- app_assoc. simpl. rewrite stretches_snoc. simpl.
      rewrite (proj2 (Z.ltb_lt g target)), andb_true_r by done. rewrite Ib.
      destruct (sorted_last lo r r0 at_ S') as ([L0 L1] & S0).
      destruct (r0.2 <? target); [|lia].
      assert (time_Sub at_ r0.1 = at_ - r0.1) as -> by (apply time_Sub_exact; unfold is_int64, MinInt64, MaxInt64 in *; lia).
      apply wrap64_id.
      pose proof (stretches_bounds target (r ++ [r0]) lo r0.1 S0). unfold is_int64, MinInt64, MaxInt64 in *. lia.
  - split_and!; [done|lia|done|]. rewrite Ib. destruct (readings xs) as [|r0 r _] using rev_ind; [simpl; lia|].
    rewrite <- app_assoc. simpl. rewrite stretches_snoc. simpl. rewrite (proj2 (Z.ltb_ge g target)), andb_false_r by done. lia.
Qed.

(** A measurement with no writers passes the check of its flags. *)
Example no_writers_accepted :
  checkFlags (mkOptions "/pool" "/journal" 100 50 40 10 4 0 4096 Second (20 * Millisecond) (25 * Second)) = None.
Proof. reflexivity. Qed.
