(* ===== verification/HarmMain.v ===== *)
(** * HarmMain: whether a reclaim hurts a workload (cmd/forebay-harm/main.go)

    Capacity is lent as leases, writers run, the agent is made to take it back, and
    what the writers achieved before, during and after is reported. What each writer
    did is an argument, in the order they report, and so is every reading of the
    clock. *)

From S2P Require Import Prelude GoStrings Float64 Pool Lease Agent Workload.
From S2P Require Headroom AgentMainTheorems.

Local Open Scope Z_scope.

Record harm_flags : Type := mkHarmFlags {
  fBorrowed : string;
  fJournal : string;
  fCapacity : Z;
  fLend : Z;
  fLeases : Z;
  fWriters : Z;
  fBlock : Z;
  fControl : bool;
}.

Inductive HarmErr : Type :=
  | NoPaths
  | NoCapacity
  | NothingLent
  | LendsTooMuch (lend capacity : Z)
  | NoWriters
  | BadWriteBlock (block : Z)
  | Granting (id : string) (e : AgentErr)
  | Reclaiming (e : AgentErr)
  | WriterFailed (e : WorkloadErr).

Definition checkFlags (f : harm_flags) : option HarmErr :=
  if (fBorrowed f =? "")%string || (fJournal f =? "")%string then Some NoPaths
  else if fCapacity f <=? 0 then Some NoCapacity
  else if (fLend f <=? 0) || (fLeases f <=? 0) then Some NothingLent
  else if fCapacity f <? fLend f then Some (LendsTooMuch (fLend f) (fCapacity f))
  else if fWriters f <=? 0 then Some NoWriters
  else if negb (Z.rem (fBlock f) 4096 =? 0) then Some (BadWriteBlock (fBlock f))
  else None.

(** The writers' samples, put together as they report, up to one that failed. *)
Fixpoint collected (runs : list (list Sample * option WorkloadErr)) (all : list Sample) : result WorkloadErr (list Sample) :=
  match runs with
  | [] => Ok all
  | (_, Some e) :: _ => Err e
  | (ss, None) :: runs => collected runs (all ++ ss)
  end.

(** A row: the intervals, their rate summed over the writers, the worst write, and the
    window. *)
Record row : Type := mkRow {
  phase : string;
  intervals : Z;
  rate : float64;
  stall : duration;
  window : duration;
}.
Definition row_of (writers : Z) (name : string) (ss : list Sample) (window : duration) : row :=
  mkRow name (zlen ss) (f64_mul (MedianRate ss) (f64_of_Z writers)) (WorstStall ss) window.
Definition rows (writers : Z) (from to ended : duration) (all : list Sample) : list row :=
  let '(before, during, after) := Phases all from to in
  [row_of writers "before" before from; row_of writers "during" during (to -! from); row_of writers "after" after (ended -! to)].

Section harm.
Context {J : Type} `{Journal J}.

(** [run], of an agent that opened at [now]: it is made to take everything back at
    [later], taking [took], unless this is the control. *)
Definition harm (f : harm_flags) (now later : time) (took : duration) (from to ended : duration)
    (runs : list (list Sample * option WorkloadErr)) (a : Agent J) : Agent J * result HarmErr (option Reclamation * list row) :=
  match checkFlags f with
  | Some e => (a, Err e)
  | None =>
      let each := Z.quot (fLend f) (fLeases f) in
      match Headroom.lend_out "harm" Opportunistic (Z.to_nat (fLeases f)) 0 each now a with
      | (a, Some (id, e)) => (a, Err (Granting id e))
      | (a, None) =>
          let '(a, rec, failed, to) :=
            if fControl f then (a, None, None, from)
            else let '(a, (rec, e)) := ReclaimCapacity (fLend f) later took a in (a, Some rec, e, to) in
          match failed with
          | Some e => (a, Err (Reclaiming e))
          | None =>
              match collected runs [] with
              | Err e => (a, Err (WriterFailed e))
              | Ok all => (a, Ok (rec, rows (fWriters f) from to ended all))
              end
          end
      end
  end.
End harm.

(** What is reported is of every writer that ran, or there is a failure. *)
Lemma collected_all runs : forall all,
  match collected runs all with
  | Ok ss => Forall (fun r => r.2 = None) runs /\ ss = all ++ mjoin runs.*1
  | Err e => exists pre ss post, runs = pre ++ (ss, Some e) :: post /\ Forall (fun r => r.2 = None) pre
  end.
Proof.
  induction runs as [|[ss [e|]] runs IH]; intros all; cbn [collected].
  - split; [constructor|]. by rewrite app_nil_r.
  - by exists [], ss, runs.
  - specialize (IH (all ++ ss)). destruct (collected runs (all ++ ss)).
    + destruct IH as [F ->]. split; [by constructor|]. cbn. by rewrite <- app_assoc.
    + destruct IH as (pre & ss' & post & -> & F). exists ((ss, None) :: pre), ss', post. split; [done|]. by constructor.
Qed.

(** Every interval of every writer is in a row, while no interval is out of the
    clock's reach: a report of nothing in a phase is of a phase with nothing in it. *)
Theorem rows_cover writers from to ended all s : 0 <= from <= to -> to < 2 ^ 62 -> s ∈ all ->
  0 <= SStart s < 2 ^ 62 -> 0 < SElapsed s < 2 ^ 62 ->
  Exists (fun r => 1 <= intervals r /\ SSlowest s <= stall r) (rows writers from to ended all).
Proof.
  intros Lt Tm I S0 S1. unfold rows. pose proof (phases_cover all from to s Lt Tm I S0 S1) as C.
  destruct (Phases all from to) as [[before during] after].
  assert (forall name ss w, s ∈ ss -> let r := row_of writers name ss w in 1 <= intervals r /\ SSlowest s <= stall r) as R.
  { intros name ss w Is. cbn. apply list_elem_of_split in Is as (l1 & l2 & ->). split.
    - rewrite zlen_app, zlen_cons. pose proof (zlen_nonneg l1). pose proof (zlen_nonneg l2). lia.
    - rewrite WorstStall_worst, fmap_app. cbn. rewrite worst_app. change (SSlowest s :: ?l) with ([SSlowest s] ++ l).
      rewrite worst_app. unfold worst at 2. cbn. destruct (Z.ltb_spec 0 (SSlowest s)); pose proof (worst_nonneg (SSlowest <$> l2)); lia. }
  destruct C as [C|[C|C]]; [by apply Exists_cons_hd, R|by apply Exists_cons_tl, Exists_cons_hd, R|].
  by apply Exists_cons_tl, Exists_cons_tl, Exists_cons_hd, R.
Qed.

(** Seven bytes lent as three leases are six: the reclaim is asked for all seven, and
    is reported one short, with nothing left to take. *)
Example remainder_is_a_shortfall :
  let f := mkHarmFlags "/pool" "/journal" 100 7 3 1 4096 false in
  match harm f 1 2 0 5 6 9 [([], None)] AgentMainTheorems.wopen with
  | (a, Ok (Some rec, _)) => Some (Reclaimed (RResult rec), Shortfall (RResult rec), Borrowed (acct (manager a)))
  | _ => None
  end = Some (6, 1, 0).
Proof. vm_compute. reflexivity. Qed.

(** A block that is no block passes, and is refused by the writer once the capacity
    has been lent and taken back. *)
Example no_block_accepted :
  checkFlags (mkHarmFlags "/pool" "/journal" 100 8 4 1 0 false) = None /\
  checkFlags (mkHarmFlags "/pool" "/journal" 100 8 4 1 (-4096) false) = None.
Proof. split; reflexivity. Qed.
