(* ===== verification/BenchMain.v ===== *)
(** * BenchMain: the sweep of arms (cmd/forebay-bench/main.go)

    At each concurrency point two arms are measured warm and two cold. What opening
    readers, a read, dropping the extent's pages and the clock give depends on a
    world that is threaded through; each run is noted with what it read. *)

From S2P Require Import Prelude GoStrings Float64 Bench.

Local Open Scope Z_scope.

(** ** Flags *)

Fixpoint counts_of (fs : list string) : option (list Z) :=
  match fs with
  | [] => Some []
  | f :: fs =>
      let '(n, err) := ParseInt f in
      match err with
      | Some _ => None
      | None => if n <=? 0 then None else (fun ns => n :: ns) <$> counts_of fs
      end
  end.
Definition parseWorkers (s : string) : option (list Z) :=
  match counts_of (splitList s) with
  | None | Some [] => None
  | Some ns => Some (merge_sort Z.le ns)
  end.

Record bench_flags : Type := mkBenchFlags {
  fSocket : string;
  fEndpoint : string;
  fBucket : string;
  fObject : string;
  fSize : Z;
  fBlock : Z;
  fWorkers : string;
  fRepeat : Z;
  fCold : string;
  fExtent : string;
}.

Inductive MainErr (E : Type) : Type :=
  | NoSocket
  | NoBackend
  | NoReadObject
  | NoWorkers
  | NotOpened
  | NotRun (e : BenchErr E)
  | NotEvicted
  | StillResident (before after : Z).
Arguments NoSocket {E}.
Arguments NoBackend {E}.
Arguments NoReadObject {E}.
Arguments NoWorkers {E}.
Arguments NotOpened {E}.
Arguments NotRun {E}.
Arguments NotEvicted {E}.
Arguments StillResident {E}.

Definition checked {E} (f : bench_flags) : option (MainErr E) :=
  if (fSocket f =? "")%string then Some NoSocket
  else if (fEndpoint f =? "")%string || (fBucket f =? "")%string then Some NoBackend
  else if (fObject f =? "")%string || (fSize f <=? 0) then Some NoReadObject
  else None.

(** ** The page cache (evict_linux.go) *)

(** A file whose cache is to be dropped: whether it can be opened and how large it is,
    what the kernel says of its pages before, whether they are written back and the
    kernel asked to drop them, and what it says after. *)
Record dropping : Type := mkDropping {
  d_size : option Z;
  d_before : option (list byte);
  d_synced : bool;
  d_advised : bool;
  d_after : option (list byte);
}.

(** A byte a page, its lowest bit whether it is held. *)
Definition resident (vec : list byte) : Z := zlen (List.filter (fun b => Z.land (of_byte b) 1 =? 1) vec).

Definition evict (d : dropping) : option (Z * Z) :=
  match d_size d with
  | None => None
  | Some size =>
      if size =? 0 then None
      else match d_before d with
           | None => None
           | Some before =>
               if negb (d_synced d) || negb (d_advised d) then None
               else match d_after d with
                    | None => None
                    | Some after => Some (resident before, resident after)
                    end
           end
  end.

(** ** Measuring *)

Section sweep.
Context {W E : Type}.
(** Through the agent's socket, or in process. *)
Variable read : bool -> nat -> string -> Z -> Z -> W -> W * result E (list byte).
Variable opens : bool -> Z -> W -> W * bool.
(** The order the workers' reads fall in, and how long they take. *)
Variable falls : W -> W * (list nat * duration).
(** How dropping a file's pages goes. *)
Variable drops : string -> W -> W * dropping.

(** A run, as it is noted. *)
Record note : Type := mkNote {
  narm : string;
  nplan : Plan;
}.

Definition once (socket : bool) (arm : string) (p : Plan) (w : W) : W * result (MainErr E) Result :=
  let '(w, ok) := opens socket (PWorkers p) w in
  if negb ok then (w, Err NotOpened)
  else
    let '(w, (schedule, elapsed)) := falls w in
    (match Plan_Validate (E := E) p with Some _ => w | None => world (ran (read socket) p w schedule) end,
     match Run (read socket) arm (PWorkers p) p w schedule elapsed with Ok r => Ok r | Err e => Err (NotRun e) end).

(** Runs of one plan after another, each after what goes before it. *)
Fixpoint times (n : nat) (before : W -> W * option (MainErr E)) (socket : bool) (arm : string) (ps : list Plan) (w : W)
  : W * list note * result (MainErr E) (list Result) :=
  match n, ps with
  | S n, p :: ps =>
      let '(w, e) := before w in
      match e with
      | Some e => (w, [], Err e)
      | None =>
          let '(w, r) := once socket arm p w in
          match r with
          | Err e => (w, [mkNote arm p], Err e)
          | Ok r =>
              let '(w, notes, rs) := times n before socket arm ps w in
              (w, mkNote arm p :: notes, match rs with Ok rs => Ok (r :: rs) | Err e => Err e end)
          end
      end
  | _, _ => (w, [], Ok [])
  end.
Definition nothing (w : W) : W * option (MainErr E) := (w, None).

(** The cache the warming filled is what is dropped; unless it was, the run would not
    be cold. *)
Definition evicted (extent : string) (w : W) : W * option (MainErr E) :=
  if (extent =? "")%string then (w, None)
  else
    let '(w, d) := drops extent w in
    (w, match evict d with
        | None => Some NotEvicted
        | Some (before, after) => if before <? after *! 20 then Some (StillResident before after) else None
        end).

Definition runRepeats (socket : bool) (arm : string) (p : Plan) (repeat_ : Z) (extent : string) (w : W)
  : W * list note * result (MainErr E) Result :=
  let '(w, warm, r) := times 2 nothing socket arm [p; p] w in
  match r with
  | Err e => (w, warm, Err e)
  | Ok _ =>
      let n := Z.to_nat repeat_ in
      let '(w, notes, rs) := times n (evicted extent) socket arm (replicate n p) w in
      (w, warm ++ notes, match rs with Ok rs => Ok (Median rs) | Err e => Err e end)
  end.

Definition with_object (o : string) (p : Plan) : Plan := mkPlan o (PSize p) (PBlock p) (PWorkers p).

(** A cold arm at a point: an object for each run, or nothing where there are not
    enough left. *)
Definition cold_arm (socket : bool) (arm : string) (p : Plan) (repeat_ : Z) (cold : list string) (w : W)
  : W * list note * list string * result (MainErr E) (list Result) :=
  if zlen cold <? repeat_ then (w, [], cold, Ok [])
  else
    let n := Z.to_nat repeat_ in
    let '(w, notes, rs) := times n nothing socket arm ((fun o => with_object o p) <$> take n cold) w in
    (w, notes, drop n cold, match rs with Ok rs => Ok [Median rs] | Err e => Err e end).

Definition backendArm : string := "backend, in process".
Definition tierArm (extent : string) : string :=
  if negb (extent =? "")%string then "tier, through the agent, evicted" else "tier, through the agent".
Definition coldBackend : string := "backend, in process, cold".
Definition coldAgent : string := "backend, through the agent, cold".

(** The arms of one point, each after the one before it has answered. *)
Definition point (f : bench_flags) (workers : Z) (cold : list string) (w : W)
  : W * list note * list string * result (MainErr E) (list Result) :=
  let p := mkPlan (fObject f) (fSize f) (fBlock f) workers in
  let '(w, n1, r1) := runRepeats false backendArm p (fRepeat f) "" w in
  match r1 with
  | Err e => (w, n1, cold, Err e)
  | Ok r1 =>
      let '(w, n2, r2) := runRepeats true (tierArm (fExtent f)) p (fRepeat f) (fExtent f) w in
      match r2 with
      | Err e => (w, n1 ++ n2, cold, Err e)
      | Ok r2 =>
          let '(w, n3, cold, r3) := cold_arm false coldBackend p (fRepeat f) cold w in
          match r3 with
          | Err e => (w, n1 ++ n2 ++ n3, cold, Err e)
          | Ok r3 =>
              let '(w, n4, cold, r4) := cold_arm true coldAgent p (fRepeat f) cold w in
              (w, n1 ++ n2 ++ n3 ++ n4, cold, match r4 with Ok r4 => Ok (r1 :: r2 :: r3 ++ r4) | Err e => Err e end)
          end
      end
  end.

Fixpoint points (f : bench_flags) (ws : list Z) (cold : list string) (w : W) : W * list note * list string * result (MainErr E) (list Result) :=
  match ws with
  | [] => (w, [], cold, Ok [])
  | n :: ws =>
      let '(w, notes, cold, r) := point f n cold w in
      match r with
      | Err e => (w, notes, cold, Err e)
      | Ok rows =>
          let '(w, more, cold, r) := points f ws cold w in
          (w, notes ++ more, cold, match r with Ok rs => Ok (rows ++ rs) | Err e => Err e end)
      end
  end.

(** [run], once the store's driver is open: the rows it prints, or why it stopped. *)
Definition run (f : bench_flags) (w : W) : W * list note * result (MainErr E) (list Result) :=
  match checked f with
  | Some e => (w, [], Err e)
  | None =>
      match parseWorkers (fWorkers f) with
      | None => (w, [], Err NoWorkers)
      | Some ws => let '(w, notes, _, r) := points f ws (splitList (fCold f)) w in (w, notes, r)
      end
  end.

(** ** What is read cold *)

Definition cold_name (arm : string) : bool := (arm =? coldBackend)%string || (arm =? coldAgent)%string.
Definition is_cold (n : note) : bool := cold_name (narm n).
Definition cold_reads (notes : list note) : list string := PObject ∘ nplan <$> List.filter is_cold notes.

Lemma cold_reads_app a b : cold_reads (a ++ b) = cold_reads a ++ cold_reads b.
Proof. unfold cold_reads. by rewrite List.filter_app, fmap_app. Qed.

(** Every run of a stretch is of its arm, and of the next of its plans. *)
Lemma times_notes n before socket arm : forall ps w, let '(_, notes, r) := times n before socket arm ps w in
  exists k, notes = mkNote arm <$> take k (take n ps) /\ (is_ok r = true -> notes = mkNote arm <$> take n ps).
Proof.
  induction n as [|n IH]; intros ps w; cbn [times]; [by exists 0%nat|]. destruct ps as [|p ps]; [by exists 0%nat|].
  destruct (before w) as [w1 [e|]]; [by exists 0%nat|]. destruct (once socket arm p w1) as [w2 [r|e]]; [|by exists 1%nat].
  specialize (IH ps w2). destruct (times n before socket arm ps w2) as [[w3 notes] [rs|e]]; destruct IH as (k & -> & X);
    exists (Datatypes.S k); split; try done. cbn in *. intros _. f_equal. by apply X.
Qed.

Lemma cold_reads_arm arm ps : cold_name arm = true -> cold_reads (mkNote arm <$> ps) = PObject <$> ps.
Proof. intros C. unfold cold_reads. induction ps as [|p ps IH]; [done|]. cbn [fmap list_fmap List.filter]. change (is_cold (mkNote arm p)) with (cold_name arm). rewrite C. cbn. by f_equal. Qed.
Lemma cold_reads_warm arm ps : cold_name arm = false -> cold_reads (mkNote arm <$> ps) = [].
Proof. intros C. unfold cold_reads. induction ps as [|p ps IH]; [done|]. cbn [fmap list_fmap List.filter]. change (is_cold (mkNote arm p)) with (cold_name arm). by rewrite C. Qed.

Lemma runRepeats_warm socket arm p n extent w : cold_name arm = false ->
  cold_reads (runRepeats socket arm p n extent w).1.2 = [].
Proof.
  intros C. unfold runRepeats. pose proof (times_notes 2 nothing socket arm [p; p] w) as T.
  destruct (times 2 nothing socket arm [p; p] w) as [[w1 n1] [r|e]]; destruct T as (k & -> & _); [|by apply cold_reads_warm].
  pose proof (times_notes (Z.to_nat n) (evicted extent) socket arm (replicate (Z.to_nat n) p) w1) as T.
  destruct (times (Z.to_nat n) _ _ _ _ _) as [[w2 n2] r2]. destruct T as (k2 & -> & _). cbn [fst snd].
  by rewrite cold_reads_app, !cold_reads_warm.
Qed.

(** What was read cold, and then what is left, are the start of what there was: the
    whole of it, where nothing failed. *)
Definition spends (cold : list string) (notes : list note) (rest : list string) (ok : bool) : Prop :=
  (exists skipped, cold = cold_reads notes ++ skipped ++ rest) /\ (ok = true -> cold = cold_reads notes ++ rest).

Lemma cold_arm_spends socket arm p n cold w : cold_name arm = true ->
  let '(_, notes, rest, r) := cold_arm socket arm p n cold w in spends cold notes rest (is_ok r).
Proof.
  intros C. unfold cold_arm. destruct (zlen cold <? n); [split; [by exists []|done]|].
  set (ps := (fun o => with_object o p) <$> take (Z.to_nat n) cold).
  assert (forall k, PObject <$> take k ps = take k (take (Z.to_nat n) cold)) as Ho.
  { intros k. unfold ps. rewrite <- fmap_take, <- list_fmap_compose. rewrite <- (list_fmap_id (take k (take _ cold))) at 2.
    apply list_fmap_ext. done. }
  assert (forall k, take k (take (Z.to_nat n) ps) = take k ps) as Hp.
  { intros k. unfold ps. rewrite <- !fmap_take, take_take. f_equal. rewrite !take_take. f_equal. lia. }
  pose proof (times_notes (Z.to_nat n) nothing socket arm ps w) as T.
  destruct (times (Z.to_nat n) nothing socket arm ps w) as [[w1 notes] r]. destruct T as (k & -> & T). split.
  - rewrite cold_reads_arm, Hp, Ho by done. exists (drop k (take (Z.to_nat n) cold)).
    by rewrite app_assoc, take_drop, take_drop.
  - intros O. rewrite T by by destruct r. rewrite cold_reads_arm by done.
    rewrite <- (take_ge (take (Z.to_nat n) ps) (Z.to_nat n)) by (rewrite length_take; lia).
    rewrite Hp, Ho, take_take, Nat.min_id. by rewrite take_drop.
Qed.

Lemma spends_trans cold n1 mid n2 rest ok : spends cold n1 mid true -> spends mid n2 rest ok -> spends cold (n1 ++ n2) rest ok.
Proof.
  unfold spends. intros [_ E1] [(sk & E2) O2]. rewrite cold_reads_app. specialize (E1 eq_refl). split.
  - exists sk. by rewrite E1, E2, <- !app_assoc.
  - intros O. by rewrite E1, (O2 O), <- !app_assoc at 1.
Qed.
Lemma spends_none cold notes ok : cold_reads notes = [] -> spends cold notes cold ok.
Proof. unfold spends. intros ->. split; [by exists []|done]. Qed.
Lemma spends_weaken cold notes rest ok : spends cold notes rest true -> spends cold notes rest ok.
Proof. intros [A B]. split; [done|auto]. Qed.

Lemma point_spends f n cold w : let '(_, notes, rest, r) := point f n cold w in spends cold notes rest (is_ok r).
Proof.
  unfold point. set (p := mkPlan _ _ _ _).
  pose proof (runRepeats_warm false backendArm p (fRepeat f) "" w eq_refl) as C1.
  destruct (runRepeats false backendArm _ _ _ w) as [[w1 n1] [r1|e]]; [|by apply spends_none]. cbn [fst snd] in C1.
  assert (cold_name (tierArm (fExtent f)) = false) as Ct by (unfold tierArm; by case_match).
  pose proof (runRepeats_warm true (tierArm (fExtent f)) p (fRepeat f) (fExtent f) w1 Ct) as C2.
  destruct (runRepeats true _ _ _ _ w1) as [[w2 n2] [r2|e]]; cbn [fst snd] in C2;
    [|apply spends_none; by rewrite cold_reads_app, C1, C2].
  assert (forall m rest ok, spends cold m rest ok -> spends cold (n1 ++ n2 ++ m) rest ok) as Warm.
  { intros m rest ok X. apply (spends_trans _ _ cold); [by apply spends_none|]. by apply (spends_trans _ _ cold); [apply spends_none|]. }
  pose proof (cold_arm_spends false coldBackend p (fRepeat f) cold w2 eq_refl) as C3.
  destruct (cold_arm false _ _ _ _ w2) as [[[w3 n3] rest] [r3|e]]; [|by apply Warm].
  pose proof (cold_arm_spends true coldAgent p (fRepeat f) rest w3 eq_refl) as C4.
  destruct (cold_arm true _ _ _ _ w3) as [[[w4 n4] left4] [r4|e]]; apply Warm; by apply (spends_trans _ _ rest).
Qed.

Lemma points_spends f ws : forall cold w, let '(_, notes, rest, r) := points f ws cold w in spends cold notes rest (is_ok r).
Proof.
  induction ws as [|n ws IH]; intros cold w; cbn [points]; [by apply spends_none|].
  pose proof (point_spends f n cold w) as P. destruct (point f n cold w) as [[[w1 notes] rest] [rows|e]]; [|done].
  specialize (IH rest w1). destruct (points f ws rest w1) as [[[w2 more] left2] [rs|e]]; by apply (spends_trans _ _ rest).
Qed.

(** No cold run reads what another has read: over the whole sweep, whatever fails,
    what is read cold is the start of the list of cold objects, one to a run and in
    order. *)
Theorem cold_read_once f w : cold_reads (run f w).1.2 `prefix_of` splitList (fCold f).
Proof.
  unfold run. destruct (checked f); [apply prefix_nil|]. destruct (parseWorkers (fWorkers f)) as [ws|]; [|apply prefix_nil].
  pose proof (points_spends f ws (splitList (fCold f)) w) as P.
  destruct (points f ws _ w) as [[[w1 notes] rest] r]. destruct P as [(sk & E0) _]. exists (sk ++ rest). exact E0.
Qed.

End sweep.

(** ** The points *)

Lemma parseWorkers_sorted s ns : parseWorkers s = Some ns -> ns <> [] /\ StronglySorted Z.le ns /\ Forall (fun n => 0 < n) ns.
Proof.
  unfold parseWorkers. destruct (counts_of (splitList s)) as [l|] eqn:C; [|done].
  assert (Forall (fun n => 0 < n) l) as F.
  { revert l C. induction (splitList s) as [|f fs IH]; intros l; cbn [counts_of]; [intros [= <-]; constructor|].
    destruct (ParseInt f) as [n [e|]]; [done|]. destruct (Z.leb_spec n 0); [done|].
    destruct (counts_of fs) as [ns'|]; [|done]. intros [= <-]. constructor; [done|by apply IH]. }
  destruct l as [|x l]; [done|]. intros [= <-]. pose proof (merge_sort_Permutation Z.le (x :: l)) as P. split_and!.
  - intros E0. rewrite E0 in P. apply Permutation_nil_l in P. done.
  - apply (StronglySorted_merge_sort Z.le).
  - by rewrite P.
Qed.

(** A sweep of no runs is accepted, and its rows are of nothing. *)
Example no_runs_accepted :
  let f := mkBenchFlags "/s" "http://s3" "b" "o" 1 1 "1" 0 "" "" in
  (run (W := ()) (E := ()) (fun _ _ _ _ _ w => (w, Ok [byte_of 7])) (fun _ _ w => (w, true))
     (fun w => (w, ([0%nat], Second))) (fun _ w => (w, mkDropping None None false false None)) f ()).2 = Ok (replicate 4 (mkResult "" 0 0 0 0)).
Proof. vm_compute. reflexivity. Qed.

(** A page in twenty may stay, and no more. *)
Example mostly_dropped :
  let w d := (evicted (W := ()) (E := ()) (fun _ _ => ((), d)) "e" ()).2 in
  let pages n := Some (replicate (Z.to_nat n) (byte_of 1) ++ replicate 3 (byte_of 254)) in
  w (mkDropping (Some 1) (pages 40) true true (pages 2)) = None /\
  w (mkDropping (Some 1) (pages 39) true true (pages 2)) = Some (StillResident 39 2).
Proof. vm_compute. split; reflexivity. Qed.
