(* ===== verification/CsiMain.v ===== *)
(** * CsiMain: serving the storage interface (cmd/forebay-csi/main.go)

    What [run] makes of its flags: the driver of CsiDriver.v, with the resolver, the
    mounter and the observer the halves it serves need, and the methods it answers.
    What the machine answers on the way is an argument. The plugin tells the agent of
    what it mounts over a network that may lose a report, as in VolumesApi.v; what is
    printed, and the signal that stops it, are not modelled. *)

From S2P Require Import Prelude GoStrings ProtoWire CsiMessage GrpcWire CsiDriver CsiNode VolumesApi.
From S2P Require Kube LeaseApi CsiTheorems.

Local Open Scope Z_scope.

Record csi_flags : Type := mkCsiFlags {
  fSocket : string;
  fController : bool;
  fNode : bool;
  fNodeID : string;
  fAccess : string;
  fExport : string;
  fMountFlags : string;
  fApiServer : string;
  fToken : string;
  fAgent : string;
  fAgentToken : string;
  fTimeout : duration;
  fRegSocket : string;
}.

(** The pod's environment and files, what becomes of the two sockets, and the text
    that names the build. *)
Record surroundings : Type := mkSurroundings {
  pod : result Kube.KubeErr Kube.Config;
  host_parses : string -> bool;
  certificates : list byte -> bool;
  agent_token : option string;
  clears : string -> bool;
  listens : string -> bool;
  build : string;
}.

Inductive CsiStartErr : Type :=
  | NothingToServe
  | OutsideCluster (e : Kube.KubeErr)
  | NoClient (e : Kube.KubeErr)
  | NoTokenFile
  | TokenUnread
  | TokenEmpty
  | NoDriver (why : string)
  | NotCleared (socket : string)
  | NotListening (socket : string)
  | Twice
  | NotANode.

(** The pod's own where a flag gives none; outside a cluster, both must be given. *)
Definition apiClient (e : surroundings) (host token : string) (timeout : duration) : result CsiStartErr Kube.Client :=
  let make cfg :=
    let cfg := Kube.mkKubeConfig (if (host =? "")%string then Kube.Host cfg else host)
                 (if (token =? "")%string then Kube.KToken cfg else token) (Kube.CA cfg) timeout in
    match Kube.New (host_parses e (Kube.Host cfg)) (certificates e (Kube.CA cfg)) cfg with
    | Ok c => Ok c
    | Err e => Err (NoClient e)
    end in
  match pod e with
  | Ok cfg => make cfg
  | Err why =>
      if (host =? "")%string || (token =? "")%string then Err (OutsideCluster why)
      else make (Kube.mkKubeConfig "" "" [] 0)
  end.

(** The token the reports are sent with, or that none are. *)
Definition reporter (e : surroundings) (addr tokenFile : string) : result CsiStartErr (option string) :=
  if (addr =? "")%string then Ok None
  else if (tokenFile =? "")%string then Err NoTokenFile
  else match agent_token e with
       | None => Err TokenUnread
       | Some raw => let token := TrimSpace raw in if (token =? "")%string then Err TokenEmpty else Ok (Some token)
       end.

Section plugin.
Context `{Quoting, ReportSize, Resolves} {A : Type}.
(** What the API server answers of a dataset, through a client; and the token the
    agent requires. *)
Variable get : Kube.Client -> option duration -> string -> string -> A -> A * result string (option Dataset).
Variable required : string.

(** The cluster, this node, and what becomes of each report. *)
Record plugin : Type := mkPlugin {
  api : A;
  here : Node;
  fates : list LeaseApi.fate;
}.

Definition at_api {X} (f : A -> A * X) (s : plugin) : plugin * X :=
  let '(a, x) := f (api s) in (mkPlugin a (here s) (fates s), x).
Definition on_node {X} (f : Node -> Node * X) (s : plugin) : plugin * X :=
  let '(n, x) := f (here s) in (mkPlugin (api s) n (fates s), x).
Definition mounter (m : Mounter Node) : Mounter plugin := {|
  MMount := fun ctx src target flags => on_node (MMount m ctx src target flags);
  MUnmount := fun ctx target => on_node (MUnmount m ctx target);
|}.

(** [reports]: whether it was heard is printed, and nothing else. *)
Definition send (f : LeaseApi.fate -> Node -> Node * bool) (s : plugin) : plugin :=
  let '(n, _) := f (default LeaseApi.RequestLost (head (fates s))) (here s) in
  mkPlugin (api s) n (tail (fates s)).
Definition reports (token : string) : Observer plugin := {|
  Published := fun id bytes => send (fun f => report_published required token f id bytes);
  Unpublished := fun id => send (fun f => report_unpublished required token f id);
|}.

Definition resolver (c : Kube.Client) : Resolver plugin :=
  Datasets_Resolve (fun ctx namespace name => at_api (get c ctx namespace name)).

(** What the driver is configured with. *)
Definition csi_config (f : csi_flags) (e : surroundings) : result CsiStartErr (CsiConfig plugin) :=
  if negb (fController f) && negb (fNode f) then Err NothingToServe
  else
    match (if fController f then match apiClient e (fApiServer f) (fToken f) (fTimeout f) with Ok c => Ok (Some (resolver c)) | Err x => Err x end
           else Ok None) with
    | Err x => Err x
    | Ok res =>
        match (if fNode f then match reporter e (fAgent f) (fAgentToken f) with Ok t => Ok (Some (mounter NFS), reports <$> t) | Err x => Err x end
               else Ok (None, None)) with
        | Err x => Err x
        | Ok (mount, observer) =>
            match CsiDriver.New {| NodeID := fNodeID f; Version := build e; Access := fAccess f; Export := fExport f;
                                   MountFlags := splitList (fMountFlags f); CResolver := res; CMounter := mount; CObserver := observer |} with
            | Err why => Err (NoDriver why)
            | Ok d => Ok d
            end
        end
    end.

(** A socket's file outlives its process, and is cleared first. *)
Definition bind (e : surroundings) (socket : string) : option CsiStartErr :=
  if negb (clears e socket) then Some (NotCleared socket)
  else if negb (listens e socket) then Some (NotListening socket) else None.

Definition serveRegistration (e : surroundings) (socket endpoint : string) : result CsiStartErr (Server plugin) :=
  match bind e socket with
  | Some x => Err x
  | None =>
      match Registration_Register endpoint (Some (fun _ _ s => s)) ∅ with
      | None => Err Twice
      | Some srv => Ok srv
      end
  end.

(** [run], as far as what it serves: the driver, its server, and the one the kubelet
    asks, where there is one. *)
Definition run (f : csi_flags) (e : surroundings) : result CsiStartErr (CsiConfig plugin * Server plugin * option (Server plugin)) :=
  match csi_config f e with
  | Err x => Err x
  | Ok d =>
      match bind e (fSocket f) with
      | Some x => Err x
      | None =>
          match CsiDriver.Register d ∅ with
          | None => Err Twice
          | Some srv =>
              if (fRegSocket f =? "")%string then Ok (d, srv, None)
              else if negb (fNode f) then Err NotANode
              else match serveRegistration e (fRegSocket f) (fSocket f) with
                   | Err x => Err x
                   | Ok reg => Ok (d, srv, Some reg)
                   end
          end
      end
  end.

Definition halves (controller node : bool) : string :=
  if controller && node then "both halves" else if controller then "the controller half" else "the node half".
End plugin.
Arguments plugin A : clear implicits.

(** ** What it serves *)

Definition identity_half : list string := [MethodGetPluginInfo; MethodGetPluginCapabilities; MethodProbe].
Definition controller_half : list string :=
  [MethodControllerGetCapabilities; MethodCreateVolume; MethodDeleteVolume; MethodValidateVolumeCapabilities].
Definition node_half : list string :=
  [MethodNodeGetInfo; MethodNodeGetCapabilities; MethodNodePublishVolume; MethodNodeUnpublishVolume].
Definition served_by (controller node : bool) : list string :=
  identity_half ++ (if controller then controller_half else []) ++ (if node then node_half else []).

Definition well_named (m : string) : bool := String.prefix "/" m && (count_slashes m =? 2).

Lemma register_all_ok {S} (ms : list (string * Handler S)) : forall srv : gmap string (Handler S), forallb well_named ms.*1 = true -> NoDup ms.*1 ->
  Forall (fun m => srv !! m = None) ms.*1 -> exists srv' : gmap string (Handler S), register_all ms srv = Some srv' /\
    (forall m, srv' !! m = match (list_to_map ms : gmap string (Handler S)) !! m with Some h => Some h | None => srv !! m end).
Proof.
  induction ms as [|[m h] ms IH]; intros srv W N F; [by exists srv|]. simpl in *.
  apply andb_true_iff in W as [Wm W]. apply NoDup_cons in N as [Nm N]. apply Forall_cons in F as [Fm F].
  unfold GrpcWire.Register. unfold well_named in Wm. apply andb_true_iff in Wm as [-> ->]. simpl. unfold Server in *. rewrite Fm.
  destruct (IH (<[m := h]> srv)) as (srv' & -> & L); [done|done| |].
  - rewrite Forall_forall in *. intros x Hx. cbn. rewrite lookup_insert_ne; [by apply F|]. by intros ->.
  - exists srv'. split; [done|]. intros x. rewrite L. cbn [list_to_map foldr curry fst snd]. destruct (decide (x = m)) as [->|Ne].
    + rewrite !lookup_insert_eq. by rewrite not_elem_of_list_to_map_1.
    + by rewrite !lookup_insert_ne by congruence.
Qed.

Lemma methods_names `{Quoting} {S} (d : CsiConfig S) : (methods d).*1 = served_by (is_some (CResolver d)) (is_some (CMounter d)).
Proof. unfold methods. destruct (CResolver d), (CMounter d); reflexivity. Qed.
Lemma served_by_distinct c n : NoDup (served_by c n) /\ forallb well_named (served_by c n) = true.
Proof. split; [apply (bool_decide_unpack _)|]; destruct c, n; vm_compute; done. Qed.

(** Registering a driver never panics, and serves its methods. *)
Lemma Register_ok `{Quoting} {S} (d : CsiConfig S) : exists srv : gmap string (Handler S), CsiDriver.Register d ∅ = Some srv /\
  forall m, srv !! m = (list_to_map (methods d) : gmap string (Handler S)) !! m.
Proof.
  destruct (served_by_distinct (is_some (CResolver d)) (is_some (CMounter d))) as [N W]. rewrite <- methods_names in N, W.
  destruct (register_all_ok (methods d) ∅ W N) as (srv & E & L); [by apply Forall_forall|].
  exists srv. split; [done|]. intros m. rewrite L, lookup_empty. by destruct (_ !! m).
Qed.

Lemma elem_of_splitList x s : x ∈ splitList s -> x <> ""%string.
Proof.
  unfold splitList. intros [_ N]%list_elem_of_In%filter_In. by apply negb_true_iff, String.eqb_neq in N.
Qed.

Section theorems.
Context `{Quoting, ReportSize, Resolves} {A : Type}.
Variable get : Kube.Client -> option duration -> string -> string -> A -> A * result string (option Dataset).
Variable required : string.

(** Everything but what the agent counts, and what becomes of reports to it. *)
Definition agree (s s' : plugin A) : Prop := api s = api s' /\ exists m, here s' = set_byID m (here s).

Lemma agree_node s s' : agree s s' <-> api s = api s' /\ mounts (here s) = mounts (here s') /\ dirs (here s) = dirs (here s') /\
  os_faults (here s) = os_faults (here s').
Proof.
  unfold agree. destruct (here s) as [a b c d] eqn:E, (here s') as [a' b' c' d'] eqn:E'. unfold set_byID; simpl. split.
  - intros (-> & m & [= -> -> -> ->]). done.
  - intros (-> & -> & -> & ->). split; [done|]. by exists d'.
Qed.
#[local] Instance agree_equiv : Equivalence agree.
Proof.
  split; [intros s|intros s t|intros s t u]; rewrite !agree_node; intuition congruence.
Qed.

Definition quiet (o : option (Observer (plugin A))) : Prop :=
  match o with None => True | Some o => (forall id b s, agree s (Published o id b s)) /\ (forall id s, agree s (Unpublished o id s)) end.
Definition with_observer (o : option (Observer (plugin A))) (d : CsiConfig (plugin A)) : CsiConfig (plugin A) :=
  {| NodeID := NodeID d; Version := Version d; Access := Access d; Export := Export d; MountFlags := MountFlags d;
     CResolver := CResolver d; CMounter := CMounter d; CObserver := o |}.

(** Two handlers that answer alike, whatever the agent counts. *)
Definition alike (h h' : Handler (plugin A)) : Prop := forall ctx req s s', agree s s' ->
  agree (h ctx req s).1 (h' ctx req s').1 /\ (h ctx req s).2 = (h' ctx req s').2.

Lemma vsend_quiet token f r n : exists m, (vsend required token f r n).1 = set_byID m n.
Proof.
  assert (exists m, n = set_byID m n) as Z by (by exists (byID n); destruct n).
  unfold vsend, volumes_Handler, published, unpublished, list_volumes, Registry_Published, Registry_Unpublished;
    destruct f, r as [[rep|]|esc|]; simpl; repeat (case_match; simplify_eq/=; eauto); eauto.
Qed.
Lemma reports_quiet token : quiet (Some (reports (A := A) required token)).
Proof.
  unfold quiet, reports, send; simpl. split; [intros id b s|intros id s]; unfold report_published, report_unpublished;
    match goal with |- context [vsend ?a ?b ?c ?d ?e] => destruct (vsend_quiet b c d e) as [m Em]; destruct (vsend a b c d e) as [n ok] end;
    simpl in *; split; eauto.
Qed.

Lemma NFS_Mount_blind ctx src target flags m n :
  NFS_Mount ctx src target flags (set_byID m n) = (set_byID m (NFS_Mount ctx src target flags n).1, (NFS_Mount ctx src target flags n).2).
Proof.
  unfold NFS_Mount, mounted, next_os, MkdirAll, exec_mount, mountinfo, set_dirs, set_mounts, set_byID, next_os. simpl.
  repeat (case_match; simplify_eq/=; try done).
Qed.
Lemma NFS_Unmount_blind ctx target m n :
  NFS_Unmount ctx target (set_byID m n) = (set_byID m (NFS_Unmount ctx target n).1, (NFS_Unmount ctx target n).2).
Proof.
  unfold NFS_Unmount, mounted, next_os, exec_umount, removeIfEmpty, mountinfo, set_dirs, set_mounts, set_byID, next_os. simpl.
  repeat (case_match; simplify_eq/=; try done).
Qed.

(** The mounter sees the node alone, and never what the agent counts. *)
Lemma mount_alike ctx src target flags s s' : agree s s' ->
  agree (MMount (mounter (A := A) NFS) ctx src target flags s).1 (MMount (mounter NFS) ctx src target flags s').1 /\
  (MMount (mounter (A := A) NFS) ctx src target flags s).2 = (MMount (mounter NFS) ctx src target flags s').2.
Proof.
  destruct s as [a n fs], s' as [a' n' fs']. intros (Ea & m & En). simpl in *. subst a' n'. unfold on_node; simpl.
  rewrite NFS_Mount_blind. destruct (NFS_Mount _ _ _ _ n) as [n1 e]. simpl. split; [|done]. split; [done|]. by exists m.
Qed.
Lemma unmount_alike ctx target s s' : agree s s' ->
  agree (MUnmount (mounter (A := A) NFS) ctx target s).1 (MUnmount (mounter NFS) ctx target s').1 /\
  (MUnmount (mounter (A := A) NFS) ctx target s).2 = (MUnmount (mounter NFS) ctx target s').2.
Proof.
  destruct s as [a n fs], s' as [a' n' fs']. intros (Ea & m & En). simpl in *. subst a' n'. unfold on_node; simpl.
  rewrite NFS_Unmount_blind. destruct (NFS_Unmount _ _ n) as [n1 e]. simpl. split; [|done]. split; [done|]. by exists m.
Qed.

Lemma observe_quiet o d id cx s : quiet o -> agree s (observe (with_observer o d) id cx s).
Proof. unfold observe. simpl. destruct o as [o|]; [|reflexivity]. intros [Q _]. apply Q. Qed.
Lemma forget_quiet o d id s : quiet o -> agree s (forget (with_observer o d) id s).
Proof. unfold forget. simpl. destruct o as [o|]; [|reflexivity]. intros [_ Q]. apply Q. Qed.

Lemma nodePublish_alike o o' d : quiet o -> quiet o' ->
  alike (nodePublish (with_observer o d) (mounter NFS)) (nodePublish (with_observer o' d) (mounter NFS)).
Proof.
  intros Q Q' ctx req s s' Ag. unfold nodePublish. destruct (DecodeNodePublish req) as [r|e]; [|by split].
  destruct (PublishID r =? "")%string; [by split|]. destruct (PublishTarget r =? "")%string; [by split|].
  destruct (PublishCapability r) as [c|]; [|by split]. destruct (acceptable [c]); [by split|].
  destruct (default _ _ =? "")%string; [by split|]. change (source (with_observer ?x d)) with (source d).
  destruct (source d _) as [src|e]; [|by split]. cbn [MountFlags with_observer].
  pose proof (mount_alike ctx src (PublishTarget r) (MountFlags d) s s' Ag) as [Am Em].
  destruct (MMount _ _ _ _ _ s) as [s1 e1], (MMount _ _ _ _ _ s') as [s1' e1']. simpl in Am, Em. subst e1'.
  destruct e1; [by split|]. split; [|done]. cbn [fst]. rewrite <- (observe_quiet o d), <- (observe_quiet o' d) by done. done.
Qed.
Lemma nodeUnpublish_alike o o' d : quiet o -> quiet o' ->
  alike (nodeUnpublish (with_observer o d) (mounter NFS)) (nodeUnpublish (with_observer o' d) (mounter NFS)).
Proof.
  intros Q Q' ctx req s s' Ag. unfold nodeUnpublish. destruct (DecodeNodeUnpublish req) as [r|e]; [|by split].
  destruct (UnpublishID r =? "")%string; [by split|]. destruct (UnpublishTarget r =? "")%string; [by split|].
  pose proof (unmount_alike ctx (UnpublishTarget r) s s' Ag) as [Am Em].
  destruct (MUnmount _ _ _ s) as [s1 e1], (MUnmount _ _ _ s') as [s1' e1']. simpl in Am, Em. subst e1'.
  destruct e1; [by split|]. split; [|done]. cbn [fst]. rewrite <- (forget_quiet o d), <- (forget_quiet o' d) by done. done.
Qed.

(** A resolver asks the cluster, whatever the node and the agent are. *)
Lemma resolver_alike c ctx ns name s s' : agree s s' ->
  agree (resolver get c ctx ns name s).1 (resolver get c ctx ns name s').1 /\
  (resolver get c ctx ns name s).2 = (resolver get c ctx ns name s').2.
Proof.
  destruct s as [a n fs], s' as [a' n' fs']. intros (Ea & m & En). simpl in *. subst a' n'.
  unfold resolver, Datasets_Resolve, at_api; simpl. destruct (get c ctx ns name a) as [a1 r]. simpl. split; [|done]. split; [by split|]. by exists m.
Qed.
Lemma createVolume_alike c : alike (createVolume (resolver get c)) (createVolume (resolver get c)).
Proof.
  intros ctx req s s' Ag. unfold createVolume. destruct (DecodeCreateVolume req) as [r|e]; [|by split].
  destruct (CreateName r =? "")%string; [by split|]. destruct (_ =? 0); [by split|]. destruct (acceptable _); [by split|].
  destruct (datasetFrom _) as [[ns name]|e]; [|by split]. pose proof (resolver_alike c ctx ns name s s' Ag) as [Am Em].
  destruct (resolver _ _ _ _ _ s) as [s1 o], (resolver _ _ _ _ _ s') as [s1' o']. simpl in Am, Em. subst o'.
  by destruct o as [[obj b]|e].
Qed.
Lemma pure_alike (h : Handler (plugin A)) : (forall ctx req s, h ctx req s = (s, (h ctx req s).2)) ->
  (forall ctx req s s', (h ctx req s).2 = (h ctx req s').2) -> alike h h.
Proof. intros P E ctx req s s' Ag. rewrite (P ctx req s), (P ctx req s'). split; [done|apply E]. Qed.

Definition of_run (d : CsiConfig (plugin A)) : Prop :=
  (CResolver d = None \/ exists c, CResolver d = Some (resolver get c)) /\ (CMounter d = None \/ CMounter d = Some (mounter NFS)) /\
  quiet (CObserver d).

Definition servers_alike (srv srv' : gmap string (Handler (plugin A))) : Prop :=
  forall m, option_Forall2 alike (srv !! m) (srv' !! m).

Ltac each := repeat (apply Forall2_cons_2; [split; [done|cbn]|]); try apply Forall2_nil_2.
Lemma methods_alike o d : of_run d -> quiet o ->
  Forall2 (fun x y => x.1 = y.1 /\ alike x.2 y.2) (methods d) (methods (with_observer o d)).
Proof.
  intros (R & M & Q) Qo. assert (d = with_observer (CObserver d) d) as Ed by by destruct d.
  assert (forall (h : Handler (plugin A)), (forall ctx req s, h ctx req s = (s, (h ctx req s).2)) ->
    (forall ctx req s s', (h ctx req s).2 = (h ctx req s').2) -> alike h h) as P by (intros h; apply pure_alike).
  unfold methods. cbn [CResolver CMounter with_observer]. apply Forall2_app; [|apply Forall2_app].
  - each; apply P; done.
  - destruct R as [->|(c & ->)]; [constructor|]. each; [apply P; done|apply createVolume_alike|..];
      apply P; intros; unfold deleteVolume, validate; repeat (case_match; try done).
  - destruct M as [->| ->]; [constructor|]. each; [apply P; done..| |]; rewrite Ed at 1;
      [by apply nodePublish_alike|by apply nodeUnpublish_alike].
Qed.

Lemma lookups_alike (ms ms' : list (string * Handler (plugin A))) : Forall2 (fun x y => x.1 = y.1 /\ alike x.2 y.2) ms ms' ->
  servers_alike (list_to_map ms) (list_to_map ms').
Proof.
  induction 1 as [|[m h] [m' h'] ms ms' [Em Ah] F IH]; intros x; [constructor|]. cbn in *. subst m'.
  destruct (decide (x = m)) as [->|N]; [rewrite !lookup_insert_eq; by constructor|].
  rewrite !lookup_insert_ne by congruence. apply IH.
Qed.

(** Requests in turn, and what becomes of each reply. *)
Fixpoint answered (srv : Server (plugin A)) (rs : list (HttpRequest * option (Z * string))) (s : plugin A) : plugin A * list HttpResponse :=
  match rs with
  | [] => (s, [])
  | (r, wrote) :: rs =>
      let '(s, out) := serveHTTP srv wrote r s in
      let '(s, outs) := answered srv rs s in (s, out :: outs)
  end.

Lemma serveHTTP_alike srv srv' wrote r s s' : servers_alike srv srv' -> agree s s' ->
  agree (serveHTTP srv wrote r s).1 (serveHTTP srv' wrote r s').1 /\ (serveHTTP srv wrote r s).2 = (serveHTTP srv' wrote r s').2.
Proof.
  intros L Ag. unfold serveHTTP. destruct (negb (Method r =? _)%string); [by split|]. destruct (negb (String.prefix _ _)); [by split|]. unfold Server in *.
  specialize (L (URLPath r)).
  destruct (srv !! URLPath r) as [h|], (srv' !! URLPath r) as [h'|]; inversion L as [? ? Ah|]; subst; [|by split]. destruct (readMessage _) as [req|]; [|by split].
  destruct (Ah (timeout (GrpcTimeout r)) req s s' Ag) as [A1 A2]. destruct (h _ req s) as [s1 o], (h' _ req s') as [s1' o'].
  simpl in A1, A2. subst o'. destruct o; [|by split]. by destruct wrote as [[]|].
Qed.
Lemma answered_alike srv srv' rs : servers_alike srv srv' -> forall s s', agree s s' ->
  agree (answered srv rs s).1 (answered srv' rs s').1 /\ (answered srv rs s).2 = (answered srv' rs s').2.
Proof.
  intros L. induction rs as [|[r wrote] rs IH]; intros s s' Ag; [by split|]. simpl.
  destruct (serveHTTP_alike srv srv' wrote r s s' L Ag) as [A1 A2].
  destruct (serveHTTP srv wrote r s) as [s1 o], (serveHTTP srv' wrote r s') as [s1' o']. simpl in A1, A2. subst o'.
  destruct (IH s1 s1' A1) as [B1 B2]. destruct (answered srv rs s1), (answered srv' rs s1'). simpl in *. by subst.
Qed.

Definition without_agent (f : csi_flags) : csi_flags :=
  mkCsiFlags (fSocket f) (fController f) (fNode f) (fNodeID f) (fAccess f) (fExport f) (fMountFlags f) (fApiServer f) (fToken f)
    "" "" (fTimeout f) (fRegSocket f).

Lemma csi_config_Ok f e d : csi_config get required f e = Ok d ->
  of_run d /\ csi_config get required (without_agent f) e = Ok (with_observer None d) /\
  (fController f = true \/ fNode f = true) /\ is_some (CResolver d) = fController f /\ is_some (CMounter d) = fNode f /\
  is_some (CObserver d) = fNode f && negb (fAgent f =? "")%string /\ MountFlags d = splitList (fMountFlags f) /\
  (fNode f = true -> fNodeID f <> ""%string /\ fAccess f <> ""%string /\ fExport f <> ""%string).
Proof.
  unfold csi_config, CsiDriver.New. cbn [fController fNode fNodeID fAccess fExport fMountFlags fApiServer fToken fTimeout without_agent].
  destruct (fController f), (fNode f); cbn [negb andb]; try done.
  all: try (destruct (apiClient _ _ _ _) as [c|]; [|done]).
  all: unfold reporter; cbn [fAgent fAgentToken without_agent].
  all: try (destruct (fAgent f =? "")%string; [|destruct (fAgentToken f =? "")%string; [done|];
    destruct (agent_token e) as [raw|]; [|done]; destruct (TrimSpace raw =? "")%string; [done|]]).
  all: cbn [CMounter is_some andb fmap option_fmap option_map fAgent].
  all: rewrite ?andb_true_r, ?andb_false_r; cbn [NodeID Access Export].
  all: cbn [String.eqb is_some andb].
  all: repeat (match goal with |- context [if (?x =? "")%string && _ then _ else _] => destruct (x =? "")%string eqn:?
                             | |- context [if (?x =? "")%string then _ else _] => destruct (x =? "")%string eqn:? end; cbn [andb]; try done).
  all: intros [= <-]; bool_to_prop; split_and!; cbn; auto; split_and!; cbn; eauto; apply (reports_quiet (TrimSpace raw)).
Qed.

Lemma run_Ok f e d srv reg : run get required f e = Ok (d, srv, reg) ->
  csi_config get required f e = Ok d /\ bind e (fSocket f) = None /\ CsiDriver.Register d ∅ = Some srv /\
  (if (fRegSocket f =? "")%string then reg = None
   else fNode f = true /\ exists r, serveRegistration (A := A) e (fRegSocket f) (fSocket f) = Ok r /\ reg = Some r).
Proof.
  unfold run. destruct (csi_config _ _ f e) as [d0|]; [|done]. destruct (bind e (fSocket f)) eqn:B; [done|].
  destruct (CsiDriver.Register d0 ∅) as [srv0|] eqn:R; [|done]. destruct (fRegSocket f =? "")%string; [intros [= <- <- <-]; done|].
  destruct (fNode f); cbn [negb]; [|done]. destruct (serveRegistration _ _ _) as [r|]; [|done]. intros [= <- <- <-]. eauto 10.
Qed.

(** a plugin serves the halves it was asked to and no more. Started, it answers
    the identity's methods, the controller's with --controller and the node's with
    --node, and no other; a node half has a node, an access layer and an export, and
    is what is offered to the kubelet; it reports exactly where an agent is named;
    and every mount carries the flags given, none of them empty. *)
Theorem serves_its_halves f e d srv reg : run get required f e = Ok (d, srv, reg) ->
  (forall m, is_Some ((srv : gmap string (Handler (plugin A))) !! m) <-> m ∈ served_by (fController f) (fNode f)) /\
  (fController f = true \/ fNode f = true) /\
  (fNode f = true -> fNodeID f <> ""%string /\ fAccess f <> ""%string /\ fExport f <> ""%string) /\
  (is_Some reg <-> fRegSocket f <> ""%string) /\ (is_Some reg -> fNode f = true) /\
  is_some (CObserver d) = fNode f && negb (fAgent f =? "")%string /\
  Forall (fun x => x <> ""%string) (MountFlags d).
Proof.
  intros (C & B & R & G)%run_Ok. destruct (csi_config_Ok _ _ _ C) as (_ & _ & Half & Ec & En & Eo & Em & Named).
  destruct (Register_ok d) as (srv' & R' & L). rewrite R in R'. injection R' as ->. split_and!; [| |done| | |done|].
  - intros m. rewrite L, <- Ec, <- En, <- methods_names. split.
    + intros [h E%elem_of_list_to_map_2]. by apply (list_elem_of_fmap_2 fst) in E.
    + intros I. destruct (list_to_map _ !! m) eqn:E; [by eexists|]. by apply not_elem_of_list_to_map in E.
  - done.
  - destruct (String.eqb_spec (fRegSocket f) ""); [subst; split; [intros [? [=]]|done]|].
    destruct G as (_ & r & _ & ->). split; [done|by eexists].
  - destruct (String.eqb_spec (fRegSocket f) ""); [subst; intros [? [=]]|]. by destruct G.
  - rewrite Em. apply Forall_forall. intros x. apply elem_of_splitList.
Qed.

(** C22: a mount never waits on the agent. A plugin that starts would start without an
    agent too; and whatever requests reach it, and whatever becomes of its reports,
    it gives every one the reply it would give with no agent named, mounts what it
    would mount and asks the cluster what it would ask. *)
Theorem mounts_need_no_agent f e d srv reg : run get required f e = Ok (d, srv, reg) ->
  exists d' srv' reg', run get required (without_agent f) e = Ok (d', srv', reg') /\ CObserver d' = None /\
    forall rs s s', agree s s' ->
      agree (answered srv rs s).1 (answered srv' rs s').1 /\ (answered srv rs s).2 = (answered srv' rs s').2.
Proof.
  intros (C & B & R & G)%run_Ok. destruct (csi_config_Ok _ _ _ C) as (Of & C' & _).
  destruct (Register_ok d) as (srv0 & R0 & L). rewrite R in R0. injection R0 as ->.
  destruct (Register_ok (with_observer None d)) as (srv' & R' & L'). exists (with_observer None d), srv', reg. split; [|split; [done|]].
  - unfold run. rewrite C'. cbn [fSocket fRegSocket fNode without_agent]. rewrite B, R'.
    destruct (fRegSocket f =? "")%string; [by rewrite G|]. destruct G as (-> & r & -> & ->). done.
  - intros rs s s'. apply answered_alike. intros m. rewrite L, L'. apply lookups_alike, methods_alike; done.
Qed.
End theorems.

(** ** Witnesses *)

Definition wget : Kube.Client -> option duration -> string -> string -> unit -> unit * result string (option Dataset) :=
  fun _ _ _ _ a => (a, Ok None).
(** A node plugin with an agent it reports to, offered to the kubelet. *)
Definition wflags : csi_flags :=
  mkCsiFlags "/csi/csi.sock" false true "n1" "10.0.0.1" "forebay" "vers=4.1, hard,," "" "" "http://agent" "/token" (10 * Second) "/reg.sock".
Definition wsurroundings : surroundings :=
  mkSurroundings (Err Kube.ErrNotInCluster) (fun _ => true) (fun _ => true) (Some "secret
"%string) (fun _ => true) (fun _ => true) "v1".
#[local] Instance wfits : ReportSize := fun _ => true.
#[local] Existing Instance GrpcWire.wquote.
#[local] Existing Instance CsiTheorems.wresolves.

Definition starts {E X} (r : result E X) : bool := match r with Ok _ => true | Err _ => false end.
Lemma wstarts : starts (run wget "secret" wflags wsurroundings) = true.
Proof. vm_compute. reflexivity. Qed.
Lemma serves_its_halves_witness : exists d srv reg, run wget "secret" wflags wsurroundings = Ok (d, srv, reg) /\
  is_Some ((srv : gmap string (Handler (plugin unit))) !! MethodNodePublishVolume) /\ is_Some reg /\ is_some (CObserver d) = true.
Proof.
  pose proof wstarts as St. destruct (run wget "secret" wflags wsurroundings) as [[[d srv] reg]|] eqn:E; [|discriminate St].
  exists d, srv, reg. split; [done|]. destruct (serves_its_halves wget "secret" wflags wsurroundings d srv reg E) as (M & _ & _ & R & _ & O & _).
  split_and!; [|by apply R|by rewrite O]. apply M. apply (bool_decide_unpack _). vm_compute. done.
Defined.

(** A publish, while every report is lost. *)
Definition wposts : list (HttpRequest * option (Z * string)) :=
  [(call_request MethodNodePublishVolume None (CsiTheorems.wpublish "/pods/a"), None)].
Lemma mounts_need_no_agent_witness : exists d srv reg, run wget "secret" wflags wsurroundings = Ok (d, srv, reg) /\
  exists d' srv' reg', run wget "secret" (without_agent wflags) wsurroundings = Ok (d', srv', reg') /\
    (answered srv wposts (mkPlugin () CsiTheorems.wnode [])).2 = (answered srv' wposts (mkPlugin () CsiTheorems.wnode [])).2.
Proof.
  pose proof wstarts as St. destruct (run wget "secret" wflags wsurroundings) as [[[d srv] reg]|] eqn:E; [|discriminate St].
  exists d, srv, reg. split; [done|].
  destruct (mounts_need_no_agent wget "secret" wflags wsurroundings d srv reg E) as (d' & srv' & reg' & E' & _ & Al).
  exists d', srv', reg'. split; [done|]. apply Al. split; [done|]. by exists ∅.
Defined.

(** What it mounts, where, and with what; and the agent has heard of it once the
    network lets a report through. *)
Example publishes :
  match run wget "secret" wflags wsurroundings with
  | Ok (_, srv, _) =>
      let '(s, out) := answered srv wposts (mkPlugin () CsiTheorems.wnode [LeaseApi.Delivered]) in
      (mounts (here s), map_to_list (byID (here s)), length out)
  | Err _ => ([], [], 0%nat)
  end = ([mkMountEntry "10.0.0.1:/forebay/team/v1" "/pods/a" "ro,vers=4.1,hard"], [("team/imagenet", 42)]%string, 1%nat).
Proof. vm_compute. reflexivity. Qed.
