(* ===== verification/ControllerMain.v ===== *)
(** * ControllerMain: starting the control plane, and its passes
    (cmd/forebay-controller/main.go)

    What [run] makes of its flags, and the loop: every interval a labelling pass, a
    planning pass and a resolving pass, in that order, each where it was asked for.
    The interval's ticks are counted rather than timed; a signal ends the count. *)

From S2P Require Import Prelude GoStrings Float64 Pool Lease Backend Intent Kube Controller ReconcileTheorems.
From S2P Require Agent LeaseApi S3Driver FileDriver.

Local Open Scope Z_scope.

Record ctl_flags : Type := mkCtlFlags {
  fApiServer : string;
  fToken : string;
  fNamespace : string;
  fInterval : duration;
  fEndpoint : string;
  fBucket : string;
  fRegion : string;
  fKnowsRacks : bool;
  fAgentService : string;
  fAgentNS : string;
  fLeaseTokenFile : string;
  fNodeShare : float64;
  fFloor : string;
}.

(** The environment and files it is started with. *)
Record surroundings : Type := mkSurroundings {
  pod : result KubeErr Config;
  host_parses : string -> bool;
  certificates : list byte -> bool;
  access : string;
  secret : string;
  endpoint_url : string -> option S3Driver.URL;
  lease_token : option string;
}.

Inductive CtlErr : Type :=
  | BadFlags (e : FlagErr)
  | NoStoreCredentials
  | BadStore (e : S3Driver.ConfigErr)
  | BadDriver (e : DrvErr)
  | BadClient (e : KubeErr)
  | BadFloor (e : IntentErr)
  | BadToken (e : TokenErr)
  | BadShare (share : float64).

(** [openClient]: the pod's own credentials, unless a server is named, and then what
    the flags give. *)
Definition openClient (e : surroundings) (apiServer token : string) : result KubeErr Client :=
  let make cfg := New (host_parses e (Host cfg)) (certificates e (CA cfg)) cfg in
  if (apiServer =? "")%string then match pod e with Err x => Err x | Ok cfg => make cfg end
  else make (mkKubeConfig apiServer token [] (30 * Second)).

Section controller.
Context {S : Type} `{ApiServer S} `{StatusTexts}.
Context {W : Type} `{Reports W}.
Context {J : Type} `{Journal J}.
Context {D : Type} `{Driver D} `{Quoting} `{StoreTexts}.

(** [openBackend]; the driver it configures is [make]'s. *)
Definition openBackend (make : S3Driver.Config -> option S3Driver.URL -> result S3Driver.ConfigErr D) (e : surroundings)
    (endpoint bucket region : string) : result CtlErr (Backend D) :=
  if (access e =? "")%string || (secret e =? "")%string then Err NoStoreCredentials
  else match make (S3Driver.mkS3Config bucket region (access e) (secret e) 0) (endpoint_url e endpoint) with
       | Err x => Err (BadStore x)
       | Ok d => match Open d with Err x => Err (BadDriver x) | Ok b => Ok b end
       end.

(** What a pass is made with: the namespace and service the agents answer on, where
    there is one, and the plan, where there is one. *)
Record controller : Type := mkController {
  kclient : Client;
  resource_ : Resource;
  cfleet : Fleet;
  cfloor : Floor;
  residency : option (string * string);
  plan : option (proposer * (string * string));
}.

Definition start (make : S3Driver.Config -> option S3Driver.URL -> result S3Driver.ConfigErr D) (e : surroundings) (f : ctl_flags)
  : result CtlErr (controller * Backend D) :=
  match checkFlags (fEndpoint f) (fBucket f) (fInterval f) with
  | Some x => Err (BadFlags x)
  | None =>
      match openBackend make e (fEndpoint f) (fBucket f) (fRegion f) with
      | Err x => Err x
      | Ok b =>
          match openClient e (fApiServer f) (fToken f) with
          | Err x => Err (BadClient x)
          | Ok c =>
              match Floor_Validate (mkFloor (fFloor f)) with
              | Some x => Err (BadFloor x)
              | None =>
                  match readToken (fLeaseTokenFile f) (lease_token e) with
                  | Err x => Err (BadToken x)
                  | Ok token =>
                      let at_ := (fAgentNS f, fAgentService f) in
                      let planned := negb (token =? "")%string && negb (fAgentService f =? "")%string in
                      if planned && (f64_leb (fNodeShare f) (f64_of_Z 0) || f64_ltb (f64_of_Z 1) (fNodeShare f))
                      then Err (BadShare (fNodeShare f))
                      else Ok (mkController c (with_namespace (fNamespace f) DatasetResource) (mkFleet (fKnowsRacks f)) (mkFloor (fFloor f))
                                 (if (fAgentService f =? "")%string then None else Some at_)
                                 (if planned then Some (mkProposer token (fNodeShare f), at_) else None), b)
                  end
              end
          end
      end
  end.

(** ** The loop *)

(** The cluster, what the agents report and lend, and the store. *)
Record world : Type := mkWorld {
  cluster : S;
  reported : W;
  fleet_ : fleet J;
  store : Backend D;
}.

(** What a pass prints of each of its parts. *)
Record told : Type := mkTold {
  t_labels : option (result KubeErr passed);
  t_plan : option (result KubeErr tallies);
  t_statuses : result KubeErr passed;
}.

Definition labelling (k : controller) (w : world) : world * option (result KubeErr passed) :=
  match residency k with
  | None => (w, None)
  | Some (ns, service) =>
      let '(s, r, p) := run (kclient k) ns service (cluster w, reported w) in
      (mkWorld s r (fleet_ w) (store w), Some p)
  end.
Definition planning (k : controller) (w : world) : world * option (result KubeErr tallies) :=
  match plan k with
  | None => (w, None)
  | Some (p, (ns, service)) =>
      let '(s, fl, n) := planCapacity p (kclient k) (resource_ k) (cfloor k) ns service (cluster w) (fleet_ w) in
      (mkWorld s (reported w) fl (store w), Some n)
  end.
Definition resolving (k : controller) (w : world) : world * result KubeErr passed :=
  let '(s, b, p) := reconcile (kclient k) (resource_ k) (cfleet k) (cfloor k) (cluster w, store w) in
  (mkWorld s (reported w) (fleet_ w) b, p).

Definition pass (k : controller) (w : world) : world * told :=
  let '(w, l) := labelling k w in
  let '(w, p) := planning k w in
  let '(w, r) := resolving k w in
  (w, mkTold l p r).

(** The loop, until it is stopped: a pass, and one at every tick before that. *)
Fixpoint loop (k : controller) (ticks : nat) (w : world) : world * list told :=
  let '(w, t) := pass k w in
  match ticks with
  | O => (w, [t])
  | Datatypes.S ticks => let '(w, ts) := loop k ticks w in (w, t :: ts)
  end.
End controller.

(** ** Parts that keep out of each other's way *)

Section passes.
Context {S : Type} {c : Client} `{AS : ApiSpec S c} `{StatusTexts}.
Context {W : Type} `{Reports W}.
Context {J : Type} `{Journal J}.
Context {D : Type} `{Driver D} `{Quoting} `{StoreTexts}.
Implicit Types w : world (S := S) (W := W) (J := J) (D := D).

Lemma do_get_of u b (s : S) : recorded (do_ GET u b s).1 = recorded s /\ labelled (do_ GET u b s).1 = labelled s.
Proof. apply do_get_frame. Qed.

Lemma ListDatasets_frame r (s : S) : recorded (ListDatasets c r s).1 = recorded s /\ labelled (ListDatasets c r s).1 = labelled s.
Proof. unfold ListDatasets. pose proof (do_get_of (path c r "") NoBody s) as F. by destruct (do_ _ _ _ _). Qed.
Lemma Agents_frame ns service (s : S) : recorded (Agents c ns service s).1 = recorded s /\ labelled (Agents c ns service s).1 = labelled s.
Proof.
  unfold Agents, ListSlices. pose proof (do_get_of (path c (with_namespace ns SliceResource) "") NoBody s) as F.
  by destruct (do_ _ _ _ _) as [s1 [l|]].
Qed.

Lemma one_recorded a (sw : S * W) : recorded (one c a sw).1.1 = recorded sw.1.
Proof.
  destruct sw as [s w]. unfold one. destruct (ask_report (AAddress a) w) as [w1 [rep|]]; [|done].
  destruct (GetNode c (ANode a) s) as [s1 n] eqn:G. apply GetNode_spec in G as (R & _). destruct n as [n|]; [|done].
  case_bool_decide; [done|]. destruct (PatchLabels _ _ _ _ s1) as [s2 e] eqn:P. apply PatchLabels_spec in P as (R2 & _).
  cbn. congruence.
Qed.
Lemma label_all_recorded agents : forall (sw : S * W) p, recorded (label_all c agents sw p).1.1 = recorded sw.1.
Proof.
  induction agents as [|a agents IH]; intros sw p; [done|]. cbn [label_all]. pose proof (one_recorded a sw) as R.
  destruct (one c a sw) as [[s w] r]. by rewrite IH.
Qed.

Lemma labelling_frame k w : kclient k = c -> recorded (cluster (labelling k w).1) = recorded (cluster w) /\
  fleet_ (labelling k w).1 = fleet_ w /\ store (labelling k w).1 = store w.
Proof.
  intros Ec. unfold labelling. destruct (residency k) as [[ns service]|]; [|done]. rewrite Ec. unfold run. cbn [fst snd].
  pose proof (Agents_frame ns service (cluster w)) as [R _]. destruct (Agents _ _ _ _) as [s [agents|]]; [|done]. cbn in R.
  pose proof (label_all_recorded agents (s, reported w) (mkPassed 0 [])) as R2. destruct (label_all _ _ _ _) as [[s2 w2] p].
  cbn in *. split; [congruence|done].
Qed.

Lemma planning_frame k w : kclient k = c -> recorded (cluster (planning k w).1) = recorded (cluster w) /\
  labelled (cluster (planning k w).1) = labelled (cluster w) /\ store (planning k w).1 = store w /\ reported (planning k w).1 = reported w.
Proof.
  intros Ec. unfold planning. destruct (plan k) as [[p [ns service]]|]; [|done]. rewrite Ec. unfold planCapacity.
  pose proof (ListDatasets_frame (resource_ k) (cluster w)) as [R L]. destruct (ListDatasets _ _ _) as [s [items|]]; [|done]. cbn in R, L.
  destruct (wanted (cfloor k) items) as [|d ds]; [done|].
  pose proof (Agents_frame ns service s) as [R2 L2]. destruct (Agents _ _ _ _) as [s2 agents]. cbn in R2, L2.
  destruct (propose _ _ _ _) as [fl n]. cbn. split_and!; [congruence..|done|done].
Qed.

Lemma PatchStatus_labelled r name st (s : S) : labelled (PatchStatus c r name st s).1 = labelled s.
Proof.
  unfold PatchStatus, do_. pose proof (api_patch_status_other (path c r name) (status_fields st) s) as F.
  destruct (api_do _ _ _ s) as [s1 [[code x]|]]; [destruct (_ || _)|]; apply (F (path c r name)).
Qed.
Lemma reconcile_items_labelled r fl floor items : forall (sb : S * Backend D) p,
  labelled (reconcile_items c r fl floor items sb p).1.1 = labelled sb.1.
Proof.
  induction items as [|d items IH]; intros sb p; [done|]. cbn [reconcile_items].
  destruct (status_now fl floor d sb.2) as [b [st|]]; [|by rewrite IH]. destruct (negb _); [by rewrite IH|].
  pose proof (PatchStatus_labelled (item_resource r d) (DName d) st sb.1) as L. destruct (PatchStatus _ _ _ _ _) as [s e].
  by rewrite IH.
Qed.
Lemma resolving_frame k w : kclient k = c -> labelled (cluster (resolving k w).1) = labelled (cluster w) /\
  fleet_ (resolving k w).1 = fleet_ w /\ reported (resolving k w).1 = reported w.
Proof.
  intros Ec. unfold resolving, reconcile. rewrite Ec. cbn [fst snd].
  pose proof (ListDatasets_frame (resource_ k) (cluster w)) as [_ L]. destruct (ListDatasets _ _ _) as [s [items|]]; [|done]. cbn in L.
  pose proof (reconcile_items_labelled (resource_ k) (cfleet k) (cfloor k) items (s, store w) (mkPassed 0 [])) as L2.
  destruct (reconcile_items _ _ _ _ _ _ _) as [[s2 b2] p]. cbn in *. split_and!; [congruence|done|done].
Qed.

(** no part of a pass stops another. Whatever the agents report, lend or refuse, and
    whatever of it fails, a pass resolves datasets against the statuses and the store
    it found, which labelling and planning do not touch; the labels it leaves are
    the labelling's, and the leases the planning's; and every pass says what came of
    each part that was asked for. *)
Theorem parts_keep_apart k w : kclient k = c ->
  let w1 := (labelling k w).1 in let w2 := (planning k w1).1 in let '(w', t) := pass k w in
  (recorded (cluster w2) = recorded (cluster w) /\ store w2 = store w /\ cluster w' = cluster (resolving k w2).1 /\
   t_statuses t = (resolving k w2).2) /\
  (labelled (cluster w') = labelled (cluster w1) /\ t_labels t = (labelling k w).2) /\
  (fleet_ w1 = fleet_ w /\ fleet_ w' = fleet_ w2 /\ t_plan t = (planning k w1).2).
Proof.
  intros Ec. unfold pass. cbv zeta. pose proof (labelling_frame k w Ec) as (R1 & F1 & S1).
  destruct (labelling k w) as [w1 l]. cbn [fst snd] in *. pose proof (planning_frame k w1 Ec) as (R2 & L2 & S2 & _).
  destruct (planning k w1) as [w2 p]. cbn [fst snd] in *. pose proof (resolving_frame k w2 Ec) as (L3 & F3 & _).
  destruct (resolving k w2) as [w3 r]. cbn in *. split_and!; congruence.
Qed.

(** As many passes as ticks, and one. *)
Lemma loop_passes k ticks : forall w, length (loop k ticks w).2 = Datatypes.S ticks.
Proof.
  induction ticks as [|n IH]; intros w; cbn [loop]; destruct (pass k w) as [w1 t]; [done|].
  specialize (IH w1). destruct (loop k n w1). cbn in *. by rewrite IH.
Qed.
End passes.

(** A token given without a server is not used, and a server given without one is
    called with none; the flags' help says each is the pod's own by default. *)
Example token_without_server :
  let e := mkSurroundings (Ok (mkKubeConfig "https://10.0.0.1:443" "pod" [] (30 * Second))) (fun _ => true) (fun _ => true)
             "" "" (fun _ => None) None in
  openClient e "" "mine" = Ok (mkClient "https://10.0.0.1:443" "pod" (30 * Second)) /\
  openClient e "https://api" "" = Ok (mkClient "https://api" "" (30 * Second)).
Proof. vm_compute. split; reflexivity. Qed.
