(* ===== verification/AgentRun.v ===== *)
(** * AgentRun: a node's life, what it says of it, and where it answers
    (cmd/forebay-agent/main.go)

    What [run] does once its flags are read, in the order it does it, from the parts
    in AgentMain.v, Serve.v and Pressure.v; the lines the watch prints; and the mux.
    What the machine answers on the way is an argument, and what the read path counts
    at each pass of the watch is another. *)

From S2P Require Import Prelude GoStrings Float64 Pool Lease LeaseProofs Journal LeaseTheorems Agent AgentTheorems.
From S2P Require Import Pressure Metrics Serve AgentMain AgentMainTheorems AgentWatch.
From S2P Require Readiness FastTier Checkpoint GoPath VolumesApi Topology PoolStorage.

Local Open Scope Z_scope.

(** ** What the watch says *)

(** The floor being kept: a size, or for how long and at least what. *)
Inductive floor_said : Type :=
  | KeepsSize (n : Bytes)
  | KeepsFor (d : duration) (least : Bytes).
Definition describeHeadroom (cfg : WatchConfig) : floor_said :=
  if 0 <? HeadroomFor cfg then KeepsFor (HeadroomFor cfg) (MinHeadroom cfg) else KeepsSize (Headroom cfg).

(** The floor, for how long, and the rate behind it, where it moves. *)
Definition movingTarget (cfg : WatchConfig) (t : Tick) : option (Bytes * duration * Bytes) :=
  if HeadroomFor cfg <=? 0 then None else Some (Target t, HeadroomFor cfg, int64_of_f64 (Rate t)).

(** [dropped] is what the read path counts, if there is one. *)
Definition cacheGivenUp (dropped : option Z) (last : Z) : Z * option Z :=
  match dropped with
  | None => (last, None)
  | Some now => if now =? last then (last, None) else (now, Some (now -! last))
  end.

Inductive line : Type :=
  | ReadableAgain
  | DegradedTo (what : string)
  | PassFailed (e : WatchErr)
  | StillShort (wanted : Pressure) (reclaimed : Bytes) (given_up : option Z) (short : Bytes)
  | TookBack (wanted : Pressure) (reclaimed : Bytes) (given_up : option Z) (moving : option (Bytes * duration * Bytes)).

Record reporting : Type := mkReporting {
  lastDegraded : string;
  lastDropped : Z;
}.

(** What the read path counts at a pass: blocks given up, bytes held, time saved and
    the share of hits that rests on. *)
Definition levels : Type := option (Z * (Z * duration * float64)).

(** [report], within [watchPressure]: what is recorded, and what is printed. *)
Definition report (cfg : WatchConfig) (sv : levels) (t : Tick) (err : option WatchErr) (r : reporting)
  : reporting * list call * list line :=
  let calls := record t ++ recordTier (snd <$> sv) in
  let d := Join "; " (Degraded t) in
  let said := if (d =? lastDegraded r)%string then []
              else [if (d =? "")%string then ReadableAgain else DegradedTo d] in
  let given := cacheGivenUp (fst <$> sv) (lastDropped r) in
  match err with
  | Some e => (mkReporting d (lastDropped r), calls, said ++ [PassFailed e])
  | None =>
      if 0 <? TShortfall t
      then (mkReporting d given.1, calls, said ++ [StillShort (TObserved t) (TReclaimed t) given.2 (TShortfall t)])
      else if 0 <? TReclaimed t
      then (mkReporting d given.1, calls, said ++ [TookBack (TObserved t) (TReclaimed t) given.2 (movingTarget cfg t)])
      else (mkReporting d (lastDropped r), calls, said)
  end.

(** A pass as it is reported: what the read path counts then, and what came of it. *)
Definition reported : Type := levels * (Tick * option WatchErr).
Fixpoint reports (cfg : WatchConfig) (ps : list reported) (r : reporting) : reporting * list call * list line :=
  match ps with
  | [] => (r, [], [])
  | (sv, (t, e)) :: ps =>
      let '(r, c, l) := report cfg sv t e r in
      let '(r, cs, ls) := reports cfg ps r in (r, c ++ cs, l ++ ls)
  end.
Definition silent : reporting := mkReporting "" 0.

(** ** Where it answers *)

Inductive endpoint : Type := MetricsAt | ReadyAt | ResidencyAt | LeasesAt | CapacityAt | VolumesAt | CheckpointsAt.
#[global] Instance endpoint_eq_dec : EqDecision endpoint.
Proof. solve_decision. Defined.

Definition stagingTerm : duration := 6 * Hour.

(** The patterns [serveMetrics] registers. [reads] is whether there is a read path,
    and [backend] whether it has a store to make a checkpoint durable in. *)
Definition patterns (reads backend : bool) (token : string) : list (string * endpoint) :=
  [("/metrics", MetricsAt); ("/ready", ReadyAt)]%string
  ++ (if reads then [("/residency", ResidencyAt)]%string else [])
  ++ (if (token =? "")%string then []
      else [("/leases", LeasesAt); ("/leases/", LeasesAt); ("/capacity", CapacityAt); ("/volumes", VolumesAt); ("/volumes/", VolumesAt)]%string
           ++ (if reads && backend
               then match Checkpoint.New true true stagingTerm with None => [("/checkpoints", CheckpointsAt)]%string | Some _ => [] end
               else [])).

(** [http.ServeMux]: a pattern that ends in a slash takes what is under it; the
    longest that takes a path is its; a path that is not clean is sent elsewhere. *)
Definition takes (pattern path : string) : bool :=
  if GoPath.HasSuffix "/" pattern then String.prefix pattern path else (pattern =? path)%string.
Inductive routed : Type :=
  | To (e : endpoint)
  | Elsewhere (path : string)
  | Nowhere.
Definition longest (ps : list (string * endpoint)) : option endpoint :=
  snd <$> fold_left (fun best p => match best with
                                   | Some b => if Nat.ltb (String.length b.1) (String.length p.1) then Some p else best
                                   | None => Some p
                                   end) ps None.
Definition mux (ps : list (string * endpoint)) (path : string) : routed :=
  if negb (VolumesApi.cleanPath path =? path)%string then Elsewhere (VolumesApi.cleanPath path)
  else match longest (List.filter (fun p => takes p.1 path) ps) with
       | Some e => To e
       | None => Nowhere
       end.

(** ** A node's life *)

Record run_flags : Type := mkRunFlags {
  flags : Flags;
  fVersion : bool;
  fLiveness : bool;
  fStaleAfter : duration;
  fDrain : bool;
  fReadySlow : duration;
  fReadyWell : duration;
  fReadyWindow : duration;
  fServeSocket : string;
  fBackend : backendOptions;
  fTierBytes : Z;
  fTier : FastTier.Config;
  fWatch : bool;
  fWatchConfig : WatchConfig;
  fMetricsAddr : string;
  fLeaseTokenFile : string;
}.

(** What the machine answers: the heartbeat there is, what opening the agent meets,
    the store's credentials, what serving meets, the token's file, and whether the
    address of the metrics can be listened on. *)
Record answers (J : Type) : Type := mkAnswers {
  mach : machine;
  heartbeat : option (option time);
  disk : J;
  opened_at : time;
  beat_file : string;
  lock_free : bool;
  zeros : bool;
  drained_in : duration;
  access : string;
  secret : string;
  tier_opens : bool;
  server_made : bool;
  socket_bound : bool;
  token_file : option string;
  metrics_bound : bool;
}.
Arguments mach {J}.
Arguments heartbeat {J}.
Arguments disk {J}.
Arguments opened_at {J}.
Arguments beat_file {J}.
Arguments lock_free {J}.
Arguments zeros {J}.
Arguments drained_in {J}.
Arguments access {J}.
Arguments secret {J}.
Arguments tier_opens {J}.
Arguments server_made {J}.
Arguments socket_bound {J}.
Arguments token_file {J}.
Arguments metrics_bound {J}.

Section run.
Context {J : Type} `{Journal J} `{UrlParser}.

(** How it ends, or what it does until it is told to stop. *)
Inductive life : Type :=
  | SaysVersion
  | NoHeartbeatDir
  | MakingProgress
  | CannotJudge
  | NotAlive (e : LiveErr)
  | NotStarted (e : StartErr)
  | NotOpened (e : AgentErr)
  | Drained (e : option DrainErr)
  | BadMetrics (e : MetricErr)
  | BadReadiness
  | NotServing (e : ServeErr)
  | NothingToDo
  | ServesReads (s : serving J)
  | BadLeaseToken (why : string)
  | MetricsNotBound
  | BadWatch (e : WatchErr)
  | Watches (s : option (serving J)) (answered : list (string * endpoint)).

Definition judged (e : option LiveErr) : life :=
  match e with
  | Some ErrUnreadable => CannotJudge
  | Some e => NotAlive e
  | None => MakingProgress
  end.

(** What follows once the agent is open, and is not to be drained. *)
Definition live (f : run_flags) (w : answers J) (a : Agent J) : Agent J * life :=
  match (Metrics.Node Metrics.New).2 with
  | Some e => (a, BadMetrics e)
  | None =>
      match Readiness.NewReadiness (fReadySlow f) (fReadyWell f) (fReadyWindow f) with
      | None => (a, BadReadiness)
      | Some _ =>
          let '(a, reads) :=
            if (fServeSocket f =? "")%string then (a, Ok None)
            else let '(a, s) := serveReads (openBackend (fBackend f) (access w) (secret w)) (fTierBytes f) (fTier f) (opened_at w)
                                  (tier_opens w) (server_made w) (socket_bound w) a in
                 (a, match s with Ok s => Ok (Some s) | Err e => Err e end) in
          match reads with
          | Err e => (a, NotServing e)
          | Ok s =>
              if negb (fWatch f)
              then (a, match s with Some s => ServesReads s | None => NothingToDo end)
              else match leaseToken (fLeaseTokenFile f) (token_file w) with
                   | Err why => (a, BadLeaseToken why)
                   | Ok token =>
                       if negb (fMetricsAddr f =? "")%string && negb (metrics_bound w) then (a, MetricsNotBound)
                       else match WatchConfig_Validate (fWatchConfig f) with
                            | Some e => (a, BadWatch e)
                            | None => (a, Watches s (if (fMetricsAddr f =? "")%string then []
                                                     else patterns (match s with Some _ => true | None => false end) true token))
                            end
                   end
          end
      end
  end.

Definition run (f : run_flags) (w : answers J) (a : Agent J) : Agent J * life :=
  if fVersion f then (a, SaysVersion)
  else if fLiveness f
  then (a, if (borrowed (flags f) =? "")%string then NoHeartbeatDir
           else judged (CheckLiveness (heartbeat w) (fStaleAfter f) (opened_at w)))
  else match startup (mach w) (flags f) with
       | Err e => (a, NotStarted e)
       | Ok acct =>
           let '(a, (_, e)) := Agent.Open acct (disk w) (opened_at w) (beat_file w) (lock_free w) (zeros w) a in
           match e with
           | Some e => (a, NotOpened e)
           | None =>
               if fDrain f then let '(a, e) := drainNode (opened_at w) (drained_in w) a in (a, Drained e)
               else live f w a
           end
       end.
End run.

(** * Whatever a node is started as *)

(** ** What it lends *)

Section life.
Context {J : Type} `{JournalSpec J} `{UrlParser}.
Implicit Types a : Agent J.

(** Serving releases the tier of a run before, and grants its own. *)
Lemma serveReads_asteps backend tb cfg now opens server listens a : is_int64 tb ->
  rtc astep a (serveReads backend tb cfg now opens server listens a).1.
Proof.
  intros I. unfold serveReads. destruct (tb <=? 0); [done|]. destruct backend; [|done]. destruct (FastTier.New cfg); [|done].
  pose proof (astep_Release selfLease a) as R. destruct (Agent.Release selfLease a) as [a1 [n e]]. cbn [fst] in R. cbv zeta.
  assert (rtc astep a a1) as R1 by by apply rtc_once.
  set (g := let '(a2, e2) := Grant _ _ _ in _).
  assert (rtc astep a1 g.1) as G.
  { subst g. pose proof (astep_Grant (self tb now) now a1 I ltac:(cbn; unfold is_int64, MinInt64, MaxInt64; vm_compute; split; discriminate)) as G.
    destruct (Grant (self tb now) now a1) as [a2 e2]. cbn [fst] in G. apply rtc_once in G. destruct e2; [exact G|].
    destruct (ExtentPath selfLease); [|exact G]. destruct (FastTier.AddCapacity _ _ _) as [t [e3|]]; [exact G|].
    destruct (negb server); [exact G|]. destruct (negb listens); exact G. }
  destruct e as [[]|]; try exact R1; try (by etrans).
  destruct e; try exact R1; by etrans.
Qed.

(** A life in which the agent was opened. *)
Definition opened (l : life (J := J)) : Prop :=
  match l with
  | SaysVersion | NoHeartbeatDir | MakingProgress | CannotJudge | NotAlive _ | NotStarted _ | NotOpened _ => False
  | _ => True
  end.
Definition untouched (l : life (J := J)) : Prop :=
  match l with
  | SaysVersion | NoHeartbeatDir | MakingProgress | CannotJudge | NotAlive _ | NotStarted _ => True
  | _ => False
  end.

Lemma live_asteps f w a : is_int64 (fTierBytes f) -> rtc astep a (live f w a).1 /\ opened (live f w a).2.
Proof.
  intros I. unfold live. destruct (Metrics.Node Metrics.New).2; [done|]. destruct (Readiness.NewReadiness _ _ _); [|done].
  pose proof (serveReads_asteps (openBackend (fBackend f) (access w) (secret w)) (fTierBytes f) (fTier f) (opened_at w)
    (tier_opens w) (server_made w) (socket_bound w) a I) as S.
  set (rd := if (fServeSocket f =? "")%string then _ else _).
  assert (rtc astep a rd.1) as R by (subst rd; destruct (fServeSocket f =? "")%string; [done|]; by destruct (serveReads _ _ _ _ _ _ _ _)).
  destruct rd as [a1 [s|e]]; cbn [fst] in R; [|done]. destruct (negb (fWatch f)); [by destruct s|].
  destruct (leaseToken _ _); [|done]. destruct (_ && _); [done|]. by destruct (WatchConfig_Validate _).
Qed.

(** A life that opened the agent is the agent's own steps from there. *)
Lemma run_opens f w a a1 l : is_int64 (capacity (flags f)) -> is_int64 (reserved (flags f)) -> is_int64 (fTierBytes f) ->
  config a = cfg_of (mach w) (flags f) -> run f w a = (a1, l) ->
  (untouched l -> a1 = a) /\
  (opened l -> exists acct a0 o, startup (mach w) (flags f) = Ok acct /\
     Open acct (disk w) (opened_at w) (beat_file w) (lock_free w) (zeros w) a = (a0, (o, None)) /\ rtc astep a0 a1).
Proof.
  intros Ic Ir It Cf. unfold run. destruct (fVersion f); [by intros [= <- <-]|]. destruct (fLiveness f).
  { intros [= <- <-]. split; [done|]. destruct (borrowed (flags f) =? "")%string; [done|].
    by destruct (CheckLiveness _ _ _) as [[]|]. }
  destruct (startup (mach w) (flags f)) as [acct|] eqn:St; [|by intros [= <- <-]].
  destruct (Open acct _ _ _ _ _ a) as [a0 [o [e|]]] eqn:Op; [by intros [= <- <-]|]. destruct (fDrain f).
  - unfold drainNode. destruct (Z.eqb_spec (Borrowed (Lease.acct (manager a0))) 0).
    + intros [= <- <-]. split; [done|]. intros _. by exists acct, a0, o.
    + assert (is_int64 (Borrowed (Lease.acct (manager a0)))) as Ib.
      { apply Open_msteps in Op as Ms. destruct (startup_Ok _ _ _ Ic Ir St) as (A & _).
        destruct (reachable_minv _ _ (WithJournal_minv (disk w) _ (New_minv acct (CLease (config a)) A)) Ms) as ((b & I & _) & _ & _).
        apply Borrowed_int64 in I. unfold is_int64, MinInt64, MaxInt64 in *. lia. }
      pose proof (astep_Reclaim (Borrowed (Lease.acct (manager a0))) (opened_at w) (drained_in w) a0 Ib) as R.
      destruct (ReclaimCapacity _ _ _ a0) as [a2 [rec e]]. intros [= <- <-]. split; [done|]. intros _. exists acct, a0, o.
      split_and!; [done..|]. by apply rtc_once.
  - intros L. pose proof (live_asteps f w a0 It) as [R O]. rewrite L in R, O. cbn [fst snd] in R, O. clear L. split; [destruct l; cbn in *; tauto|].
    intros _. exists acct, a0, o. split; [reflexivity|]. split; [exact Op|exact R].
Qed.

End life.


(** ** What it says of its passes *)

(** What a list of texts changes to, from one before. *)
Fixpoint changes (before : string) (ds : list string) : list string :=
  match ds with
  | [] => []
  | d :: ds => (if (d =? before)%string then [] else [d]) ++ changes d ds
  end.
Definition said_of (l : line) : option string :=
  match l with ReadableAgain => Some ""%string | DegradedTo d => Some d | _ => None end.
Definition given_of (l : line) : option Z :=
  match l with StillShort _ _ g _ | TookBack _ _ g _ => g | _ => None end.
Definition degraded_text (p : reported) : string := Join "; " (Degraded p.2.1).
(** A count of blocks given up that a run can reach. *)
Definition countable (p : reported) : Prop := match p.1 with Some (n, _) => 0 <= n <= MaxInt64 | None => True end.

Lemma said_snoc ls (l : line) : omap said_of (ls ++ [l]) = omap said_of ls ++ option_list (said_of l).
Proof. rewrite omap_app; cbn; by destruct (said_of l). Qed.
Lemma given_snoc ls (l : line) : Zsum (omap given_of (ls ++ [l])) = Zsum (omap given_of ls) + default 0 (given_of l).
Proof. rewrite omap_app, Zsum_app. cbn. destruct (given_of l); unfold Zsum at 2; cbn; lia. Qed.
Lemma failed_snoc ls l : (forall x, PassFailed x ∉ ls) -> (forall x, l <> PassFailed x) -> forall x, PassFailed x ∉ ls ++ [l].
Proof. intros N Nl x [X|X%list_elem_of_singleton]%elem_of_app; [by apply N in X|by apply (Nl x)]. Qed.

(** The blocks said to be given up are what was counted since they were last said. *)
Lemma cacheGivenUp_spec dropped last : match dropped with Some n => 0 <= n <= MaxInt64 | None => True end -> 0 <= last <= MaxInt64 ->
  default 0 (cacheGivenUp dropped last).2 = (cacheGivenUp dropped last).1 - last /\ 0 <= (cacheGivenUp dropped last).1 <= MaxInt64.
Proof.
  unfold cacheGivenUp. intros C L. destruct dropped as [n|]; cbn; [|lia]. destruct (Z.eqb_spec n last) as [->|]; cbn; [lia|].
  rewrite wrap64_id by (unfold is_int64, MinInt64, MaxInt64 in *; lia). lia.
Qed.

Lemma report_spec cfg sv t e r : countable (sv, (t, e)) -> 0 <= lastDropped r <= MaxInt64 ->
  let '(r', c, ls) := report cfg sv t e r in
  lastDegraded r' = degraded_text (sv, (t, e)) /\
  omap said_of ls = (if (degraded_text (sv, (t, e)) =? lastDegraded r)%string then [] else [degraded_text (sv, (t, e))]) /\
  Zsum (omap given_of ls) = lastDropped r' - lastDropped r /\ 0 <= lastDropped r' <= MaxInt64 /\
  c = record t ++ recordTier (snd <$> sv) /\
  (forall x, e = Some x <-> PassFailed x ∈ ls).
Proof.
  unfold countable, report, degraded_text. cbn [fst snd]. intros C L. set (d := Join "; " (Degraded t)).
  set (said := if (d =? lastDegraded r)%string then [] else _).
  assert (omap said_of said = (if (d =? lastDegraded r)%string then [] else [d]) /\ Zsum (omap given_of said) = 0 /\
    forall x, PassFailed x ∉ said) as (S1 & S2 & S3).
  { subst said. destruct (d =? lastDegraded r)%string; [split_and!; try done; intros x X; by inversion X|].
    destruct (String.eqb_spec d "") as [E|]; [rewrite E|]; (split_and!; [done..|intros x X%list_elem_of_singleton; done]). }
  destruct (cacheGivenUp_spec (fst <$> sv) (lastDropped r)) as [G1 G2]; [by destruct sv as [[]|]|done|].
  destruct e as [e|]; [|destruct (0 <? TShortfall t); [|destruct (0 <? TReclaimed t)]];
    rewrite ?said_snoc, ?given_snoc, S1, S2, ?app_nil_r; cbn [said_of given_of option_list lastDegraded lastDropped default];
    rewrite ?app_nil_r; (split_and!; [done|done|lia|lia|lia|done|intros x; split; [try done|]]).
  - intros [= ->]. apply elem_of_app. right. by left.
  - intros [X|X%list_elem_of_singleton]%elem_of_app; [by apply S3 in X|congruence].
  - intros X. exfalso. revert X. by apply failed_snoc.
  - intros X. exfalso. revert X. by apply failed_snoc.
  - intros X. by apply S3 in X.
Qed.

(** What a node says of its passes is what they were. Over every watch, whatever the
    inputs and the reclaims came to: each pass is counted, with its floor; an input
    that cannot be read is said once, when that begins or changes, and so is its
    end; each failed pass is said; and the blocks said to be given up add up to what
    the read path had counted when they were last said. *)
Theorem watch_said cfg ps : Forall countable ps ->
  let '(r, calls, ls) := reports cfg ps silent in
  calls = mjoin ((fun p : reported => record p.2.1 ++ recordTier (snd <$> p.1)) <$> ps) /\
  omap said_of ls = changes "" (degraded_text <$> ps) /\
  Zsum (omap given_of ls) = lastDropped r /\
  (forall x, PassFailed x ∈ ls <-> Exists (fun p => p.2.2 = Some x) ps).
Proof.
  intros C. cut (forall r, 0 <= lastDropped r <= MaxInt64 -> let '(r', calls, ls) := reports cfg ps r in
    calls = mjoin ((fun p : reported => record p.2.1 ++ recordTier (snd <$> p.1)) <$> ps) /\
    omap said_of ls = changes (lastDegraded r) (degraded_text <$> ps) /\
    Zsum (omap given_of ls) = lastDropped r' - lastDropped r /\
    (forall x, PassFailed x ∈ ls <-> Exists (fun p => p.2.2 = Some x) ps)).
  { intros G. specialize (G silent ltac:(cbn; unfold MaxInt64; lia)). destruct (reports cfg ps silent) as [[r calls] ls].
    cbn in G. destruct G as (G1 & G2 & G3 & G4). split_and!; [done|done|lia|done]. }
  induction C as [|[sv [t e]] ps Cp C IH]; intros r L; cbn [reports].
  - split_and!; [done|done|unfold Zsum; cbn; lia|]. intros x. rewrite Exists_nil. set_solver.
  - pose proof (report_spec cfg sv t e r Cp L) as S. destruct (report cfg sv t e r) as [[r1 c] l].
    destruct S as (S1 & S2 & S3 & S4 & S5 & S6). specialize (IH r1 S4). destruct (reports cfg ps r1) as [[r2 cs] ls].
    destruct IH as (I1 & I2 & I3 & I4). rewrite !fmap_cons. cbn [changes]. split_and!.
    + rewrite S5, I1. reflexivity.
    + rewrite omap_app, S2, I2, S1. reflexivity.
    + rewrite omap_app, Zsum_app. lia.
    + intros x. rewrite elem_of_app, Exists_cons, <- S6, I4. cbn. tauto.
Qed.

(** ** Where it answers *)

Lemma longest_in ps : forall e, longest ps = Some e -> exists p, (p, e) ∈ ps.
Proof.
  unfold longest. assert (forall ps b q, fold_left (fun best p => match best with
      | Some b => if Nat.ltb (String.length b.1) (String.length p.1) then Some p else best | None => Some p end) ps b = Some q ->
    b = Some q \/ q ∈ (ps : list (string * endpoint))) as G.
  { clear. induction ps as [|p ps IH]; intros b q; cbn [fold_left]; [by left|]. intros [E|I]%IH; [|right; by right].
    destruct b as [b|]; [destruct (Nat.ltb _ _)|]; [| |]; try (injection E as ->; right; by left). by left. }
  intros e. destruct (fold_left _ ps None) as [[p e']|] eqn:E; [|done]. cbn. intros [= ->]. exists p. by destruct (G _ _ _ E).
Qed.

Lemma longest_some p ps : p ∈ ps -> is_Some (longest ps).
Proof.
  unfold longest. intros I. rewrite fmap_is_Some. revert I. assert (forall ps b, is_Some b \/ p ∈ ps -> is_Some (fold_left
    (fun best p => match best with Some b => if Nat.ltb (String.length b.1) (String.length p.1) then Some p else best | None => Some p end)
    (ps : list (string * endpoint)) b)) as G; [|intros I; apply G; by right].
  clear. induction ps as [|q ps IH]; intros b; cbn [fold_left]; [intros [?|X]; [done|by inversion X]|].
  intros D. apply IH. destruct b as [b|]; [left; by destruct (Nat.ltb _ _)|]. left. eauto.
Qed.

(** A path goes to a pattern that takes it, or to none where none does. *)
Lemma mux_spec ps path : VolumesApi.cleanPath path = path ->
  match mux ps path with
  | To e => exists p, (p, e) ∈ ps /\ takes p path = true
  | Nowhere => forall p, p ∈ ps -> takes p.1 path = false
  | Elsewhere _ => False
  end.
Proof.
  intros C. unfold mux. rewrite C, String.eqb_refl. cbn [negb]. destruct (longest _) as [e|] eqn:L.
  - apply longest_in in L as (p & [I T]%list_elem_of_In%filter_In). apply list_elem_of_In in I. eauto.
  - intros p I. destruct (takes p.1 path) eqn:T; [|done].
    assert (is_Some (longest (List.filter (fun p => takes p.1 path) ps))) as [? X]; [|congruence].
    apply (longest_some p). apply list_elem_of_In, filter_In. by rewrite <- list_elem_of_In.
Qed.

Definition asks_token (e : endpoint) : bool := match e with LeasesAt | CapacityAt | VolumesAt | CheckpointsAt => true | _ => false end.

(** Without a token nothing that moves capacity is reachable, at any path; with one it
    is at its own, and so is what reports. *)
Theorem routes_guarded reads backend token path e : mux (patterns reads backend token) path = To e ->
  (asks_token e = true -> token <> ""%string) /\ (e = ResidencyAt -> reads = true) /\ (e = CheckpointsAt -> reads = true /\ backend = true).
Proof.
  unfold mux. destruct (negb _); [done|]. destruct (longest _) as [e'|] eqn:L; [|done]. intros [= ->].
  apply longest_in in L as (p & [I _]%list_elem_of_In%filter_In). unfold patterns in I.
  destruct (String.eqb_spec token "") as [->|N], reads, backend; cbn in I;
    repeat destruct I as [[= <- <-]|I]; try done; split_and!; done.
Qed.

Example routes : let ps := patterns true true "t" in
  (mux ps "/leases", mux ps "/leases/a", mux ps "/checkpoints", mux ps "/volumes/", mux ps "/leases//a", mux ps "/leasesx") =
  (To LeasesAt, To LeasesAt, To CheckpointsAt, To VolumesAt, Elsewhere "/leases/a", Nowhere)%string.
Proof. vm_compute. reflexivity. Qed.

(** ** A node that watches, for the witness *)

#[local] Instance wparser : UrlParser := fun _ => None.
Definition wrun : run_flags :=
  mkRunFlags wflags false false 0 false (2 * Second) (500 * Millisecond) (30 * Second) "" (mkBackendOptions "" "" "" "") 0
    (FastTier.mkTierConfig 4 8) true (mkWatchConfig 1000 0 0 Second) ":9090" "/token".
Definition wanswers : answers FileJournal :=
  mkAnswers _ wmachine None wit_disk 0 ".forebay-1" true true 0 "" "" true true true (Some "t"%string) true.

